(** * Parquet page encoder of cudf (cpp/src/io/parquet/page_enc.cu)

    A shallow embedding of the page-encoding pipeline: the page planner
    ([gpuInitPages]), the hybrid RLE encoder ([RleEncode], [PackLiterals]),
    the INT96 value conversion, the statistics serialiser, the chunk
    assembler ([gpuDecideCompression], [gpuGatherPages]) and the dremel
    level builder ([get_dremel_data]).

    Every kernel is modelled from the point of view of the lanes that write
    (mostly lane 0); the cooperative parts (ballots, shuffles) are modelled
    lane by lane. *)

From Stdlib Require Import ZArith List Bool Lia Arith.
From coqutil Require Import Byte Word.LittleEndianList Z.bitblast.
Import ListNotations.

Local Open Scope Z_scope.

(** ** Machine integers *)

(** Truncation to an unsigned 32-bit value (arithmetic on [uint32_t]). *)
Definition u32 (x : Z) : Z := x mod 2 ^ 32.


(** ** Page planner: [gpuInitPages] *)

Module Planner.

(** [PageType] of the Parquet format. *)
Inductive PageType := DATA_PAGE | INDEX_PAGE | DICTIONARY_PAGE.

(** [PageFragment]: the fields read by the planner. *)
Record PageFragment := {
  fragment_data_size : Z;
  num_values : Z;
  num_leaf_values : Z;
  num_rows : Z;
  num_dict_vals : Z
}.

(** [EncPage]: the fields written by the planner.  Pointers into the chunk
    buffers are kept as byte offsets from the start of the buffer. *)
Record EncPage := {
  page_data : Z;
  compressed_data : Z;
  num_fragments : Z;
  page_type : PageType;
  chunk_id : Z;
  hdr_size : Z;
  max_hdr_size : Z;
  max_data_size : Z;
  start_row : Z;
  pg_num_rows : Z;
  pg_num_leaf_values : Z;
  pg_num_values : Z
}.

(** [EncColumnChunk]: the input fields of a chunk.  [stats] is the optional
    array of per-fragment statistics; only the lengths of the string
    minimum and maximum matter here. *)
Record EncColumnChunk := {
  ck_stat_size : Z;
  ck_start_row : Z;
  use_dictionary : bool;
  uniq_data_size : Z;
  num_dict_entries : Z;
  ck_num_rows : Z;
  ck_num_values : Z;
  fragments : list PageFragment;
  stats : option (list (Z * Z));
  dict_rle_bits : Z
}.

(** Column description: what [parquet_column_device_view] contributes. *)
Record column_desc := {
  stats_is_string : bool;      (* stats_dtype == dtype_string *)
  stats_ge_int64 : bool;       (* stats_dtype >= dtype_int64 *)
  def_level_bits : Z;          (* num_def_level_bits() *)
  rep_level_bits : Z           (* num_rep_level_bits() *)
}.

(** Kernel parameters. *)
Record params := {
  max_page_comp_data_size : Z;
  max_page_size_bytes : Z;
  max_page_size_rows : Z;
  block_chunk_id : Z           (* blockIdx.y * num_columns + blockIdx.x *)
}.

(** The local variables of the packing loop (lane 0), with the shared
    fragment [frag_g] and the pages written so far. *)
Record loop_state := {
  fragments_in_chunk : Z;
  rows_in_page : Z;
  values_in_page : Z;
  leaf_values_in_page : Z;
  page_size : Z;
  num_pages : Z;
  st_num_rows : Z;
  page_start : Z;
  page_offset : Z;
  st_num_dict_entries : Z;
  comp_page_offset : Z;
  page_headers_size : Z;
  max_page_data_size : Z;
  cur_row : Z;
  ck_max_stats_len : Z;
  max_stats_len : Z;
  frag_g : PageFragment;
  pages : list EncPage
}.

(** Result fields stored back into the chunk. *)
Record chunk_layout := {
  out_num_pages : Z;
  out_bfr_size : Z;
  out_page_headers_size : Z;
  out_max_page_data_size : Z;
  out_ck_stat_size : Z;
  out_pages : list EncPage
}.

Section Kernel.

Variable col_g : column_desc.
Variable ck_g : EncColumnChunk.
Variable P : params.

(** The adaptive page-size ceiling (the conditional of source lines
    339-344). *)
Definition this_max_page_size (values_in_page_ : Z) : Z :=
  Z.min
    (if u32 (values_in_page_ * 2) >=? ck_num_values ck_g then 256 * 1024
     else if u32 (values_in_page_ * 3) >=? ck_num_values ck_g then 384 * 1024
     else 512 * 1024)
    (max_page_size_bytes P).

(** Worst-case size reserved for one RLE level stream. *)
Definition level_size (bits nvals : Z) : Z :=
  if bits =? 0 then 0
  else u32 (4 + 5 + Z.shiftr (u32 (bits * nvals + 7)) 3 + Z.shiftr nvals 8).

Definition init_state : loop_state := {|
  fragments_in_chunk := 0; rows_in_page := 0; values_in_page := 0;
  leaf_values_in_page := 0; page_size := 0; num_pages := 0;
  st_num_rows := 0; page_start := 0;
  page_offset := ck_stat_size ck_g;
  st_num_dict_entries := 0;
  comp_page_offset := ck_stat_size ck_g;
  page_headers_size := 0; max_page_data_size := 0;
  cur_row := ck_start_row ck_g;
  ck_max_stats_len := 0; max_stats_len := 0;
  frag_g := {| fragment_data_size := 0; num_values := 0;
               num_leaf_values := 0; num_rows := 0; num_dict_vals := 0 |};
  pages := []
|}.

(** The dictionary page block (source lines 286-312). *)
Definition dict_page (s : loop_state) : loop_state :=
  if use_dictionary ck_g then
    let pg := {|
      page_data := page_offset s;
      compressed_data := comp_page_offset s;
      num_fragments := 0;
      page_type := DICTIONARY_PAGE;
      chunk_id := block_chunk_id P;
      hdr_size := 0;
      max_hdr_size := 32;
      max_data_size := uniq_data_size ck_g;
      start_row := cur_row s;
      pg_num_rows := num_dict_entries ck_g;
      pg_num_leaf_values := num_dict_entries ck_g;
      pg_num_values := num_dict_entries ck_g |} in
    {| fragments_in_chunk := fragments_in_chunk s;
       rows_in_page := rows_in_page s;
       values_in_page := values_in_page s;
       leaf_values_in_page := leaf_values_in_page s;
       page_size := page_size s;
       num_pages := 1;
       st_num_rows := st_num_rows s;
       page_start := page_start s;
       page_offset := u32 (page_offset s + (32 + uniq_data_size ck_g));
       st_num_dict_entries := st_num_dict_entries s;
       comp_page_offset :=
         u32 (comp_page_offset s + (32 + max_page_comp_data_size P));
       page_headers_size := u32 (page_headers_size s + 32);
       max_page_data_size :=
         Z.max (max_page_data_size s) (uniq_data_size ck_g);
       cur_row := cur_row s;
       ck_max_stats_len := ck_max_stats_len s;
       max_stats_len := max_stats_len s;
       frag_g := frag_g s;
       pages := pages s ++ [pg] |}
  else s.

(** The size of a fragment as the packing loop counts it. *)
Definition frag_size (f : PageFragment) : Z :=
  if use_dictionary ck_g then u32 (num_leaf_values f * 2)
  else fragment_data_size f.

(** The test that closes the current page (source lines 346-348). *)
Definition must_flush (s : loop_state) : bool :=
  (st_num_rows s >=? ck_num_rows ck_g)
  || ((values_in_page s >? 0)
      && (u32 (page_size s + frag_size (frag_g s))
          >? this_max_page_size (values_in_page s)))
  || (rows_in_page s >? max_page_size_rows P).

(** Bytes reserved for the header of a data page. *)
Definition data_max_hdr_size (max_stats_len_ : Z) : Z :=
  match stats ck_g with
  | None => 32
  | Some _ =>
      32 + (16 + (if stats_is_string col_g then 5 * 3 + 2 * max_stats_len_
                  else (if stats_ge_int64 col_g then 10 else 5) * 3))
  end.

(** Closing a page (source lines 349-412). *)
Definition flush (s : loop_state) : loop_state :=
  let page_size1 :=
    if use_dictionary ck_g then
      u32 (1 + 5
           + Z.shiftr (u32 (values_in_page s * dict_rle_bits ck_g + 7)) 3
           + Z.shiftr (values_in_page s) 8)
    else page_size s in
  let hdr := u32 (data_max_hdr_size (max_stats_len s)) in
  let data :=
    u32 (page_size1 + level_size (def_level_bits col_g) (values_in_page s)
         + level_size (rep_level_bits col_g) (values_in_page s)) in
  let pg := {|
    page_data := page_offset s;
    compressed_data := comp_page_offset s;
    num_fragments := u32 (fragments_in_chunk s - page_start s);
    page_type := DATA_PAGE;
    chunk_id := block_chunk_id P;
    hdr_size := 0;
    max_hdr_size := hdr;
    max_data_size := data;
    start_row := cur_row s;
    pg_num_rows := rows_in_page s;
    pg_num_leaf_values := leaf_values_in_page s;
    pg_num_values := values_in_page s |} in
  {| fragments_in_chunk := fragments_in_chunk s;
     rows_in_page := 0;
     values_in_page := 0;
     leaf_values_in_page := 0;
     page_size := 0;
     num_pages := u32 (num_pages s + 1);
     st_num_rows := st_num_rows s;
     page_start := fragments_in_chunk s;
     page_offset := u32 (page_offset s + (hdr + data));
     st_num_dict_entries := st_num_dict_entries s;
     comp_page_offset :=
       u32 (comp_page_offset s + (hdr + max_page_comp_data_size P));
     page_headers_size := u32 (page_headers_size s + hdr);
     max_page_data_size := Z.max (max_page_data_size s) data;
     cur_row := u32 (cur_row s + rows_in_page s);
     ck_max_stats_len := Z.max (ck_max_stats_len s) (max_stats_len s);
     max_stats_len := 0;
     frag_g := frag_g s;
     pages := pages s ++ [pg] |}.

(** Adding the current fragment to the current page (source lines
    413-420). *)
Definition accumulate (minmax_len : Z) (s : loop_state) : loop_state :=
  let f := frag_g s in
  {| fragments_in_chunk := u32 (fragments_in_chunk s + 1);
     rows_in_page := u32 (rows_in_page s + num_rows f);
     values_in_page := u32 (values_in_page s + num_values f);
     leaf_values_in_page := u32 (leaf_values_in_page s + num_leaf_values f);
     page_size := u32 (page_size s + frag_size f);
     num_pages := num_pages s;
     st_num_rows := u32 (st_num_rows s + num_rows f);
     page_start := page_start s;
     page_offset := page_offset s;
     st_num_dict_entries := u32 (st_num_dict_entries s + num_dict_vals f);
     comp_page_offset := comp_page_offset s;
     page_headers_size := page_headers_size s;
     max_page_data_size := max_page_data_size s;
     cur_row := cur_row s;
     ck_max_stats_len := ck_max_stats_len s;
     max_stats_len := Z.max (max_stats_len s) minmax_len;
     frag_g := f;
     pages := pages s |}.

Definition set_frag (f : PageFragment) (s : loop_state) : loop_state :=
  {| fragments_in_chunk := fragments_in_chunk s;
     rows_in_page := rows_in_page s;
     values_in_page := values_in_page s;
     leaf_values_in_page := leaf_values_in_page s;
     page_size := page_size s;
     num_pages := num_pages s;
     st_num_rows := st_num_rows s;
     page_start := page_start s;
     page_offset := page_offset s;
     st_num_dict_entries := st_num_dict_entries s;
     comp_page_offset := comp_page_offset s;
     page_headers_size := page_headers_size s;
     max_page_data_size := max_page_data_size s;
     cur_row := cur_row s;
     ck_max_stats_len := ck_max_stats_len s;
     max_stats_len := max_stats_len s;
     frag_g := f;
     pages := pages s |}.

(** Length used for the string statistics of fragment [i] (source lines
    325-328); [None] when the statistics array is too short. *)
Definition minmax_len_at (i : Z) : option Z :=
  match stats ck_g with
  | Some st =>
      if stats_is_string col_g then
        match nth_error st (Z.to_nat i) with
        | Some (lmin, lmax) => Some (Z.max lmin lmax)
        | None => None
        end
      else Some 0
  | None => Some 0
  end.

(** One iteration of the do-while loop after the fragment was loaded. *)
Definition body (minmax_len : Z) (s : loop_state) : loop_state :=
  accumulate minmax_len (if must_flush s then flush s else s).

(** The do-while loop (source lines 320-421).  The fragments still to be
    read are the tail [rest] of [ck_g.fragments]; reading past the end of the
    array has no defined result ([None]). *)
Fixpoint pack_loop (rest : list PageFragment) (s : loop_state)
  : option loop_state :=
  if st_num_rows s <? ck_num_rows ck_g then
    match rest with
    | [] => None
    | f :: rest' =>
        match minmax_len_at (fragments_in_chunk s) with
        | None => None
        | Some mm =>
            let s' := body mm (set_frag f s) in
            if num_rows f =? 0 then Some s' else pack_loop rest' s'
        end
    end
  else
    let f0 := {| fragment_data_size := 0;
                 num_values := num_values (frag_g s);
                 num_leaf_values := num_leaf_values (frag_g s);
                 num_rows := 0;
                 num_dict_vals := num_dict_vals (frag_g s) |} in
    Some (body 0 (set_frag f0 s)).

(** The whole kernel for one chunk. *)
Definition gpuInitPages : option chunk_layout :=
  match pack_loop (fragments ck_g) (dict_page init_state) with
  | None => None
  | Some s =>
      let add_stat :=
        (ck_stat_size ck_g =? 0)
        && match stats ck_g with Some _ => true | None => false end in
      let ck_stat_size' := u32 (48 + 2 * ck_max_stats_len s) in
      Some {|
        out_num_pages := num_pages s;
        out_bfr_size :=
          if add_stat then u32 (page_offset s + ck_stat_size')
          else page_offset s;
        out_page_headers_size := page_headers_size s;
        out_max_page_data_size := max_page_data_size s;
        out_ck_stat_size :=
          if add_stat then ck_stat_size' else ck_stat_size ck_g;
        out_pages := pages s |}
  end.

(** The data pages of a page sequence. *)
Definition is_data_page (p : EncPage) : bool :=
  match page_type p with DATA_PAGE => true | _ => false end.

Definition data_pages (l : list EncPage) : list EncPage :=
  filter is_data_page l.

(** Sum of a field over a run of fragments. *)
Definition sum_of (f : PageFragment -> Z) (l : list PageFragment) : Z :=
  fold_right (fun x a => f x + a) 0 l.

(** Page [p] is the data page made of the run of fragments [g]: it counts
    their rows and values, and the fragment sizes accumulated for it stay
    under the byte budget unless the page holds a single fragment. *)
Definition covers (p : EncPage) (g : list PageFragment) : Prop :=
  page_type p = DATA_PAGE
  /\ num_fragments p = Z.of_nat (length g)
  /\ pg_num_rows p = sum_of num_rows g
  /\ pg_num_values p = sum_of num_values g
  /\ (sum_of frag_size g <= max_page_size_bytes P \/ (length g <= 1)%nat).

(** Pages written before the loop: the dictionary page, if any. *)
Definition dict_pages : list EncPage := pages (dict_page init_state).

(** Loop invariant: [done] are the fragments consumed so far, [groups] the
    runs of fragments of the closed pages and [cur] the run of the open
    page. *)
Record inv (done : list PageFragment) (groups : list (list PageFragment))
    (cur : list PageFragment) (dpages : list EncPage) (s : loop_state)
  : Prop := {
  inv_done : done = concat groups ++ cur;
  inv_fic : fragments_in_chunk s = Z.of_nat (length done);
  inv_rows : st_num_rows s = sum_of num_rows done;
  inv_rip : rows_in_page s = sum_of num_rows cur;
  inv_vip : values_in_page s = sum_of num_values cur;
  inv_psz : page_size s = sum_of frag_size cur;
  inv_pstart : page_start s = Z.of_nat (length (concat groups));
  inv_pages : pages s = dict_pages ++ dpages;
  inv_cov : Forall2 covers dpages groups;
  inv_cur : cur = [] -> done = [];
  inv_bound : sum_of frag_size cur <= max_page_size_bytes P
              \/ (length cur <= 1)%nat;
  inv_ne : Forall (fun g => g <> []) groups
}.

(** What the loop needs of a fragment. *)
Definition frag_ok (f : PageFragment) : Prop :=
  0 < num_rows f /\ 0 < num_values f /\ 0 <= frag_size f.

(** What the planner expects of a chunk: every fragment has rows and
    values, the fragments add up to the rows of the chunk, the totals fit the
    32-bit counters, and the statistics array (when present) has one entry
    per fragment. *)
Record chunk_ok : Prop := {
  ok_frags : Forall (fun f => 0 < num_rows f /\ 0 < num_values f
                              /\ 0 <= frag_size f) (fragments ck_g);
  ok_rows : sum_of num_rows (fragments ck_g) = ck_num_rows ck_g;
  ok_rows32 : ck_num_rows ck_g < 2 ^ 32;
  ok_values32 : sum_of num_values (fragments ck_g) < 2 ^ 32;
  ok_size32 : sum_of frag_size (fragments ck_g) < 2 ^ 32;
  ok_maxrows : 0 <= max_page_size_rows P;
  ok_stats : match stats ck_g with
             | Some st => (length (fragments ck_g) <= length st)%nat
             | None => True
             end
}.

(** The values placed in the chunk so far: those of the closed data pages
    and those of the page being filled. *)
Definition values_in_chunk (s : loop_state) : Z :=
  fold_right (fun p a => pg_num_values p + a) 0 (data_pages (pages s))
  + values_in_page s.

End Kernel.

(** The ceiling as the specification words it: 512 KiB until the values
    placed so far pass 50% of the total, then 384 KiB, then 256 KiB once
    past 66%; never more than the caller's maximum. *)
Definition spec_page_ceiling (values_so_far total max_bytes : Z) : Z :=
  Z.min
    (if 100 * values_so_far >? 66 * total then 256 * 1024
     else if 100 * values_so_far >? 50 * total then 384 * 1024
     else 512 * 1024)
    max_bytes.

End Planner.

(** ** Hybrid RLE encoder: [VlqEncode], [PackLiterals], [RleEncode] *)

Module Rle.

(** Output memory: one byte per address.  A store keeps the low eight bits
    of the value, as a store through [uint8_t*] does. *)
Definition mem := Z -> byte.

Definition store (m : mem) (a v : Z) : mem :=
  fun x => if x =? a then byte.of_Z v else m x.

Definition load_bytes (m : mem) (a : Z) (n : nat) : list byte :=
  map (fun i => m (a + Z.of_nat i)) (seq 0 n).

(** The 128 lanes of a thread block. *)
Definition lanes : list Z := map Z.of_nat (seq 0 128).

(** The 32 lanes of a warp. *)
Definition warp_lanes : list Z := map Z.of_nat (seq 0 32).

Definition for_lanes {A} (f : Z -> A -> A) (a : A) : A :=
  fold_left (fun a t => f t a) lanes a.

(** [ballot(p)] in warp [w]: bit [l] is the predicate of lane [32 w + l]. *)
Definition ballot (p : Z -> bool) (w : Z) : Z :=
  fold_right (fun l acc => Z.lor (if p (32 * w + l) then Z.shiftl 1 l else 0) acc)
             0 warp_lanes.

(** [__ffs]: one plus the index of the lowest set bit of a 32-bit word, zero
    when there is none. *)
Definition ffs (x : Z) : Z :=
  match find (fun l => Z.testbit x l) warp_lanes with
  | Some l => l + 1
  | None => 0
  end.

(** [~x] on a 32-bit word. *)
Definition not32 (x : Z) : Z := Z.land (Z.lnot x) 0xffffffff.

(** [__funnelshift_r(lo, hi, shift)]. *)
Definition funnelshift_r (lo hi shift : Z) : Z :=
  Z.land (Z.shiftr (Z.lor lo (Z.shiftl hi 32)) (Z.land shift 31)) 0xffffffff.

Definition rle_buffer_size : Z := 512.

(** [kRleRunMask]: how many consecutive repeats are needed to code a repeat
    run, indexed by [nbits - 1]. *)
Definition kRleRunMask : list Z :=
  [0x00ffffff; 0x0fff; 0x00ff; 0x3f; 0x0f; 0x0f; 0x7; 0x7;
   0x3; 0x3; 0x3; 0x3; 0x1; 0x1; 0x1; 0x1].

(** A store into [uint16_t vals[]] keeps the low sixteen bits. *)
Definition u16 (x : Z) : Z := x mod 2 ^ 16.

(** The RLE fields of [page_enc_state_s].  [vals] is the ring of
    [rle_buffer_size] input values of sixteen bits, [out] the page buffer
    and [rle_out] the write position in it. *)
Record page_enc_state_s := {
  rle_out : Z;
  rle_run : Z;
  run_val : Z;
  rle_pos : Z;
  rle_numvals : Z;
  rle_lit_count : Z;
  rle_rpt_count : Z;
  vals : Z -> Z;
  out : mem
}.

(** [VlqEncode]: returns the buffer and the advanced pointer.  A 32-bit value
    has at most five groups of seven bits. *)
Fixpoint VlqEncode_loop (fuel : nat) (m : mem) (p v : Z) : mem * Z :=
  match fuel with
  | O => (store m p v, p + 1)
  | S fuel' =>
      if v >? 0x7f
      then VlqEncode_loop fuel' (store m p (Z.lor v 0x80)) (p + 1) (Z.shiftr v 7)
      else (store m p v, p + 1)
  end.

Definition VlqEncode (m : mem) (p v : Z) : mem * Z := VlqEncode_loop 4 m p v.

(** [shuffle_xor(v, k)]: the value held by lane [t xor k]. *)
Definition shuffle_xor (v : Z -> Z) (k : Z) : Z -> Z :=
  fun t => v (Z.lxor t k).

(** A store is an address and the value written there; the stores of the
    lanes of a block are applied lane after lane (they never hit the same
    byte with different values). *)
Definition apply_stores (m : mem) (ws : list (Z * Z)) : mem :=
  fold_left (fun m aw => store m (fst aw) (snd aw)) ws m.

(** The stores of lane [t] in [PackLiterals] for the widths 1, 2, 4, 8, 12
    and 16. *)
Definition pack_lane (dst : Z) (v : Z -> Z) (count w t : Z) : list (Z * Z) :=
  if t <=? Z.lor count 0x1f then
    if w =? 1 then
      let v1 := fun t => Z.lor (v t) (Z.shiftl (shuffle_xor v 1 t) 1) in
      let v2 := fun t => Z.lor (v1 t) (Z.shiftl (shuffle_xor v1 2 t) 2) in
      let v3 := fun t => Z.lor (v2 t) (Z.shiftl (shuffle_xor v2 4 t) 4) in
      if (t <? count) && (Z.land t 0x7 =? 0)
      then [(dst + Z.shiftr (t * w) 3, v3 t)] else []
    else if w =? 2 then
      let v1 := fun t => Z.lor (v t) (Z.shiftl (shuffle_xor v 1 t) 2) in
      let v2 := fun t => Z.lor (v1 t) (Z.shiftl (shuffle_xor v1 2 t) 4) in
      if (t <? count) && (Z.land t 0x3 =? 0)
      then [(dst + Z.shiftr (t * w) 3, v2 t)] else []
    else if w =? 4 then
      let v1 := fun t => Z.lor (v t) (Z.shiftl (shuffle_xor v 1 t) 4) in
      if (t <? count) && (Z.land t 0x1 =? 0)
      then [(dst + Z.shiftr (t * w) 3, v1 t)] else []
    else if w =? 8 then
      if t <? count then [(dst + t, v t)] else []
    else if w =? 12 then
      let v1 := fun t => Z.lor (v t) (Z.shiftl (shuffle_xor v 1 t) 12) in
      if (t <? count) && (Z.land t 1 =? 0) then
        [(dst + (Z.shiftr t 1 * 3 + 0), v1 t);
         (dst + (Z.shiftr t 1 * 3 + 1), Z.shiftr (v1 t) 8);
         (dst + (Z.shiftr t 1 * 3 + 2), Z.shiftr (v1 t) 16)]
      else []
    else (* w = 16 *)
      if t <? count then
        [(dst + (t * 2 + 0), v t); (dst + (t * 2 + 1), Z.shiftr (v t) 8)]
      else []
  else [].

(** The shared scratch words of the general path of [PackLiterals]. *)
Definition atomicOr (sc : Z -> Z) (i x : Z) : Z -> Z :=
  fun j => if j =? i then Z.lor (sc j) x else sc j.

Definition scratch_lane (v : Z -> Z) (count w t : Z) (sc : Z -> Z) : Z -> Z :=
  if t <=? count then
    let v64 := Z.land (Z.shiftl (v t) (Z.land (t * w) 0x1f)) (2 ^ 64 - 1) in
    let v32_0 := Z.land v64 0xffffffff in
    let v32_1 := Z.shiftr v64 32 in
    let sc1 := if v32_0 =? 0 then sc else atomicOr sc (Z.shiftr (t * w) 5) v32_0 in
    if v32_1 =? 0 then sc1 else atomicOr sc1 (Z.shiftr (t * w) 5 + 1) v32_1
  else sc.

(** Byte [j] of the scratch words (little-endian words). *)
Definition scratch_bytes (sc : Z -> Z) (j : Z) : Z :=
  Z.land (Z.shiftr (sc (Z.shiftr j 2)) (8 * Z.land j 3)) 0xff.

Definition copy_lane (dst : Z) (sc : Z -> Z) (available_bytes t : Z)
  : list (Z * Z) :=
  (if t <? available_bytes then [(dst + t, scratch_bytes sc t)] else [])
  ++ (if t + 128 <? available_bytes
      then [(dst + (t + 128), scratch_bytes sc (t + 128))] else []).

(** [PackLiterals]: lane [t] holds [v t]; [count] values of [w] bits are
    written at [dst]. *)
Definition PackLiterals (dst : Z) (v : Z -> Z) (count w : Z) (m : mem) : mem :=
  if (w =? 1) || (w =? 2) || (w =? 4) || (w =? 8) || (w =? 12) || (w =? 16)
  then apply_stores m (flat_map (pack_lane dst v count w) lanes)
  else
    let sc := for_lanes (scratch_lane v count w) (fun _ => 0) in
    let available_bytes := (count * w + 7) / 8 in
    apply_stores m (flat_map (copy_lane dst sc available_bytes) lanes).

(** The four words of [rpt_map] written from a lane predicate. *)
Definition rpt_map_of (p : Z -> bool) : Z -> Z := fun w => ballot p w.

(** Repeat branch: the number of leading lanes whose value equals the run
    value (source lines 567-574). *)
Definition leading_count (rpt_map : Z -> Z) : Z :=
  let c32 := ballot (fun t => (t >=? 4) || negb (rpt_map t =? 0xffffffff)) 0 in
  let last_idx := ffs c32 - 1 in
  last_idx * 32
  + (if last_idx <? 4 then ffs (not32 (rpt_map last_idx)) - 1 else 0).

(** The 32 bits of [rpt_map] that start at bit [idx * 32 + ofs]. *)
Definition window (rpt_map : Z -> Z) (idx ofs : Z) : Z :=
  let m0 := if idx <? 4 then rpt_map idx else 0 in
  let m1 := if idx <? 3 then rpt_map (idx + 1) else 0 in
  funnelshift_r m0 m1 ofs.

(** The inner loop that measures the repeat run (source lines 613-623);
    [idx_cur] takes at most the values 0 to 4. *)
Fixpoint rpt_len_loop (fuel : nat) (rpt_map : Z -> Z)
    (idx_cur idx_ofs rpt_len : Z) : Z :=
  match fuel with
  | O => rpt_len
  | S fuel' =>
      if idx_cur <? 4 then
        let mask := not32 (window rpt_map idx_cur idx_ofs) in
        if negb (mask =? 0) then rpt_len + (ffs mask - 1)
        else rpt_len_loop fuel' rpt_map (idx_cur + 1) idx_ofs (rpt_len + 32)
      else rpt_len
  end.

(** Literal branch: where the next repeat run starts and how long it is
    (source lines 599-628).  Returns [(rle_lit_count, rle_rpt_count)]. *)
Definition find_run (rpt_map : Z -> Z) (nbits maxvals : Z) : Z * Z :=
  let needed_mask := nth (Z.to_nat (nbits - 1)) kRleRunMask 0 in
  let mask :=
    ballot (fun t =>
              let idx8 := Z.shiftr (t * 8) 5 in
              let pos8 := Z.land (t * 8) 0x1f in
              Z.land (window rpt_map idx8 pos8) needed_mask =? needed_mask) 0 in
  let rle_run_start :=
    if negb (mask =? 0) then Z.min ((ffs mask - 1) * 8) maxvals else maxvals in
  let rpt_len :=
    if rle_run_start <? maxvals
    then rpt_len_loop 5 rpt_map (Z.shiftr rle_run_start 5)
                      (Z.land rle_run_start 0x1f) 0
    else 0 in
  (rle_run_start, Z.min rpt_len (maxvals - rle_run_start)).

Definition ring (s : page_enc_state_s) (pos : Z) : Z :=
  vals s (Z.land pos (rle_buffer_size - 1)).

Section Encode.

Variable numvals : Z.
Variable nbits : Z.
Variable flush : bool.

(** The branch taken while a repeat run is open (source lines 562-589). *)
Definition repeat_branch (s : page_enc_state_s) : page_enc_state_s :=
  let rpt_map :=
    rpt_map_of (fun t => (rle_pos s + t <? numvals)
                         && (ring s (rle_pos s + t) =? run_val s)) in
  let rpt_count := leading_count rpt_map in
  let max_rpt_count := Z.min (numvals - rle_pos s) 128 in
  let run := rle_run s + Z.shiftl rpt_count 1 in
  let pos := rle_pos s + rpt_count in
  if (rpt_count <? max_rpt_count) || (flush && (pos =? numvals)) then
    let '(m1, dst) := VlqEncode (out s) (rle_out s) run in
    let m2 := store m1 dst (run_val s) in
    let '(m3, dst') :=
      if nbits >? 8 then (store m2 (dst + 1) (Z.shiftr (run_val s) 8), dst + 2)
      else (m2, dst + 1) in
    {| rle_out := dst'; rle_run := 0; run_val := run_val s; rle_pos := pos;
       rle_numvals := rle_numvals s; rle_lit_count := rle_lit_count s;
       rle_rpt_count := rpt_count; vals := vals s; out := m3 |}
  else
    {| rle_out := rle_out s; rle_run := run; run_val := run_val s;
       rle_pos := pos; rle_numvals := rle_numvals s;
       rle_lit_count := rle_lit_count s; rle_rpt_count := rpt_count;
       vals := vals s; out := out s |}.

(** The branch taken for a new run or inside a literal run (source lines
    590-673).  The boolean is true when the loop is left by [break]. *)
Definition literal_branch (s : page_enc_state_s) : page_enc_state_s * bool :=
  let v0 := fun t => ring s (rle_pos s + t) in
  let v1 := fun t => ring s (rle_pos s + t + 1) in
  let rpt_map :=
    rpt_map_of (fun t => (rle_pos s + t + 1 <? numvals) && (v0 t =? v1 t)) in
  let maxvals := Z.min (numvals - rle_pos s) 128 in
  let '(s_lit_count, s_rpt_count) := find_run rpt_map nbits maxvals in
  (* state after the literal part: run, position, buffer, write pointer,
     repeat count, break *)
  let '(run1, pos1, m1, out1, rpt1, brk1) :=
    if negb (s_lit_count =? 0)
       || (negb (rle_run s =? 0) && negb (s_rpt_count =? 0)) then
      let at_end := rle_pos s + s_lit_count =? numvals in
      let need_more_data := negb flush && at_end in
      let lit_count :=
        if need_more_data then s_lit_count - Z.min s_lit_count 24
        else s_lit_count in
      let '(run2, pos2, m2, rpt2) :=
        if negb (lit_count =? 0) then
          let lit_div8_0 :=
            Z.shiftr (lit_count
                      + (if flush && (rle_pos s + lit_count =? numvals)
                         then 7 else 0)) 3 in
          let over := rle_run s + lit_div8_0 * 2 >? 0x7f in
          let lit_div8 :=
            if over then 0x3f - Z.shiftr (rle_run s) 1 else lit_div8_0 in
          let rpt := if over then 0 else s_rpt_count in
          if negb (lit_div8 =? 0) then
            let dst := rle_out s + 1 + Z.shiftr (rle_run s) 1 * nbits in
            let m := PackLiterals dst
                       (fun t => if rle_pos s + t <? numvals then v0 t else 0)
                       (lit_div8 * 8) nbits (out s) in
            (Z.lor (rle_run s + lit_div8 * 2) 1,
             Z.min (rle_pos s + lit_div8 * 8) numvals, m, rpt)
          else (rle_run s, rle_pos s, out s, rpt)
        else (rle_run s, rle_pos s, out s, s_rpt_count) in
      let limit :=
        if negb (rpt2 =? 0) || (flush && (pos2 =? numvals)) then 0x03
        else 0x7f in
      if run2 >=? limit then
        (0, pos2, store m2 (rle_out s) run2,
         rle_out s + (1 + nbits * Z.shiftr run2 1), rpt2, need_more_data)
      else (run2, pos2, m2, rle_out s, rpt2, need_more_data)
    else (rle_run s, rle_pos s, out s, rle_out s, s_rpt_count, false) in
  if brk1 then
    ({| rle_out := out1; rle_run := run1; run_val := run_val s;
        rle_pos := pos1; rle_numvals := rle_numvals s;
        rle_lit_count := s_lit_count; rle_rpt_count := s_rpt_count;
        vals := vals s; out := m1 |}, true)
  else if negb (rpt1 =? 0) then
    (* start a repeat run *)
    ({| rle_out := out1; rle_run := rpt1 * 2; run_val := v0 s_lit_count;
        rle_pos := pos1 + rpt1; rle_numvals := rle_numvals s;
        rle_lit_count := s_lit_count; rle_rpt_count := s_rpt_count;
        vals := vals s; out := m1 |},
     (pos1 + rpt1 + 1 =? numvals) && negb flush)
  else
    ({| rle_out := out1; rle_run := run1; run_val := run_val s;
        rle_pos := pos1; rle_numvals := rle_numvals s;
        rle_lit_count := s_lit_count; rle_rpt_count := s_rpt_count;
        vals := vals s; out := m1 |}, false).

(** The counts of the literal branch before the limit of the one-byte header
    is applied (source lines 628-643): the shared counts, the literal values
    to write now, and the groups of eight they make. *)
Definition batch_counts (s : page_enc_state_s) : Z * Z :=
  find_run
    (rpt_map_of (fun t => (rle_pos s + t + 1 <? numvals)
                          && (ring s (rle_pos s + t)
                              =? ring s (rle_pos s + t + 1))))
    nbits (Z.min (numvals - rle_pos s) 128).

Definition literal_count (s : page_enc_state_s) : Z :=
  let lit := fst (batch_counts s) in
  if negb flush && (rle_pos s + lit =? numvals) then lit - Z.min lit 24
  else lit.

Definition literal_groups (s : page_enc_state_s) : Z :=
  Z.shiftr (literal_count s
            + (if flush && (rle_pos s + literal_count s =? numvals)
               then 7 else 0)) 3.

(** One iteration of the loop of [RleEncode]. *)
Definition RleEncode_body (s : page_enc_state_s) : page_enc_state_s * bool :=
  if (rle_run s >? 0) && (Z.land (rle_run s) 1 =? 0)
  then (repeat_branch s, false)
  else literal_branch s.

Fixpoint RleEncode_loop (fuel : nat) (s : page_enc_state_s)
  : option page_enc_state_s :=
  if (rle_pos s <? numvals) || (flush && negb (rle_run s =? 0)) then
    match fuel with
    | O => None
    | S fuel' =>
        let '(s', brk) := RleEncode_body s in
        if brk then Some s' else RleEncode_loop fuel' s'
    end
  else Some s.

(** [RleEncode]: every iteration that does not leave the loop either
    consumes an input value or closes a repeat run, which bounds the number
    of iterations; [None] would mean that the bound was wrong. *)
Definition RleEncode (s : page_enc_state_s) : option page_enc_state_s :=
  match RleEncode_loop (Z.to_nat (2 * (numvals - rle_pos s) + 2)) s with
  | Some s' =>
      Some {| rle_out := rle_out s'; rle_run := rle_run s';
              run_val := run_val s'; rle_pos := rle_pos s';
              rle_numvals := numvals; rle_lit_count := rle_lit_count s';
              rle_rpt_count := rle_rpt_count s'; vals := vals s';
              out := out s' |}
  | None => None
  end.

End Encode.

(** The level encoder of [gpuEncodePages] (the lambda [encode_levels],
    source lines 845-879) for a page of [num_values] level values read from
    [lvl_val_data]; [cur] is the page cursor.  The stream is written after a
    four-byte length. *)
Section EncodeLevels.

Variable lvl_val_data : list Z.
Variable nbits : Z.

Definition num_values : Z := Z.of_nat (length lvl_val_data).

(** The store of the 128 lanes into the ring before a call of [RleEncode]. *)
Definition load_batch (s : page_enc_state_s) : page_enc_state_s :=
  let rle_numvals0 := rle_numvals s in
  let vals' :=
    for_lanes (fun t (vs : Z -> Z) =>
                 let lvl_val :=
                   if rle_numvals0 + t <? num_values
                   then nth (Z.to_nat (rle_numvals0 + t)) lvl_val_data 0
                   else 0 in
                 fun i => if i =? Z.land (rle_numvals0 + t)
                                         (rle_buffer_size - 1)
                          then u16 lvl_val else vs i) (vals s) in
  {| rle_out := rle_out s; rle_run := rle_run s; run_val := run_val s;
     rle_pos := rle_pos s; rle_numvals := rle_numvals s;
     rle_lit_count := rle_lit_count s; rle_rpt_count := rle_rpt_count s;
     vals := vals'; out := out s |}.

Fixpoint encode_levels_loop (fuel : nat) (s : page_enc_state_s)
  : option page_enc_state_s :=
  if rle_numvals s <? num_values then
    match fuel with
    | O => None
    | S fuel' =>
        let nvals := Z.min (num_values - rle_numvals s) 128 in
        let rle_numvals' := rle_numvals s + nvals in
        match RleEncode rle_numvals' nbits (rle_numvals' =? num_values)
                        (load_batch s) with
        | Some s' => encode_levels_loop fuel' s'
        | None => None
        end
    end
  else Some s.

(** Initial state: the RLE fields are reset and the stream starts four bytes
    after the cursor; the ring [vs] is what earlier work left in it. *)
Definition levels_init (vs : Z -> Z) (cur : Z) (m : mem) : page_enc_state_s :=
  {| rle_out := cur + 4; rle_run := 0; run_val := 0; rle_pos := 0;
     rle_numvals := 0; rle_lit_count := 0; rle_rpt_count := 0;
     vals := vs; out := m |}.

(** Returns the buffer, the new cursor and the ring; the four bytes at the
    old cursor receive the length of the stream. *)
Definition encode_levels (vs : Z -> Z) (cur : Z) (m : mem)
  : option (mem * Z * (Z -> Z)) :=
  match encode_levels_loop (length lvl_val_data) (levels_init vs cur m) with
  | Some s =>
      let rle_bytes := u32 (rle_out s - cur - 4) in
      let m' :=
        fold_left (fun m t => store m (cur + t) (Z.shiftr rle_bytes (t * 8)))
                  [0; 1; 2; 3] (out s) in
      Some (m', rle_out s, vals s)
  | None => None
  end.

(** The RLE stream of a level array, as it lies in the page. *)
Definition rle_stream : option (list byte) :=
  match encode_levels (fun _ => 0) 0 (fun _ => Byte.x00) with
  | Some (m, e, _) => Some (load_bytes m 4 (Z.to_nat (e - 4)))
  | None => None
  end.

End EncodeLevels.

(** The predicate of a lane, false outside the block. *)
Definition laneb (p : Z -> bool) (t : Z) : bool :=
  (0 <=? t) && (t <? 128) && p t.

(** Bit [k] of the stream that packs the values [v 0], [v 1], ... on [w]
    bits each, lowest bit first. *)
Definition packed_bit (w : Z) (v : Z -> Z) (k : Z) : bool :=
  Z.testbit (v (k / w)) (k mod w).

End Rle.

(** ** The hybrid RLE format seen from the reader *)

Module RleFormat.

(** A run of a stream: a repeated value or a group of bit-packed values,
    with the header that introduces it. *)
Inductive run :=
| Repeat (header value : Z)
| Literal (header : Z) (values : list Z).

(** The values a run stands for. *)
Definition expand (r : run) : list Z :=
  match r with
  | Repeat h v => repeat v (Z.to_nat (Z.shiftr h 1))
  | Literal _ vs => vs
  end.

(** A variable-length integer: seven bits per byte, lowest first, the top bit
    of a byte tells that another byte follows. *)
Fixpoint read_vlq (fuel : nat) (shift acc : Z) (bs : list byte)
  : option (Z * list byte) :=
  match fuel, bs with
  | S fuel', b :: rest =>
      let x := byte.unsigned b in
      let acc' := Z.lor acc (Z.shiftl (Z.land x 0x7f) shift) in
      if x <? 0x80 then Some (acc', rest)
      else read_vlq fuel' (shift + 7) acc' rest
  | _, _ => None
  end.

(** A repeated value takes one byte up to eight bits, two bytes above. *)
Definition value_bytes (w : Z) : nat := if w >? 8 then 2%nat else 1%nat.

(** [n] values of [w] bits from a bit-packed group, lowest bit first. *)
Definition unpack (w : Z) (n : nat) (bs : list byte) : list Z :=
  map (fun k => Z.land (Z.shiftr (le_combine bs) (Z.of_nat k * w)) (Z.ones w))
      (seq 0 n).

(** Modelled from the spec: the reader of a hybrid RLE stream (the decoder
    of the repository is not among the sources).  A header is a
    variable-length integer; an even header [count << 1] is followed by the
    repeated value on [nbits <= 8 ? 1 : 2] bytes; an odd header
    [(count / 8) << 1 | 1] is followed by [count] values bit-packed on
    [nbits] bits each.  [None] is a malformed stream. *)
Fixpoint parse_runs (fuel : nat) (w : Z) (bs : list byte)
  : option (list run) :=
  match bs with
  | [] => Some []
  | _ :: _ =>
      match fuel with
      | O => None
      | S fuel' =>
          match read_vlq 5 0 0 bs with
          | None => None
          | Some (h, rest) =>
              let nb := if Z.testbit h 0 then Z.to_nat (Z.shiftr h 1 * w)
                        else value_bytes w in
              if (length rest <? nb)%nat then None
              else
                let r :=
                  if Z.testbit h 0
                  then Literal h (unpack w (Z.to_nat (Z.shiftr h 1 * 8))
                                         (firstn nb rest))
                  else Repeat h (le_combine (firstn nb rest)) in
                match parse_runs fuel' w (skipn nb rest) with
                | Some rs => Some (r :: rs)
                | None => None
                end
          end
      end
  end.

(** Every run takes at least one byte, so the length of the stream bounds
    the number of runs. *)
Definition rle_runs (w : Z) (bs : list byte) : option (list run) :=
  parse_runs (length bs) w bs.

(** The decoder: the values of all runs; a reader that expects [n] values
    keeps the first [n]. *)
Definition rle_decode (w : Z) (bs : list byte) : option (list Z) :=
  option_map (flat_map expand) (rle_runs w bs).

(** The bytes of a variable-length integer (at most five for 32 bits). *)
Fixpoint vlq_bytes (fuel : nat) (v : Z) : list byte :=
  match fuel with
  | O => [byte.of_Z v]
  | S fuel' =>
      if v >? 0x7f
      then byte.of_Z (Z.lor v 0x80) :: vlq_bytes fuel' (Z.shiftr v 7)
      else [byte.of_Z v]
  end.

(** A well-formed stream and its runs: repeat runs have a count of at least
    one and a value that fits the width; literal runs have between 1 and 63
    groups of eight values that fit the width, packed lowest bit first. *)
Inductive encodes (w : Z) : list byte -> list run -> Prop :=
| encodes_nil : encodes w [] []
| encodes_repeat c v bs rs :
    1 <= c -> 2 * c < 2 ^ 32 -> 0 <= v < 2 ^ w ->
    encodes w bs rs ->
    encodes w (vlq_bytes 4 (2 * c) ++ le_split (value_bytes w) v ++ bs)
            (Repeat (2 * c) v :: rs)
| encodes_literal g vs packed bs rs :
    1 <= g <= 63 ->
    Z.of_nat (length vs) = 8 * g ->
    Forall (fun x => 0 <= x < 2 ^ w) vs ->
    Z.of_nat (length packed) = g * w ->
    (forall q r, 0 <= q < 8 * g -> 0 <= r < w ->
       Z.testbit (le_combine packed) (w * q + r)
       = Z.testbit (nth (Z.to_nat q) vs 0) r) ->
    encodes w bs rs ->
    encodes w (byte.of_Z (2 * g + 1) :: packed ++ bs)
            (Literal (2 * g + 1) vs :: rs).

End RleFormat.

(** ** The state of the RLE encoder against its input *)

Module RleInv.
Import Rle RleFormat.

Section Invariant.

Variable inp : list Z.        (* the values of the page, in order *)
Variable w : Z.               (* nbits *)
Variable base : Z.            (* where the stream starts in the buffer *)

(** Input value number [p] (zero past the end). *)
Definition input_at (p : Z) : Z := nth (Z.to_nat p) inp 0.

(** Bit [K] of the buffer read as a bit stream from address [a]. *)
Definition region_bit (m : mem) (a K : Z) : bool :=
  Z.testbit (byte.unsigned (m (a + K / 8))) (K mod 8).

(** [K] groups of eight values starting at input position [c] are packed at
    address [a]. *)
Definition packed_at (m : mem) (a c K : Z) : Prop :=
  forall q r, 0 <= q < 8 * K -> 0 <= r < w ->
    region_bit m a (w * q + r) = Z.testbit (input_at (c + q)) r.

(** What an open run stands for: [c] input values are covered by the
    closed runs; an open literal run has its groups packed after the byte
    kept for its header; an open repeat run counts equal values. *)
Definition open_run (numvals c : Z) (s : page_enc_state_s) : Prop :=
  (rle_run s = 0 /\ c = rle_pos s)
  \/ (exists k, rle_run s = 2 * k + 1 /\ 1 <= k <= 62
                /\ rle_pos s = c + 8 * k /\ rle_pos s < numvals
                /\ packed_at (out s) (rle_out s + 1) c k)
  \/ (exists r, rle_run s = 2 * r /\ 1 <= r /\ rle_pos s = c + r
                /\ 0 <= run_val s < 2 ^ w
                /\ forall p, c <= p < rle_pos s -> input_at p = run_val s).

(** The invariant of the encoder between iterations and between calls:
    [numvals] input values were handed over. *)
Record Inv (numvals : Z) (s : page_enc_state_s) : Prop := {
  inv_out : base <= rle_out s;
  inv_pos : 0 <= rle_pos s <= numvals;
  inv_nv : numvals <= Z.of_nat (length inp);
  inv_ring : forall p, rle_pos s <= p < numvals -> ring s p = input_at p;
  inv_stream :
    exists rs c pad,
      encodes w (load_bytes (out s) base (Z.to_nat (rle_out s - base))) rs
      /\ flat_map expand rs = firstn (Z.to_nat c) inp ++ repeat 0 pad
      /\ 0 <= c <= Z.of_nat (length inp)
      /\ (pad = 0%nat
          \/ (c = Z.of_nat (length inp) /\ rle_run s = 0
              /\ rle_pos s = Z.of_nat (length inp) /\ (pad < 8)%nat))
      /\ open_run numvals c s
}.

(** The number of iterations still possible. *)
Definition measure (numvals : Z) (s : page_enc_state_s) : Z :=
  2 * (numvals - rle_pos s) + (if rle_run s =? 0 then 0 else 1).

End Invariant.

End RleInv.

(** ** [gpuDecideCompression] *)

Module Compression.
Import Rle.

(** [decompress_status]: what the compressor reports for a page. *)
Record decompress_status := {
  bytes_written : Z;
  status : Z
}.

(** The fields of [EncPage] read by the kernel; [comp_stat] is a pointer
    that may be null. *)
Record EncPage := {
  max_data_size : Z;
  comp_stat : option decompress_status
}.

(** The fields of [EncColumnChunk] read and written by the kernel;
    [num_pages] is the length of [pages]. *)
Record EncColumnChunk := {
  pages : list EncPage;
  is_compressed : bool;
  bfr_size : Z;
  compressed_size : Z
}.

(** The pages visited by lane [t]:
    [for (page = t; page < num_pages; page += 32)]. *)
Fixpoint lane_loop (fuel : nat) (pgs : list EncPage) (page : Z)
  : list EncPage :=
  match fuel with
  | O => []
  | S fuel' =>
      if page <? Z.of_nat (length pgs) then
        match nth_error pgs (Z.to_nat page) with
        | Some p => p :: lane_loop fuel' pgs (page + 32)
        | None => []
        end
      else []
  end.

Definition lane_pages (pgs : list EncPage) (t : Z) : list EncPage :=
  lane_loop (length pgs) pgs t.

(** The two sums of a lane, with the wrap-around of [uint32_t]. *)
Definition lane_uncompressed (pgs : list EncPage) (t : Z) : Z :=
  fold_left (fun a p => u32 (a + max_data_size p)) (lane_pages pgs t) 0.

Definition lane_compressed (pgs : list EncPage) (t : Z) : Z :=
  fold_left (fun a p => match comp_stat p with
                        | Some st => u32 (a + bytes_written st)
                        | None => a
                        end) (lane_pages pgs t) 0.

(** [warp_reduce(...).Sum]: the sum of the values of the 32 lanes. *)
Definition warp_reduce_sum (v : Z -> Z) : Z :=
  fold_left (fun a t => u32 (a + v t)) warp_lanes 0.

(** The shared counter and flag after all lanes went through their pages;
    the atomic additions commute, so the lanes are taken in order. *)
Definition error_count (pgs : list EncPage) : Z :=
  fold_left (fun e p => match comp_stat p with
                        | Some st => if negb (status st =? 0) then u32 (e + 1)
                                     else e
                        | None => e
                        end) (flat_map (lane_pages pgs) warp_lanes) 0.

Definition has_compression (pgs : list EncPage) : bool :=
  existsb (fun p => match comp_stat p with Some _ => true | None => false end)
          (flat_map (lane_pages pgs) warp_lanes).

(** One thread block: the decision for one chunk. *)
Definition decide (ck : EncColumnChunk) : EncColumnChunk :=
  let uncompressed_data_size := warp_reduce_sum (lane_uncompressed (pages ck)) in
  let compressed_data_size := warp_reduce_sum (lane_compressed (pages ck)) in
  let is_compressed' :=
    if has_compression (pages ck) then
      let compression_error := error_count (pages ck) in
      (compression_error =? 0)
      && (compressed_data_size <? uncompressed_data_size)
    else false in
  {| pages := pages ck;
     is_compressed := is_compressed';
     bfr_size := uncompressed_data_size;
     compressed_size := if is_compressed' then compressed_data_size
                        else uncompressed_data_size |}.

(** The kernel: block [blockIdx.x] handles chunk [blockIdx.x]. *)
Definition gpuDecideCompression (chunks : list EncColumnChunk)
  : list EncColumnChunk :=
  map decide chunks.

(** Sum of a quantity over pages. *)
Definition total (g : EncPage -> Z) (l : list EncPage) : Z :=
  fold_right (fun p a => g p + a) 0 l.

Definition compressed_bytes (p : EncPage) : Z :=
  match comp_stat p with Some st => bytes_written st | None => 0 end.

Definition failed (p : EncPage) : bool :=
  match comp_stat p with Some st => negb (status st =? 0) | None => false end.

Definition attempted (p : EncPage) : bool :=
  match comp_stat p with Some _ => true | None => false end.

(** Sum of [f 0 .. f (k-1)]. *)
Fixpoint big_sum (f : nat -> Z) (k : nat) : Z :=
  match k with
  | O => 0
  | S k' => big_sum f k' + f k'
  end.

(** The value at index [i] of a page list, zero past the end. *)
Definition at_index (g : EncPage -> Z) (pgs : list EncPage) (i : nat) : Z :=
  match nth_error pgs i with Some p => g p | None => 0 end.

(** Pages that satisfy a test, counted. *)
Definition count_of (f : EncPage -> bool) (p : EncPage) : Z :=
  if f p then 1 else 0.

(** Two chunks of two pages: one where both pages were compressed, one
    where the second page failed. *)
Definition ex_chunk : EncColumnChunk :=
  {| pages :=
       [ {| max_data_size := 1000;
            comp_stat := Some {| bytes_written := 400; status := 0 |} |};
         {| max_data_size := 1000;
            comp_stat := Some {| bytes_written := 300; status := 0 |} |} ];
     is_compressed := false; bfr_size := 0; compressed_size := 0 |}.

Definition ex_failed_chunk : EncColumnChunk :=
  {| pages :=
       [ {| max_data_size := 1000;
            comp_stat := Some {| bytes_written := 400; status := 0 |} |};
         {| max_data_size := 1000;
            comp_stat := Some {| bytes_written := 10; status := 1 |} |} ];
     is_compressed := false; bfr_size := 0; compressed_size := 0 |}.

End Compression.

(** ** [gpuGatherPages] *)

Module Gather.
Import Rle.

(** The fields of [EncPage] read by the kernel.  Pointers are addresses in
    one memory; [hdr_size] is the length of the finalized header and
    [max_data_size] holds by now the length of the encoded (or compressed)
    data. *)
Record EncPage := {
  page_data : Z;
  compressed_data : Z;
  hdr_size : Z;
  max_hdr_size : Z;
  max_data_size : Z
}.

(** The fields of [EncColumnChunk] read and written by the kernel. *)
Record EncColumnChunk := {
  pages : list EncPage;
  is_compressed : bool;
  compressed_bfr : Z;
  uncompressed_bfr : Z;
  ck_stat_size : Z;
  bfr_size : Z;
  compressed_size : Z;
  use_dictionary : bool;
  dictionary_size : Z
}.

(** Modelled from the spec: [memcpy_block] (defined in a header that is not
    among the sources) copies [len] bytes from [src] to [dst]; the bytes
    read are those present before the copy. *)
Definition memcpy_block (m : mem) (dst src len : Z) : mem :=
  fun x => if (dst <=? x) && (x <? dst + len) then m (src + (x - dst))
           else m x.

(** The local state of the loop over the pages. *)
Record gather_state := {
  g_mem : mem;
  g_dst : Z;
  g_uncompressed_size : Z;
  g_dictionary_size : Z
}.

Section Kernel.

Variable ck_g : EncColumnChunk.

Definition page_src (p : EncPage) : Z :=
  if is_compressed ck_g then compressed_data p else page_data p.

(** The body of the loop for page number [page] (source lines
    1423-1443). *)
Definition gather_page (page : Z) (p : EncPage) (s : gather_state)
  : gather_state :=
  let src := page_src p in
  let hdr_len := hdr_size p in
  let m1 := memcpy_block (g_mem s) (g_dst s) src hdr_len in
  let src := src + max_hdr_size p in
  let dst := g_dst s + hdr_len in
  let uncompressed_size := u32 (g_uncompressed_size s + hdr_len) in
  let data_len := max_data_size p in
  let m2 := memcpy_block m1 dst src data_len in
  let dst := dst + data_len in
  {| g_mem := m2; g_dst := dst;
     g_uncompressed_size := uncompressed_size;
     g_dictionary_size :=
       if (page =? 0) && use_dictionary ck_g then u32 (hdr_len + data_len)
       else g_dictionary_size s |}.

Fixpoint gather_loop (page : Z) (pgs : list EncPage) (s : gather_state)
  : gather_state :=
  match pgs with
  | [] => s
  | p :: rest => gather_loop (page + 1) rest (gather_page page p s)
  end.

Definition dst_base : Z :=
  (if is_compressed ck_g then compressed_bfr ck_g else uncompressed_bfr ck_g)
  + ck_stat_size ck_g.

(** The kernel for one chunk: the memory and the chunk after it. *)
Definition gpuGatherPages (m : mem) : mem * EncColumnChunk :=
  let s := gather_loop 0 (pages ck_g)
             {| g_mem := m; g_dst := dst_base;
                g_uncompressed_size := bfr_size ck_g;
                g_dictionary_size := dictionary_size ck_g |} in
  (g_mem s,
   {| pages := pages ck_g;
      is_compressed := is_compressed ck_g;
      compressed_bfr := compressed_bfr ck_g;
      uncompressed_bfr := uncompressed_bfr ck_g;
      ck_stat_size := ck_stat_size ck_g;
      bfr_size := g_uncompressed_size s;
      compressed_size := g_dst s - dst_base;
      use_dictionary := use_dictionary ck_g;
      dictionary_size :=
        if use_dictionary ck_g then g_dictionary_size s
        else dictionary_size ck_g |}).

(** The bytes of a page before the gather: its header, then its data. *)
Definition page_bytes (m : mem) (p : EncPage) : list byte :=
  load_bytes m (page_src p) (Z.to_nat (hdr_size p))
  ++ load_bytes m (page_src p + max_hdr_size p) (Z.to_nat (max_data_size p)).

Definition page_len (p : EncPage) : Z := hdr_size p + max_data_size p.

Definition pages_len (pgs : list EncPage) : Z :=
  fold_right (fun p a => page_len p + a) 0 pgs.

(** The pages lie in the buffer in page order, each in the room reserved
    for it, at or after the address [lo]: the gather compacts them towards
    the start of the buffer. *)
Fixpoint sources_ok (lo : Z) (pgs : list EncPage) : Prop :=
  match pgs with
  | [] => True
  | p :: rest =>
      lo <= page_src p
      /\ 0 <= hdr_size p <= max_hdr_size p
      /\ 0 <= max_data_size p
      /\ sources_ok (page_src p + max_hdr_size p + max_data_size p) rest
  end.

End Kernel.

(** An example: statistics of four bytes, then two pages laid out with
    room to spare; the buffer holds its own addresses. *)
Definition ex_chunk : EncColumnChunk :=
  {| pages :=
       [ {| page_data := 4; compressed_data := 0; hdr_size := 2;
            max_hdr_size := 8; max_data_size := 3 |};
         {| page_data := 20; compressed_data := 0; hdr_size := 3;
            max_hdr_size := 8; max_data_size := 2 |} ];
     is_compressed := false; compressed_bfr := 0; uncompressed_bfr := 0;
     ck_stat_size := 4; bfr_size := 5; compressed_size := 0;
     use_dictionary := false; dictionary_size := 0 |}.

Definition ex_mem : mem := fun x => byte.of_Z x.

End Gather.

(** ** Page encoder: [gpuEncodePages] *)

Module Encode.
Import Rle.

(** Parquet physical types and the column types the encoder tells apart. *)
Inductive Type_ :=
| BOOLEAN | INT32 | INT64 | INT96 | FLOAT | DOUBLE | BYTE_ARRAY
| FIXED_LEN_BYTE_ARRAY.

Inductive type_id :=
| TIMESTAMP_SECONDS | TIMESTAMP_MILLISECONDS | TIMESTAMP_MICROSECONDS
| TIMESTAMP_NANOSECONDS | DECIMAL128 | OTHER_TYPE.

Inductive PageType := DATA_PAGE | INDEX_PAGE | DICTIONARY_PAGE.

Definition Type_eqb (a b : Type_) : bool :=
  match a, b with
  | BOOLEAN, BOOLEAN | INT32, INT32 | INT64, INT64 | INT96, INT96
  | FLOAT, FLOAT | DOUBLE, DOUBLE | BYTE_ARRAY, BYTE_ARRAY
  | FIXED_LEN_BYTE_ARRAY, FIXED_LEN_BYTE_ARRAY => true
  | _, _ => false
  end.

Definition is_dictionary_page (t : PageType) : bool :=
  match t with DICTIONARY_PAGE => true | _ => false end.

(** [physical_type_len]: the size of the type in the file. *)
Definition physical_type_len (physical_type : Type_) (id : type_id) : Z :=
  match physical_type, id with
  | FIXED_LEN_BYTE_ARRAY, DECIMAL128 => 16
  | INT96, _ => 12
  | INT64, _ | DOUBLE, _ => 8
  | BOOLEAN, _ => 1
  | _, _ => 4
  end.

(** Wrap-around of [int64_t]. *)
Definition s64 (x : Z) : Z := (x + 2 ^ 63) mod 2 ^ 64 - 2 ^ 63.

(** Modelled from the spec: the day number of a civil date counted from
    1970-01-01, as [sys_days] of the chrono library computes it (the library
    is not among the sources). *)
Definition days_from_civil (y m d : Z) : Z :=
  let y := if m <=? 2 then y - 1 else y in
  let era := y / 400 in
  let yoe := y - era * 400 in
  let doy := (153 * (if m >? 2 then m - 3 else m + 9) + 2) / 5 + d - 1 in
  let doe := yoe * 365 + yoe / 4 - yoe / 100 + doy in
  era * 146097 + doe - 719468.

(** [julian_calendar_epoch_diff], in hours:
    [sys_days{January/1/1970} - (sys_days{November/24/-4713} + 12h)]. *)
Definition julian_calendar_epoch_diff : Z :=
  days_from_civil 1970 1 1 * 24 - (days_from_civil (-4713) 11 24 * 24 + 12).

(** [ceil<days>] of a number of hours; [floor<days>] of a number of
    nanoseconds. *)
Definition ceil_days (hours : Z) : Z := - ((- hours) / 24).

Definition ns_per_day : Z := 86400 * 1000000000.

Definition floor_days (ns : Z) : Z := ns / ns_per_day.

(** [convert_nanoseconds]: nanoseconds elapsed in the day and days from the
    Julian epoch. *)
Definition convert_nanoseconds (ns : Z) : Z * Z :=
  let nanosecond_ticks := ns in
  let gregorian_days := floor_days nanosecond_ticks in
  let julian_days := gregorian_days + ceil_days julian_calendar_epoch_diff in
  let last_day_ticks := nanosecond_ticks - gregorian_days * ns_per_day in
  (last_day_ticks, julian_days).

(** A column element: an integer as [element<intN_t>] reads it, or the raw
    bytes of a double, a string or a 128-bit decimal. *)
Inductive element :=
| EInt (v : Z)
| EBytes (b : list byte).

Definition el_int (e : element) : Z :=
  match e with EInt v => v | EBytes _ => 0 end.

Definition el_bytes (e : element) : list byte :=
  match e with EInt _ => [] | EBytes b => b end.

(** The timestamp scaling of the INT64 and INT96 cases. *)
Definition scale_timestamp (ts_scale v : Z) : Z :=
  if negb (ts_scale =? 0) then
    if ts_scale <? 0 then Z.quot v (- ts_scale) else s64 (v * ts_scale)
  else v.

(** The timestamp in nanoseconds handed to [convert_nanoseconds]. *)
Definition int96_timestamp_ns (id : type_id) (v : Z) : Z :=
  match id with
  | TIMESTAMP_SECONDS | TIMESTAMP_MILLISECONDS => s64 (v * 1000000)
  | TIMESTAMP_MICROSECONDS | TIMESTAMP_NANOSECONDS => s64 (v * 1000)
  | _ => 0
  end.

(** The stores of the INT96 case, relative to [dst + pos]: offset and value
    (a store keeps the low eight bits). *)
Definition int96_stores (id : type_id) (ts_scale : Z) (e : element)
  : list (Z * Z) :=
  let v := scale_timestamp ts_scale (el_int e) in
  let ret := convert_nanoseconds (int96_timestamp_ns id v) in
  let v := fst ret in
  let w := u32 (snd ret) in
  [(0, v); (1, Z.shiftr v 8); (2, Z.shiftr v 16); (3, Z.shiftr v 24);
   (4, Z.shiftr v 32); (5, Z.shiftr v 40); (6, Z.shiftr v 48);
   (7, Z.shiftr v 56);
   (8, w); (9, Z.shiftr w 8); (10, Z.shiftr w 16); (11, Z.shiftr w 24)].

Definition raw_stores (bs : list byte) (from : Z) : list (Z * Z) :=
  map (fun i => (from + Z.of_nat i, byte.unsigned (nth i bs Byte.x00)))
      (seq 0 (length bs)).

(** The stores of one valid value in the PLAIN encoding (the [switch] of
    source lines 984-1077); [len] is the length computed for the value. *)
Definition plain_stores (physical_type : Type_) (id : type_id) (ts_scale : Z)
    (len : Z) (e : element) : list (Z * Z) :=
  match physical_type with
  | INT32 | FLOAT =>
      let v := el_int e in
      [(0, v); (1, Z.shiftr v 8); (2, Z.shiftr v 16); (3, Z.shiftr v 24)]
  | INT64 =>
      let v := scale_timestamp ts_scale (el_int e) in
      [(0, v); (1, Z.shiftr v 8); (2, Z.shiftr v 16); (3, Z.shiftr v 24);
       (4, Z.shiftr v 32); (5, Z.shiftr v 40); (6, Z.shiftr v 48);
       (7, Z.shiftr v 56)]
  | INT96 => int96_stores id ts_scale e
  | DOUBLE => raw_stores (firstn 8 (el_bytes e)) 0
  | BYTE_ARRAY =>
      let v := u32 (len - 4) in
      [(0, v); (1, Z.shiftr v 8); (2, Z.shiftr v 16); (3, Z.shiftr v 24)]
      ++ (if negb (v =? 0) then raw_stores (el_bytes e) 4 else [])
  | FIXED_LEN_BYTE_ARRAY =>
      match id with
      | DECIMAL128 => raw_stores (rev (firstn 16 (el_bytes e))) 0
      | _ => []
      end
  | BOOLEAN => []
  end.

(** One level of the column hierarchy seen by the definition-level
    lambda. *)
Record column_level := {
  cl_is_valid : Z -> bool;
  cl_is_struct : bool;
  cl_offset : Z
}.

(** The definition level of a row of a column without lists (the lambda of
    source lines 801-824, after the bounds test). *)
Fixpoint def_lvl_walk (cols : list column_level) (nullability : list bool)
    (row def : Z) : Z :=
  match cols with
  | [] => def
  | col :: children =>
      if hd false nullability && negb (cl_is_valid col row) then def
      else
        let def' := if hd false nullability then u32 (def + 1) else def in
        if cl_is_struct col
        then def_lvl_walk children (tl nullability)
                          (u32 (row + cl_offset col)) def'
        else def'
  end.

(** [parquet_column_device_view]: what the encoder reads. *)
Record column_view := {
  physical_type : Type_;
  leaf_type : type_id;
  ts_scale : Z;
  num_def_level_bits : Z;
  num_rep_level_bits : Z;
  col_num_rows : Z;
  nullability : list bool;
  parent_column : list column_level;
  level_offsets : list Z;
  rep_values : list Z;
  def_values : list Z;
  leaf_column : list (option element)
}.

(** [EncColumnChunk] and [EncPage]: what the encoder reads. *)
Record chunk_view := {
  use_dictionary : bool;
  dict_rle_bits : Z;
  dict_data : list Z;
  dict_index : list Z;
  chunk_start_val : Z
}.

Record page_view := {
  page_type : PageType;
  page_data : Z;
  max_hdr_size : Z;
  start_row : Z;
  num_rows : Z;
  num_values : Z;
  num_leaf_values : Z;
  page_start_val : Z
}.

Section Page.

(** [enable_bool_rle] is a compile-time constant. *)
Variable enable_bool_rle : bool.
Variable col : column_view.
Variable ck : chunk_view.
Variable page : page_view.

(** The level values the lanes read for the page in the two level paths. *)
Definition row_def_levels : list Z :=
  map (fun i =>
         let row := u32 (start_row page + Z.of_nat i) in
         if row <? col_num_rows col
         then def_lvl_walk (parent_column col) (nullability col) row 0
         else 0)
      (seq 0 (Z.to_nat (num_rows page))).

Definition page_levels (lvl_val_data : list Z) : list Z :=
  let page_first_val_idx := nth (Z.to_nat (start_row page)) (level_offsets col) 0 in
  let col_last_val_idx := nth (Z.to_nat (col_num_rows col)) (level_offsets col) 0 in
  map (fun i =>
         let idx := u32 (page_first_val_idx + Z.of_nat i) in
         if idx <? col_last_val_idx then nth (Z.to_nat idx) lvl_val_data 0
         else 0)
      (seq 0 (Z.to_nat (num_values page))).

(** The levels of the page (source lines 779-881): the buffer, the cursor
    and the ring after them. *)
Definition encode_page_levels (cur : Z) (m : mem)
  : option (mem * Z * (Z -> Z)) :=
  if negb (is_dictionary_page (page_type page))
     && negb (num_def_level_bits col =? 0)
     && (num_rep_level_bits col =? 0)
  then encode_levels row_def_levels (num_def_level_bits col) (fun _ => 0) cur m
  else if negb (is_dictionary_page (page_type page))
          && negb (num_rep_level_bits col =? 0)
  then
    match encode_levels (page_levels (rep_values col))
                        (num_rep_level_bits col) (fun _ => 0) cur m with
    | Some (m1, cur1, vs1) =>
        encode_levels (page_levels (def_values col))
                      (num_def_level_bits col) vs1 cur1 m1
    | None => None
    end
  else Some (m, cur, fun _ => 0).

Definition dict_bits : Z :=
  if Type_eqb (physical_type col) BOOLEAN then 1
  else if use_dictionary ck && negb (is_dictionary_page (page_type page))
       then dict_rle_bits ck
       else -1.

(** Validity and index of the value of lane [t] (the lambda of source lines
    917-938). *)
Definition lane_value (cur_val_idx t : Z) : bool * Z :=
  let val_idx_in_block := cur_val_idx + t in
  if is_dictionary_page (page_type page) then
    let is_valid := val_idx_in_block <? num_leaf_values page in
    (is_valid,
     if is_valid then nth (Z.to_nat val_idx_in_block) (dict_data ck) 0
     else val_idx_in_block)
  else
    let val_idx_in_leaf_col := page_start_val page + val_idx_in_block in
    let is_valid :=
      if (val_idx_in_leaf_col <? Z.of_nat (length (leaf_column col)))
         && (val_idx_in_block <? num_leaf_values page)
      then match nth (Z.to_nat val_idx_in_leaf_col) (leaf_column col) None with
           | Some _ => true
           | None => false
           end
      else false in
    (is_valid,
     if use_dictionary ck then val_idx_in_leaf_col - chunk_start_val ck
     else val_idx_in_leaf_col).

Definition leaf_element (val_idx : Z) : element :=
  match nth (Z.to_nat val_idx) (leaf_column col) None with
  | Some e => e
  | None => EInt 0
  end.

(** [ExclusiveSum] over the block: the sum of the values of the lanes
    before [t], and the total. *)
Definition exclusive_sum (x : Z -> Z) (t : Z) : Z :=
  fold_left (fun a l => if l <? t then u32 (a + x l) else a) lanes 0.

Definition block_total (x : Z -> Z) : Z :=
  fold_left (fun a l => u32 (a + x l)) lanes 0.

(** The valid lanes put their dictionary index (or boolean) into the ring
    (source lines 945-957). *)
Definition load_dict_batch (cur_val_idx : Z) (s : page_enc_state_s)
  : page_enc_state_s * Z :=
  let is_valid := fun t => if fst (lane_value cur_val_idx t) then 1 else 0 in
  let rle_numvals0 := rle_numvals s in
  let vals' :=
    for_lanes
      (fun t (vs : Z -> Z) =>
         if fst (lane_value cur_val_idx t) then
           let val_idx := snd (lane_value cur_val_idx t) in
           let v :=
             if Type_eqb (physical_type col) BOOLEAN
             then Z.land (el_int (leaf_element val_idx)) 0xff
             else nth (Z.to_nat val_idx) (dict_index ck) 0 in
           let pos := exclusive_sum is_valid t in
           fun i => if i =? Z.land (rle_numvals0 + pos) (rle_buffer_size - 1)
                    then u16 v else vs i
         else vs) (vals s) in
  ({| rle_out := rle_out s; rle_run := rle_run s; run_val := run_val s;
      rle_pos := rle_pos s; rle_numvals := rle_numvals s;
      rle_lit_count := rle_lit_count s; rle_rpt_count := rle_rpt_count s;
      vals := vals'; out := out s |},
   u32 (rle_numvals0 + block_total is_valid)).

(** [PlainBoolEncode]. *)
Fixpoint PlainBoolEncode_loop (fuel : nat) (numvals : Z) (flush : bool)
    (rle_pos_ dst : Z) (s : page_enc_state_s) (m : mem) : mem * Z * Z :=
  match fuel with
  | O => (m, rle_pos_, dst)
  | S fuel' =>
      if rle_pos_ <? numvals then
        let v := fun t => if rle_pos_ + t <? numvals
                          then ring s (rle_pos_ + t) else 0 in
        let n := Z.min (numvals - rle_pos_) 128 in
        let nbytes := Z.shiftr (n + (if flush then 7 else 0)) 3 in
        if nbytes =? 0 then (m, rle_pos_, dst)
        else
          let v1 := fun t => Z.lor (v t) (Z.shiftl (shuffle_xor v 1 t) 1) in
          let v2 := fun t => Z.lor (v1 t) (Z.shiftl (shuffle_xor v1 2 t) 2) in
          let v3 := fun t => Z.lor (v2 t) (Z.shiftl (shuffle_xor v2 4 t) 4) in
          let m' :=
            apply_stores m
              (flat_map (fun t => if (t <? n) && (Z.land t 7 =? 0)
                                  then [(dst + Z.shiftr t 3, v3 t)] else [])
                        lanes) in
          PlainBoolEncode_loop fuel' numvals flush
            (Z.min (rle_pos_ + nbytes * 8) numvals) (dst + nbytes) s m'
      else (m, rle_pos_, dst)
  end.

Definition PlainBoolEncode (numvals : Z) (flush : bool) (s : page_enc_state_s)
  : page_enc_state_s :=
  let '(m, rle_pos', dst) :=
    PlainBoolEncode_loop (Z.to_nat (numvals - rle_pos s) + 1) numvals flush
                         (rle_pos s) (rle_out s) s (out s) in
  {| rle_out := dst; rle_run := rle_run s; run_val := run_val s;
     rle_pos := rle_pos'; rle_numvals := numvals;
     rle_lit_count := rle_lit_count s; rle_rpt_count := rle_rpt_count s;
     vals := vals s; out := m |}.

(** The PLAIN stores of a batch (source lines 970-1079): every valid lane
    writes its value at the offset given by the scan. *)
Definition plain_batch (cur_val_idx dst : Z) (m : mem) : mem * Z :=
  let dtype_len_out := physical_type_len (physical_type col) (leaf_type col) in
  let len := fun t =>
    if fst (lane_value cur_val_idx t) then
      match physical_type col with
      | BYTE_ARRAY =>
          u32 (dtype_len_out
               + Z.of_nat (length (el_bytes
                                     (leaf_element
                                        (snd (lane_value cur_val_idx t))))))
      | _ => dtype_len_out
      end
    else 0 in
  let stores :=
    flat_map
      (fun t =>
         if fst (lane_value cur_val_idx t) then
           let pos := exclusive_sum len t in
           map (fun ov => (dst + (pos + fst ov), snd ov))
               (plain_stores (physical_type col) (leaf_type col)
                             (ts_scale col) (len t)
                             (leaf_element (snd (lane_value cur_val_idx t))))
         else []) lanes in
  (apply_stores m stores, dst + block_total len).

(** The loop over the leaf values of the page (source lines 913-1087). *)
Fixpoint values_loop (fuel : nat) (cur_val_idx : Z) (cur : Z)
    (s : page_enc_state_s) : option (page_enc_state_s * Z) :=
  if cur_val_idx <? num_leaf_values page then
    match fuel with
    | O => None
    | S fuel' =>
        let nvals := Z.min (num_leaf_values page - cur_val_idx) 128 in
        let cur_val_idx' := u32 (cur_val_idx + nvals) in
        if dict_bits >=? 0 then
          if dict_bits >? 0 then
            let '(s1, rle_numvals') := load_dict_batch cur_val_idx s in
            let flush := cur_val_idx' =? num_leaf_values page in
            if negb enable_bool_rle && Type_eqb (physical_type col) BOOLEAN
            then
              let s2 := PlainBoolEncode rle_numvals' flush s1 in
              values_loop fuel' cur_val_idx' (rle_out s2) s2
            else
              match RleEncode rle_numvals' dict_bits flush s1 with
              | Some s2 => values_loop fuel' cur_val_idx' (rle_out s2) s2
              | None => None
              end
          else values_loop fuel' cur_val_idx' (rle_out s) s
        else
          let '(m', cur') := plain_batch cur_val_idx cur (out s) in
          values_loop fuel' cur_val_idx' cur'
            {| rle_out := rle_out s; rle_run := rle_run s;
               run_val := run_val s; rle_pos := rle_pos s;
               rle_numvals := rle_numvals s;
               rle_lit_count := rle_lit_count s;
               rle_rpt_count := rle_rpt_count s;
               vals := vals s; out := m' |}
    end
  else Some (s, cur).

(** The kernel for one page: the buffer after it and the size of the
    encoded data, stored back as [max_data_size]. *)
Definition gpuEncodePages (m : mem) : option (mem * Z) :=
  let base := page_data page + max_hdr_size page in
  match encode_page_levels base m with
  | None => None
  | Some (m1, cur, vs) =>
      let dst := cur in
      let with_bits :=
        (dict_bits >=? 0) && negb (Type_eqb (physical_type col) BOOLEAN) in
      let s0 :=
        {| rle_out := if with_bits then dst + 1 else dst;
           rle_run := 0; run_val := 0; rle_pos := 0; rle_numvals := 0;
           rle_lit_count := 0; rle_rpt_count := 0;
           vals := vs;
           out := if with_bits then store m1 dst dict_bits else m1 |} in
      match values_loop (Z.to_nat (num_leaf_values page)) 0 cur s0 with
      | None => None
      | Some (s, cur') =>
          let actual_data_size := u32 (cur' - base) in
          Some (out s, actual_data_size)
      end
  end.

End Page.

End Encode.

(** ** Thrift compact protocol writer and [EncodeStatistics] *)

Module Stats.
Import Rle.

(** Modelled from the spec: the type codes of the Thrift compact protocol
    ([ST_FLD_I32], [ST_FLD_I64], [ST_FLD_BINARY], [ST_FLD_STRUCT] are
    defined in a header that is not among the sources). *)
Definition ST_FLD_I32 : Z := 5.
Definition ST_FLD_I64 : Z := 6.
Definition ST_FLD_BINARY : Z := 8.
Definition ST_FLD_STRUCT : Z := 12.

Definition u64 (x : Z) : Z := x mod 2 ^ 64.

(** The loop of [cpw_put_uint32] and [cpw_put_uint64]; a 32-bit value
    takes at most five bytes, a 64-bit value at most ten. *)
Fixpoint cpw_put_loop (fuel : nat) (m : mem) (p v : Z) : mem * Z :=
  match fuel with
  | O => (store m p v, p + 1)
  | S fuel' =>
      if v >? 0x7f
      then cpw_put_loop fuel' (store m p (Z.lor v 0x80)) (p + 1) (Z.shiftr v 7)
      else (store m p v, p + 1)
  end.

Definition cpw_put_uint32 (m : mem) (p v : Z) : mem * Z :=
  cpw_put_loop 4 m p (u32 v).

Definition cpw_put_uint64 (m : mem) (p v : Z) : mem * Z :=
  cpw_put_loop 9 m p (u64 v).

(** [(v ^ -s) * 2 + s] with [s = (v < 0)]. *)
Definition zigzag (v : Z) : Z :=
  let s := if v <? 0 then 1 else 0 in
  Z.lxor v (- s) * 2 + s.

Definition cpw_put_int32 (m : mem) (p v : Z) : mem * Z :=
  cpw_put_uint32 m p (zigzag v).

Definition cpw_put_int64 (m : mem) (p v : Z) : mem * Z :=
  cpw_put_uint64 m p (zigzag v).

Definition cpw_put_fldh (m : mem) (p f cur t : Z) : mem * Z :=
  if (f >? cur) && (f <=? cur + 15)
  then (store m p (Z.lor (Z.shiftl (f - cur) 4) t), p + 1)
  else cpw_put_int32 (store m p t) (p + 1) f.

(** [memcpy] of the bytes [bs] to [p]. *)
Fixpoint write_bytes (m : mem) (p : Z) (bs : list byte) : mem :=
  match bs with
  | [] => m
  | b :: rest => write_bytes (store m p (byte.unsigned b)) (p + 1) rest
  end.

(** [header_encoder]: the write pointer and the last field id, with the
    buffer. *)
Record header_encoder := {
  buffer : mem;
  current_header_ptr : Z;
  current_field_index : Z
}.

Definition encoder_start (m : mem) (header_start : Z) : header_encoder :=
  {| buffer := m; current_header_ptr := header_start;
     current_field_index := 0 |}.

Definition field_int64 (field value : Z) (e : header_encoder)
  : header_encoder :=
  let '(m1, p1) := cpw_put_fldh (buffer e) (current_header_ptr e) field
                                (current_field_index e) ST_FLD_I64 in
  let '(m2, p2) := cpw_put_int64 m1 p1 value in
  {| buffer := m2; current_header_ptr := p2; current_field_index := field |}.

Definition field_binary (field : Z) (value : list byte) (length_ : Z)
    (e : header_encoder) : header_encoder :=
  let '(m1, p1) := cpw_put_fldh (buffer e) (current_header_ptr e) field
                                (current_field_index e) ST_FLD_BINARY in
  let '(m2, p2) := cpw_put_uint32 m1 p1 length_ in
  {| buffer := write_bytes m2 p2 (firstn (Z.to_nat length_) value);
     current_header_ptr := p2 + length_;
     current_field_index := field |}.

(** [end] with the termination flag left at its default writes nothing. *)
Definition encoder_end (e : header_encoder) : mem * Z :=
  (buffer e, current_header_ptr e).

(** The statistics types told apart by [EncodeStatistics]; [dtype_other]
    stands for the types of the [default] case. *)
Inductive statistics_dtype :=
| dtype_bool | dtype_int8 | dtype_int16 | dtype_int32 | dtype_date32
| dtype_float32 | dtype_int64 | dtype_timestamp64 | dtype_float64
| dtype_decimal64 | dtype_decimal128 | dtype_string | dtype_other.

(** [statistics_val]: the sixteen bytes of the union, of which the first
    eight hold [fp_val], and the bytes [str_val] points to. *)
Record statistics_val := {
  raw : list byte;
  str_val : list byte
}.

Record statistics_chunk := {
  null_count : Z;
  has_minmax : bool;
  min_value : statistics_val;
  max_value : statistics_val
}.

Definition is_string (d : statistics_dtype) : bool :=
  match d with dtype_string => true | _ => false end.

Definition is_float32 (d : statistics_dtype) : bool :=
  match d with dtype_float32 => true | _ => false end.

(** The length of a fixed-size value (the [switch] of source lines
    1272-1286). *)
Definition dtype_len (dtype : statistics_dtype) : Z :=
  match dtype with
  | dtype_bool => 1
  | dtype_int8 | dtype_int16 | dtype_int32 | dtype_date32 | dtype_float32 => 4
  | dtype_int64 | dtype_timestamp64 | dtype_float64 | dtype_decimal64 => 8
  | dtype_decimal128 => 16
  | dtype_string | dtype_other => 0
  end.

(** Modelled from the spec: a reader of the fields of a Thrift compact
    struct, for 64-bit integers and binaries with short field headers. *)
Inductive thrift_value :=
| TI64 (v : Z)
| TBinary (bs : list byte).

Definition unzigzag (u : Z) : Z :=
  Z.lxor (Z.shiftr u 1) (- Z.land u 1).

Fixpoint read_struct (fuel : nat) (cur : Z) (bs : list byte)
  : option (list (Z * thrift_value) * list byte) :=
  match fuel, bs with
  | S fuel', b :: rest =>
      let x := byte.unsigned b in
      if x =? 0 then Some ([], rest)
      else
        let delta := Z.shiftr x 4 in
        let ty := Z.land x 15 in
        if delta =? 0 then None
        else if ty =? 6 then
          match RleFormat.read_vlq 10 0 0 rest with
          | Some (u, rest') =>
              match read_struct fuel' (cur + delta) rest' with
              | Some (fs, tl) => Some ((cur + delta, TI64 (unzigzag u)) :: fs, tl)
              | None => None
              end
          | None => None
          end
        else if ty =? 8 then
          match RleFormat.read_vlq 5 0 0 rest with
          | Some (len, rest') =>
              if (length rest' <? Z.to_nat len)%nat then None
              else
                match read_struct fuel' (cur + delta)
                                  (skipn (Z.to_nat len) rest') with
                | Some (fs, tl) =>
                    Some ((cur + delta, TBinary (firstn (Z.to_nat len) rest'))
                            :: fs, tl)
                | None => None
                end
          | None => None
          end
        else None
  | _, _ => None
  end.

Section Encode.

(** The conversion of a double (eight bytes) to a float (four bytes) is
    left to the hardware. *)
Variable double_to_float : list byte -> list byte.

(** The bytes [vmin] or [vmax] points to, and their length. *)
Definition value_of (dtype : statistics_dtype) (v : statistics_val)
  : list byte * Z :=
  if is_string dtype then (str_val v, Z.of_nat (length (str_val v)))
  else if is_float32 dtype
       then (double_to_float (firstn 8 (raw v)), dtype_len dtype)
       else (raw v, dtype_len dtype).

Definition EncodeStatistics (m : mem) (start : Z) (s : statistics_chunk)
    (dtype : statistics_dtype) : mem * Z :=
  let encoder := encoder_start m start in
  let encoder := field_int64 3 (null_count s) encoder in
  let encoder :=
    if has_minmax s then
      let '(vmin, lmin) := value_of dtype (min_value s) in
      let '(vmax, lmax) := value_of dtype (max_value s) in
      field_binary 6 vmin lmin (field_binary 5 vmax lmax encoder)
    else encoder in
  encoder_end encoder.

(** The fields a reader should find: the null count, then the maximum and
    the minimum when they are tracked. *)
Definition stat_fields (s : statistics_chunk) (dtype : statistics_dtype)
  : list (Z * thrift_value) :=
  (3, TI64 (null_count s))
  :: (if has_minmax s then
        [ (5, TBinary (firstn (Z.to_nat (snd (value_of dtype (max_value s))))
                              (fst (value_of dtype (max_value s)))));
          (6, TBinary (firstn (Z.to_nat (snd (value_of dtype (min_value s))))
                              (fst (value_of dtype (min_value s))))) ]
      else []).

(** The bytes of a statistics structure, field after field. *)
Definition stat_bytes (s : statistics_chunk) (dtype : statistics_dtype)
  : list byte :=
  [byte.of_Z 0x36] ++ RleFormat.vlq_bytes 9 (u64 (zigzag (null_count s)))
  ++ (if has_minmax s then
        let vmax := value_of dtype (max_value s) in
        let vmin := value_of dtype (min_value s) in
        [byte.of_Z 0x28] ++ RleFormat.vlq_bytes 4 (u32 (snd vmax))
        ++ firstn (Z.to_nat (snd vmax)) (fst vmax)
        ++ [byte.of_Z 0x18] ++ RleFormat.vlq_bytes 4 (u32 (snd vmin))
        ++ firstn (Z.to_nat (snd vmin)) (fst vmin)
      else []).

(** The statistics structure is well formed: the union has its sixteen
    bytes, the conversion to float gives four bytes, and the counts fit
    their types. *)
Definition stats_ok (s : statistics_chunk) : Prop :=
  0 <= null_count s < 2 ^ 32
  /\ length (raw (min_value s)) = 16%nat
  /\ length (raw (max_value s)) = 16%nat
  /\ Z.of_nat (length (str_val (min_value s))) < 2 ^ 32
  /\ Z.of_nat (length (str_val (max_value s))) < 2 ^ 32
  /\ (forall bs, length (double_to_float bs) = 4%nat).

End Encode.

(** The bytes [bs] lie in the buffer from [start] to [p]. *)
Definition written (m : mem) (start p : Z) (bs : list byte) : Prop :=
  p = start + Z.of_nat (length bs) /\ load_bytes m start (length bs) = bs.


(** An example: the statistics of an INT32 column with minimum 1 and
    maximum 258, and a stand-in for the conversion to float. *)
Definition ex_narrow (bs : list byte) : list byte :=
  [Byte.x00; Byte.x00; Byte.x00; Byte.x00].

Definition ex_val (v : Z) : statistics_val :=
  {| raw := LittleEndianList.le_split 16 v; str_val := [] |}.

Definition ex_stats : statistics_chunk :=
  {| null_count := 2; has_minmax := true;
     min_value := ex_val 1; max_value := ex_val 258 |}.

End Stats.

(** ** Example chunks for the planner *)

Module PlannerExamples.
Import Planner.

(** A chunk of 100 values in two fragments, with a caller's maximum of
    1 MiB, and the state of the packing loop after the first fragment. *)
Definition ex_col : column_desc :=
  {| stats_is_string := false; stats_ge_int64 := false;
     def_level_bits := 0; rep_level_bits := 0 |}.

Definition ex_chunk : EncColumnChunk :=
  {| ck_stat_size := 0; ck_start_row := 0; use_dictionary := false;
     uniq_data_size := 0; num_dict_entries := 0;
     ck_num_rows := 100; ck_num_values := 100;
     fragments :=
       [ {| fragment_data_size := 136; num_values := 34;
            num_leaf_values := 34; num_rows := 34; num_dict_vals := 0 |};
         {| fragment_data_size := 264; num_values := 66;
            num_leaf_values := 66; num_rows := 66; num_dict_vals := 0 |} ];
     stats := None; dict_rle_bits := 0 |}.

Definition ex_params : params :=
  {| max_page_comp_data_size := 0; max_page_size_bytes := 1024 * 1024;
     max_page_size_rows := 20000; block_chunk_id := 0 |}.

Definition ex_state : loop_state :=
  body ex_col ex_chunk ex_params 0
    (set_frag (nth 0 (fragments ex_chunk) (frag_g (init_state ex_chunk)))
              (dict_page ex_chunk ex_params (init_state ex_chunk))).

End PlannerExamples.

(** ** Example chunks for the planner and the page encoder *)

Module EncodeExamples.
Import Rle.

(** The page of the encoder for a data page laid out by the planner: the
    rows and values of the page start at [first]. *)
Definition page_of (p : Planner.EncPage) (first : Z) : Encode.page_view :=
  {| Encode.page_type := Encode.DATA_PAGE;
     Encode.page_data := Planner.page_data p;
     Encode.max_hdr_size := Planner.max_hdr_size p;
     Encode.start_row := first;
     Encode.num_rows := Planner.pg_num_rows p;
     Encode.num_values := Planner.pg_num_values p;
     Encode.num_leaf_values := Planner.pg_num_leaf_values p;
     Encode.page_start_val := first |}.

Definition empty_page : Planner.EncPage :=
  {| Planner.page_data := 0; Planner.compressed_data := 0;
     Planner.num_fragments := 0; Planner.page_type := Planner.INDEX_PAGE;
     Planner.chunk_id := 0; Planner.hdr_size := 0; Planner.max_hdr_size := 0;
     Planner.max_data_size := 0; Planner.start_row := 0;
     Planner.pg_num_rows := 0; Planner.pg_num_leaf_values := 0;
     Planner.pg_num_values := 0 |}.

Definition flat_level : Encode.column_level :=
  {| Encode.cl_is_valid := fun _ => true; Encode.cl_is_struct := false;
     Encode.cl_offset := 0 |}.

(** *** A dictionary-encoded chunk

    A flat INT32 column without nulls: 217 rows in two fragments of 200 and
    17 rows, 200 distinct values (eight bits per dictionary index), and a
    page size limit of 400 bytes, so that the second fragment gets a page of
    its own. *)
Definition dict_col : Planner.column_desc :=
  {| Planner.stats_is_string := false; Planner.stats_ge_int64 := false;
     Planner.def_level_bits := 0; Planner.rep_level_bits := 0 |}.

Definition dict_chunk : Planner.EncColumnChunk :=
  {| Planner.ck_stat_size := 0; Planner.ck_start_row := 0;
     Planner.use_dictionary := true;
     Planner.uniq_data_size := 800; Planner.num_dict_entries := 200;
     Planner.ck_num_rows := 217; Planner.ck_num_values := 217;
     Planner.fragments :=
       [ {| Planner.fragment_data_size := 800; Planner.num_values := 200;
            Planner.num_leaf_values := 200; Planner.num_rows := 200;
            Planner.num_dict_vals := 200 |};
         {| Planner.fragment_data_size := 68; Planner.num_values := 17;
            Planner.num_leaf_values := 17; Planner.num_rows := 17;
            Planner.num_dict_vals := 0 |} ];
     Planner.stats := None; Planner.dict_rle_bits := 8 |}.

Definition dict_params : Planner.params :=
  {| Planner.max_page_comp_data_size := 0;
     Planner.max_page_size_bytes := 400;
     Planner.max_page_size_rows := 20000; Planner.block_chunk_id := 0 |}.

(** The last data page of the layout (after the dictionary page and the
    page of the first fragment). *)
Definition dict_last_page : Planner.EncPage :=
  match Planner.gpuInitPages dict_col dict_chunk dict_params with
  | Some L => nth 2 (Planner.out_pages L) empty_page
  | None => empty_page
  end.

(** The column values: the first 200 are distinct, the last 17 repeat
    dictionary entries 0, 11, 22, ... *)
Definition dict_indices : list Z :=
  map Z.of_nat (seq 0 200) ++ map (fun i => Z.of_nat (11 * i)) (seq 0 17).

Definition dict_view : Encode.column_view :=
  {| Encode.physical_type := Encode.INT32;
     Encode.leaf_type := Encode.OTHER_TYPE;
     Encode.ts_scale := 0;
     Encode.num_def_level_bits := 0; Encode.num_rep_level_bits := 0;
     Encode.col_num_rows := 217;
     Encode.nullability := [false];
     Encode.parent_column := [flat_level];
     Encode.level_offsets := [];
     Encode.rep_values := []; Encode.def_values := [];
     Encode.leaf_column :=
       map (fun i => Some (Encode.EInt (1000 + i))) dict_indices |}.

Definition dict_chunk_view : Encode.chunk_view :=
  {| Encode.use_dictionary := true; Encode.dict_rle_bits := 8;
     Encode.dict_data := map Z.of_nat (seq 0 200);
     Encode.dict_index := dict_indices;
     Encode.chunk_start_val := 0 |}.

(** The bytes the encoder writes for the last page. *)
Definition dict_last_page_size : option Z :=
  option_map snd
    (Encode.gpuEncodePages false dict_view dict_chunk_view
       (page_of dict_last_page 200) (fun _ => Byte.x00)).

(** *** A nullable chunk

    A flat nullable INT32 column without nulls in it: 16 rows in two
    fragments of 8 rows and 32 bytes each, and a page size limit of 64
    bytes. *)
Definition null_col : Planner.column_desc :=
  {| Planner.stats_is_string := false; Planner.stats_ge_int64 := false;
     Planner.def_level_bits := 1; Planner.rep_level_bits := 0 |}.

Definition null_chunk : Planner.EncColumnChunk :=
  {| Planner.ck_stat_size := 0; Planner.ck_start_row := 0;
     Planner.use_dictionary := false;
     Planner.uniq_data_size := 0; Planner.num_dict_entries := 0;
     Planner.ck_num_rows := 16; Planner.ck_num_values := 16;
     Planner.fragments :=
       [ {| Planner.fragment_data_size := 32; Planner.num_values := 8;
            Planner.num_leaf_values := 8; Planner.num_rows := 8;
            Planner.num_dict_vals := 0 |};
         {| Planner.fragment_data_size := 32; Planner.num_values := 8;
            Planner.num_leaf_values := 8; Planner.num_rows := 8;
            Planner.num_dict_vals := 0 |} ];
     Planner.stats := None; Planner.dict_rle_bits := 0 |}.

Definition null_params : Planner.params :=
  {| Planner.max_page_comp_data_size := 0;
     Planner.max_page_size_bytes := 64;
     Planner.max_page_size_rows := 20000; Planner.block_chunk_id := 0 |}.

Definition null_page : Planner.EncPage :=
  match Planner.gpuInitPages null_col null_chunk null_params with
  | Some L => nth 0 (Planner.out_pages L) empty_page
  | None => empty_page
  end.

Definition null_view : Encode.column_view :=
  {| Encode.physical_type := Encode.INT32;
     Encode.leaf_type := Encode.OTHER_TYPE;
     Encode.ts_scale := 0;
     Encode.num_def_level_bits := 1; Encode.num_rep_level_bits := 0;
     Encode.col_num_rows := 16;
     Encode.nullability := [true];
     Encode.parent_column := [flat_level];
     Encode.level_offsets := [];
     Encode.rep_values := []; Encode.def_values := [];
     Encode.leaf_column :=
       map (fun i => Some (Encode.EInt (Z.of_nat i))) (seq 0 16) |}.

Definition plain_chunk_view : Encode.chunk_view :=
  {| Encode.use_dictionary := false; Encode.dict_rle_bits := 0;
     Encode.dict_data := []; Encode.dict_index := [];
     Encode.chunk_start_val := 0 |}.

Definition null_page_size : option Z :=
  option_map snd
    (Encode.gpuEncodePages false null_view plain_chunk_view
       (page_of null_page 0) (fun _ => Byte.x00)).

End EncodeExamples.

(** ** Repetition and definition levels: [get_dremel_data] *)

Module Dremel.

(** A column view: a leaf, a list with its offsets and child, or a struct
    of which only the first child is followed.  Each has the offset and the
    size of the view and a validity mask ([None]: not nullable). *)
Inductive column :=
| LeafCol (offset size : Z) (null_mask : option (list bool))
| ListCol (offset size : Z) (null_mask : option (list bool))
          (offsets : list Z) (child : column)
| StructCol (offset size : Z) (null_mask : option (list bool))
            (child0 : column).

Definition col_offset (c : column) : Z :=
  match c with
  | LeafCol o _ _ | ListCol o _ _ _ _ | StructCol o _ _ _ => o
  end.

Definition col_size (c : column) : Z :=
  match c with
  | LeafCol _ s _ | ListCol _ s _ _ _ | StructCol _ s _ _ => s
  end.

Definition col_null_mask (c : column) : option (list bool) :=
  match c with
  | LeafCol _ _ m | ListCol _ _ m _ _ | StructCol _ _ m _ => m
  end.

Definition is_nested (c : column) : bool :=
  match c with LeafCol _ _ _ => false | _ => true end.

(** [not col.nullable() or bit_is_set(col.null_mask(), i)]. *)
Definition valid_at (c : column) (i : Z) : bool :=
  match col_null_mask c with
  | None => true
  | Some m => nth (Z.to_nat i) m false
  end.

(** [get_list_level]: down the structs. *)
Fixpoint get_list_level (c : column) : column :=
  match c with
  | StructCol _ _ _ child0 => get_list_level child0
  | _ => c
  end.

Definition list_offsets (c : column) : list Z :=
  match get_list_level c with
  | ListCol _ _ _ offs _ => offs
  | _ => []
  end.

Definition at_ (l : list Z) (i : Z) : Z := nth (Z.to_nat i) l 0.

(** [def_level_fn]: the definition level of row [i] of a nesting level. *)
Fixpoint def_level_fn (parent_col : column) (d_nullability : list bool)
    (l : nat) (def : Z) (i : Z) : Z :=
  match parent_col with
  | StructCol _ _ _ child0 =>
      if nth l d_nullability false then
        if valid_at parent_col i
        then def_level_fn child0 d_nullability (S l) (def + 1) i
        else def
      else def_level_fn child0 d_nullability (S l) def i
  | _ =>
      if nth l d_nullability false then
        if valid_at parent_col i then def + 1 else def
      else def
  end.

(** [add_def_at_level]: the contribution of a nesting level and the index
    of the next level in [nullability]. *)
Fixpoint add_def_at_level (col : column) (nullability : list bool)
    (curr_nesting_level_idx : nat) (def : Z) : Z * nat :=
  match col with
  | StructCol _ _ _ child0 =>
      add_def_at_level child0 nullability (S curr_nesting_level_idx)
        (def + (if nth curr_nesting_level_idx nullability false then 1 else 0))
  | _ =>
      (def + (if nth curr_nesting_level_idx nullability false then 2 else 1),
       S curr_nesting_level_idx)
  end.

(** A nesting level: its column, its entry in [def_at_level] (before the
    scan) and its entry in [start_at_sub_level]. *)
Record nesting_level := {
  level_col : column;
  def_contribution : Z;
  start_at_sub_level : nat
}.

(** The loop that collects the nesting levels (source lines 1641-1657);
    the fuel is the depth of the column. *)
Fixpoint collect_levels (fuel : nat) (curr_col : column)
    (nullability : list bool) (idx : nat) : list nesting_level :=
  match fuel with
  | O => []
  | S fuel' =>
      if is_nested curr_col then
        let '(def, idx') := add_def_at_level curr_col nullability idx 0 in
        {| level_col := curr_col; def_contribution := def;
           start_at_sub_level := idx |}
        :: match get_list_level curr_col with
           | ListCol _ _ _ _ child =>
               if negb (is_nested child) then
                 let '(def2, _) := add_def_at_level child nullability idx' 0 in
                 [{| level_col := child; def_contribution := def2;
                     start_at_sub_level := idx' |}]
               else collect_levels fuel' child nullability idx'
           | _ => []
           end
      else []
  end.

Fixpoint depth (c : column) : nat :=
  match c with
  | LeafCol _ _ _ => 1
  | ListCol _ _ _ _ child => S (depth child)
  | StructCol _ _ _ child0 => S (depth child0)
  end.

(** [thrust::exclusive_scan]. *)
Fixpoint exclusive_scan (acc : Z) (l : list Z) : list Z :=
  match l with
  | [] => []
  | x :: rest => acc :: exclusive_scan (acc + x) rest
  end.

(** The offset and the end of each level of a sliced column (the
    single-thread kernel of source lines 1670-1694). *)
Fixpoint level_ranges (c : column) (off end_ : Z) : list (Z * Z) :=
  match c with
  | ListCol _ _ _ offs child =>
      let off' := at_ offs off in
      let end' := at_ offs end_ in
      (off', end') :: level_ranges child off' end'
  | StructCol _ _ _ child0 => level_ranges child0 off end_
  | LeafCol _ _ _ => []
  end.

Definition column_ranges (c : column) : list (Z * Z) :=
  (col_offset c, col_offset c + col_size c)
  :: level_ranges c (col_offset c) (col_offset c + col_size c).

Definition counting (start end_ : Z) : list Z :=
  map (fun i => start + Z.of_nat i) (seq 0 (Z.to_nat (end_ - start))).

(** [get_empties]: the indices of the empty lists of a level and their
    offsets. *)
Definition get_empties (col : column) (start end_ : Z) : list Z * list Z :=
  let d_off := list_offsets col in
  let empties_idx :=
    filter (fun i => at_ d_off i =? at_ d_off (i + 1)) (counting start end_) in
  let empties := map (fun i => at_ d_off i) empties_idx in
  (empties, empties_idx).

(** [thrust::merge_by_key] on keys with their values: the values come out
    in the order of the keys, and for equal keys those of the first range
    come first. *)
Fixpoint merge_by_key {V} (l1 : list (Z * V)) (l2 : list (Z * V)) : list V :=
  let fix merge_aux (l2 : list (Z * V)) : list V :=
    match l1, l2 with
    | [], _ => map snd l2
    | _, [] => map snd l1
    | (k1, v1) :: l1', (k2, v2) :: l2' =>
        if k2 <? k1 then v2 :: merge_aux l2'
        else v1 :: merge_by_key l1' l2
    end in
  merge_aux l2.

(** [thrust::scatter] of a constant: the positions of [idx] receive [v]. *)
Fixpoint set_nth (l : list Z) (n : nat) (v : Z) : list Z :=
  match l, n with
  | [], _ => []
  | _ :: rest, O => v :: rest
  | x :: rest, S n' => x :: set_nth rest n' v
  end.

Definition scatter (v : Z) (idx : list Z) (l : list Z) : list Z :=
  fold_left (fun l i => set_nth l (Z.to_nat i) v) idx l.

(** The result of [get_dremel_data]. *)
Record dremel_data := {
  dremel_offsets : list Z;
  rep_level : list Z;
  def_level : list Z;
  leaf_data_size : Z
}.

Section Levels.

Variable h_col : column.
Variable nullability : list bool.

Definition nesting_levels : list nesting_level :=
  collect_levels (depth h_col) h_col nullability 0.

Definition def_at_level : list Z :=
  exclusive_scan 0 (map def_contribution nesting_levels).

Definition column_offsets : list Z := map fst (column_ranges h_col).
Definition column_ends : list Z := map snd (column_ranges h_col).

Definition level_at (level : nat) : nesting_level :=
  nth level nesting_levels
      {| level_col := LeafCol 0 0 None; def_contribution := 0;
         start_at_sub_level := 0 |}.

(** The definition level of row [i] of level [level]. *)
Definition level_def (level : nat) (i : Z) : Z :=
  def_level_fn (level_col (level_at level)) nullability
               (start_at_sub_level (level_at level))
               (nth level def_at_level 0) i.

(** The scan of the flags of the empty lists of a level (source lines
    1778-1785 and 1855-1862). *)
Definition scan_out (level : nat) : list Z :=
  let off := list_offsets (level_col (level_at level)) in
  let size := Z.of_nat (length off) in
  let first := nth level column_offsets 0 in
  let offset_size_at_level := nth level column_ends 0 - first + 1 in
  exclusive_scan 0
    (map (fun i => if (i + 1 <? size) && (at_ off i =? at_ off (i + 1))
                   then 1 else 0)
         (counting first (first + offset_size_at_level))).

(** The state between two merges: the offsets into the level values, and
    the level values. *)
Record merge_state := {
  new_offsets : list Z;
  cur_rep : list Z;
  cur_def : list Z
}.

(** The merge of the leaf with the level above it (source lines
    1723-1806). *)
Definition merge_leaf : merge_state :=
  let n := length nesting_levels in
  let level := (n - 2)%nat in
  let off := list_offsets (level_col (level_at level)) in
  let first := nth level column_offsets 0 in
  let '(empties, empties_idx) :=
    get_empties (level_col (level_at level)) first (nth level column_ends 0) in
  let parent :=
    combine empties
            (map (fun i => (Z.of_nat level, level_def level i)) empties_idx) in
  let child_idx :=
    counting (nth (S level) column_offsets 0) (nth (S level) column_ends 0) in
  let child :=
    combine child_idx
            (map (fun i => (Z.of_nat (n - 1), level_def (S level) i))
                 child_idx) in
  let merged := merge_by_key parent child in
  let new_off :=
    map (fun '(i, s) => at_ off (first + Z.of_nat i) - at_ off first + s)
        (combine (seq 0 (length (scan_out level))) (scan_out level)) in
  {| new_offsets := new_off;
     cur_rep := scatter (Z.of_nat level) (removelast new_off)
                        (map fst merged);
     cur_def := map snd merged |}.

(** The merge of level [level] with the levels below it (the body of the
    loop of source lines 1810-1889). *)
Definition merge_level (level : nat) (s : merge_state) : merge_state :=
  let off := list_offsets (level_col (level_at level)) in
  let first := nth level column_offsets 0 in
  let '(empties, empties_idx) :=
    get_empties (level_col (level_at level)) first (nth level column_ends 0) in
  let child_start := nth (S level) column_offsets 0 in
  let offset_transformer := fun x => at_ (new_offsets s) (x - child_start) in
  let parent :=
    combine (map offset_transformer empties)
            (map (fun i => (Z.of_nat level, level_def level i)) empties_idx) in
  let child :=
    combine (counting 0 (Z.of_nat (length (cur_rep s))))
            (combine (cur_rep s) (cur_def s)) in
  let merged := merge_by_key parent child in
  let new_off :=
    map (fun '(i, sc) => offset_transformer (at_ off (first + Z.of_nat i)) + sc)
        (combine (seq 0 (length (scan_out level))) (scan_out level)) in
  {| new_offsets := new_off;
     cur_rep := scatter (Z.of_nat level) (removelast new_off)
                        (map fst merged);
     cur_def := map snd merged |}.

(** The loop from level [size - 3] down to level 0. *)
Fixpoint merge_up (levels : nat) (s : merge_state) : merge_state :=
  match levels with
  | O => s
  | S level => merge_up level (merge_level level s)
  end.

Definition get_dremel_data : dremel_data :=
  let s := merge_up (length nesting_levels - 2) merge_leaf in
  let level_vals_size := Z.to_nat (last (new_offsets s) 0) in
  {| dremel_offsets := new_offsets s;
     rep_level := firstn level_vals_size (cur_rep s);
     def_level := firstn level_vals_size (cur_def s);
     leaf_data_size := last column_ends 0 - last column_offsets 0 |}.

End Levels.

(** The column [[], [[], [1, 2, 3], [4, 5]], [[]]] of type
    [List<List<int>>]: three rows, four inner lists, five values; no level
    is nullable. *)
Definition ex_col : column :=
  ListCol 0 3 None [0; 0; 3; 4]
    (ListCol 0 4 None [0; 0; 3; 5; 5] (LeafCol 0 5 None)).

Definition ex_nullability : list bool := [false; false; false].

(** The levels as the Dremel encoding defines them for a value of type
    [List<List<int>>] without nulls: an empty outer list gives one slot of
    definition level 0, an empty inner list one slot of level 1, a value a
    slot of level 2; the repetition level of a slot is 0 when it starts a
    row, 1 when it starts an inner list of the same row, 2 when it continues
    an inner list. *)
Definition inner_levels (first_rep : Z) (inner : list Z) : list (Z * Z) :=
  match inner with
  | [] => [(first_rep, 1)]
  | _ :: rest => (first_rep, 2) :: map (fun _ => (2, 2)) rest
  end.

Definition row_levels (row : list (list Z)) : list (Z * Z) :=
  match row with
  | [] => [(0, 0)]
  | inner :: rest =>
      inner_levels 0 inner ++ flat_map (inner_levels 1) rest
  end.

Definition spec_levels (rows : list (list (list Z))) : list (Z * Z) :=
  flat_map row_levels rows.

Definition ex_rows : list (list (list Z)) :=
  [ []; [ []; [1; 2; 3]; [4; 5] ]; [ [] ] ].

End Dremel.

(** ** Page headers: [header_encoder] and [gpuEncodePageHeaders] *)

Module Headers.
Import Rle Stats.

(** Conversion to [int32_t]. *)
Definition s32 (x : Z) : Z := (x + 2 ^ 31) mod 2 ^ 32 - 2 ^ 31.

(** The methods of [header_encoder] that [EncodeStatistics] does not
    use. *)
Definition field_struct_begin (field : Z) (e : header_encoder)
  : header_encoder :=
  let '(m1, p1) := cpw_put_fldh (buffer e) (current_header_ptr e) field
                                (current_field_index e) ST_FLD_STRUCT in
  {| buffer := m1; current_header_ptr := p1; current_field_index := 0 |}.

Definition field_struct_end (field : Z) (e : header_encoder)
  : header_encoder :=
  {| buffer := store (buffer e) (current_header_ptr e) 0;
     current_header_ptr := current_header_ptr e + 1;
     current_field_index := field |}.

Definition field_int32 (field value : Z) (e : header_encoder)
  : header_encoder :=
  let '(m1, p1) := cpw_put_fldh (buffer e) (current_header_ptr e) field
                                (current_field_index e) ST_FLD_I32 in
  let '(m2, p2) := cpw_put_int32 m1 p1 (s32 value) in
  {| buffer := m2; current_header_ptr := p2; current_field_index := field |}.

(** [end]: a zero byte is written when the termination flag is false. *)
Definition encoder_end_flag (termination_flag : bool) (e : header_encoder)
  : mem * Z :=
  if termination_flag then (buffer e, current_header_ptr e)
  else (store (buffer e) (current_header_ptr e) 0, current_header_ptr e + 1).

Definition set_ptr (m : mem) (ptr : Z) (e : header_encoder) : header_encoder :=
  {| buffer := m; current_header_ptr := ptr;
     current_field_index := current_field_index e |}.

(** The values of the enumerations [PageType] and [Encoding] of the Parquet
    format (declared in a header that is not among the sources). *)
Definition page_type_code (t : Planner.PageType) : Z :=
  match t with
  | Planner.DATA_PAGE => 0
  | Planner.INDEX_PAGE => 1
  | Planner.DICTIONARY_PAGE => 2
  end.

Inductive Encoding := PLAIN | PLAIN_DICTIONARY | RLE.

Definition encoding_code (e : Encoding) : Z :=
  match e with PLAIN => 0 | PLAIN_DICTIONARY => 2 | RLE => 3 end.

(** The fields of [EncColumnChunk] and of the column that the kernel
    reads. *)
Record chunk_view := {
  is_compressed : bool;
  compressed_bfr : Z;
  uncompressed_bfr : Z;
  use_dictionary : bool;
  num_dict_entries : Z;
  is_boolean : bool;                       (* col.physical_type == BOOLEAN *)
  stats_dtype : statistics_dtype
}.

(** What the kernel stores back: the buffer, the page and, for the first
    page of a chunk with statistics, the size of the chunk statistics. *)
Record header_result := {
  res_mem : mem;
  res_page : Planner.EncPage;
  res_ck_stat_size : option Z
}.

Section Kernel.

(** [enable_bool_rle] is a compile-time constant; the conversion of a
    double to a float is left to the hardware. *)
Variable enable_bool_rle : bool.
Variable double_to_float : list byte -> list byte.

Variable ck_g : chunk_view.

(** The encoding announced in the header (source lines 1354-1364). *)
Definition page_encoding (page_type : Planner.PageType) : Encoding :=
  let dict :=
    match page_type with Planner.DICTIONARY_PAGE => true | _ => false end
    || use_dictionary ck_g in
  if enable_bool_rle then
    if is_boolean ck_g then RLE
    else if dict then PLAIN_DICTIONARY else PLAIN
  else if dict then PLAIN_DICTIONARY else PLAIN.

(** The chunk statistics, written by the block of the first page of the
    chunk when there are any (source lines 1339-1344). *)
Definition chunk_statistics (first_page : bool)
    (chunk_stats : option statistics_chunk) (m : mem) : mem * option Z :=
  match chunk_stats with
  | Some cs =>
      if first_page then
        let hdr_start :=
          if is_compressed ck_g then compressed_bfr ck_g
          else uncompressed_bfr ck_g in
        let '(m', hdr_end) :=
          EncodeStatistics double_to_float m hdr_start cs (stats_dtype ck_g) in
        (m', Some (u32 (hdr_end - hdr_start)))
      else (m, None)
  | None => (m, None)
  end.

(** Where the header of a page starts. *)
Definition hdr_start_of (page_g : Planner.EncPage) : Z :=
  if is_compressed ck_g then Planner.compressed_data page_g
  else Planner.page_data page_g.

(** The size announced as compressed size, which also becomes the
    [max_data_size] of a compressed page. *)
Definition compressed_page_size_of (page_g : Planner.EncPage)
    (bytes_written : Z) : Z :=
  if is_compressed ck_g then u32 bytes_written
  else Planner.max_data_size page_g.

(** The header itself (source lines 1353-1392): the encoder after the last
    field. *)
Definition encode_header (page_g : Planner.EncPage) (bytes_written : Z)
    (page_stats : option statistics_chunk) (m : mem) : mem * Z :=
  let uncompressed_page_size := Planner.max_data_size page_g in
  let compressed_page_size := compressed_page_size_of page_g bytes_written in
  let page_type := Planner.page_type page_g in
  let encoding := page_encoding page_type in
  let encoder := encoder_start m (hdr_start_of page_g) in
  let encoder := field_int32 1 (page_type_code page_type) encoder in
  let encoder := field_int32 2 uncompressed_page_size encoder in
  let encoder := field_int32 3 compressed_page_size encoder in
  let encoder :=
    match page_type with
    | Planner.DATA_PAGE =>
        let encoder := field_struct_begin 5 encoder in
        let encoder := field_int32 1 (Planner.pg_num_values page_g) encoder in
        let encoder := field_int32 2 (encoding_code encoding) encoder in
        let encoder := field_int32 3 (encoding_code RLE) encoder in
        let encoder := field_int32 4 (encoding_code RLE) encoder in
        let encoder :=
          match page_stats with
          | Some ps =>
              let encoder := field_struct_begin 5 encoder in
              let '(m', p') :=
                EncodeStatistics double_to_float (buffer encoder)
                                 (current_header_ptr encoder) ps
                                 (stats_dtype ck_g) in
              field_struct_end 5 (set_ptr m' p' encoder)
          | None => encoder
          end in
        field_struct_end 5 encoder
    | _ =>
        let encoder := field_struct_begin 7 encoder in
        let encoder := field_int32 1 (num_dict_entries ck_g) encoder in
        let encoder := field_int32 2 (encoding_code encoding) encoder in
        field_struct_end 7 encoder
    end in
  encoder_end_flag false encoder.

(** The kernel for one page (lane 0 of block [blockIdx.x]);
    [bytes_written] is [comp_stat[blockIdx.x].bytes_written], [page_stats]
    is [None] when the span of page statistics is empty and [chunk_stats] is
    [None] for a null pointer. *)
Definition gpuEncodePageHeaders (page_g : Planner.EncPage)
    (first_page : bool) (bytes_written : Z)
    (page_stats chunk_stats : option statistics_chunk) (m : mem)
  : header_result :=
  let '(m0, stat_size) := chunk_statistics first_page chunk_stats m in
  let '(m1, hdr_end) := encode_header page_g bytes_written page_stats m0 in
  {| res_mem := m1;
     res_page :=
       {| Planner.page_data := Planner.page_data page_g;
          Planner.compressed_data := Planner.compressed_data page_g;
          Planner.num_fragments := Planner.num_fragments page_g;
          Planner.page_type := Planner.page_type page_g;
          Planner.chunk_id := Planner.chunk_id page_g;
          Planner.hdr_size := u32 (hdr_end - hdr_start_of page_g);
          Planner.max_hdr_size := Planner.max_hdr_size page_g;
          Planner.max_data_size := compressed_page_size_of page_g bytes_written;
          Planner.start_row := Planner.start_row page_g;
          Planner.pg_num_rows := Planner.pg_num_rows page_g;
          Planner.pg_num_leaf_values := Planner.pg_num_leaf_values page_g;
          Planner.pg_num_values := Planner.pg_num_values page_g |};
     res_ck_stat_size := stat_size |}.

End Kernel.

(** The writer went from [start] in [m] to the pair [r] of a buffer and a
    pointer: the bytes [bs] lie between [start] and the pointer, and the
    buffer is [m] everywhere else. *)
Definition wrote (m : mem) (start : Z) (r : mem * Z) (bs : list byte) : Prop :=
  snd r = start + Z.of_nat (length bs)
  /\ load_bytes (fst r) start (length bs) = bs
  /\ forall x, x < start \/ snd r <= x -> fst r x = m x.

(** A reader of the Thrift compact protocol for the field types the writer
    uses (32- and 64-bit integers, binaries, structures); it follows the
    protocol, not a function of the sources.  A field header holds the
    difference to the previous field id in its high four bits, or zero
    there and the field id after it. *)
#[local] Set Warnings "-register-all".

Inductive tvalue :=
| TInt (v : Z)
| TBytes (bs : list byte)
| TStruct (fields : list (Z * tvalue)).

Definition read_value (ty : Z) (rest : list byte)
    (nested : list byte -> option (list (Z * tvalue) * list byte))
  : option (tvalue * list byte) :=
  if ty =? ST_FLD_I32 then
    match RleFormat.read_vlq 5 0 0 rest with
    | Some (u, rest') => Some (TInt (unzigzag u), rest')
    | None => None
    end
  else if ty =? ST_FLD_I64 then
    match RleFormat.read_vlq 10 0 0 rest with
    | Some (u, rest') => Some (TInt (unzigzag u), rest')
    | None => None
    end
  else if ty =? ST_FLD_BINARY then
    match RleFormat.read_vlq 5 0 0 rest with
    | Some (len, rest') =>
        if (length rest' <? Z.to_nat len)%nat then None
        else Some (TBytes (firstn (Z.to_nat len) rest'),
                   skipn (Z.to_nat len) rest')
    | None => None
    end
  else if ty =? ST_FLD_STRUCT then
    match nested rest with
    | Some (fs, rest') => Some (TStruct fs, rest')
    | None => None
    end
  else None.

Fixpoint read_fields (fuel : nat) (cur : Z) (bs : list byte)
  : option (list (Z * tvalue) * list byte) :=
  match fuel, bs with
  | S fuel', b :: rest =>
      let x := byte.unsigned b in
      if x =? 0 then Some ([], rest)
      else
        match (if Z.shiftr x 4 =? 0 then
                 match RleFormat.read_vlq 5 0 0 rest with
                 | Some (u, rest') => Some (unzigzag u, rest')
                 | None => None
                 end
               else Some (cur + Z.shiftr x 4, rest)) with
        | Some (f, rest1) =>
            match read_value (Z.land x 15) rest1 (read_fields fuel' 0) with
            | Some (v, rest2) =>
                match read_fields fuel' f rest2 with
                | Some (fs, tl) => Some ((f, v) :: fs, tl)
                | None => None
                end
            | None => None
            end
        | None => None
        end
  | _, _ => None
  end.

(** The fields a reader should find in the header of a page. *)
Section Expected.

Variable enable_bool_rle : bool.
Variable double_to_float : list byte -> list byte.
Variable ck_g : chunk_view.

Definition stat_tree (s : statistics_chunk) : list (Z * tvalue) :=
  (3, TInt (null_count s))
  :: (if has_minmax s then
        [ (5, TBytes (firstn (Z.to_nat (snd (value_of double_to_float
                                               (stats_dtype ck_g)
                                               (max_value s))))
                             (fst (value_of double_to_float (stats_dtype ck_g)
                                            (max_value s)))));
          (6, TBytes (firstn (Z.to_nat (snd (value_of double_to_float
                                               (stats_dtype ck_g)
                                               (min_value s))))
                             (fst (value_of double_to_float (stats_dtype ck_g)
                                            (min_value s))))) ]
      else []).

(** The bytes of an integer field that follows the field before it. *)
Definition int32_field (delta v : Z) : list byte :=
  byte.of_Z (Z.lor (Z.shiftl delta 4) ST_FLD_I32)
  :: RleFormat.vlq_bytes 4 (u32 (zigzag (s32 v))).

Definition struct_field (delta : Z) : list byte :=
  [byte.of_Z (Z.lor (Z.shiftl delta 4) ST_FLD_STRUCT)].

(** The bytes of the header of a page, field after field. *)
Definition header_bytes (page_g : Planner.EncPage) (bytes_written : Z)
    (page_stats : option statistics_chunk) : list byte :=
  let encoding :=
    encoding_code (page_encoding enable_bool_rle ck_g
                                 (Planner.page_type page_g)) in
  int32_field 1 (page_type_code (Planner.page_type page_g))
  ++ int32_field 1 (Planner.max_data_size page_g)
  ++ int32_field 1 (compressed_page_size_of ck_g page_g bytes_written)
  ++ match Planner.page_type page_g with
     | Planner.DATA_PAGE =>
         struct_field 2
         ++ int32_field 1 (Planner.pg_num_values page_g)
         ++ int32_field 1 encoding
         ++ int32_field 1 (encoding_code RLE)
         ++ int32_field 1 (encoding_code RLE)
         ++ match page_stats with
            | Some ps =>
                struct_field 1
                ++ stat_bytes double_to_float ps (stats_dtype ck_g)
                ++ [Byte.x00]
            | None => []
            end
         ++ [Byte.x00]
     | _ =>
         struct_field 4
         ++ int32_field 1 (num_dict_entries ck_g)
         ++ int32_field 1 encoding
         ++ [Byte.x00]
     end
  ++ [Byte.x00].

(** The statistics handed to the kernel are well formed. *)
Definition opt_ok (s : option statistics_chunk) : Prop :=
  match s with Some ps => stats_ok double_to_float ps | None => True end.

Definition header_tree (page_g : Planner.EncPage) (bytes_written : Z)
    (page_stats : option statistics_chunk) : list (Z * tvalue) :=
  let encoding :=
    encoding_code (page_encoding enable_bool_rle ck_g
                                 (Planner.page_type page_g)) in
  [ (1, TInt (page_type_code (Planner.page_type page_g)));
    (2, TInt (s32 (Planner.max_data_size page_g)));
    (3, TInt (s32 (compressed_page_size_of ck_g page_g bytes_written)));
    match Planner.page_type page_g with
    | Planner.DATA_PAGE =>
        (5, TStruct
              ([ (1, TInt (s32 (Planner.pg_num_values page_g)));
                 (2, TInt encoding);
                 (3, TInt 3);
                 (4, TInt 3) ]
               ++ match page_stats with
                  | Some ps => [(5, TStruct (stat_tree ps))]
                  | None => []
                  end))
    | _ =>
        (7, TStruct [ (1, TInt (s32 (num_dict_entries ck_g)));
                      (2, TInt encoding) ])
    end ].

End Expected.

(** An example: an uncompressed data page of 1000 values and 4096 bytes at
    address 64, with 32 bytes reserved for its header. *)
Definition ex_chunk : chunk_view :=
  {| is_compressed := false; compressed_bfr := 0; uncompressed_bfr := 0;
     use_dictionary := false; num_dict_entries := 0; is_boolean := false;
     stats_dtype := dtype_int32 |}.

Definition ex_page : Planner.EncPage :=
  {| Planner.page_data := 64; Planner.compressed_data := 0;
     Planner.num_fragments := 1; Planner.page_type := Planner.DATA_PAGE;
     Planner.chunk_id := 0; Planner.hdr_size := 0;
     Planner.max_hdr_size := 32; Planner.max_data_size := 4096;
     Planner.start_row := 0; Planner.pg_num_rows := 1000;
     Planner.pg_num_leaf_values := 1000; Planner.pg_num_values := 1000 |}.

(** The planner's view of a column with INT32 statistics. *)
Definition ex_stat_col : Planner.column_desc :=
  {| Planner.stats_is_string := false; Planner.stats_ge_int64 := false;
     Planner.def_level_bits := 0; Planner.rep_level_bits := 0 |}.

Definition ex_stat_chunk : Planner.EncColumnChunk :=
  {| Planner.ck_stat_size := 0; Planner.ck_start_row := 0;
     Planner.use_dictionary := false;
     Planner.uniq_data_size := 0; Planner.num_dict_entries := 0;
     Planner.ck_num_rows := 1000; Planner.ck_num_values := 1000;
     Planner.fragments := [];
     Planner.stats := Some [(0, 0)]; Planner.dict_rle_bits := 0 |}.

End Headers.

(** ** Page fragments: the hashes, [gpuInitPageFragments],
    [gpuInitFragmentStats] *)

Module Fragments.
Import Rle Encode.

Definition init_hash_bits : Z := 12.

(** [hash_string]: [c0] and [cl] are the first and the last character as
    the integers that [char] gives them (negative or not, by the platform),
    [len] is the length in bytes. *)
Definition hash_string (c0 cl len : Z) : Z :=
  if negb (len =? 0) then
    Z.land (u32 (c0 + Z.shiftl cl 5 + u32 (Z.shiftl len 10)))
           (Z.shiftl 1 init_hash_bits - 1)
  else 0.

Definition uint32_init_hash (v : Z) : Z :=
  Z.land (u32 (v + Z.shiftr v 11 + Z.shiftr v 22))
         (Z.shiftl 1 init_hash_bits - 1).

Definition uint64_init_hash (v : Z) : Z :=
  uint32_init_hash (u32 (Stats.u64 (v + Z.shiftr v 32))).

(** [partition_info]. *)
Record partition_info := {
  part_start_row : Z;
  part_num_rows : Z
}.

(** [thrust::upper_bound] on a sorted range: the position of the first
    element greater than [v]. *)
Fixpoint upper_bound (l : list Z) (v : Z) : Z :=
  match l with
  | [] => 0
  | x :: rest => if v <? x then 0 else 1 + upper_bound rest v
  end.

(** A fragment as the kernel stores it: the fields the planner reads, and
    where the fragment starts. *)
Record fragment := {
  frag : Planner.PageFragment;
  frag_start_row : Z;
  start_value_idx : Z
}.

(** The 512 lanes of the block. *)
Definition block_size : Z := 512.

Definition block_lanes : list Z := map Z.of_nat (seq 0 512).

(** [block_reduce(...).Sum]. *)
Definition block_sum (x : Z -> Z) : Z :=
  fold_left (fun a t => u32 (a + x t)) block_lanes 0.

(** The sum of [f start], ..., [f (start + n - 1)]. *)
Fixpoint sum_from (f : Z -> Z) (start : Z) (n : nat) : Z :=
  match n with
  | O => 0
  | S n' => f start + sum_from f (start + 1) n'
  end.

Section Kernel.

(** The column of the block; [nested] tells whether [level_offsets] is
    set.  [row_to_value_idx] is defined in a header that is not among the
    sources: it maps a row of the column to the index of its first leaf
    value. *)
Variable col : column_view.
Variable nested : bool.
Variable row_to_value_idx : Z -> Z.

Variable partitions : list partition_info.
Variable part_frag_offset : list Z.
Variable fragment_size : Z.

Definition leaf_size : Z := Z.of_nat (length (leaf_column col)).

(** The bytes counted for the leaf value [val_idx] (source lines
    187-199): nothing for a null. *)
Definition value_len (val_idx : Z) : Z :=
  match nth (Z.to_nat val_idx) (leaf_column col) None with
  | Some e =>
      let dtype_len := physical_type_len (physical_type col) (leaf_type col) in
      match physical_type col with
      | BYTE_ARRAY => u32 (dtype_len + Z.of_nat (length (el_bytes e)))
      | _ => dtype_len
      end
  | None => 0
  end.

(** What lane [t] contributes in the iteration that starts at [i]. *)
Definition lane_len (nvals start_value_idx_ i t : Z) : Z :=
  let val_idx := u32 (start_value_idx_ + i + t) in
  if (u32 (i + t) <? nvals) && (val_idx <? leaf_size)
  then value_len val_idx else 0.

(** The loop over the leaf values of the fragment (source lines
    183-206). *)
Fixpoint data_size_loop (fuel : nat) (nvals start_value_idx_ i acc : Z) : Z :=
  match fuel with
  | O => acc
  | S fuel' =>
      if i <? nvals then
        data_size_loop fuel' nvals start_value_idx_ (u32 (i + block_size))
          (u32 (acc + block_sum (lane_len nvals start_value_idx_ i)))
      else acc
  end.

(** The kernel for the block of fragment [frag_y] of the column. *)
Definition gpuInitPageFragments (frag_y : Z) : fragment :=
  let p := upper_bound part_frag_offset frag_y - 1 in
  let part := nth (Z.to_nat p) partitions
                  {| part_start_row := 0; part_num_rows := 0 |} in
  let part_end_row := part_start_row part + part_num_rows part in
  let start_row :=
    u32 ((frag_y - nth (Z.to_nat p) part_frag_offset 0) * fragment_size
         + part_start_row part) in
  let num_rows := Z.min fragment_size (u32 (part_end_row - start_row)) in
  let start_value := row_to_value_idx start_row in
  let end_value_idx := row_to_value_idx (start_row + num_rows) in
  let num_leaf_values := end_value_idx - start_value in
  let num_values :=
    if nested then
      nth (Z.to_nat (start_row + num_rows)) (level_offsets col) 0
      - nth (Z.to_nat start_row) (level_offsets col) 0
    else num_rows in
  {| frag :=
       {| Planner.fragment_data_size :=
            data_size_loop (Z.to_nat (num_leaf_values / block_size + 1))
                           num_leaf_values start_value 0 0;
          Planner.num_values := num_values;
          Planner.num_leaf_values := num_leaf_values;
          Planner.num_rows := num_rows;
          Planner.num_dict_vals := 0 |};
     frag_start_row := start_row;
     start_value_idx := start_value |}.

(** The bytes of the leaf value at [j], nothing past the end of the leaf
    column. *)
Definition leaf_len (j : Z) : Z :=
  if j <? leaf_size then value_len j else 0.

End Kernel.

(** A fragment of no rows, for an index past the end of an array. *)
Definition no_fragment : fragment :=
  {| frag := {| Planner.fragment_data_size := 0; Planner.num_values := 0;
                Planner.num_leaf_values := 0; Planner.num_rows := 0;
                Planner.num_dict_vals := 0 |};
     frag_start_row := 0; start_value_idx := 0 |}.

(** [statistics_group]. *)
Record statistics_group := {
  group_start_row : Z;
  group_num_rows : Z
}.

(** [gpuInitFragmentStats]: warp [w] of block [y] of the column handles
    fragment [4 y + w], when there is one; the result is the index and the
    group it stores. *)
Definition init_fragment_stat (fragments : list fragment) (y w : Z)
  : option (Z * statistics_group) :=
  let frag_id := u32 (y * 4 + w) in
  if frag_id <? Z.of_nat (length fragments) then
    match nth_error fragments (Z.to_nat frag_id) with
    | Some f =>
        Some (frag_id,
              {| group_start_row := start_value_idx f;
                 group_num_rows := Planner.num_leaf_values (frag f) |})
    | None => None
    end
  else None.

(** [div_rounding_up_safe] (from a header that is not among the
    sources): the quotient rounded up. *)
Definition div_rounding_up_safe (n d : Z) : Z :=
  n / d + (if n mod d =? 0 then 0 else 1).

(** [InitFragmentStatistics]: the stores of the grid of
    [div_rounding_up_safe(n, 4)] blocks of four warps, block after block. *)
Definition InitFragmentStatistics (fragments : list fragment)
  : list (Z * statistics_group) :=
  let grid_y := div_rounding_up_safe (Z.of_nat (length fragments)) 4 in
  flat_map
    (fun y =>
       flat_map (fun w => match init_fragment_stat fragments y w with
                          | Some g => [g]
                          | None => []
                          end)
                [0; 1; 2; 3])
    (map Z.of_nat (seq 0 (Z.to_nat grid_y))).

(** An example: a flat INT32 column of 1200 rows of which every seventh is
    null, written as two partitions of 1000 and 200 rows in fragments of 400
    rows. *)
Definition ex_col : column_view :=
  {| physical_type := INT32; leaf_type := OTHER_TYPE; ts_scale := 0;
     num_def_level_bits := 1; num_rep_level_bits := 0;
     col_num_rows := 1200; nullability := [true];
     parent_column := [];
     level_offsets := []; rep_values := []; def_values := [];
     leaf_column :=
       map (fun i => if (i mod 7 =? 0)%nat then None
                     else Some (EInt (Z.of_nat i)))
           (seq 0 1200) |}.

Definition ex_partitions : list partition_info :=
  [ {| part_start_row := 0; part_num_rows := 1000 |};
    {| part_start_row := 1000; part_num_rows := 200 |} ].

Definition ex_part_frag_offset : list Z := [0; 3; 4].

Definition ex_fragment (frag_y : Z) : fragment :=
  gpuInitPageFragments ex_col false (fun row => row) ex_partitions
                       ex_part_frag_offset 400 frag_y.

(** A flat INT64 column of 300 rows without nulls, written as one
    fragment, and the page that holds it. *)
Definition ex_plain_col : column_view :=
  {| physical_type := INT64; leaf_type := OTHER_TYPE; ts_scale := 0;
     num_def_level_bits := 0; num_rep_level_bits := 0;
     col_num_rows := 300; nullability := [false];
     parent_column := [];
     level_offsets := []; rep_values := []; def_values := [];
     leaf_column := map (fun i => Some (EInt (Z.of_nat i))) (seq 0 300) |}.

Definition ex_plain_fragment : fragment :=
  gpuInitPageFragments ex_plain_col false (fun row => row)
    [ {| part_start_row := 0; part_num_rows := 300 |} ] [0; 1] 300 0.

Definition ex_plain_chunk : chunk_view :=
  {| use_dictionary := false; dict_rle_bits := 0; dict_data := [];
     dict_index := []; chunk_start_val := 0 |}.

Definition ex_plain_page : page_view :=
  {| page_type := DATA_PAGE; page_data := 0; max_hdr_size := 32;
     start_row := 0; num_rows := 300; num_values := 300;
     num_leaf_values := 300; page_start_val := 0 |}.

End Fragments.

(** ** The layout written by [gpuInitPages]: offsets and totals *)

Module Layout.
Import Planner.

(** The pages [pgs] follow one another from [start] to [stop]: the
    position [at_ p] of each page is where the one before left the cursor,
    and [next] moves the cursor past a page. *)
Fixpoint chained (next : Z -> EncPage -> Z) (at_ : EncPage -> Z) (start : Z)
    (pgs : list EncPage) (stop : Z) : Prop :=
  match pgs with
  | [] => stop = start
  | p :: rest => at_ p = start /\ chained next at_ (next start p) rest stop
  end.

(** The cursors of the planner: the offset in the uncompressed buffer moves
    by the bytes reserved for the header and the data of the page, the offset
    in the compressed buffer by the header and the largest compressed page,
    and the row cursor by the rows of a data page (a dictionary page holds no
    rows of the chunk).  All are 32-bit. *)
Definition next_offset (start : Z) (p : EncPage) : Z :=
  u32 (start + (max_hdr_size p + max_data_size p)).

Definition next_comp (max_page_comp_data_size : Z) (start : Z) (p : EncPage)
  : Z :=
  u32 (start + (max_hdr_size p + max_page_comp_data_size)).

Definition next_row (start : Z) (p : EncPage) : Z :=
  match page_type p with
  | DATA_PAGE => u32 (start + pg_num_rows p)
  | _ => start
  end.

Definition max_of (f : EncPage -> Z) (pgs : list EncPage) : Z :=
  fold_left (fun a p => Z.max a (f p)) pgs 0.

Definition total_of (f : EncPage -> Z) (pgs : list EncPage) : Z :=
  fold_right (fun p a => f p + a) 0 pgs.

Section Kernel.

Variable col_g : column_desc.
Variable ck_g : EncColumnChunk.
Variable P : params.

(** What the loop keeps true of its counters and of the pages written so
    far. *)
Record totals (s : loop_state) : Prop := {
  tot_offset : chained next_offset page_data (ck_stat_size ck_g) (pages s)
                       (page_offset s);
  tot_comp : chained (next_comp (max_page_comp_data_size P)) compressed_data
                     (ck_stat_size ck_g) (pages s) (comp_page_offset s);
  tot_rows : chained next_row start_row (ck_start_row ck_g) (pages s)
                     (cur_row s);
  tot_num : num_pages s = u32 (Z.of_nat (length (pages s)));
  tot_hdr : page_headers_size s = u32 (total_of max_hdr_size (pages s));
  tot_max : max_page_data_size s = max_of max_data_size (pages s);
  tot_id : Forall (fun p => chunk_id p = block_chunk_id P) (pages s)
}.

End Kernel.

(** A chunk without rows. *)
Definition ex_empty_chunk : EncColumnChunk :=
  {| ck_stat_size := 0; ck_start_row := 7; use_dictionary := false;
     uniq_data_size := 0; num_dict_entries := 0;
     ck_num_rows := 0; ck_num_values := 0;
     fragments := []; stats := None; dict_rle_bits := 0 |}.

(** The layout of the example chunk of 100 values. *)
Definition ex_layout : chunk_layout :=
  match gpuInitPages PlannerExamples.ex_col PlannerExamples.ex_chunk
                     PlannerExamples.ex_params with
  | Some L => L
  | None => {| out_num_pages := 0; out_bfr_size := 0;
               out_page_headers_size := 0; out_max_page_data_size := 0;
               out_ck_stat_size := 0; out_pages := [] |}
  end.

End Layout.

(** ** Definition levels along a chain of structs *)

Module DefLevels.
Import Dremel.

(** The number of nullable levels from a column down its structs, the
    flags being read from index [l] on. *)
Fixpoint nullable_count (c : column) (d_nullability : list bool) (l : nat)
  : Z :=
  (if nth l d_nullability false then 1 else 0)
  + match c with
    | StructCol _ _ _ child0 => nullable_count child0 d_nullability (S l)
    | _ => 0
    end.

(** Row [i] is valid at every nullable level from the column down its
    structs. *)
Fixpoint levels_valid (c : column) (d_nullability : list bool) (l : nat)
    (i : Z) : bool :=
  (negb (nth l d_nullability false) || valid_at c i)
  && match c with
     | StructCol _ _ _ child0 => levels_valid child0 d_nullability (S l) i
     | _ => true
     end.

(** The levels of a column as the page encoder sees them, for a column
    that is not sliced (offset zero at every level). *)
Fixpoint encoder_levels (c : column) : list Encode.column_level :=
  match c with
  | StructCol _ _ _ child0 =>
      {| Encode.cl_is_valid := valid_at c; Encode.cl_is_struct := true;
         Encode.cl_offset := 0 |} :: encoder_levels child0
  | _ =>
      [ {| Encode.cl_is_valid := valid_at c; Encode.cl_is_struct := false;
           Encode.cl_offset := 0 |} ]
  end.

(** A nullable struct with a nullable leaf: the struct is null at row 1,
    the leaf at rows 1 and 2. *)
Definition ex_struct : column :=
  StructCol 0 4 (Some [true; false; true; true])
            (LeafCol 0 4 (Some [true; false; false; true])).

End DefLevels.

(** ** The PLAIN encoding of the values of a page, as a reader takes it *)

Module PlainBytes.
Import Rle Encode Fragments.

(** The bytes of one value in the PLAIN encoding of the file format:
    integers lowest byte first, an INT96 timestamp as the nanoseconds of the
    day on eight bytes and the Julian day on four, a string after its
    length on four bytes, a double as its eight bytes, a 128-bit decimal
    highest byte first ([el_bytes] holds the bytes of a value in memory
    order). *)
Definition plain_value_bytes (col : column_view) (e : element) : list byte :=
  match physical_type col with
  | INT32 | FLOAT => le_split 4 (el_int e)
  | INT64 => le_split 8 (scale_timestamp (ts_scale col) (el_int e))
  | INT96 =>
      let ret :=
        convert_nanoseconds
          (int96_timestamp_ns (leaf_type col)
             (scale_timestamp (ts_scale col) (el_int e))) in
      le_split 8 (fst ret) ++ le_split 4 (u32 (snd ret))
  | DOUBLE => el_bytes e
  | BYTE_ARRAY =>
      le_split 4 (Z.of_nat (length (el_bytes e))) ++ el_bytes e
  | FIXED_LEN_BYTE_ARRAY => rev (el_bytes e)
  | BOOLEAN => []
  end.

(** The element has the bytes of its type: eight for a double, sixteen for
    a decimal (the only fixed-length type the encoder writes), and a string
    whose length fits 32 bits with its prefix. *)
Definition well_typed (col : column_view) (e : element) : bool :=
  match physical_type col with
  | DOUBLE => (length (el_bytes e) =? 8)%nat
  | BYTE_ARRAY => Z.of_nat (length (el_bytes e)) + 4 <? 2 ^ 32
  | FIXED_LEN_BYTE_ARRAY =>
      match leaf_type col with
      | DECIMAL128 => (length (el_bytes e) =? 16)%nat
      | _ => false
      end
  | _ => true
  end.

(** The bytes of the leaf value at [j]: nothing for a null or past the end
    of the leaf column. *)
Definition leaf_bytes (col : column_view) (j : Z) : list byte :=
  match nth (Z.to_nat j) (leaf_column col) None with
  | Some e => plain_value_bytes col e
  | None => []
  end.

(** The bytes of [k] leaf values from [start] on, in order. *)
Definition page_plain_bytes (col : column_view) (start : Z) (k : nat)
  : list byte :=
  flat_map (fun i => leaf_bytes col (start + Z.of_nat i)) (seq 0 k).

(** The bytes of the first [k] entries of the dictionary of a chunk:
    [dict_data] holds, for each entry, the index of its value in the leaf
    column. *)
Definition dict_page_bytes (col : column_view) (ck : chunk_view) (k : nat)
  : list byte :=
  flat_map (fun i => plain_value_bytes col
                       (leaf_element col (nth i (dict_data ck) 0)))
           (seq 0 k).

(** A string column with a null and an empty string, and the page that
    holds it. *)
Definition ex_str_col : column_view :=
  {| physical_type := BYTE_ARRAY; leaf_type := OTHER_TYPE; ts_scale := 0;
     num_def_level_bits := 0; num_rep_level_bits := 0;
     col_num_rows := 4; nullability := [false];
     parent_column := [];
     level_offsets := []; rep_values := []; def_values := [];
     leaf_column := [Some (EBytes [Byte.x61; Byte.x62]); None;
                     Some (EBytes []); Some (EBytes [Byte.x63])] |}.

Definition ex_page4 : page_view :=
  {| page_type := DATA_PAGE; page_data := 0; max_hdr_size := 32;
     start_row := 0; num_rows := 4; num_values := 4;
     num_leaf_values := 4; page_start_val := 0 |}.

(** A dictionary of the three values of the string column: the last value,
    the first, then the empty string; [dict_index] gives the entry of each
    leaf value. *)
Definition ex_dict_chunk : chunk_view :=
  {| use_dictionary := true; dict_rle_bits := 2; dict_data := [3; 0; 2];
     dict_index := [1; 0; 2; 0]; chunk_start_val := 0 |}.

Definition ex_dict_page : page_view :=
  {| page_type := DICTIONARY_PAGE; page_data := 0; max_hdr_size := 32;
     start_row := 0; num_rows := 0; num_values := 3;
     num_leaf_values := 3; page_start_val := 0 |}.

(** An encoder state with ten booleans in the ring (false, true, false,
    ...), nothing written yet. *)
Definition ex_bool_state : page_enc_state_s :=
  {| rle_out := 100; rle_run := 0; run_val := 0; rle_pos := 0;
     rle_numvals := 0; rle_lit_count := 0; rle_rpt_count := 0;
     vals := fun i => Z.land i 1; out := fun _ => Byte.xff |}.

End PlainBytes.

(** ** The values of a page that go through the RLE encoder *)

Module DictData.
Import Rle Encode.

(** The leaf value at [j] exists and is not null. *)
Definition leaf_valid (col : column_view) (j : Z) : bool :=
  (j <? Z.of_nat (length (leaf_column col)))
  && match nth (Z.to_nat j) (leaf_column col) None with
     | Some _ => true
     | None => false
     end.

(** What the encoder puts into the ring for the leaf value at [j]: the
    boolean itself, or the index of the value in the dictionary of the
    chunk. *)
Definition ring_value (col : column_view) (ck : chunk_view) (j : Z) : Z :=
  let val_idx := if use_dictionary ck then j - chunk_start_val ck else j in
  if Type_eqb (physical_type col) BOOLEAN
  then Z.land (el_int (leaf_element col val_idx)) 0xff
  else nth (Z.to_nat val_idx) (dict_index ck) 0.

(** The ring values of the leaf values from [start] on that are not null, in
    order. *)
Definition ring_values (col : column_view) (ck : chunk_view) (start : Z)
    (k : nat) : list Z :=
  flat_map (fun i => if leaf_valid col (start + Z.of_nat i)
                     then [ring_value col ck (start + Z.of_nat i)] else [])
           (seq 0 k).

Definition page_ring_values (col : column_view) (ck : chunk_view)
    (page : page_view) : list Z :=
  ring_values col ck (page_start_val page) (Z.to_nat (num_leaf_values page)).

End DictData.

(** ** INT96 timestamps as the description words them *)

Module Int96Spec.
Import Encode.

(** The instant, in nanoseconds since 1970-01-01 00:00, that a value of a
    timestamp column stands for: the value counts seconds, milliseconds,
    microseconds or nanoseconds according to the type of the column. *)
Definition timestamp_value_ns (id : type_id) (v : Z) : Z :=
  match id with
  | TIMESTAMP_SECONDS => v * 1000000000
  | TIMESTAMP_MILLISECONDS => v * 1000000
  | TIMESTAMP_MICROSECONDS => v * 1000
  | TIMESTAMP_NANOSECONDS => v
  | _ => 0
  end.

(** The INT96 form of the instant [t]: the nanoseconds elapsed since
    midnight of its day on eight bytes, then its Julian day on four, both
    lowest byte first.  A day has 86400 * 10^9 nanoseconds and 1970-01-01 is
    the Julian day 2440588. *)
Definition int96_of_instant (t : Z) : list byte :=
  le_split 8 (t mod 86400000000000)
  ++ le_split 4 (t / 86400000000000 + 2440588).

(** The instant of the amended description: the value is first scaled by
    [ts_scale] (multiplied when it is positive, divided towards zero when it
    is negative), and the result counts milliseconds for a column of seconds
    or milliseconds, microseconds for a column of microseconds or
    nanoseconds; any other column gives the epoch. *)
Definition int96_written_ns (id : type_id) (ts_scale v : Z) : Z :=
  let scaled :=
    if ts_scale =? 0 then v
    else if ts_scale <? 0 then Z.quot v (- ts_scale)
    else v * ts_scale in
  match id with
  | TIMESTAMP_SECONDS | TIMESTAMP_MILLISECONDS => scaled * 1000000
  | TIMESTAMP_MICROSECONDS | TIMESTAMP_NANOSECONDS => scaled * 1000
  | _ => 0
  end.

(** The twelve bytes that the INT96 case of the encoder leaves at address 0
    of an empty buffer for the value [v]. *)
Definition int96_written (id : type_id) (ts_scale v : Z) : list byte :=
  Rle.load_bytes
    (Rle.apply_stores (fun _ => Byte.x00)
       (plain_stores INT96 id ts_scale 12 (EInt v))) 0 12.

End Int96Spec.

(** ** Pages within their size ceiling *)

Module PlannerCeiling.
Import Planner.

(** The run of fragments [g] of a page stayed within the ceiling: when its
    last fragment joined the page, the page held the values of the
    fragments before it, and its size with that fragment was at most the
    ceiling for that count of values.  A page of a single fragment is not
    constrained: a fragment always opens a page, whatever its size. *)
Definition within_ceiling (ck_g : EncColumnChunk) (P : params)
    (g : list PageFragment) : Prop :=
  forall g' f, g = g' ++ [f] -> g' <> [] ->
    sum_of (frag_size ck_g) g
    <= this_max_page_size ck_g P (sum_of num_values g').

End PlannerCeiling.

(** * Properties *)

(** ** Machine integers *)

Lemma u32_small x : 0 <= x < 2 ^ 32 -> u32 x = x.
Proof. intros H. unfold u32. now apply Z.mod_small. Qed.

Lemma u32_range x : 0 <= u32 x < 2 ^ 32.
Proof. unfold u32. apply Z.mod_pos_bound. lia. Qed.


(** ** Page planner *)

Module PlannerFacts.
Import Planner.

Section Facts.

Variable col_g : column_desc.
Variable ck_g : EncColumnChunk.
Variable P : params.

Local Abbreviation frag_size := (frag_size ck_g).
Local Abbreviation covers := (covers ck_g P).
Local Abbreviation body := (body col_g ck_g P).
Local Abbreviation flush := (flush col_g ck_g P).
Local Abbreviation must_flush := (must_flush ck_g P).
Local Abbreviation pack_loop := (pack_loop col_g ck_g P).
Local Abbreviation dict_pages := (dict_pages ck_g P).
Local Abbreviation inv := (inv ck_g P).
Local Abbreviation frag_ok := (frag_ok ck_g).

Lemma sum_of_app f l1 l2 : sum_of f (l1 ++ l2) = sum_of f l1 + sum_of f l2.
Proof. induction l1 as [|x l1 IH]; simpl; [reflexivity | rewrite IH; lia]. Qed.

Lemma sum_of_nonneg f l :
  Forall (fun x => 0 <= f x) l -> 0 <= sum_of f l.
Proof. induction 1; simpl; lia. Qed.

Lemma sum_of_pos_length f l :
  Forall (fun x => 0 < f x) l -> Z.of_nat (length l) <= sum_of f l.
Proof. induction 1; simpl length; simpl sum_of; lia. Qed.

Lemma this_max_le v : this_max_page_size ck_g P v <= max_page_size_bytes P.
Proof. unfold this_max_page_size. apply Z.le_min_r. Qed.

Lemma frag_ok_app_rows l1 l2 :
  Forall frag_ok (l1 ++ l2) ->
  0 <= sum_of num_rows l1 <= sum_of num_rows (l1 ++ l2)
  /\ 0 <= sum_of num_values l1 <= sum_of num_values (l1 ++ l2)
  /\ 0 <= sum_of frag_size l1 <= sum_of frag_size (l1 ++ l2)
  /\ Z.of_nat (length l1) <= sum_of num_rows l1.
Proof.
  intros H. apply Forall_app in H as [H1 H2].
  rewrite !sum_of_app.
  assert (A1 : forall l, Forall frag_ok l -> 0 <= sum_of num_rows l
            /\ 0 <= sum_of num_values l /\ 0 <= sum_of frag_size l
            /\ Z.of_nat (length l) <= sum_of num_rows l).
  { induction 1 as [|x l [? [? ?]] _ IH]; simpl length; simpl sum_of; lia. }
  pose proof (A1 _ H1). pose proof (A1 _ H2). lia.
Qed.

Lemma sum_pos_nonempty l :
  Forall frag_ok l -> l <> [] -> 0 < sum_of num_values l.
Proof.
  intros H Hne. destruct H as [|x l [? [? ?]] Hl]; [congruence|].
  simpl.
  pose proof (frag_ok_app_rows l []) as A. rewrite app_nil_r in A.
  specialize (A Hl). lia.
Qed.

(** One iteration of the loop on a fragment that is read from the array. *)
Lemma body_step done groups cur dpages s f rest mm :
  fragments ck_g = done ++ f :: rest ->
  Forall frag_ok (fragments ck_g) ->
  sum_of num_rows (fragments ck_g) = ck_num_rows ck_g ->
  ck_num_rows ck_g < 2 ^ 32 ->
  sum_of num_values (fragments ck_g) < 2 ^ 32 ->
  sum_of frag_size (fragments ck_g) < 2 ^ 32 ->
  0 <= max_page_size_rows P ->
  inv done groups cur dpages s ->
  exists groups' cur' dpages',
    inv (done ++ [f]) groups' cur' dpages' (body mm (set_frag f s)).
Proof.
  intros Hfr Hok Hrows Hr32 Hv32 Hs32 Hmr I.
  destruct I as [Id Ific Irows Irip Ivip Ipsz Ipst Ipg Icov Icur Ibd Ine].
  assert (Hok' := Hok). rewrite Hfr in Hok'.
  replace (done ++ f :: rest) with ((done ++ [f]) ++ rest) in Hok'
    by (rewrite <- app_assoc; reflexivity).
  pose proof (frag_ok_app_rows _ _ Hok') as (B1 & B2 & B3 & B4).
  replace ((done ++ [f]) ++ rest) with (fragments ck_g) in B1, B2, B3
    by (rewrite Hfr, <- app_assoc; reflexivity).
  rewrite !sum_of_app in B1, B2, B3, B4. simpl sum_of in B1, B2, B3, B4.
  rewrite length_app in B4. simpl length in B4.
  assert (Hdone : Forall frag_ok done).
  { apply Forall_app in Hok' as [H _]. apply Forall_app in H as [H _]. exact H. }
  assert (Hf : frag_ok f).
  { apply Forall_app in Hok' as [H _]. apply Forall_app in H as [_ H].
    inversion H; assumption. }
  assert (Hcur : Forall frag_ok cur).
  { rewrite Id in Hdone. apply Forall_app in Hdone as [_ H]. exact H. }
  assert (Hcc : Forall frag_ok (concat groups)).
  { rewrite Id in Hdone. apply Forall_app in Hdone as [H _]. exact H. }
  pose proof (frag_ok_app_rows (concat groups) cur) as C.
  rewrite <- Id in C. specialize (C Hdone).
  rewrite Id, !sum_of_app in C. destruct C as (C1 & C2 & C3 & C4).
  pose proof (frag_ok_app_rows cur []) as D. rewrite app_nil_r in D.
  specialize (D Hcur). destruct D as (D1 & D2 & D3 & D4).
  destruct Hf as (Hf1 & Hf2 & Hf3).
  assert (Hnf : cur = [] -> must_flush (set_frag f s) = false).
  { intros E. pose proof (Icur E) as Ed.
    unfold Planner.must_flush. simpl.
    rewrite Irows, Irip, Ivip, Ed, E. simpl.
    rewrite Ed in B1. simpl in B1.
    apply orb_false_iff; split; [apply orb_false_iff; split|]; lia. }
  rewrite Id, !sum_of_app, ?length_app in B1, B2, B3, B4.
  unfold body.
  destruct (must_flush (set_frag f s)) eqn:Hmf.
  - (* the open page is closed, the fragment opens the next one *)
    assert (Hne : cur <> []).
    { intros E. specialize (Hnf E). congruence. }
    exists (groups ++ [cur]), [f].
    eexists (dpages ++ [_]).
    constructor; simpl.
    + rewrite concat_app. simpl. rewrite app_nil_r, Id, <- app_assoc. reflexivity.
    + rewrite Ific, Id, !length_app. simpl length.
      rewrite u32_small; rewrite ?length_app; lia.
    + rewrite Irows, Id, !sum_of_app. simpl. rewrite u32_small; lia.
    + rewrite u32_small; lia.
    + rewrite u32_small; lia.
    + rewrite u32_small; lia.
    + rewrite Ific, Id, concat_app. simpl. rewrite app_nil_r. reflexivity.
    + rewrite Ipg, app_assoc. reflexivity.
    + apply Forall2_app; [exact Icov|]. constructor; [|constructor].
      unfold Planner.covers; simpl. repeat split; auto.
      rewrite Ific, Ipst, Id, length_app.
      rewrite u32_small; lia.
    + discriminate.
    + right. simpl. lia.
    + apply Forall_app. split; [exact Ine|]. constructor; [exact Hne|constructor].
  - (* the fragment joins the open page *)
    exists groups, (cur ++ [f]), dpages.
    constructor; simpl.
    + rewrite Id, <- app_assoc. reflexivity.
    + rewrite Ific, Id, !length_app. simpl length.
      rewrite u32_small; rewrite ?length_app; lia.
    + rewrite Irows, Id, !sum_of_app. simpl. rewrite u32_small; lia.
    + rewrite Irip, sum_of_app. simpl. rewrite u32_small; lia.
    + rewrite Ivip, sum_of_app. simpl. rewrite u32_small; lia.
    + rewrite Ipsz, sum_of_app. simpl. rewrite u32_small; lia.
    + exact Ipst.
    + exact Ipg.
    + exact Icov.
    + intros H. apply app_eq_nil in H as [_ H]. discriminate.
    + destruct cur as [|c cur'] eqn:Ec; [right; simpl; lia|].
      left. rewrite <- Ec in *.
      assert (0 < sum_of num_values cur).
      { apply sum_pos_nonempty; [exact Hcur | rewrite Ec; discriminate]. }
      unfold Planner.must_flush in Hmf. simpl in Hmf.
      apply orb_false_iff in Hmf as [Hmf _].
      apply orb_false_iff in Hmf as [_ Hmf].
      apply andb_false_iff in Hmf as [Hmf|Hmf]; [lia|].
      rewrite Ipsz, u32_small in Hmf by lia.
      pose proof (this_max_le (values_in_page s)).
      rewrite sum_of_app. simpl. lia.
    + exact Ine.
Qed.

Lemma minmax_len_at_some i :
  match stats ck_g with
  | Some st => (length (fragments ck_g) <= length st)%nat
  | None => True
  end ->
  0 <= i < Z.of_nat (length (fragments ck_g)) ->
  exists mm, minmax_len_at col_g ck_g i = Some mm.
Proof.
  intros Hst Hi. unfold minmax_len_at.
  destruct (stats ck_g) as [st|]; [|eexists; reflexivity].
  destruct (stats_is_string col_g); [|eexists; reflexivity].
  destruct (nth_error st (Z.to_nat i)) as [[lmin lmax]|] eqn:E;
    [eexists; reflexivity|].
  apply nth_error_None in E. lia.
Qed.

(** The loop terminates on a well-formed chunk, and its pages partition the
    fragments. *)
Lemma pack_loop_inv rest :
  forall done groups cur dpages s,
  fragments ck_g = done ++ rest ->
  chunk_ok ck_g P ->
  inv done groups cur dpages s ->
  exists s' groups' dpages',
    pack_loop rest s = Some s'
    /\ pages s' = dict_pages ++ dpages'
    /\ Forall2 covers dpages' groups'
    /\ concat groups' = fragments ck_g
    /\ (fragments ck_g <> [] -> Forall (fun g => g <> []) groups').
Proof.
  induction rest as [|f rest IH]; intros done groups cur dpages s Hfr OK I.
  - (* every fragment was read: the last page is closed *)
    rewrite app_nil_r in Hfr. destruct OK as [Hok Hrows Hr32 Hv32 Hs32 Hmr Hst].
    pose proof I as [Id Ific Irows Irip Ivip Ipsz Ipst Ipg Icov Icur Ibd Ine].
    simpl. rewrite Irows, <- Hfr, Hrows, Z.ltb_irrefl.
    unfold body.
    assert (Hmf : must_flush (set_frag
              {| fragment_data_size := 0;
                 num_values := num_values (frag_g s);
                 num_leaf_values := num_leaf_values (frag_g s);
                 num_rows := 0;
                 num_dict_vals := num_dict_vals (frag_g s) |} s) = true).
    { unfold Planner.must_flush. simpl.
      rewrite Irows, <- Hfr, Hrows.
      replace (ck_num_rows ck_g >=? ck_num_rows ck_g) with true
        by (symmetry; apply Z.geb_le; lia).
      reflexivity. }
    rewrite Hmf.
    eexists. exists (groups ++ [cur]). eexists (dpages ++ [_]).
    split; [reflexivity|]. simpl.
    assert (Hall : Forall frag_ok (concat groups ++ cur))
      by (rewrite <- Id, <- Hfr; exact Hok).
    pose proof (frag_ok_app_rows _ _ Hall) as (B1 & B2 & B3 & B4).
    rewrite <- Id, <- Hfr, Hrows in B1.
    split; [rewrite Ipg, app_assoc; reflexivity|].
    split; [|split].
    + apply Forall2_app; [exact Icov|]. constructor; [|constructor].
      unfold Planner.covers; simpl. repeat split; auto.
      rewrite Ific, Ipst, Id, length_app.
      pose proof (frag_ok_app_rows _ _ Hall) as (_ & _ & _ & B5).
      assert (Hl : Z.of_nat (length (concat groups ++ cur))
                   <= sum_of num_rows (concat groups ++ cur)).
      { pose proof (frag_ok_app_rows (concat groups ++ cur) []) as A.
        rewrite app_nil_r in A. apply A. exact Hall. }
      assert (Hs : sum_of num_rows (concat groups ++ cur) = ck_num_rows ck_g)
        by (rewrite <- Id, <- Hfr; exact Hrows).
      rewrite Hs, length_app in Hl.
      rewrite u32_small; lia.
    + rewrite concat_app. simpl. rewrite app_nil_r, <- Id. symmetry. exact Hfr.
    + intros Hne. apply Forall_app. split; [exact Ine|].
      constructor; [|constructor]. intros E. apply Hne.
      rewrite Hfr. auto.
  - (* one more fragment *)
    pose proof OK as [Hok Hrows Hr32 Hv32 Hs32 Hmr Hst].
    pose proof I as [Id Ific Irows Irip Ivip Ipsz Ipst Ipg Icov Icur Ibd Ine].
    assert (Hok' := Hok). rewrite Hfr in Hok'.
    pose proof (frag_ok_app_rows _ _ Hok') as (B1 & _ & _ & B4).
    rewrite <- Hfr, Hrows in B1.
    assert (Hf : frag_ok f).
    { apply Forall_app in Hok' as [_ H]. inversion H; assumption. }
    assert (Hlt : sum_of num_rows done < ck_num_rows ck_g).
    { rewrite <- Hrows, Hfr, sum_of_app. simpl.
      apply Forall_app in Hok' as [_ H]. inversion H as [|? ? ? Hr]; subst.
      pose proof (frag_ok_app_rows rest []) as A. rewrite app_nil_r in A.
      specialize (A Hr). destruct Hf as (? & ? & ?). lia. }
    simpl. rewrite Irows.
    replace (sum_of num_rows done <? ck_num_rows ck_g) with true
      by (symmetry; apply Z.ltb_lt; exact Hlt).
    destruct (minmax_len_at_some (fragments_in_chunk s) Hst) as [mm Hmm].
    { rewrite Ific, Hfr, length_app. simpl length. lia. }
    rewrite Hmm.
    replace (num_rows f =? 0) with false
      by (symmetry; apply Z.eqb_neq; destruct Hf; lia).
    destruct (body_step done groups cur dpages s f rest mm Hfr Hok Hrows
                Hr32 Hv32 Hs32 Hmr I) as (groups' & cur' & dpages' & I').
    apply (IH (done ++ [f]) groups' cur' dpages'); auto.
    rewrite <- app_assoc. exact Hfr.
Qed.

Lemma inv_init : inv [] [] [] [] (dict_page ck_g P (init_state ck_g)).
Proof.
  unfold Planner.dict_pages, dict_page.
  destruct (use_dictionary ck_g) eqn:E;
    constructor; simpl; rewrite ?E; auto; try (left; simpl; lia);
    unfold Planner.dict_pages, dict_page; rewrite E; reflexivity.
Qed.

Lemma covers_data dp groups :
  Forall2 covers dp groups -> data_pages dp = dp.
Proof.
  induction 1 as [|p g dp groups Hc _ IH]; [reflexivity|].
  unfold data_pages in *. simpl. unfold is_data_page at 1.
  destruct Hc as (-> & _). now rewrite IH.
Qed.

Lemma data_pages_dict : data_pages dict_pages = [].
Proof.
  unfold Planner.dict_pages, dict_page. now destruct (use_dictionary ck_g).
Qed.

Lemma covers_rows dp groups :
  Forall2 covers dp groups ->
  fold_right (fun p a => pg_num_rows p + a) 0 dp
  = sum_of num_rows (concat groups).
Proof.
  induction 1 as [|p g dp groups Hc _ IH]; [reflexivity|].
  simpl. rewrite sum_of_app, IH.
  destruct Hc as (_ & _ & -> & _). reflexivity.
Qed.

(** Layout of a well-formed chunk: the kernel returns, its data pages are
    consecutive runs of the chunk's fragments, and their rows add up to the
    rows of the chunk. *)
Lemma gpuInitPages_layout :
  chunk_ok ck_g P ->
  exists L groups,
    gpuInitPages col_g ck_g P = Some L
    /\ concat groups = fragments ck_g
    /\ Forall2 covers (data_pages (out_pages L)) groups
    /\ (fragments ck_g <> [] -> Forall (fun g => g <> []) groups)
    /\ fold_right (fun p a => pg_num_rows p + a) 0 (data_pages (out_pages L))
       = ck_num_rows ck_g.
Proof.
  intros OK.
  destruct (pack_loop_inv (fragments ck_g) [] [] [] []
              (dict_page ck_g P (init_state ck_g)) eq_refl OK inv_init)
    as (s' & groups & dpages & Hl & Hp & Hc & Hg & Hne).
  unfold gpuInitPages. rewrite Hl.
  eexists. exists groups. split; [reflexivity|]. simpl.
  assert (Hd : data_pages (pages s') = dpages).
  { rewrite Hp. unfold data_pages. rewrite filter_app.
    fold (data_pages dict_pages). fold (data_pages dpages).
    rewrite data_pages_dict, (covers_data _ _ Hc). reflexivity. }
  rewrite Hd. repeat split; auto.
  rewrite (covers_rows _ _ Hc), Hg. apply (ok_rows _ _ OK).
Qed.

(** Whatever the chunk, the pages written by the loop are data pages. *)
Lemma pack_loop_data rest :
  forall s s', pack_loop rest s = Some s' ->
  exists dp, pages s' = pages s ++ dp
             /\ Forall (fun p => page_type p = DATA_PAGE) dp.
Proof.
  assert (Hb : forall mm f s, exists dp,
             pages (body mm (set_frag f s)) = pages s ++ dp
             /\ Forall (fun p => page_type p = DATA_PAGE) dp).
  { intros mm f s. unfold body. destruct (must_flush (set_frag f s)); simpl.
    - eexists [_]. split; [reflexivity|]. constructor; [reflexivity|constructor].
    - exists []. rewrite app_nil_r. split; [reflexivity|constructor]. }
  induction rest as [|f rest IH]; intros s s' H; simpl in H.
  - destruct (st_num_rows s <? ck_num_rows ck_g); [discriminate|].
    injection H as <-. apply Hb.
  - destruct (st_num_rows s <? ck_num_rows ck_g).
    + destruct (minmax_len_at col_g ck_g (fragments_in_chunk s)) as [mm|];
        [|discriminate].
      destruct (Hb mm f s) as (dp & Hp & Hd).
      destruct (num_rows f =? 0).
      * injection H as <-. exists dp. auto.
      * apply IH in H as (dp' & Hp' & Hd').
        exists (dp ++ dp'). rewrite Hp', Hp, app_assoc. split; [reflexivity|].
        apply Forall_app; auto.
    + injection H as <-. apply Hb.
Qed.

(** A chunk that uses a dictionary starts with its dictionary page, and
    every other page is a data page. *)
Lemma dictionary_page_first L :
  gpuInitPages col_g ck_g P = Some L ->
  use_dictionary ck_g = true ->
  exists d rest,
    out_pages L = d :: rest
    /\ page_type d = DICTIONARY_PAGE
    /\ page_data d = ck_stat_size ck_g
    /\ Forall (fun p => page_type p = DATA_PAGE) rest.
Proof.
  intros H Hd. unfold gpuInitPages in H.
  destruct (pack_loop (fragments ck_g) (dict_page ck_g P (init_state ck_g)))
    as [s|] eqn:E; [|discriminate].
  injection H as <-. simpl.
  apply pack_loop_data in E as (dp & Hp & Hdp).
  rewrite Hp. unfold dict_page. rewrite Hd. simpl.
  eexists _, dp. repeat split; auto.
Qed.

End Facts.

End PlannerFacts.

(** ** The size ceiling along the packing loop *)

Module PlannerCeilingFacts.
Import Planner PlannerFacts PlannerCeiling.

Section Facts.

Variable col_g : column_desc.
Variable ck_g : EncColumnChunk.
Variable P : params.

Local Abbreviation frag_size := (frag_size ck_g).
Local Abbreviation covers := (covers ck_g P).
Local Abbreviation body := (body col_g ck_g P).
Local Abbreviation must_flush := (must_flush ck_g P).
Local Abbreviation pack_loop := (pack_loop col_g ck_g P).
Local Abbreviation dict_pages := (dict_pages ck_g P).
Local Abbreviation inv := (inv ck_g P).
Local Abbreviation frag_ok := (frag_ok ck_g).
Local Abbreviation within_ceiling := (within_ceiling ck_g P).
Local Abbreviation frag_ok_app_rows := (PlannerFacts.frag_ok_app_rows ck_g).
Local Abbreviation sum_pos_nonempty := (PlannerFacts.sum_pos_nonempty ck_g).
Local Abbreviation this_max_le := (PlannerFacts.this_max_le ck_g P).

Lemma within_ceiling_single f : within_ceiling [f].
Proof.
  intros g' f' E Hne. destruct g' as [|x g']; [congruence|].
  destruct g'; discriminate E.
Qed.

Lemma within_ceiling_nil : within_ceiling [].
Proof. intros g' f' E _. destruct g'; discriminate E. Qed.

(** One iteration of the loop keeps every page within its ceiling. *)
Lemma body_step_ceiling done groups cur dpages s f rest mm :
  fragments ck_g = done ++ f :: rest ->
  Forall frag_ok (fragments ck_g) ->
  sum_of num_rows (fragments ck_g) = ck_num_rows ck_g ->
  ck_num_rows ck_g < 2 ^ 32 ->
  sum_of num_values (fragments ck_g) < 2 ^ 32 ->
  sum_of frag_size (fragments ck_g) < 2 ^ 32 ->
  0 <= max_page_size_rows P ->
  inv done groups cur dpages s ->
  Forall within_ceiling groups ->
  within_ceiling cur ->
  exists groups' cur' dpages',
    inv (done ++ [f]) groups' cur' dpages' (body mm (set_frag f s))
    /\ Forall within_ceiling groups'
    /\ within_ceiling cur'.
Proof.
  intros Hfr Hok Hrows Hr32 Hv32 Hs32 Hmr I Wg Wc.
  destruct I as [Id Ific Irows Irip Ivip Ipsz Ipst Ipg Icov Icur Ibd Ine].
  assert (Hok' := Hok). rewrite Hfr in Hok'.
  replace (done ++ f :: rest) with ((done ++ [f]) ++ rest) in Hok'
    by (rewrite <- app_assoc; reflexivity).
  pose proof (frag_ok_app_rows _ _ Hok') as (B1 & B2 & B3 & B4).
  replace ((done ++ [f]) ++ rest) with (fragments ck_g) in B1, B2, B3
    by (rewrite Hfr, <- app_assoc; reflexivity).
  rewrite !sum_of_app in B1, B2, B3, B4. simpl sum_of in B1, B2, B3, B4.
  rewrite length_app in B4. simpl length in B4.
  assert (Hdone : Forall frag_ok done).
  { apply Forall_app in Hok' as [H _]. apply Forall_app in H as [H _]. exact H. }
  assert (Hf : frag_ok f).
  { apply Forall_app in Hok' as [H _]. apply Forall_app in H as [_ H].
    inversion H; assumption. }
  assert (Hcur : Forall frag_ok cur).
  { rewrite Id in Hdone. apply Forall_app in Hdone as [_ H]. exact H. }
  assert (Hcc : Forall frag_ok (concat groups)).
  { rewrite Id in Hdone. apply Forall_app in Hdone as [H _]. exact H. }
  pose proof (frag_ok_app_rows (concat groups) cur) as C.
  rewrite <- Id in C. specialize (C Hdone).
  rewrite Id, !sum_of_app in C. destruct C as (C1 & C2 & C3 & C4).
  pose proof (frag_ok_app_rows cur []) as D. rewrite app_nil_r in D.
  specialize (D Hcur). destruct D as (D1 & D2 & D3 & D4).
  destruct Hf as (Hf1 & Hf2 & Hf3).
  assert (Hnf : cur = [] -> must_flush (set_frag f s) = false).
  { intros E. pose proof (Icur E) as Ed.
    unfold Planner.must_flush. simpl.
    rewrite Irows, Irip, Ivip, Ed, E. simpl.
    rewrite Ed in B1. simpl in B1.
    apply orb_false_iff; split; [apply orb_false_iff; split|]; lia. }
  rewrite Id, !sum_of_app, ?length_app in B1, B2, B3, B4.
  unfold body.
  destruct (must_flush (set_frag f s)) eqn:Hmf.
  - (* the open page is closed, the fragment opens the next one *)
    assert (Hne : cur <> []).
    { intros E. specialize (Hnf E). congruence. }
    exists (groups ++ [cur]), [f].
    eexists (dpages ++ [_]).
    split; [|split].
    { constructor; simpl.
      + rewrite concat_app. simpl. rewrite app_nil_r, Id, <- app_assoc. reflexivity.
      + rewrite Ific, Id, !length_app. simpl length.
        rewrite u32_small; rewrite ?length_app; lia.
      + rewrite Irows, Id, !sum_of_app. simpl. rewrite u32_small; lia.
      + rewrite u32_small; lia.
      + rewrite u32_small; lia.
      + rewrite u32_small; lia.
      + rewrite Ific, Id, concat_app. simpl. rewrite app_nil_r. reflexivity.
      + rewrite Ipg, app_assoc. reflexivity.
      + apply Forall2_app; [exact Icov|]. constructor; [|constructor].
        unfold Planner.covers; simpl. repeat split; auto.
        rewrite Ific, Ipst, Id, length_app.
        rewrite u32_small; lia.
      + discriminate.
      + right. simpl. lia.
      + apply Forall_app. split; [exact Ine|]. constructor; [exact Hne|constructor]. }
    { apply Forall_app. split; [exact Wg|]. constructor; [exact Wc|constructor]. }
    { apply within_ceiling_single. }
  - (* the fragment joins the open page *)
    exists groups, (cur ++ [f]), dpages.
    split; [|split; [exact Wg|]].
    { constructor; simpl.
      + rewrite Id, <- app_assoc. reflexivity.
      + rewrite Ific, Id, !length_app. simpl length.
        rewrite u32_small; rewrite ?length_app; lia.
      + rewrite Irows, Id, !sum_of_app. simpl. rewrite u32_small; lia.
      + rewrite Irip, sum_of_app. simpl. rewrite u32_small; lia.
      + rewrite Ivip, sum_of_app. simpl. rewrite u32_small; lia.
      + rewrite Ipsz, sum_of_app. simpl. rewrite u32_small; lia.
      + exact Ipst.
      + exact Ipg.
      + exact Icov.
      + intros H. apply app_eq_nil in H as [_ H]. discriminate.
      + destruct cur as [|c cur'] eqn:Ec; [right; simpl; lia|].
        left. rewrite <- Ec in *.
        assert (0 < sum_of num_values cur).
        { apply sum_pos_nonempty; [exact Hcur | rewrite Ec; discriminate]. }
        unfold Planner.must_flush in Hmf. simpl in Hmf.
        apply orb_false_iff in Hmf as [Hmf _].
        apply orb_false_iff in Hmf as [_ Hmf].
        apply andb_false_iff in Hmf as [Hmf|Hmf]; [lia|].
        rewrite Ipsz, u32_small in Hmf by lia.
        pose proof (this_max_le (values_in_page s)).
        rewrite sum_of_app. simpl. lia.
      + exact Ine. }
    { intros g' f' E Hne. apply app_inj_tail in E as [E1 E2]. subst g' f'.
      assert (0 < sum_of num_values cur)
        by (apply sum_pos_nonempty; assumption).
      unfold Planner.must_flush in Hmf. simpl in Hmf.
      apply orb_false_iff in Hmf as [Hmf _].
      apply orb_false_iff in Hmf as [_ Hmf].
      apply andb_false_iff in Hmf as [Hmf|Hmf]; [lia|].
      rewrite Ipsz, Ivip, u32_small in Hmf by lia.
      rewrite sum_of_app. simpl. lia. }
Qed.

(** The loop terminates on a well-formed chunk, its pages partition the
    fragments, and every page stayed within its ceiling. *)
Lemma pack_loop_ceiling rest :
  forall done groups cur dpages s,
  fragments ck_g = done ++ rest ->
  chunk_ok ck_g P ->
  inv done groups cur dpages s ->
  Forall within_ceiling groups ->
  within_ceiling cur ->
  exists s' groups' dpages',
    pack_loop rest s = Some s'
    /\ pages s' = dict_pages ++ dpages'
    /\ Forall2 covers dpages' groups'
    /\ concat groups' = fragments ck_g
    /\ Forall within_ceiling groups'.
Proof.
  induction rest as [|f rest IH]; intros done groups cur dpages s Hfr OK I Wg Wc.
  - (* every fragment was read: the last page is closed *)
    rewrite app_nil_r in Hfr. destruct OK as [Hok Hrows Hr32 Hv32 Hs32 Hmr Hst].
    pose proof I as [Id Ific Irows Irip Ivip Ipsz Ipst Ipg Icov Icur Ibd Ine].
    simpl. rewrite Irows, <- Hfr, Hrows, Z.ltb_irrefl.
    unfold body.
    assert (Hmf : must_flush (set_frag
              {| fragment_data_size := 0;
                 num_values := num_values (frag_g s);
                 num_leaf_values := num_leaf_values (frag_g s);
                 num_rows := 0;
                 num_dict_vals := num_dict_vals (frag_g s) |} s) = true).
    { unfold Planner.must_flush. simpl.
      rewrite Irows, <- Hfr, Hrows.
      replace (ck_num_rows ck_g >=? ck_num_rows ck_g) with true
        by (symmetry; apply Z.geb_le; lia).
      reflexivity. }
    rewrite Hmf.
    eexists. exists (groups ++ [cur]). eexists (dpages ++ [_]).
    split; [reflexivity|]. simpl.
    assert (Hall : Forall frag_ok (concat groups ++ cur))
      by (rewrite <- Id, <- Hfr; exact Hok).
    pose proof (frag_ok_app_rows _ _ Hall) as (B1 & B2 & B3 & B4).
    rewrite <- Id, <- Hfr, Hrows in B1.
    split; [rewrite Ipg, app_assoc; reflexivity|].
    split; [|split].
    + apply Forall2_app; [exact Icov|]. constructor; [|constructor].
      unfold Planner.covers; simpl. repeat split; auto.
      rewrite Ific, Ipst, Id, length_app.
      pose proof (frag_ok_app_rows _ _ Hall) as (_ & _ & _ & B5).
      assert (Hl : Z.of_nat (length (concat groups ++ cur))
                   <= sum_of num_rows (concat groups ++ cur)).
      { pose proof (frag_ok_app_rows (concat groups ++ cur) []) as A.
        rewrite app_nil_r in A. apply A. exact Hall. }
      assert (Hs : sum_of num_rows (concat groups ++ cur) = ck_num_rows ck_g)
        by (rewrite <- Id, <- Hfr; exact Hrows).
      rewrite Hs, length_app in Hl.
      rewrite u32_small; lia.
    + rewrite concat_app. simpl. rewrite app_nil_r, <- Id. symmetry. exact Hfr.
    + apply Forall_app. split; [exact Wg|].
      constructor; [exact Wc|constructor].
  - (* one more fragment *)
    pose proof OK as [Hok Hrows Hr32 Hv32 Hs32 Hmr Hst].
    pose proof I as [Id Ific Irows Irip Ivip Ipsz Ipst Ipg Icov Icur Ibd Ine].
    assert (Hok' := Hok). rewrite Hfr in Hok'.
    pose proof (frag_ok_app_rows _ _ Hok') as (B1 & _ & _ & B4).
    rewrite <- Hfr, Hrows in B1.
    assert (Hf : frag_ok f).
    { apply Forall_app in Hok' as [_ H]. inversion H; assumption. }
    assert (Hlt : sum_of num_rows done < ck_num_rows ck_g).
    { rewrite <- Hrows, Hfr, sum_of_app. simpl.
      apply Forall_app in Hok' as [_ H]. inversion H as [|? ? ? Hr]; subst.
      pose proof (frag_ok_app_rows rest []) as A. rewrite app_nil_r in A.
      specialize (A Hr). destruct Hf as (? & ? & ?). lia. }
    simpl. rewrite Irows.
    replace (sum_of num_rows done <? ck_num_rows ck_g) with true
      by (symmetry; apply Z.ltb_lt; exact Hlt).
    destruct (minmax_len_at_some col_g ck_g (fragments_in_chunk s) Hst) as [mm Hmm].
    { rewrite Ific, Hfr, length_app. simpl length. lia. }
    rewrite Hmm.
    replace (num_rows f =? 0) with false
      by (symmetry; apply Z.eqb_neq; destruct Hf; lia).
    destruct (body_step_ceiling done groups cur dpages s f rest mm Hfr Hok
                Hrows Hr32 Hv32 Hs32 Hmr I Wg Wc)
      as (groups' & cur' & dpages' & I' & Wg' & Wc').
    apply (IH (done ++ [f]) groups' cur' dpages'); auto.
    rewrite <- app_assoc. exact Hfr.
Qed.

(** Layout of a well-formed chunk with the ceilings: the kernel returns,
    its data pages are consecutive runs of the chunk's fragments, and every
    run of more than one fragment stayed within the ceiling that applied
    when its last fragment joined the page. *)
Lemma gpuInitPages_ceiling :
  chunk_ok ck_g P ->
  exists L groups,
    gpuInitPages col_g ck_g P = Some L
    /\ concat groups = fragments ck_g
    /\ Forall2 covers (data_pages (out_pages L)) groups
    /\ Forall within_ceiling groups.
Proof.
  intros OK.
  destruct (pack_loop_ceiling (fragments ck_g) [] [] [] []
              (dict_page ck_g P (init_state ck_g)) eq_refl OK
              (inv_init ck_g P) (Forall_nil _) within_ceiling_nil)
    as (s' & groups & dpages & Hl & Hp & Hc & Hg & Hw).
  unfold gpuInitPages. rewrite Hl.
  eexists. exists groups. split; [reflexivity|]. simpl.
  assert (Hd : data_pages (pages s') = dpages).
  { rewrite Hp. unfold data_pages. rewrite filter_app.
    fold (data_pages dict_pages). fold (data_pages dpages).
    rewrite data_pages_dict, (covers_data _ _ _ _ Hc). reflexivity. }
  rewrite Hd. repeat split; auto.
Qed.

End Facts.

End PlannerCeilingFacts.

(** ** RLE encoder: the lane-level primitives *)

Module RleBits.
Import Rle.

Lemma In_seq_Z a n x :
  In x (map Z.of_nat (seq a n)) <-> Z.of_nat a <= x < Z.of_nat a + Z.of_nat n.
Proof.
  rewrite in_map_iff. split.
  - intros (k & <- & Hk). apply in_seq in Hk. lia.
  - intros H. exists (Z.to_nat x). split; [lia|]. apply in_seq. lia.
Qed.

Lemma In_lanes t : In t lanes <-> 0 <= t < 128.
Proof. unfold lanes. rewrite In_seq_Z. simpl. lia. Qed.

Lemma In_warp_lanes l : In l warp_lanes <-> 0 <= l < 32.
Proof. unfold warp_lanes. rewrite In_seq_Z. simpl. lia. Qed.

Lemma testbit_one k : Z.testbit 1 k = (k =? 0).
Proof.
  destruct (Z.eqb_spec k 0) as [->|Hk]; [reflexivity|].
  destruct (Z.ltb_spec k 0); [now apply Z.testbit_neg_r|].
  change 1 with (2 ^ 0). apply Z.pow2_bits_false. lia.
Qed.

Lemma fold_lor_testbit (q : Z -> bool) ls k :
  Forall (fun l => 0 <= l) ls ->
  Z.testbit
    (fold_right (fun l acc => Z.lor (if q l then Z.shiftl 1 l else 0) acc) 0 ls) k
  = existsb (fun l => (l =? k) && q l) ls.
Proof.
  induction 1 as [|l ls Hl _ IH]; simpl; [apply Z.testbit_0_l|].
  rewrite Z.lor_spec, IH. f_equal.
  destruct (q l); [|rewrite Z.testbit_0_l, andb_false_r; reflexivity].
  rewrite andb_true_r.
  destruct (Z.ltb_spec k 0) as [Hk|Hk].
  - rewrite Z.testbit_neg_r by lia. symmetry. apply Z.eqb_neq. lia.
  - rewrite Z.shiftl_spec, testbit_one by lia.
    destruct (Z.eqb_spec (k - l) 0), (Z.eqb_spec l k); try reflexivity; lia.
Qed.

Lemma existsb_pick (q : Z -> bool) ls k :
  existsb (fun l => (l =? k) && q l) ls = if in_dec Z.eq_dec k ls then q k else false.
Proof.
  destruct (in_dec Z.eq_dec k ls) as [Hin|Hin].
  - destruct (q k) eqn:E.
    + apply existsb_exists. exists k. rewrite Z.eqb_refl, E. auto.
    + apply not_true_is_false. intros H. apply existsb_exists in H as (l & _ & H).
      apply andb_true_iff in H as [H1 H2]. apply Z.eqb_eq in H1. congruence.
  - apply not_true_is_false. intros H. apply existsb_exists in H as (l & Hl & H).
    apply andb_true_iff in H as [H1 _]. apply Z.eqb_eq in H1. congruence.
Qed.

Lemma ballot_testbit p w k :
  Z.testbit (ballot p w) k = (0 <=? k) && (k <? 32) && p (32 * w + k).
Proof.
  unfold ballot.
  rewrite (fold_lor_testbit (fun l => p (32 * w + l))).
  2:{ apply Forall_forall. intros l Hl. apply In_warp_lanes in Hl. lia. }
  rewrite existsb_pick.
  destruct (in_dec Z.eq_dec k warp_lanes) as [Hin|Hin].
  - apply In_warp_lanes in Hin.
    replace (0 <=? k) with true by (symmetry; apply Z.leb_le; lia).
    replace (k <? 32) with true by (symmetry; apply Z.ltb_lt; lia).
    reflexivity.
  - rewrite In_warp_lanes in Hin.
    destruct (Z.leb_spec 0 k), (Z.ltb_spec k 32); try reflexivity; lia.
Qed.

Lemma ballot_spec p w k :
  0 <= k < 32 -> Z.testbit (ballot p w) k = p (32 * w + k).
Proof.
  intros H. rewrite ballot_testbit.
  replace (0 <=? k) with true by (symmetry; apply Z.leb_le; lia).
  replace (k <? 32) with true by (symmetry; apply Z.ltb_lt; lia).
  reflexivity.
Qed.

Lemma ballot_high p w k : 32 <= k -> Z.testbit (ballot p w) k = false.
Proof.
  intros H. rewrite ballot_testbit.
  replace (k <? 32) with false by (symmetry; apply Z.ltb_ge; lia).
  now rewrite andb_false_r.
Qed.

Lemma ballot_nonneg p w : 0 <= ballot p w.
Proof.
  apply Z.bits_iff_nonneg_ex. exists 32. intros k Hk. apply ballot_high. lia.
Qed.

Lemma ballot_all_ones p w :
  ballot p w = 0xffffffff <-> (forall l, 0 <= l < 32 -> p (32 * w + l) = true).
Proof.
  change 0xffffffff with (Z.ones 32). split.
  - intros H l Hl. rewrite <- ballot_spec by exact Hl. rewrite H.
    apply Z.ones_spec_low. lia.
  - intros H. apply Z.bits_inj'. intros k Hk.
    destruct (Z.ltb_spec k 32).
    + rewrite ballot_spec, Z.ones_spec_low by lia. apply H. lia.
    + rewrite ballot_high, Z.ones_spec_high by lia. reflexivity.
Qed.

(** [ffs] finds the lowest set bit. *)
Lemma find_seq_least (f : Z -> bool) n : forall a,
  match find f (map Z.of_nat (seq a n)) with
  | Some l => Z.of_nat a <= l < Z.of_nat a + Z.of_nat n /\ f l = true
              /\ forall j, Z.of_nat a <= j < l -> f j = false
  | None => forall j, Z.of_nat a <= j < Z.of_nat a + Z.of_nat n -> f j = false
  end.
Proof.
  induction n as [|n IH]; intros a; simpl.
  - intros j Hj. lia.
  - destruct (f (Z.of_nat a)) eqn:E.
    + split; [lia|]. split; [exact E|]. intros j Hj. lia.
    + specialize (IH (S a)).
      destruct (find f (map Z.of_nat (seq (S a) n))) as [l|].
      * destruct IH as (H1 & H2 & H3). split; [lia|]. split; [exact H2|].
        intros j Hj. destruct (Z.eq_dec j (Z.of_nat a)) as [->|Hne];
          [exact E | apply H3; lia].
      * intros j Hj. destruct (Z.eq_dec j (Z.of_nat a)) as [->|Hne];
          [exact E | apply IH; lia].
Qed.

Lemma ffs_zero x :
  ffs x = 0 -> forall l, 0 <= l < 32 -> Z.testbit x l = false.
Proof.
  unfold ffs, warp_lanes. intros H.
  pose proof (find_seq_least (fun l => Z.testbit x l) 32 0) as F.
  destruct (find _ _) as [l|]; [simpl in F; lia|].
  intros l Hl. apply F. simpl. lia.
Qed.

Lemma ffs_pos x k :
  ffs x = k + 1 -> 0 <= k ->
  k < 32 /\ Z.testbit x k = true
  /\ forall l, 0 <= l < k -> Z.testbit x l = false.
Proof.
  unfold ffs, warp_lanes. intros H Hk.
  pose proof (find_seq_least (fun l => Z.testbit x l) 32 0) as F.
  destruct (find _ _) as [l|]; [|lia].
  assert (l = k) by lia. subst l. simpl in F. destruct F as (F1 & F2 & F3).
  repeat split; auto; lia.
Qed.

Lemma ffs_range x : 0 <= ffs x <= 32.
Proof.
  unfold ffs, warp_lanes.
  pose proof (find_seq_least (fun l => Z.testbit x l) 32 0) as F.
  destruct (find _ _) as [l|]; simpl in F; lia.
Qed.

Lemma ffs_nonzero x l :
  0 <= l < 32 -> Z.testbit x l = true -> 1 <= ffs x.
Proof.
  intros Hl Hb. pose proof (ffs_range x).
  destruct (Z.eq_dec (ffs x) 0) as [E|E]; [|lia].
  rewrite (ffs_zero x E l Hl) in Hb. discriminate.
Qed.

Lemma not32_spec x l :
  0 <= l < 32 -> Z.testbit (not32 x) l = negb (Z.testbit x l).
Proof.
  intros Hl. unfold not32. change 0xffffffff with (Z.ones 32).
  rewrite Z.land_spec, Z.lnot_spec, Z.ones_spec_low by lia.
  apply andb_true_r.
Qed.

Lemma not32_zero x :
  not32 x = 0 -> forall l, 0 <= l < 32 -> Z.testbit x l = true.
Proof.
  intros H l Hl. apply negb_false_iff.
  rewrite <- not32_spec by exact Hl. rewrite H. apply Z.testbit_0_l.
Qed.

(** The repeat branch counts lanes that all hold the predicate. *)
Lemma leading_count_sound p :
  0 <= leading_count (rpt_map_of p) <= 128
  /\ forall j, 0 <= j < leading_count (rpt_map_of p) -> p j = true.
Proof.
  unfold leading_count.
  set (c32 := ballot _ 0).
  assert (H4 : Z.testbit c32 4 = true).
  { unfold c32. rewrite ballot_spec by lia. reflexivity. }
  pose proof (ffs_nonzero c32 4 ltac:(lia) H4) as Hnz.
  pose proof (ffs_range c32) as Hr.
  destruct (ffs_pos c32 (ffs c32 - 1) ltac:(lia) ltac:(lia)) as (K1 & K2 & K3).
  set (k := ffs c32 - 1) in *.
  assert (Hk4 : k <= 4).
  { destruct (Z.le_gt_cases k 4); [assumption|].
    rewrite K3 in H4 by lia. discriminate. }
  assert (Hfull : forall w l, 0 <= w < k -> 0 <= l < 32 -> p (32 * w + l) = true).
  { intros w l Hw Hl. specialize (K3 w Hw). unfold c32 in K3.
    rewrite ballot_spec in K3 by lia. simpl in K3.
    apply orb_false_iff in K3 as [K3a K3b].
    apply negb_false_iff, Z.eqb_eq in K3b. replace (0 + w) with w in K3b by lia.
    unfold rpt_map_of in K3b. apply ballot_all_ones with (l := l) in K3b; auto. }
  destruct (Z.ltb_spec k 4) as [Hlt|Hge].
  - (* the first word that is not all ones *)
    unfold c32 in K2. rewrite ballot_spec in K2 by lia. simpl in K2.
    replace (0 + k) with k in K2 by lia.
    destruct (Z.geb_spec k 4) as [?|_]; [lia|].
    simpl in K2. apply negb_true_iff, Z.eqb_neq in K2.
    set (m := rpt_map_of p k) in *.
    assert (Hclear : exists l, 0 <= l < 32 /\ Z.testbit m l = false).
    { destruct (Z.eq_dec (ffs (not32 m)) 0) as [E|E].
      - exfalso. apply K2. unfold m, rpt_map_of. apply ballot_all_ones.
        intros l Hl. pose proof (ffs_zero _ E l Hl) as Hb.
        rewrite not32_spec in Hb by exact Hl. apply negb_false_iff in Hb.
        unfold m, rpt_map_of in Hb. rewrite ballot_spec in Hb by exact Hl.
        exact Hb.
      - pose proof (ffs_range (not32 m)).
        destruct (ffs_pos (not32 m) (ffs (not32 m) - 1) ltac:(lia) ltac:(lia))
          as (L1 & L2 & _).
        eexists. split; [|rewrite not32_spec in L2 by lia;
                           apply negb_true_iff in L2; exact L2]. lia. }
    destruct Hclear as (l0 & Hl0 & Hb0).
    assert (Hnz2 : 1 <= ffs (not32 m)).
    { apply (ffs_nonzero _ l0 Hl0). rewrite not32_spec by exact Hl0.
      now rewrite Hb0. }
    pose proof (ffs_range (not32 m)) as Hr2.
    destruct (ffs_pos (not32 m) (ffs (not32 m) - 1) ltac:(lia) ltac:(lia))
      as (L1 & L2 & L3).
    split; [lia|].
    intros j Hj.
    destruct (Z.ltb_spec j (32 * k)) as [Hjk|Hjk].
    + replace j with (32 * (j / 32) + j mod 32) by (symmetry; apply Z.div_mod; lia).
      apply Hfull; [|apply Z.mod_pos_bound; lia].
      split; [apply Z.div_pos; lia|]. apply Z.div_lt_upper_bound; lia.
    + specialize (L3 (j - 32 * k) ltac:(lia)).
      rewrite not32_spec in L3 by lia. apply negb_false_iff in L3.
      unfold m, rpt_map_of in L3. rewrite ballot_spec in L3 by lia.
      replace (32 * k + (j - 32 * k)) with j in L3 by lia. exact L3.
  - assert (k = 4) by lia. split; [lia|].
    intros j Hj.
    replace j with (32 * (j / 32) + j mod 32) by (symmetry; apply Z.div_mod; lia).
    apply Hfull; [|apply Z.mod_pos_bound; lia].
    split; [apply Z.div_pos; lia|]. apply Z.div_lt_upper_bound; lia.
Qed.

Lemma laneb_true p t : laneb p t = true -> 0 <= t < 128 /\ p t = true.
Proof.
  unfold laneb. intros H. apply andb_true_iff in H as [H H3].
  apply andb_true_iff in H as [H1 H2]. split; [lia | exact H3].
Qed.

Lemma window_spec p idx ofs i :
  0 <= idx -> 0 <= ofs < 32 -> 0 <= i < 32 ->
  Z.testbit (window (rpt_map_of p) idx ofs) i = laneb p (32 * idx + ofs + i).
Proof.
  intros Hidx Hofs Hi. unfold window, funnelshift_r, rpt_map_of.
  change 0xffffffff with (Z.ones 32). change 31 with (Z.ones 5).
  rewrite Z.land_spec, Z.ones_spec_low, andb_true_r by lia.
  rewrite (Z.land_ones ofs 5), (Z.mod_small ofs) by (simpl; lia).
  rewrite Z.shiftr_spec, Z.lor_spec, Z.shiftl_spec by lia.
  unfold laneb.
  destruct (Z.ltb_spec (i + ofs) 32) as [Hlo|Hhi].
  - rewrite (Z.testbit_neg_r _ (i + ofs - 32)), orb_false_r by lia.
    destruct (Z.ltb_spec idx 4).
    + rewrite ballot_spec by lia.
      replace (32 * idx + (i + ofs)) with (32 * idx + ofs + i) by lia.
      destruct (Z.leb_spec 0 (32 * idx + ofs + i)); [|lia].
      destruct (Z.ltb_spec (32 * idx + ofs + i) 128); [|lia]. reflexivity.
    + rewrite Z.testbit_0_l.
      destruct (Z.ltb_spec (32 * idx + ofs + i) 128); [lia|].
      now rewrite andb_false_r.
  - replace (Z.testbit (if idx <? 4 then ballot p idx else 0) (i + ofs))
      with false.
    2:{ destruct (idx <? 4); [rewrite ballot_high by lia|rewrite Z.testbit_0_l];
        reflexivity. }
    cbn [orb]. destruct (Z.ltb_spec idx 3).
    + rewrite ballot_spec by lia.
      replace (32 * (idx + 1) + (i + ofs - 32)) with (32 * idx + ofs + i) by lia.
      destruct (Z.leb_spec 0 (32 * idx + ofs + i)); [|lia].
      destruct (Z.ltb_spec (32 * idx + ofs + i) 128); [|lia]. reflexivity.
    + rewrite Z.testbit_0_l.
      destruct (Z.ltb_spec (32 * idx + ofs + i) 128); [lia|].
      now rewrite andb_false_r.
Qed.

Lemma not32_nonzero x :
  not32 x <> 0 -> 1 <= ffs (not32 x).
Proof.
  intros H. pose proof (ffs_range (not32 x)).
  destruct (Z.eq_dec (ffs (not32 x)) 0) as [E|E]; [|lia].
  exfalso. apply H. apply Z.bits_inj'. intros k Hk. rewrite Z.testbit_0_l.
  destruct (Z.ltb_spec k 32).
  - apply (ffs_zero _ E). lia.
  - unfold not32. change 0xffffffff with (Z.ones 32).
    rewrite Z.land_spec, Z.ones_spec_high by lia. apply andb_false_r.
Qed.

(** The loop that measures a repeat run only counts lanes that hold the
    predicate. *)
Lemma rpt_len_loop_sound p ofs fuel : forall idx acc,
  0 <= idx -> 0 <= ofs < 32 ->
  acc <= rpt_len_loop fuel (rpt_map_of p) idx ofs acc
  /\ forall j, 0 <= j < rpt_len_loop fuel (rpt_map_of p) idx ofs acc - acc ->
               laneb p (32 * idx + ofs + j) = true.
Proof.
  induction fuel as [|fuel IH]; intros idx acc Hidx Hofs; cbn [rpt_len_loop].
  - split; [lia|]. intros j Hj. lia.
  - destruct (Z.ltb_spec idx 4); [|split; [lia|intros j Hj; lia]].
    set (mask := not32 (window (rpt_map_of p) idx ofs)).
    destruct (Z.eqb_spec mask 0) as [E|E]; cbn [negb].
    + destruct (IH (idx + 1) (acc + 32) ltac:(lia) Hofs) as [I1 I2].
      split; [lia|]. intros j Hj.
      destruct (Z.ltb_spec j 32).
      * rewrite <- window_spec by lia. apply not32_zero; [exact E|lia].
      * replace (32 * idx + ofs + j) with (32 * (idx + 1) + ofs + (j - 32)) by lia.
        apply I2. lia.
    + assert (Hnz : 1 <= ffs mask) by (apply not32_nonzero; exact E).
      pose proof (ffs_range mask) as Hr.
      destruct (ffs_pos mask (ffs mask - 1) ltac:(lia) ltac:(lia))
        as (L1 & L2 & L3).
      split; [lia|]. intros j Hj.
      rewrite <- window_spec by lia.
      specialize (L3 j ltac:(lia)). unfold mask in L3.
      rewrite not32_spec in L3 by lia. now apply negb_false_iff in L3.
Qed.

Lemma rpt_len_loop_pos p ofs fuel idx :
  0 <= idx < 4 -> 0 <= ofs < 32 ->
  laneb p (32 * idx + ofs) = true ->
  1 <= rpt_len_loop (S fuel) (rpt_map_of p) idx ofs 0.
Proof.
  intros Hidx Hofs Hb. cbn [rpt_len_loop].
  destruct (Z.ltb_spec idx 4); [|lia].
  set (mask := not32 (window (rpt_map_of p) idx ofs)).
  destruct (Z.eqb_spec mask 0) as [E|E]; cbn [negb].
  - destruct (rpt_len_loop_sound p ofs fuel (idx + 1) (0 + 32) ltac:(lia) Hofs).
    lia.
  - assert (Hnz : 1 <= ffs mask) by (apply not32_nonzero; exact E).
    pose proof (ffs_range mask) as Hr.
    destruct (ffs_pos mask (ffs mask - 1) ltac:(lia) ltac:(lia))
      as (L1 & L2 & L3).
    destruct (Z.eq_dec (ffs mask - 1) 0) as [E0|E0]; [|lia].
    rewrite E0 in L2. unfold mask in L2.
    rewrite not32_spec, window_spec in L2 by lia.
    replace (32 * idx + ofs + 0) with (32 * idx + ofs) in L2 by lia.
    rewrite Hb in L2. discriminate.
Qed.

Lemma kRleRunMask_odd nbits :
  1 <= nbits <= 16 ->
  Z.testbit (nth (Z.to_nat (nbits - 1)) kRleRunMask 0) 0 = true.
Proof.
  intros H.
  assert (E : exists n, (n < 16)%nat /\ Z.to_nat (nbits - 1) = n)
    by (exists (Z.to_nat (nbits - 1)); lia).
  destruct E as (n & Hn & ->).
  do 16 (destruct n as [|n]; [reflexivity|]). lia.
Qed.

(** What the literal branch learns from the ballots: the literal part is a
    whole number of groups of eight unless it reaches the end of the
    window, and the repeat part only covers lanes equal to their
    successor. *)
Lemma find_run_sound p nbits maxvals lit rpt :
  1 <= nbits <= 16 -> 0 <= maxvals <= 128 ->
  find_run (rpt_map_of p) nbits maxvals = (lit, rpt) ->
  0 <= lit <= maxvals
  /\ 0 <= rpt <= maxvals - lit
  /\ (lit < maxvals -> lit mod 8 = 0 /\ 1 <= rpt)
  /\ (forall j, 0 <= j < rpt -> laneb p (lit + j) = true).
Proof.
  intros Hn Hm. unfold find_run.
  set (needed := nth (Z.to_nat (nbits - 1)) kRleRunMask 0).
  set (mask := ballot _ 0).
  set (start := if negb (mask =? 0) then Z.min ((ffs mask - 1) * 8) maxvals
                else maxvals).
  intros E. apply pair_equal_spec in E as [<- <-].
  pose proof (ffs_range mask) as Hr.
  assert (Hstart : 0 <= start <= maxvals
                   /\ (start < maxvals ->
                       start mod 8 = 0 /\ laneb p start = true)).
  { unfold start. destruct (Z.eqb_spec mask 0) as [E|E]; simpl; [lia|].
    assert (Hnz : 1 <= ffs mask).
    { destruct (Z.eq_dec (ffs mask) 0) as [E0|E0]; [|lia].
      exfalso. apply E. apply Z.bits_inj'. intros k Hk. rewrite Z.testbit_0_l.
      destruct (Z.ltb_spec k 32); [apply (ffs_zero _ E0); lia|].
      unfold mask. apply ballot_high. lia. }
    split; [lia|]. intros Hlt.
    assert (Hs : Z.min ((ffs mask - 1) * 8) maxvals = (ffs mask - 1) * 8) by lia.
    rewrite Hs. split; [apply Z.mod_mul; lia|].
    destruct (ffs_pos mask (ffs mask - 1) ltac:(lia) ltac:(lia))
      as (L1 & L2 & _).
    set (k := ffs mask - 1) in *.
    unfold mask in L2. rewrite ballot_spec in L2 by lia. simpl in L2.
    replace (0 + k) with k in L2 by lia.
    apply Z.eqb_eq in L2.
    assert (Hb : Z.testbit (window (rpt_map_of p) (Z.shiftr (k * 8) 5)
                                   (Z.land (k * 8) 31)) 0 = true).
    { apply (f_equal (fun x => Z.testbit x 0)) in L2.
      rewrite Z.land_spec in L2. fold needed in L2.
      unfold needed in L2 at 2. rewrite kRleRunMask_odd in L2 by lia.
      apply andb_true_iff in L2 as [L2 _]. exact L2. }
    change 31 with (Z.ones 5) in Hb.
    rewrite Z.land_ones, Z.shiftr_div_pow2 in Hb by lia.
    rewrite window_spec in Hb.
    2:{ apply Z.div_pos; lia. }
    2:{ apply Z.mod_pos_bound. lia. }
    2:{ lia. }
    replace (32 * (k * 8 / 2 ^ 5) + (k * 8) mod 2 ^ 5 + 0) with (k * 8) in Hb.
    2:{ rewrite Z.add_0_r. apply (Z.div_mod (k * 8) (2 ^ 5)). lia. }
    exact Hb. }
  destruct Hstart as (Hs1 & Hs2).
  destruct (Z.ltb_spec start maxvals) as [Hlt|Hge].
  - destruct (Hs2 Hlt) as (Hmod & Hb).
    assert (Hidx : 0 <= Z.shiftr start 5 < 4).
    { rewrite Z.shiftr_div_pow2 by lia. split; [apply Z.div_pos; lia|].
      apply Z.div_lt_upper_bound; lia. }
    assert (Hofs : 0 <= Z.land start 31 < 32).
    { change 31 with (Z.ones 5). rewrite Z.land_ones by lia.
      apply Z.mod_pos_bound. lia. }
    assert (Hsplit : 32 * Z.shiftr start 5 + Z.land start 31 = start).
    { change 31 with (Z.ones 5).
      rewrite Z.land_ones, Z.shiftr_div_pow2 by lia.
      symmetry. apply (Z.div_mod start (2 ^ 5)). lia. }
    destruct (rpt_len_loop_sound p (Z.land start 31) 5 (Z.shiftr start 5) 0
                ltac:(lia) Hofs) as (R1 & R2).
    pose proof (rpt_len_loop_pos p (Z.land start 31) 4 (Z.shiftr start 5)
                  Hidx Hofs) as R3.
    rewrite Hsplit in R3. specialize (R3 Hb).
    set (r := rpt_len_loop 5 (rpt_map_of p) (Z.shiftr start 5)
                           (Z.land start 31) 0) in *.
    repeat split; try lia.
    intros j Hj. rewrite <- Hsplit. apply R2. lia.
  - repeat split; try lia.
Qed.

End RleBits.

(** ** RLE encoder: [PackLiterals] writes the packed bit stream *)

Module RlePack.
Import Rle RleBits.

Lemma testbit_high x n k : 0 <= x < 2 ^ n -> n <= k -> Z.testbit x k = false.
Proof.
  intros [H0 H1] Hk. destruct (Z.eq_dec x 0) as [->|Hx];
    [apply Z.testbit_0_l|].
  apply Z.bits_above_log2; [lia|].
  assert (0 <= n).
  { destruct (Z.le_gt_cases 0 n); [assumption|].
    rewrite Z.pow_neg_r in H1 by lia. lia. }
  apply Z.lt_le_trans with n; [|exact Hk]. apply Z.log2_lt_pow2; lia.
Qed.

Lemma byte_testbit x i :
  0 <= i < 8 -> Z.testbit (byte.unsigned (byte.of_Z x)) i = Z.testbit x i.
Proof.
  intros Hi. rewrite byte.unsigned_of_Z. unfold byte.wrap.
  apply Z.mod_pow2_bits_low. lia.
Qed.

Lemma shiftl_bit a n m :
  0 <= n -> Z.testbit (Z.shiftl a n) m = Z.testbit a (m - n).
Proof.
  intros Hn. destruct (Z.ltb_spec m 0).
  - rewrite !Z.testbit_neg_r by lia. reflexivity.
  - apply Z.shiftl_spec. lia.
Qed.

Lemma existsb_ext_Z (f1 f2 : Z -> bool) ls :
  (forall t, f1 t = f2 t) -> existsb f1 ls = existsb f2 ls.
Proof.
  intros H. induction ls as [|t ls IH]; cbn [existsb]; [reflexivity|].
  rewrite H, IH. reflexivity.
Qed.

Lemma lor_ge_l a b : 0 <= a -> 0 <= b -> a <= Z.lor a b.
Proof.
  intros Ha Hb. apply Z.ldiff_le; [apply Z.lor_nonneg; lia|].
  apply Z.bits_inj'. intros k Hk.
  rewrite Z.ldiff_spec, Z.lor_spec, Z.testbit_0_l.
  destruct (Z.testbit a k); reflexivity.
Qed.

Lemma apply_stores_snoc m ws aw :
  apply_stores m (ws ++ [aw]) = store (apply_stores m ws) (fst aw) (snd aw).
Proof. unfold apply_stores. rewrite fold_left_app. reflexivity. Qed.

Lemma apply_stores_notin ws : forall m a,
  (forall x, ~ In (a, x) ws) -> apply_stores m ws a = m a.
Proof.
  induction ws as [|[a' x'] ws IH] using rev_ind; intros m a H; [reflexivity|].
  rewrite apply_stores_snoc. unfold store. simpl.
  destruct (Z.eqb_spec a a') as [->|Hne].
  - exfalso. apply (H x'). apply in_or_app. right. left. reflexivity.
  - apply IH. intros x Hx. apply (H x). apply in_or_app. left. exact Hx.
Qed.

Lemma apply_stores_in ws : forall m a x,
  In (a, x) ws -> (forall x', In (a, x') ws -> x' = x) ->
  apply_stores m ws a = byte.of_Z x.
Proof.
  induction ws as [|[a' x'] ws IH] using rev_ind; intros m a x Hin Hu;
    [destruct Hin|].
  rewrite apply_stores_snoc. unfold store. simpl.
  destruct (Z.eqb_spec a a') as [->|Hne].
  - rewrite (Hu x'); [reflexivity|]. apply in_or_app. right. left. reflexivity.
  - apply IH.
    + apply in_app_or in Hin as [Hin|[Hin|[]]]; [exact Hin|].
      injection Hin as -> _. congruence.
    + intros y Hy. apply Hu. apply in_or_app. left. exact Hy.
Qed.

(** The byte at an address written by exactly one lane. *)
Lemma scatter_byte (f : Z -> list (Z * Z)) m a t x :
  0 <= t < 128 -> In (a, x) (f t) ->
  (forall t' x', 0 <= t' < 128 -> In (a, x') (f t') -> x' = x) ->
  apply_stores m (flat_map f lanes) a = byte.of_Z x.
Proof.
  intros Ht Hin Hu. apply apply_stores_in.
  - apply in_flat_map. exists t. split; [apply In_lanes; exact Ht|exact Hin].
  - intros x' Hx'. apply in_flat_map in Hx' as (t' & Ht' & Hx').
    apply In_lanes in Ht'. eapply Hu; eauto.
Qed.

Lemma scatter_frame (f : Z -> list (Z * Z)) m a :
  (forall t x, 0 <= t < 128 -> ~ In (a, x) (f t)) ->
  apply_stores m (flat_map f lanes) a = m a.
Proof.
  intros H. apply apply_stores_notin. intros x Hx.
  apply in_flat_map in Hx as (t & Ht & Hx). apply In_lanes in Ht.
  exact (H t x Ht Hx).
Qed.

Lemma packed_bit_eq (v : Z -> Z) w K q r :
  0 <= r < w -> K = w * q + r -> packed_bit w v K = Z.testbit (v q) r.
Proof.
  intros Hr ->. unfold packed_bit.
  replace ((w * q + r) / w) with q by (apply Z.div_unique with r; lia).
  replace ((w * q + r) mod w) with r by (apply Z.mod_unique with q; lia).
  reflexivity.
Qed.

Lemma lxor_low k q a b c :
  0 <= k -> 0 <= a < 2 ^ k -> 0 <= b < 2 ^ k -> 0 <= c < 2 ^ k ->
  Z.lxor a b = c ->
  Z.lxor (2 ^ k * q + a) b = 2 ^ k * q + c.
Proof.
  intros Hk Ha Hb Hc E.
  assert (A : forall x, 0 <= x < 2 ^ k ->
                        2 ^ k * q + x = Z.lor (Z.shiftl q k) x).
  { intros x Hx. rewrite Z.or_to_plus.
    - rewrite Z.shiftl_mul_pow2 by lia. lia.
    - apply Z.bits_inj'. intros n Hn.
      rewrite Z.land_spec, Z.testbit_0_l.
      destruct (Z.ltb_spec n k).
      + rewrite Z.shiftl_spec_low by lia. reflexivity.
      + rewrite (testbit_high x k n) by lia. apply andb_false_r. }
  rewrite (A a Ha), (A c Hc). subst c.
  apply Z.bits_inj'. intros n Hn.
  rewrite Z.lxor_spec, !Z.lor_spec, Z.lxor_spec.
  destruct (Z.ltb_spec n k).
  - rewrite Z.shiftl_spec_low by lia. reflexivity.
  - rewrite (testbit_high a k n), (testbit_high b k n) by lia.
    cbn [xorb]. rewrite !orb_false_r, xorb_false_r. reflexivity.
Qed.

Lemma lxor_lane k x q a b c y :
  x = 2 ^ k * q + a ->
  0 <= k -> 0 <= a < 2 ^ k -> 0 <= b < 2 ^ k -> 0 <= c < 2 ^ k ->
  Z.lxor a b = c -> y = x - a + c ->
  Z.lxor x b = y.
Proof.
  intros -> Hk Ha Hb Hc E ->. rewrite (lxor_low k q a b c); auto. lia.
Qed.

Section Pack.

Variable dst : Z.
Variable v : Z -> Z.
Variable g : Z.                       (* number of groups of eight values *)
Hypothesis Hg : 1 <= g <= 16.

Let count := g * 8.

Lemma count_lor t : t < count -> t <= Z.lor count 31.
Proof.
  intros H. pose proof (lor_ge_l count 31). unfold count in *. lia.
Qed.

(** Width 8: lane [t] stores byte [t]. *)
Lemma pack8 m j i :
  0 <= j < count -> 0 <= i < 8 ->
  Z.testbit (byte.unsigned (PackLiterals dst v count 8 m (dst + j))) i
  = packed_bit 8 v (8 * j + i).
Proof.
  intros Hj Hi. unfold PackLiterals. cbn [Z.eqb Pos.eqb orb].
  rewrite (scatter_byte _ m (dst + j) j (v j)).
  - rewrite byte_testbit by exact Hi. unfold packed_bit.
    replace ((8 * j + i) / 8) with j by (apply Z.div_unique with i; lia).
    replace ((8 * j + i) mod 8) with i by (apply Z.mod_unique with j; lia).
    reflexivity.
  - unfold count in *. lia.
  - unfold pack_lane. cbn [Z.eqb Pos.eqb].
    pose proof (count_lor j ltac:(lia)).
    destruct (Z.leb_spec j (Z.lor count 31)); [|lia].
    destruct (Z.ltb_spec j count); [|lia]. left. reflexivity.
  - intros t' x' Ht' Hin. unfold pack_lane in Hin. cbn [Z.eqb Pos.eqb] in Hin.
    destruct (t' <=? Z.lor count 31); [|destruct Hin].
    destruct (t' <? count); [|destruct Hin].
    destruct Hin as [Hin|[]]. apply pair_equal_spec in Hin as [H1 H2].
    assert (t' = j) by lia. subst. reflexivity.
Qed.

Section Width.

Variable w : Z.
Hypothesis Hv : forall t, 0 <= t < 128 -> 0 <= v t < 2 ^ w.
Hypothesis Hw : 1 <= w <= 16.

Lemma v_high t k : 0 <= t < 128 -> w <= k -> Z.testbit (v t) k = false.
Proof. intros Ht Hk. apply (testbit_high (v t) w k); auto. Qed.

Lemma v_neg t k : k < 0 -> Z.testbit (v t) k = false.
Proof. apply Z.testbit_neg_r. Qed.

End Width.

Ltac in_store Hin :=
  repeat match type of Hin with
         | In _ (if ?c then _ else _) => destruct c eqn:?; [|destruct Hin]
         | In _ [] => destruct Hin
         end.

(** Width 16: lane [t] stores the bytes [2 t] and [2 t + 1]. *)
Lemma pack16 m j i :
  (forall t, 0 <= t < 128 -> 0 <= v t < 2 ^ 16) ->
  0 <= j < count * 2 -> 0 <= i < 8 ->
  Z.testbit (byte.unsigned (PackLiterals dst v count 16 m (dst + j))) i
  = packed_bit 16 v (8 * j + i).
Proof.
  intros Hv Hj Hi. unfold PackLiterals. cbn [Z.eqb Pos.eqb orb].
  set (t := j / 2). set (e := j mod 2).
  assert (Hje : j = 2 * t + e /\ 0 <= e < 2 /\ 0 <= t < count).
  { unfold t, e, count in *. Z.div_mod_to_equations. lia. }
  destruct Hje as (Ej & He & Ht). clearbody t e.
  rewrite (scatter_byte _ m (dst + j) t (if e =? 0 then v t else Z.shiftr (v t) 8)).
  - rewrite byte_testbit by exact Hi.
    rewrite (packed_bit_eq v 16 (8 * j + i) t (8 * e + i)) by lia.
    destruct (Z.eqb_spec e 0) as [->|Hne].
    + f_equal.
    + rewrite Z.shiftr_spec by lia. f_equal. lia.
  - unfold count in *. lia.
  - unfold pack_lane. cbn [Z.eqb Pos.eqb].
    pose proof (count_lor t ltac:(lia)).
    destruct (Z.leb_spec t (Z.lor count 31)); [|lia].
    destruct (Z.ltb_spec t count); [|lia].
    destruct (Z.eqb_spec e 0) as [E0|Hne].
    + left. f_equal. lia.
    + right. left. f_equal. lia.
  - intros t' x' Ht' Hin. unfold pack_lane in Hin. cbn [Z.eqb Pos.eqb] in Hin.
    in_store Hin.
    destruct Hin as [Hin|[Hin|[]]]; apply pair_equal_spec in Hin as [H1 H2].
    + assert (t' = t /\ e = 0) as [-> ->] by lia. symmetry. exact H2.
    + assert (t' = t /\ e = 1) as [-> ->] by lia. symmetry. exact H2.
Qed.

(** Width 4: an even lane stores its value and the one of the next lane. *)
Lemma pack4 m j i :
  (forall t, 0 <= t < 128 -> 0 <= v t < 2 ^ 4) ->
  0 <= j < count / 2 -> 0 <= i < 8 ->
  Z.testbit (byte.unsigned (PackLiterals dst v count 4 m (dst + j))) i
  = packed_bit 4 v (8 * j + i).
Proof.
  intros Hv Hj Hi. unfold PackLiterals. cbn [Z.eqb Pos.eqb orb].
  assert (Hc : 2 * j + 1 < count /\ count <= 128).
  { unfold count in *. Z.div_mod_to_equations. lia. }
  set (t := 2 * j).
  rewrite (scatter_byte _ m (dst + j) t
             (Z.lor (v t) (Z.shiftl (v (t + 1)) 4))).
  - rewrite byte_testbit by exact Hi.
    rewrite Z.lor_spec, Z.shiftl_spec by lia.
    destruct (Z.ltb_spec i 4).
    + rewrite (packed_bit_eq v 4 (8 * j + i) t i) by (unfold t; lia).
      rewrite (v_neg (t + 1)) by lia. apply orb_false_r.
    + rewrite (packed_bit_eq v 4 (8 * j + i) (t + 1) (i - 4)) by (unfold t; lia).
      rewrite (v_high 4 Hv t) by (unfold t; lia). reflexivity.
  - unfold t. lia.
  - unfold pack_lane. cbn [Z.eqb Pos.eqb].
    pose proof (count_lor t ltac:(unfold t; lia)).
    destruct (Z.leb_spec t (Z.lor count 31)); [|lia].
    destruct (Z.ltb_spec t count); [|unfold t in *; lia].
    replace (Z.land t 1) with 0.
    2:{ change 1 with (Z.ones 1). rewrite Z.land_ones by lia.
        unfold t. Z.div_mod_to_equations. lia. }
    cbn [Z.eqb andb]. left. f_equal.
    + rewrite Z.shiftr_div_pow2 by lia. unfold t.
      change (2 ^ 3) with 8. Z.div_mod_to_equations. lia.
    + unfold shuffle_xor. f_equal. f_equal. f_equal.
      unfold t. rewrite (lxor_lane 1 (2 * j) j 0 1 1 (2 * j + 1)); try lia; reflexivity.
  - intros t' x' Ht' Hin. unfold pack_lane in Hin. cbn [Z.eqb Pos.eqb] in Hin.
    in_store Hin.
    destruct Hin as [Hin|[]]. apply pair_equal_spec in Hin as [H1 H2].
    match goal with H : _ && _ = true |- _ =>
      apply andb_true_iff in H as [_ H]; apply Z.eqb_eq in H;
      change 1 with (Z.ones 1) in H; rewrite Z.land_ones in H by lia end.
    rewrite Z.shiftr_div_pow2 in H1 by lia. change (2 ^ 3) with 8 in H1.
    assert (t' = t) by (unfold t; Z.div_mod_to_equations; lia). subst t'.
    rewrite <- H2. unfold shuffle_xor. f_equal. f_equal. f_equal.
    unfold t. rewrite (lxor_lane 1 (2 * j) j 0 1 1 (2 * j + 1)); try lia; reflexivity.
Qed.

Ltac bits Hv w :=
  repeat first
    [ rewrite Z.lor_spec
    | rewrite shiftl_bit by lia
    | rewrite Z.shiftr_spec by lia
    | match goal with
      | |- context [Z.testbit (v ?x) ?k] =>
          first [ rewrite (v_neg x k) by lia
                | rewrite (v_high w Hv x k) by lia ]
      end
    | progress cbn [orb]
    | rewrite orb_false_r ].

Ltac split8 i Hi :=
  assert (i = 0 \/ i = 1 \/ i = 2 \/ i = 3 \/ i = 4 \/ i = 5 \/ i = 6 \/ i = 7)
    as [->|[->|[->|[->|[->|[->|[->| ->]]]]]]] by lia; clear Hi.

(** Width 2: every fourth lane stores the values of four lanes. *)
Lemma pack2 m j i :
  (forall t, 0 <= t < 128 -> 0 <= v t < 2 ^ 2) ->
  0 <= j < count / 4 -> 0 <= i < 8 ->
  Z.testbit (byte.unsigned (PackLiterals dst v count 2 m (dst + j))) i
  = packed_bit 2 v (8 * j + i).
Proof.
  intros Hv Hj Hi. unfold PackLiterals. cbn [Z.eqb Pos.eqb orb].
  assert (Hc : 4 * j + 3 < count /\ count <= 128).
  { unfold count in *. Z.div_mod_to_equations. lia. }
  set (t := 4 * j).
  set (X := Z.lor (Z.lor (v t) (Z.shiftl (v (t + 1)) 2))
                  (Z.shiftl (Z.lor (v (t + 2)) (Z.shiftl (v (t + 3)) 2)) 4)).
  assert (HX : Z.lor (Z.lor (v t) (Z.shiftl (v (Z.lxor t 1)) 2))
                 (Z.shiftl (Z.lor (v (Z.lxor t 2))
                                  (Z.shiftl (v (Z.lxor (Z.lxor t 2) 1)) 2)) 4)
               = X).
  { unfold X, t.
    rewrite (lxor_lane 2 (4 * j) j 0 1 1 (4 * j + 1)),
      (lxor_lane 2 (4 * j) j 0 2 2 (4 * j + 2)); try lia; try reflexivity.
    rewrite (lxor_lane 2 (4 * j + 2) j 2 1 3 (4 * j + 3));
      try lia; reflexivity. }
  rewrite (scatter_byte _ m (dst + j) t X).
  - rewrite byte_testbit by exact Hi. unfold X.
    split8 i Hi.
    + rewrite (packed_bit_eq v 2 _ t 0) by (unfold t; lia). bits Hv 2. reflexivity.
    + rewrite (packed_bit_eq v 2 _ t 1) by (unfold t; lia). bits Hv 2. reflexivity.
    + rewrite (packed_bit_eq v 2 _ (t + 1) 0) by (unfold t; lia). bits Hv 2. reflexivity.
    + rewrite (packed_bit_eq v 2 _ (t + 1) 1) by (unfold t; lia). bits Hv 2. reflexivity.
    + rewrite (packed_bit_eq v 2 _ (t + 2) 0) by (unfold t; lia). bits Hv 2. reflexivity.
    + rewrite (packed_bit_eq v 2 _ (t + 2) 1) by (unfold t; lia). bits Hv 2. reflexivity.
    + rewrite (packed_bit_eq v 2 _ (t + 3) 0) by (unfold t; lia). bits Hv 2. reflexivity.
    + rewrite (packed_bit_eq v 2 _ (t + 3) 1) by (unfold t; lia). bits Hv 2. reflexivity.
  - unfold t. lia.
  - unfold pack_lane. cbn [Z.eqb Pos.eqb]. cbv beta zeta. unfold shuffle_xor.
    pose proof (count_lor t ltac:(unfold t; lia)).
    destruct (Z.leb_spec t (Z.lor count 31)); [|lia].
    destruct (Z.ltb_spec t count); [|unfold t in *; lia].
    replace (Z.land t 3) with 0.
    2:{ change 3 with (Z.ones 2). rewrite Z.land_ones by lia.
        unfold t. Z.div_mod_to_equations. lia. }
    cbn [Z.eqb andb]. left. rewrite HX. f_equal. f_equal.
    rewrite Z.shiftr_div_pow2 by lia. unfold t.
    change (2 ^ 3) with 8. Z.div_mod_to_equations. lia.
  - intros t' x' Ht' Hin. unfold pack_lane in Hin. cbn [Z.eqb Pos.eqb] in Hin.
    cbv beta zeta in Hin. unfold shuffle_xor in Hin.
    in_store Hin.
    destruct Hin as [Hin|[]]. apply pair_equal_spec in Hin as [H1 H2].
    match goal with H : _ && _ = true |- _ =>
      apply andb_true_iff in H as [_ H]; apply Z.eqb_eq in H;
      change 3 with (Z.ones 2) in H; rewrite Z.land_ones in H by lia end.
    rewrite Z.shiftr_div_pow2 in H1 by lia. change (2 ^ 3) with 8 in H1.
    assert (t' = t) by (unfold t; Z.div_mod_to_equations; lia). subst t'.
    rewrite <- H2. exact HX.
Qed.

(** Width 1: every eighth lane stores the bits of eight lanes. *)
Lemma pack1 m j i :
  (forall t, 0 <= t < 128 -> 0 <= v t < 2 ^ 1) ->
  0 <= j < count / 8 -> 0 <= i < 8 ->
  Z.testbit (byte.unsigned (PackLiterals dst v count 1 m (dst + j))) i
  = packed_bit 1 v (8 * j + i).
Proof.
  intros Hv Hj Hi. unfold PackLiterals. cbn [Z.eqb Pos.eqb orb].
  assert (Hc : 8 * j + 7 < count /\ count <= 128).
  { unfold count in *. Z.div_mod_to_equations. lia. }
  set (t := 8 * j).
  set (X := Z.lor
              (Z.lor (Z.lor (v t) (Z.shiftl (v (t + 1)) 1))
                     (Z.shiftl (Z.lor (v (t + 2)) (Z.shiftl (v (t + 3)) 1)) 2))
              (Z.shiftl
                 (Z.lor (Z.lor (v (t + 4)) (Z.shiftl (v (t + 5)) 1))
                        (Z.shiftl (Z.lor (v (t + 6)) (Z.shiftl (v (t + 7)) 1)) 2))
                 4)).
  assert (HX :
    Z.lor
      (Z.lor (Z.lor (v t) (Z.shiftl (v (Z.lxor t 1)) 1))
             (Z.shiftl (Z.lor (v (Z.lxor t 2))
                              (Z.shiftl (v (Z.lxor (Z.lxor t 2) 1)) 1)) 2))
      (Z.shiftl
         (Z.lor (Z.lor (v (Z.lxor t 4))
                       (Z.shiftl (v (Z.lxor (Z.lxor t 4) 1)) 1))
                (Z.shiftl
                   (Z.lor (v (Z.lxor (Z.lxor t 4) 2))
                          (Z.shiftl (v (Z.lxor (Z.lxor (Z.lxor t 4) 2) 1)) 1))
                   2)) 4) = X).
  { unfold X, t.
    rewrite (lxor_lane 3 (8 * j) j 0 1 1 (8 * j + 1)),
      (lxor_lane 3 (8 * j) j 0 2 2 (8 * j + 2)),
      (lxor_lane 3 (8 * j) j 0 4 4 (8 * j + 4)); try lia; try reflexivity.
    rewrite (lxor_lane 3 (8 * j + 2) j 2 1 3 (8 * j + 3)),
      (lxor_lane 3 (8 * j + 4) j 4 1 5 (8 * j + 5)),
      (lxor_lane 3 (8 * j + 4) j 4 2 6 (8 * j + 6)); try lia; try reflexivity.
    rewrite (lxor_lane 3 (8 * j + 6) j 6 1 7 (8 * j + 7));
      try lia; reflexivity. }
  rewrite (scatter_byte _ m (dst + j) t X).
  - rewrite byte_testbit by exact Hi. unfold X.
    rewrite (packed_bit_eq v 1 _ (t + i) 0) by (unfold t; lia).
    split8 i Hi; rewrite ?Z.add_0_r; bits Hv 1; reflexivity.
  - unfold t. lia.
  - unfold pack_lane. cbn [Z.eqb Pos.eqb]. cbv beta zeta. unfold shuffle_xor.
    pose proof (count_lor t ltac:(unfold t; lia)).
    destruct (Z.leb_spec t (Z.lor count 31)); [|lia].
    destruct (Z.ltb_spec t count); [|unfold t in *; lia].
    replace (Z.land t 7) with 0.
    2:{ change 7 with (Z.ones 3). rewrite Z.land_ones by lia.
        unfold t. Z.div_mod_to_equations. lia. }
    cbn [Z.eqb andb]. left. rewrite HX. f_equal. f_equal.
    rewrite Z.shiftr_div_pow2 by lia. unfold t.
    change (2 ^ 3) with 8. Z.div_mod_to_equations. lia.
  - intros t' x' Ht' Hin. unfold pack_lane in Hin. cbn [Z.eqb Pos.eqb] in Hin.
    cbv beta zeta in Hin. unfold shuffle_xor in Hin.
    in_store Hin.
    destruct Hin as [Hin|[]]. apply pair_equal_spec in Hin as [H1 H2].
    match goal with H : _ && _ = true |- _ =>
      apply andb_true_iff in H as [_ H]; apply Z.eqb_eq in H;
      change 7 with (Z.ones 3) in H; rewrite Z.land_ones in H by lia end.
    rewrite Z.shiftr_div_pow2 in H1 by lia. change (2 ^ 3) with 8 in H1.
    assert (t' = t) by (unfold t; Z.div_mod_to_equations; lia). subst t'.
    rewrite <- H2. exact HX.
Qed.

(** Width 12: an even lane stores three bytes for itself and the next
    lane. *)
Lemma pack12 m j i :
  (forall t, 0 <= t < 128 -> 0 <= v t < 2 ^ 12) ->
  0 <= j < count / 2 * 3 -> 0 <= i < 8 ->
  Z.testbit (byte.unsigned (PackLiterals dst v count 12 m (dst + j))) i
  = packed_bit 12 v (8 * j + i).
Proof.
  intros Hv Hj Hi. unfold PackLiterals. cbn [Z.eqb Pos.eqb orb].
  set (q := j / 3). set (e := j mod 3).
  assert (Hje : j = 3 * q + e /\ 0 <= e < 3 /\ 0 <= q /\ 2 * q + 1 < count
                /\ count <= 128).
  { unfold q, e, count in *. Z.div_mod_to_equations. lia. }
  destruct Hje as (Ej & He & Hq & Hqc & Hc). clearbody q e.
  set (t := 2 * q).
  set (X := Z.lor (v t) (Z.shiftl (v (t + 1)) 12)).
  assert (HX : Z.lor (v t) (Z.shiftl (v (Z.lxor t 1)) 12) = X).
  { unfold X, t.
    rewrite (lxor_lane 1 (2 * q) q 0 1 1 (2 * q + 1)); try lia; reflexivity. }
  assert (Hbit : forall k, 0 <= k < 24 ->
                 Z.testbit X k = packed_bit 12 v (24 * q + k)).
  { intros k Hk. unfold X. rewrite Z.lor_spec, shiftl_bit by lia.
    destruct (Z.ltb_spec k 12).
    - rewrite (packed_bit_eq v 12 _ t k) by (unfold t; lia).
      rewrite (v_neg (t + 1)) by lia. apply orb_false_r.
    - rewrite (packed_bit_eq v 12 _ (t + 1) (k - 12)) by (unfold t; lia).
      rewrite (v_high 12 Hv t) by (unfold t; lia). reflexivity. }
  rewrite (scatter_byte _ m (dst + j) t
             (if e =? 0 then X else if e =? 1 then Z.shiftr X 8
              else Z.shiftr X 16)).
  - rewrite byte_testbit by exact Hi.
    replace (8 * j + i) with (24 * q + (8 * e + i)) by lia.
    rewrite <- Hbit by lia.
    destruct (Z.eqb_spec e 0) as [->|]; [f_equal; lia|].
    destruct (Z.eqb_spec e 1) as [->|];
      rewrite Z.shiftr_spec by lia; f_equal; lia.
  - unfold t. lia.
  - unfold pack_lane. cbn [Z.eqb Pos.eqb]. cbv beta zeta. unfold shuffle_xor.
    pose proof (count_lor t ltac:(unfold t; lia)).
    destruct (Z.leb_spec t (Z.lor count 31)); [|lia].
    destruct (Z.ltb_spec t count); [|unfold t in *; lia].
    replace (Z.land t 1) with 0.
    2:{ change 1 with (Z.ones 1). rewrite Z.land_ones by lia.
        unfold t. Z.div_mod_to_equations. lia. }
    cbn [Z.eqb andb]. rewrite HX.
    replace (Z.shiftr t 1) with q.
    2:{ rewrite Z.shiftr_div_pow2 by lia. unfold t.
        change (2 ^ 1) with 2. Z.div_mod_to_equations. lia. }
    destruct (Z.eqb_spec e 0) as [->|]; [left; f_equal; lia|].
    destruct (Z.eqb_spec e 1) as [->|]; [right; left; f_equal; lia|].
    right. right. left. f_equal. lia.
  - intros t' x' Ht' Hin. unfold pack_lane in Hin. cbn [Z.eqb Pos.eqb] in Hin.
    cbv beta zeta in Hin. unfold shuffle_xor in Hin.
    in_store Hin.
    match goal with H : _ && _ = true |- _ =>
      apply andb_true_iff in H as [_ H]; apply Z.eqb_eq in H;
      change 1 with (Z.ones 1) in H; rewrite Z.land_ones in H by lia end.
    rewrite Z.shiftr_div_pow2 in Hin by lia. change (2 ^ 1) with 2 in Hin.
    destruct Hin as [Hin|[Hin|[Hin|[]]]];
      apply pair_equal_spec in Hin as [H1 H2].
    + assert (t' = t /\ e = 0) as [-> ->]
        by (unfold t; Z.div_mod_to_equations; lia).
      rewrite <- H2. exact HX.
    + assert (t' = t /\ e = 1) as [-> ->]
        by (unfold t; Z.div_mod_to_equations; lia).
      rewrite <- H2, HX. reflexivity.
    + assert (t' = t /\ e = 2) as [-> ->]
        by (unfold t; Z.div_mod_to_equations; lia).
      rewrite <- H2, HX. reflexivity.
Qed.

(** The general path: the scratch words collect the shifted values. *)
Lemma cond_or_bit (sc : Z -> Z) k x i b :
  Z.testbit ((if x =? 0 then sc else atomicOr sc k x) i) b
  = Z.testbit (sc i) b || ((i =? k) && Z.testbit x b).
Proof.
  destruct (Z.eqb_spec x 0) as [->|_].
  - rewrite Z.testbit_0_l, andb_false_r, orb_false_r. reflexivity.
  - unfold atomicOr. destruct (i =? k); cbn [andb].
    + apply Z.lor_spec.
    + rewrite orb_false_r. reflexivity.
Qed.

Lemma scratch_lane_bit w count' sc t i b :
  0 <= t < 128 -> 1 <= w <= 16 -> 0 <= v t < 2 ^ 16 ->
  0 <= i -> 0 <= b < 32 ->
  Z.testbit (scratch_lane v count' w t sc i) b
  = Z.testbit (sc i) b
    || ((t <=? count') && Z.testbit (v t) (32 * i + b - t * w)).
Proof.
  intros Ht Hw Hvt Hi Hb. unfold scratch_lane.
  destruct (t <=? count'); cbn [andb]; [|rewrite orb_false_r; reflexivity].
  set (s := Z.land (t * w) 31). set (k := Z.shiftr (t * w) 5).
  assert (Hs : 0 <= s < 32 /\ 0 <= k /\ t * w = 32 * k + s).
  { unfold s, k. change 31 with (Z.ones 5).
    rewrite Z.land_ones, Z.shiftr_div_pow2 by lia. change (2 ^ 5) with 32.
    assert (0 <= t * w) by nia. Z.div_mod_to_equations. lia. }
  destruct Hs as (Hs & Hk & Etw). clearbody s k.
  change (2 ^ 64 - 1) with (Z.ones 64). change 0xffffffff with (Z.ones 32).
  rewrite !cond_or_bit.
  rewrite Z.land_spec, Z.ones_spec_low, andb_true_r by lia.
  rewrite Z.land_spec, Z.ones_spec_low, andb_true_r by lia.
  rewrite Z.shiftr_spec, Z.land_spec, Z.ones_spec_low, andb_true_r by lia.
  rewrite !shiftl_bit by lia.
  rewrite <- orb_assoc. f_equal.
  destruct (Z.eqb_spec i k) as [->|Hik]; cbn [andb orb].
  - destruct (Z.eqb_spec k (k + 1)); [lia|]. cbn [andb].
    rewrite orb_false_r. f_equal. lia.
  - destruct (Z.eqb_spec i (k + 1)) as [->|Hik1]; cbn [andb].
    + f_equal. lia.
    + symmetry. destruct (Z.ltb_spec i k).
      * apply Z.testbit_neg_r. lia.
      * apply (testbit_high (v t) 16); [exact Hvt|lia].
Qed.

Lemma scratch_fold_bit w count' ls : forall sc i b,
  Forall (fun t => 0 <= t < 128 /\ 0 <= v t < 2 ^ 16) ls ->
  1 <= w <= 16 -> 0 <= i -> 0 <= b < 32 ->
  Z.testbit (fold_left (fun a t => scratch_lane v count' w t a) ls sc i) b
  = Z.testbit (sc i) b
    || existsb (fun t => (t <=? count')
                         && Z.testbit (v t) (32 * i + b - t * w)) ls.
Proof.
  induction ls as [|t ls IH]; intros sc i b Hls Hw Hi Hb; cbn [fold_left existsb].
  - rewrite orb_false_r. reflexivity.
  - inversion Hls as [|? ? [Ht Hvt] Hls']; subst.
    rewrite IH by assumption.
    rewrite scratch_lane_bit by assumption.
    rewrite orb_assoc. reflexivity.
Qed.

Lemma exists_lane_bit w K :
  1 <= w -> (forall t, 0 <= t < 128 -> 0 <= v t < 2 ^ w) ->
  0 <= K < count * w ->
  existsb (fun t => (t <=? count) && Z.testbit (v t) (K - t * w)) lanes
  = packed_bit w v K.
Proof.
  intros Hw Hv HK.
  assert (Hq : 0 <= K / w < count /\ 0 <= K mod w < w
               /\ K = w * (K / w) + K mod w).
  { split; [split; [apply Z.div_pos; lia|apply Z.div_lt_upper_bound; nia]|].
    split; [apply Z.mod_pos_bound; lia|apply Z.div_mod; lia]. }
  destruct Hq as (Hq & Hr & EK).
  unfold packed_bit. set (q := K / w) in *. set (r := K mod w) in *.
  clearbody q r.
  destruct (Z.testbit (v q) r) eqn:E.
  - apply existsb_exists. exists q. split.
    + apply In_lanes. unfold count in *. lia.
    + apply andb_true_iff. split; [apply Z.leb_le; lia|].
      replace (K - q * w) with r by lia. exact E.
  - apply not_true_is_false. intros H.
    apply existsb_exists in H as (t & Ht & H). apply In_lanes in Ht.
    apply andb_true_iff in H as [_ H].
    destruct (Z.ltb_spec (K - t * w) 0);
      [rewrite Z.testbit_neg_r in H by lia; discriminate|].
    destruct (Z.ltb_spec (K - t * w) w);
      [|rewrite (v_high w Hv t) in H by lia; discriminate].
    assert (t = q) by nia. subst t.
    replace (K - q * w) with r in H by lia. congruence.
Qed.

Lemma pack_general w m j i :
  (w =? 1) || (w =? 2) || (w =? 4) || (w =? 8) || (w =? 12) || (w =? 16)
  = false ->
  1 <= w <= 16 ->
  (forall t, 0 <= t < 128 -> 0 <= v t < 2 ^ w) ->
  0 <= j < g * w -> 0 <= i < 8 ->
  Z.testbit (byte.unsigned (PackLiterals dst v count w m (dst + j))) i
  = packed_bit w v (8 * j + i).
Proof.
  intros Hsel Hw Hv Hj Hi. unfold PackLiterals. rewrite Hsel.
  set (sc := for_lanes (scratch_lane v count w) (fun _ => 0)).
  assert (Hav : (count * w + 7) / 8 = g * w).
  { unfold count. Z.div_mod_to_equations. nia. }
  rewrite Hav.
  assert (Hjb : j < 240) by nia.
  rewrite (scatter_byte _ m (dst + j) (if j <? 128 then j else j - 128)
             (scratch_bytes sc j)).
  - rewrite byte_testbit by exact Hi. unfold scratch_bytes.
    change 0xff with (Z.ones 8). change 3 with (Z.ones 2).
    rewrite Z.land_spec, Z.ones_spec_low, andb_true_r by lia.
    replace (Z.shiftr j 2) with (j / 4)
      by (rewrite Z.shiftr_div_pow2; [reflexivity|lia]).
    replace (Z.land j (Z.ones 2)) with (j mod 4)
      by (rewrite Z.land_ones; [reflexivity|lia]).
    assert (Hd : 0 <= j / 4 /\ 0 <= j mod 4 < 4
                 /\ j = 4 * (j / 4) + j mod 4).
    { Z.div_mod_to_equations. lia. }
    destruct Hd as (Hd1 & Hd2 & Hd3).
    rewrite Z.shiftr_spec by lia.
    unfold sc, for_lanes.
    rewrite (scratch_fold_bit w count lanes (fun _ => 0)); try lia.
    + rewrite Z.testbit_0_l. cbn [orb].
      rewrite <- (exists_lane_bit w (8 * j + i) ltac:(lia) Hv
                    ltac:(unfold count; nia)).
      apply existsb_ext_Z. intros t. f_equal. f_equal. lia.
    + apply Forall_forall. intros t Ht. apply In_lanes in Ht.
      split; [exact Ht|]. specialize (Hv t Ht).
      assert (2 ^ w <= 2 ^ 16) by (apply Z.pow_le_mono_r; lia). lia.
  - destruct (Z.ltb_spec j 128); lia.
  - unfold copy_lane. apply in_or_app.
    destruct (Z.ltb_spec j 128).
    + left. destruct (Z.ltb_spec j (g * w)); [|lia]. left. reflexivity.
    + right. destruct (Z.ltb_spec (j - 128 + 128) (g * w)); [|lia].
      left. f_equal; [lia|f_equal; lia].
  - intros t' x' Ht' Hin. unfold copy_lane in Hin.
    apply in_app_or in Hin as [Hin|Hin]; in_store Hin;
      destruct Hin as [Hin|[]]; apply pair_equal_spec in Hin as [H1 H2];
      rewrite <- H2; f_equal; lia.
Qed.

(** [PackLiterals] writes the packed stream of its [count] lanes, for
    every width. *)
Lemma PackLiterals_bits w m j i :
  1 <= w <= 16 ->
  (forall t, 0 <= t < 128 -> 0 <= v t < 2 ^ w) ->
  0 <= j < g * w -> 0 <= i < 8 ->
  Z.testbit (byte.unsigned (PackLiterals dst v count w m (dst + j))) i
  = packed_bit w v (8 * j + i).
Proof.
  intros Hw Hv Hj Hi.
  destruct ((w =? 1) || (w =? 2) || (w =? 4) || (w =? 8) || (w =? 12)
            || (w =? 16)) eqn:Hsel.
  - repeat (apply orb_true_iff in Hsel as [Hsel|Hsel]);
      apply Z.eqb_eq in Hsel; subst w.
    + apply pack1; auto; unfold count; Z.div_mod_to_equations; lia.
    + apply pack2; auto; unfold count; Z.div_mod_to_equations; lia.
    + apply pack4; auto; unfold count; Z.div_mod_to_equations; lia.
    + apply pack8; auto; unfold count; lia.
    + apply pack12; auto; unfold count; Z.div_mod_to_equations; lia.
    + apply pack16; auto; unfold count; lia.
  - apply pack_general; auto.
Qed.

Lemma PackLiterals_frame w m a :
  1 <= w <= 16 -> a < dst \/ dst + g * w <= a ->
  PackLiterals dst v count w m a = m a.
Proof.
  intros Hw Ha. unfold PackLiterals.
  destruct ((w =? 1) || (w =? 2) || (w =? 4) || (w =? 8) || (w =? 12)
            || (w =? 16)) eqn:Hsel.
  - apply scatter_frame. intros t x Ht Hin.
    repeat (apply orb_true_iff in Hsel as [Hsel|Hsel]);
      apply Z.eqb_eq in Hsel; subst w;
      unfold pack_lane in Hin; cbn [Z.eqb Pos.eqb] in Hin;
      cbv beta zeta in Hin; in_store Hin;
      repeat match goal with
             | H : _ && _ = true |- _ => apply andb_true_iff in H as [H ?]
             | H : (_ <? _) = true |- _ => apply Z.ltb_lt in H
             | H : (_ =? _) = true |- _ => apply Z.eqb_eq in H
             end;
      repeat match goal with
             | H : Z.land t ?c = 0 |- _ =>
                 first [ change c with (Z.ones 1) in H
                       | change c with (Z.ones 2) in H
                       | change c with (Z.ones 3) in H ];
                 rewrite Z.land_ones in H by lia
             end;
      rewrite ?Z.shiftr_div_pow2 in Hin by lia;
      repeat (destruct Hin as [Hin|Hin];
              [apply pair_equal_spec in Hin as [H1 _]|]);
      try (destruct Hin);
      unfold count in *; Z.div_mod_to_equations; lia.
  - assert (Hav : (count * w + 7) / 8 = g * w).
    { unfold count. Z.div_mod_to_equations. nia. }
    rewrite Hav. apply scatter_frame. intros t x Ht Hin.
    unfold copy_lane in Hin.
    apply in_app_or in Hin as [Hin|Hin]; in_store Hin;
      destruct Hin as [Hin|[]]; apply pair_equal_spec in Hin as [H1 _];
      repeat match goal with
             | H : (_ <? _) = true |- _ => apply Z.ltb_lt in H
             end; lia.
Qed.

End Pack.

End RlePack.

(** ** The reader recovers the runs of a well-formed stream *)

Module RleFormatFacts.
Import RleFormat RlePack.

Lemma read_vlq_step fuel shift acc b rest :
  read_vlq (S fuel) shift acc (b :: rest)
  = if byte.unsigned b <? 0x80
    then Some (Z.lor acc (Z.shiftl (Z.land (byte.unsigned b) 0x7f) shift), rest)
    else read_vlq fuel (shift + 7)
           (Z.lor acc (Z.shiftl (Z.land (byte.unsigned b) 0x7f) shift)) rest.
Proof. reflexivity. Qed.

Lemma vlq_bytes_read fuel : forall v shift acc rest,
  0 <= v < 2 ^ (7 * (Z.of_nat fuel + 1)) -> 0 <= shift ->
  read_vlq (S fuel) shift acc (vlq_bytes fuel v ++ rest)
  = Some (Z.lor acc (Z.shiftl v shift), rest).
Proof.
  induction fuel as [|fuel IH]; intros v shift acc rest Hv Hs.
  - cbn [vlq_bytes app]. rewrite read_vlq_step. change (2 ^ (7 * (Z.of_nat 0 + 1))) with 128 in Hv.
    rewrite byte.unsigned_of_Z. unfold byte.wrap.
    rewrite (Z.mod_small v) by lia.
    destruct (Z.ltb_spec v 128); [|lia].
    change 127 with (Z.ones 7). rewrite Z.land_ones, Z.mod_small by lia.
    reflexivity.
  - cbn [vlq_bytes].
    destruct (Z.gtb_spec v 127) as [Hgt|Hle].
    + cbn [app]. rewrite read_vlq_step.
      rewrite byte.unsigned_of_Z. unfold byte.wrap.
      assert (Hb : 128 <= Z.lor v 128 mod 2 ^ 8).
      { rewrite <- Z.land_ones by lia.
        assert (Hbit : Z.testbit (Z.land (Z.lor v 128) (Z.ones 8)) 7 = true).
        { rewrite Z.land_spec, Z.lor_spec, Z.ones_spec_low by lia.
          change (Z.testbit 128 7) with true. rewrite orb_true_r. reflexivity. }
        destruct (Z.lt_ge_cases (Z.land (Z.lor v 128) (Z.ones 8)) 128) as [Hlt|];
          [|assumption].
        rewrite (testbit_high _ 7 7) in Hbit; [discriminate| |lia].
        split; [|exact Hlt]. apply Z.land_nonneg. right.
        change (Z.ones 8) with 255. lia. }
      destruct (Z.ltb_spec (Z.lor v 128 mod 2 ^ 8) 128); [lia|].
      rewrite IH.
      * f_equal. f_equal. rewrite <- Z.lor_assoc. f_equal.
        apply Z.bits_inj'. intros k Hk.
        rewrite !Z.lor_spec, !shiftl_bit by lia.
        change 127 with (Z.ones 7).
        rewrite Z.land_spec, <- Z.land_ones, Z.land_spec, Z.lor_spec by lia.
        destruct (Z.ltb_spec (k - shift) 0).
        -- rewrite !(Z.testbit_neg_r _ (k - shift)) by lia.
           rewrite (Z.testbit_neg_r _ (k - (shift + 7))) by lia. reflexivity.
        -- destruct (Z.ltb_spec (k - shift) 7).
           ++ rewrite (Z.testbit_neg_r _ (k - (shift + 7))) by lia.
              rewrite !Z.ones_spec_low by lia.
              replace (Z.testbit 128 (k - shift)) with false.
              2:{ symmetry. change 128 with (2 ^ 7). apply Z.pow2_bits_false. lia. }
              rewrite !andb_true_r, !orb_false_r. reflexivity.
           ++ rewrite (Z.ones_spec_high 7) by lia.
              rewrite andb_false_r. cbn [orb].
              rewrite Z.shiftr_spec by lia. f_equal. lia.
      * split; [apply Z.shiftr_nonneg; lia|].
        rewrite Z.shiftr_div_pow2 by lia.
        apply Z.div_lt_upper_bound; [lia|].
        rewrite <- Z.pow_add_r by lia.
        replace (7 + 7 * (Z.of_nat fuel + 1)) with (7 * (Z.of_nat (S fuel) + 1))
          by lia. lia.
      * lia.
    + cbn [app]. rewrite read_vlq_step.
      rewrite byte.unsigned_of_Z. unfold byte.wrap.
      rewrite (Z.mod_small v) by lia.
      destruct (Z.ltb_spec v 128); [|lia].
      change 127 with (Z.ones 7). rewrite Z.land_ones, Z.mod_small by lia.
      reflexivity.
Qed.

Lemma vlq_bytes_length fuel : forall v,
  (1 <= length (vlq_bytes fuel v) <= S fuel)%nat.
Proof.
  induction fuel as [|fuel IH]; intros v; cbn [vlq_bytes]; [simpl; lia|].
  destruct (v >? 127); cbn [length]; [specialize (IH (Z.shiftr v 7))|]; lia.
Qed.

Lemma parse_runs_step fuel w b bs :
  parse_runs (S fuel) w (b :: bs)
  = match read_vlq 5 0 0 (b :: bs) with
    | None => None
    | Some (h, rest) =>
        let nb := if Z.testbit h 0 then Z.to_nat (Z.shiftr h 1 * w)
                  else value_bytes w in
        if (length rest <? nb)%nat then None
        else
          let r :=
            if Z.testbit h 0
            then Literal h (unpack w (Z.to_nat (Z.shiftr h 1 * 8))
                                   (firstn nb rest))
            else Repeat h (le_combine (firstn nb rest)) in
          match parse_runs fuel w (skipn nb rest) with
          | Some rs => Some (r :: rs)
          | None => None
          end
    end.
Proof. reflexivity. Qed.

Lemma le_combine_testbit bs : forall K,
  0 <= K ->
  Z.testbit (le_combine bs) K
  = Z.testbit (byte.unsigned (nth (Z.to_nat (K / 8)) bs Byte.x00)) (K mod 8).
Proof.
  induction bs as [|b bs IH]; intros K HK.
  - change (le_combine []) with 0. rewrite Z.testbit_0_l.
    destruct (Z.to_nat (K / 8)); cbn [nth];
      change (byte.unsigned Byte.x00) with 0; now rewrite Z.testbit_0_l.
  - change (le_combine (b :: bs))
      with (Z.lor (byte.unsigned b) (Z.shiftl (le_combine bs) 8)).
    rewrite Z.lor_spec, shiftl_bit by lia.
    pose proof (byte.unsigned_range b) as Hb.
    destruct (Z.ltb_spec K 8).
    + rewrite (Z.testbit_neg_r _ (K - 8)), orb_false_r by lia.
      rewrite Z.div_small, Z.mod_small by lia. reflexivity.
    + rewrite (testbit_high (byte.unsigned b) 8 K) by lia. cbn [orb].
      rewrite IH by lia.
      assert (E : K / 8 = (K - 8) / 8 + 1 /\ K mod 8 = (K - 8) mod 8
                  /\ 0 <= (K - 8) / 8)
        by (Z.div_mod_to_equations; lia).
      destruct E as (E1 & E2 & E3). rewrite E1, E2.
      replace (Z.to_nat ((K - 8) / 8 + 1)) with (S (Z.to_nat ((K - 8) / 8)))
        by lia.
      reflexivity.
Qed.

Lemma value_bytes_fits w v :
  1 <= w <= 16 -> 0 <= v < 2 ^ w ->
  le_combine (le_split (value_bytes w) v) = v.
Proof.
  intros Hw Hv. rewrite le_combine_split. apply Z.mod_small.
  split; [lia|]. apply Z.lt_le_trans with (2 ^ w); [lia|].
  apply Z.pow_le_mono_r; [lia|]. unfold value_bytes.
  destruct (Z.gtb_spec w 8); lia.
Qed.

Lemma nth_map_seq {A} (f : nat -> A) n k d :
  (k < n)%nat -> nth k (map f (seq 0 n)) d = f k.
Proof.
  intros H.
  rewrite (nth_indep _ d (f 0%nat)) by (rewrite length_map, length_seq; lia).
  rewrite map_nth, seq_nth by lia. reflexivity.
Qed.

Lemma unpack_literal w g vs packed :
  1 <= w -> 0 <= g ->
  Z.of_nat (length vs) = 8 * g ->
  Forall (fun x => 0 <= x < 2 ^ w) vs ->
  (forall q r, 0 <= q < 8 * g -> 0 <= r < w ->
     Z.testbit (le_combine packed) (w * q + r)
     = Z.testbit (nth (Z.to_nat q) vs 0) r) ->
  unpack w (Z.to_nat (g * 8)) packed = vs.
Proof.
  intros Hw Hg Hlen Hvs Hbits. unfold unpack.
  apply nth_ext with (d := 0) (d' := 0).
  - rewrite length_map, length_seq. lia.
  - intros k Hk. rewrite length_map, length_seq in Hk.
    rewrite nth_map_seq by exact Hk.
    assert (Hx : 0 <= nth k vs 0 < 2 ^ w).
    { apply Forall_nth; [exact Hvs|lia]. }
    apply Z.bits_inj'. intros r Hr.
    rewrite Z.land_spec, Z.shiftr_spec by lia.
    destruct (Z.ltb_spec r w).
    + rewrite Z.ones_spec_low, andb_true_r by lia.
      replace (r + Z.of_nat k * w) with (w * Z.of_nat k + r) by lia.
      rewrite Hbits by lia. rewrite Nat2Z.id. reflexivity.
    + rewrite Z.ones_spec_high, andb_false_r by lia.
      symmetry. apply (testbit_high _ w); [exact Hx|lia].
Qed.

Lemma firstn_skipn_exact {A} (l1 l2 : list A) n :
  n = length l1 -> firstn n (l1 ++ l2) = l1 /\ skipn n (l1 ++ l2) = l2.
Proof.
  intros ->. split.
  - rewrite firstn_app, firstn_all, Nat.sub_diag, firstn_0, app_nil_r.
    reflexivity.
  - rewrite skipn_app, skipn_all, Nat.sub_diag. reflexivity.
Qed.

(** The reader returns the runs of a well-formed stream. *)
Lemma encodes_parse w bs rs :
  1 <= w <= 16 -> encodes w bs rs ->
  forall fuel, (length bs <= fuel)%nat -> parse_runs fuel w bs = Some rs.
Proof.
  intros Hw H. induction H as [|c v bs rs Hc Hc32 Hv H IH
                               |g vs packed bs rs Hg Hlen Hvs Hpl Hbits H IH];
    intros fuel Hfuel.
  - destruct fuel; reflexivity.
  - pose proof (vlq_bytes_length 4 (2 * c)) as Hl.
    destruct (vlq_bytes 4 (2 * c) ++ le_split (value_bytes w) v ++ bs)
      as [|b0 bs0] eqn:E.
    { apply (f_equal (@length _)) in E. rewrite length_app in E.
      change (@length byte []) with 0%nat in E. lia. }
    destruct fuel as [|fuel]; [simpl in Hfuel; lia|].
    rewrite parse_runs_step, <- E.
    rewrite (vlq_bytes_read 4 (2 * c) 0 0)
      by (change (2 ^ (7 * (Z.of_nat 4 + 1))) with (2 ^ 35); lia).
    rewrite Z.lor_0_l, Z.shiftl_0_r.
    replace (Z.testbit (2 * c) 0) with false
      by (symmetry; apply Z.testbit_even_0).
    cbv zeta.
    assert (Hvl : length (le_split (value_bytes w) v) = value_bytes w)
      by apply length_le_split.
    destruct (Nat.ltb_spec (length (le_split (value_bytes w) v ++ bs))
                           (value_bytes w)) as [Hlt|_].
    { rewrite length_app in Hlt. lia. }
    destruct (firstn_skipn_exact (le_split (value_bytes w) v) bs
                (value_bytes w) (eq_sym Hvl)) as [F1 F2].
    rewrite F1, F2, value_bytes_fits by assumption.
    rewrite IH; [reflexivity|].
    apply (f_equal (@length _)) in E.
    rewrite !length_app in E. cbn [length] in E, Hfuel. lia.
  - destruct fuel as [|fuel]; [simpl in Hfuel; lia|].
    rewrite parse_runs_step, read_vlq_step.
    rewrite byte.unsigned_of_Z. unfold byte.wrap.
    rewrite (Z.mod_small (2 * g + 1)) by lia.
    destruct (Z.ltb_spec (2 * g + 1) 128); [|lia].
    change 127 with (Z.ones 7).
    rewrite Z.land_ones, (Z.mod_small (2 * g + 1)) by lia.
    rewrite Z.lor_0_l, Z.shiftl_0_r.
    replace (Z.testbit (2 * g + 1) 0) with true
      by (symmetry; apply Z.testbit_odd_0).
    replace (Z.shiftr (2 * g + 1) 1) with g.
    2:{ rewrite Z.shiftr_div_pow2 by lia. change (2 ^ 1) with 2.
        Z.div_mod_to_equations. lia. }
    cbv zeta.
    assert (Hnb : Z.to_nat (g * w) = length packed) by lia.
    rewrite Hnb.
    destruct (Nat.ltb_spec (length (packed ++ bs)) (length packed)) as [Hlt|_].
    { rewrite length_app in Hlt. lia. }
    destruct (firstn_skipn_exact packed bs (length packed) eq_refl) as [F1 F2].
    rewrite F1, F2.
    rewrite (unpack_literal w g vs packed) by (assumption || lia).
    rewrite IH; [reflexivity|]. simpl in Hfuel. rewrite length_app in Hfuel. lia.
Qed.

Lemma encodes_app w b1 r1 b2 r2 :
  encodes w b1 r1 -> encodes w b2 r2 -> encodes w (b1 ++ b2) (r1 ++ r2).
Proof.
  intros H1 H2. induction H1; cbn [app].
  - exact H2.
  - rewrite <- !app_assoc. constructor; assumption.
  - rewrite <- app_assoc. constructor; assumption.
Qed.

(** The decoder returns the values of the runs of a well-formed stream. *)
Lemma encodes_decode w bs rs :
  1 <= w <= 16 -> encodes w bs rs ->
  rle_runs w bs = Some rs /\ rle_decode w bs = Some (flat_map expand rs).
Proof.
  intros Hw H. unfold rle_decode, rle_runs.
  rewrite (encodes_parse w bs rs Hw H) by lia. split; reflexivity.
Qed.

(** The literal runs of a well-formed stream have a one-byte header. *)
Lemma encodes_literal_bound w bs rs :
  encodes w bs rs ->
  forall h vs, In (Literal h vs) rs ->
  exists g, h = 2 * g + 1 /\ 1 <= g <= 63 /\ Z.of_nat (length vs) = 8 * g.
Proof.
  induction 1 as [|c v bs rs Hc Hc2 Hv Henc IH
                  |g vs0 packed bs rs Hg Hlen Hvs Hpk Hbits Henc IH];
    intros h vs Hin.
  - destruct Hin.
  - destruct Hin as [Heq|Hin]; [discriminate|]. apply (IH h vs Hin).
  - destruct Hin as [Heq|Hin]; [|apply (IH h vs Hin)].
    injection Heq as <- <-. exists g. repeat split; lia.
Qed.

End RleFormatFacts.

(** ** RLE encoder: the bytes in the page buffer *)

Module RleMem.
Import Rle RleFormat RlePack RleFormatFacts.

Lemma load_bytes_length m a n : length (load_bytes m a n) = n.
Proof. unfold load_bytes. rewrite length_map, length_seq. reflexivity. Qed.

Lemma load_bytes_nth m a n k :
  (k < n)%nat -> nth k (load_bytes m a n) Byte.x00 = m (a + Z.of_nat k).
Proof.
  intros H. unfold load_bytes.
  exact (nth_map_seq (fun i => m (a + Z.of_nat i)) n k _ H).
Qed.

Lemma load_bytes_ext m m' a n :
  (forall x, a <= x < a + Z.of_nat n -> m x = m' x) ->
  load_bytes m a n = load_bytes m' a n.
Proof.
  intros H. unfold load_bytes. apply map_ext_in. intros k Hk.
  apply in_seq in Hk. apply H. lia.
Qed.

Lemma map_seq_off {A} n : forall (f : nat -> A) a,
  map f (seq a n) = map (fun i => f (a + i)%nat) (seq 0 n).
Proof.
  induction n as [|n IH]; intros f a; cbn [seq map]; [reflexivity|].
  f_equal; [f_equal; lia|].
  rewrite (IH f (S a)), (IH (fun i => f (a + i)%nat) 1%nat).
  apply map_ext. intros i. f_equal. lia.
Qed.

Lemma load_bytes_app m a n1 n2 :
  load_bytes m a (n1 + n2)
  = load_bytes m a n1 ++ load_bytes m (a + Z.of_nat n1) n2.
Proof.
  unfold load_bytes. rewrite seq_app, map_app. f_equal.
  cbn [Nat.add]. rewrite map_seq_off. apply map_ext. intros i.
  f_equal. lia.
Qed.

Lemma store_same m a v : store m a v a = byte.of_Z v.
Proof. unfold store. now rewrite Z.eqb_refl. Qed.

Lemma store_other m a v x : x <> a -> store m a v x = m x.
Proof. intros H. unfold store. destruct (Z.eqb_spec x a); [contradiction|reflexivity]. Qed.

(** [VlqEncode] writes the bytes of the variable-length integer and leaves
    the rest of the buffer alone. *)
Lemma VlqEncode_loop_spec fuel : forall m p v,
  let r := VlqEncode_loop fuel m p v in
  snd r = p + Z.of_nat (length (vlq_bytes fuel v))
  /\ load_bytes (fst r) p (length (vlq_bytes fuel v)) = vlq_bytes fuel v
  /\ forall x, x < p \/ snd r <= x -> fst r x = m x.
Proof.
  induction fuel as [|fuel IH]; intros m p v; cbn [VlqEncode_loop vlq_bytes].
  - cbn [fst snd length]. split; [lia|]. split.
    + unfold load_bytes. cbn [seq map]. rewrite Z.add_0_r, store_same.
      reflexivity.
    + intros x Hx. apply store_other. lia.
  - destruct (v >? 127).
    + specialize (IH (store m p (Z.lor v 128)) (p + 1) (Z.shiftr v 7)).
      cbv zeta in IH. destruct IH as (I1 & I2 & I3).
      set (r := VlqEncode_loop fuel _ _ _) in *.
      cbn [length]. split; [lia|]. split.
      * change (S (length (vlq_bytes fuel (Z.shiftr v 7))))
          with (1 + length (vlq_bytes fuel (Z.shiftr v 7)))%nat.
        rewrite load_bytes_app.
        replace (load_bytes (fst r) p 1) with [byte.of_Z (Z.lor v 128)].
        2:{ unfold load_bytes. cbn [seq map]. rewrite Z.add_0_r.
            rewrite I3 by lia. rewrite store_same. reflexivity. }
        change (p + Z.of_nat 1) with (p + 1). rewrite I2. reflexivity.
      * intros x Hx. rewrite I3 by lia. apply store_other. lia.
    + cbn [fst snd length]. split; [lia|]. split.
      * unfold load_bytes. cbn [seq map]. rewrite Z.add_0_r, store_same.
        reflexivity.
      * intros x Hx. apply store_other. lia.
Qed.

End RleMem.

(** ** RLE encoder: the invariant is preserved *)

Module RleInvFacts.
Import Rle RleFormat RleBits RlePack RleFormatFacts RleMem RleInv.

Lemma firstn_S_nth {A} (l : list A) : forall k d,
  (k < length l)%nat -> firstn (S k) l = firstn k l ++ [nth k l d].
Proof.
  induction l as [|x l IH]; intros k d Hk; cbn [length] in Hk; [lia|].
  destruct k as [|k]; [reflexivity|].
  cbn [firstn nth app]. f_equal. apply IH. lia.
Qed.

Lemma map_seq_const (f : nat -> Z) x m :
  (forall q, (q < m)%nat -> f q = x) -> map f (seq 0 m) = repeat x m.
Proof.
  intros H. apply nth_ext with (d := 0) (d' := 0).
  - rewrite length_map, length_seq, repeat_length. reflexivity.
  - intros k Hk. rewrite length_map, length_seq in Hk.
    rewrite nth_map_seq by exact Hk. rewrite nth_repeat_lt by exact Hk.
    apply H. exact Hk.
Qed.

Lemma odd_not_even k : Z.land (2 * k + 1) 1 <> 0.
Proof.
  change 1 with (Z.ones 1) at 2. rewrite Z.land_ones by lia.
  change (2 ^ 1) with 2. Z.div_mod_to_equations. lia.
Qed.

Lemma lor_one_even x : Z.lor (2 * x) 1 = 2 * x + 1.
Proof.
  apply Z.bits_inj'. intros i Hi. rewrite Z.lor_spec.
  destruct (Z.eq_dec i 0) as [->|Hne].
  - rewrite Z.testbit_even_0, Z.testbit_odd_0. reflexivity.
  - replace i with (Z.succ (i - 1)) by lia.
    rewrite Z.testbit_even_succ, Z.testbit_odd_succ by lia.
    replace (Z.succ (i - 1)) with i by lia.
    rewrite testbit_one. destruct (Z.eqb_spec i 0); [lia|]. apply orb_false_r.
Qed.

Lemma lor_one_odd x : Z.lor (2 * x + 1) 1 = 2 * x + 1.
Proof.
  apply Z.bits_inj'. intros i Hi. rewrite Z.lor_spec.
  destruct (Z.eq_dec i 0) as [->|Hne].
  - rewrite Z.testbit_odd_0. reflexivity.
  - rewrite testbit_one. destruct (Z.eqb_spec i 0); [lia|]. apply orb_false_r.
Qed.

Lemma shiftr_one_odd x : Z.shiftr (2 * x + 1) 1 = x.
Proof.
  rewrite Z.shiftr_div_pow2 by lia. change (2 ^ 1) with 2.
  Z.div_mod_to_equations. lia.
Qed.

(** Equal neighbours along a run make the whole run equal to its first
    value. *)
Lemma chain_equal (f : Z -> Z) r :
  (forall j, 0 <= j < r -> f j = f (j + 1)) ->
  forall j, 0 <= j <= r -> f j = f 0.
Proof.
  intros H j Hj. destruct Hj as [Hj0 Hjr]. revert Hjr.
  pattern j. apply natlike_ind; [reflexivity| |exact Hj0].
  intros x Hx IH Hle. replace (Z.succ x) with (x + 1) by lia.
  rewrite <- H by lia. apply IH. lia.
Qed.

Lemma ring_fill (slot val : Z -> Z) (l : list Z) : forall vs0 i,
  fold_left (fun (vs : Z -> Z) t => fun i => if i =? slot t then val t else vs i)
            l vs0 i
  = match find (fun t => i =? slot t) (rev l) with
    | Some t => val t
    | None => vs0 i
    end.
Proof.
  induction l as [|t l IH] using rev_ind; intros vs0 i.
  - reflexivity.
  - rewrite fold_left_app, rev_unit. cbn [fold_left find].
    destruct (i =? slot t); [reflexivity|apply IH].
Qed.

Ltac fields :=
  cbn [Rle.rle_out Rle.rle_run Rle.run_val Rle.rle_pos Rle.out Rle.vals].

Section Steps.

Variable inp : list Z.
Variable w : Z.
Variable base : Z.

Hypothesis Hw : 1 <= w <= 16.
Hypothesis Hinp : Forall (fun x => 0 <= x < 2 ^ w) inp.
Hypothesis Hlen : Z.of_nat (length inp) < 2 ^ 30.

Local Abbreviation n := (Z.of_nat (length inp)).
Local Abbreviation I := (input_at inp).

Lemma input_range p : 0 <= I p < 2 ^ w.
Proof.
  unfold input_at. destruct (Nat.lt_ge_cases (Z.to_nat p) (length inp)).
  - apply Forall_nth; assumption.
  - rewrite nth_overflow by assumption.
    split; [lia|]. apply Z.pow_pos_nonneg; lia.
Qed.

Lemma input_past p : n <= p -> I p = 0.
Proof. intros H. unfold input_at. apply nth_overflow. lia. Qed.

(** The input between two positions, with zeros past its end. *)
Lemma firstn_segment m : forall c,
  0 <= c <= n ->
  firstn (Z.to_nat c) inp ++ map (fun q => I (c + Z.of_nat q)) (seq 0 m)
  = firstn (Z.to_nat (Z.min (c + Z.of_nat m) n)) inp
    ++ repeat 0 (Z.to_nat (c + Z.of_nat m - n)).
Proof.
  induction m as [|m IH]; intros c Hc.
  - cbn [seq map]. rewrite app_nil_r.
    replace (Z.to_nat (c + Z.of_nat 0 - n)) with 0%nat by lia.
    cbn [repeat]. rewrite app_nil_r. f_equal. lia.
  - rewrite seq_S, map_app, app_assoc, IH by exact Hc. cbn [map Nat.add].
    destruct (Z.lt_ge_cases (c + Z.of_nat m) n) as [Hlt|Hge].
    + replace (Z.to_nat (c + Z.of_nat m - n)) with 0%nat by lia.
      replace (Z.to_nat (c + Z.of_nat (S m) - n)) with 0%nat by lia.
      cbn [repeat]. rewrite !app_nil_r.
      replace (Z.to_nat (Z.min (c + Z.of_nat (S m)) n))
        with (S (Z.to_nat (Z.min (c + Z.of_nat m) n))) by lia.
      replace (Z.min (c + Z.of_nat m) n) with (c + Z.of_nat m) by lia.
      unfold input_at.
      rewrite (firstn_S_nth inp _ 0) by lia. reflexivity.
    + rewrite input_past by lia.
      replace (Z.min (c + Z.of_nat (S m)) n) with (Z.min (c + Z.of_nat m) n)
        by lia.
      rewrite <- app_assoc. f_equal.
      replace (Z.to_nat (c + Z.of_nat (S m) - n))
        with (S (Z.to_nat (c + Z.of_nat m - n))) by lia.
      cbn [repeat]. symmetry. apply repeat_cons.
Qed.

Lemma region_bit_split m a K j i :
  0 <= i < 8 -> K = 8 * j + i ->
  region_bit m a K = Z.testbit (byte.unsigned (m (a + j))) i.
Proof.
  intros Hi ->. unfold region_bit.
  replace ((8 * j + i) / 8) with j by (Z.div_mod_to_equations; lia).
  replace ((8 * j + i) mod 8) with i by (Z.div_mod_to_equations; lia).
  reflexivity.
Qed.

(** Packing [g] more groups after the [K] groups of an open literal run. *)
Lemma pack_more m a c K g v :
  0 <= K -> 1 <= g <= 16 ->
  packed_at inp w m a c K ->
  (forall t, 0 <= t < 128 -> 0 <= v t < 2 ^ w) ->
  (forall t, 0 <= t < 8 * g -> v t = I (c + 8 * K + t)) ->
  packed_at inp w (PackLiterals (a + K * w) v (g * 8) w m) a c (K + g)
  /\ forall x, x < a + K * w ->
               PackLiterals (a + K * w) v (g * 8) w m x = m x.
Proof.
  intros HK Hg Hold Hv Hlane. split.
  - intros q r Hq Hr.
    assert (Hwq : 0 <= w * q + r) by nia.
    destruct (Z.lt_ge_cases q (8 * K)) as [Hlo|Hhi].
    + rewrite <- Hold by lia. unfold region_bit. f_equal. f_equal.
      apply (PackLiterals_frame _ v g Hg w m); [exact Hw|]. left.
      assert ((w * q + r) / 8 < K * w)
        by (apply Z.div_lt_upper_bound; nia).
      lia.
    + set (q' := q - 8 * K).
      set (j := (w * q' + r) / 8). set (i := (w * q' + r) mod 8).
      assert (Hji : w * q' + r = 8 * j + i /\ 0 <= i < 8 /\ 0 <= j < g * w).
      { unfold j, i, q'. split; [|split].
        - apply Z.div_mod. lia.
        - apply Z.mod_pos_bound. lia.
        - split; [apply Z.div_pos; nia|apply Z.div_lt_upper_bound; nia]. }
      destruct Hji as (Eji & Hi & Hj). clearbody j i.
      rewrite (region_bit_split _ _ _ (K * w + j) i) by (unfold q' in *; lia).
      replace (a + (K * w + j)) with (a + K * w + j) by lia.
      rewrite (PackLiterals_bits (a + K * w) v g Hg w m j i Hw Hv Hj Hi).
      rewrite (packed_bit_eq v w (8 * j + i) q' r) by (unfold q' in *; lia).
      rewrite Hlane by (unfold q'; lia). f_equal. f_equal. unfold q'. lia.
  - intros x Hx. apply (PackLiterals_frame _ v g Hg w m); [exact Hw|]. left. lia.
Qed.

(** Closing a literal run: the header is stored in front of the packed
    groups. *)
Lemma commit_literal m a rs c K :
  base <= a -> 0 <= c <= n -> 1 <= K <= 63 ->
  encodes w (load_bytes m base (Z.to_nat (a - base))) rs ->
  flat_map expand rs = firstn (Z.to_nat c) inp ->
  packed_at inp w m (a + 1) c K ->
  exists rs',
    encodes w (load_bytes (store m a (2 * K + 1)) base
                          (Z.to_nat (a + (1 + w * K) - base))) rs'
    /\ flat_map expand rs'
       = firstn (Z.to_nat (Z.min (c + 8 * K) n)) inp
         ++ repeat 0 (Z.to_nat (c + 8 * K - n)).
Proof.
  intros Ha Hc HK Henc Hexp Hpk.
  set (vs := map (fun q => I (c + Z.of_nat q)) (seq 0 (Z.to_nat (8 * K)))).
  set (packed := load_bytes m (a + 1) (Z.to_nat (K * w))).
  exists (rs ++ [Literal (2 * K + 1) vs]). split.
  - replace (Z.to_nat (a + (1 + w * K) - base))
      with (Z.to_nat (a - base) + (1 + Z.to_nat (K * w)))%nat by nia.
    rewrite !load_bytes_app.
    replace (load_bytes (store m a (2 * K + 1)) base (Z.to_nat (a - base)))
      with (load_bytes m base (Z.to_nat (a - base))).
    2:{ apply load_bytes_ext. intros x Hx. symmetry. apply store_other. lia. }
    apply encodes_app; [exact Henc|].
    replace (base + Z.of_nat (Z.to_nat (a - base))) with a by lia.
    replace (load_bytes (store m a (2 * K + 1)) a 1)
      with [byte.of_Z (2 * K + 1)].
    2:{ unfold load_bytes. cbn [seq map]. rewrite Z.add_0_r, store_same.
        reflexivity. }
    replace (load_bytes (store m a (2 * K + 1)) (a + Z.of_nat 1)
                        (Z.to_nat (K * w))) with packed.
    2:{ apply load_bytes_ext. intros x Hx. symmetry. apply store_other. lia. }
    cbn [app]. rewrite <- (app_nil_r packed).
    apply encodes_literal; try lia.
    + unfold vs. rewrite length_map, length_seq. lia.
    + unfold vs. apply Forall_forall. intros x Hx.
      apply in_map_iff in Hx as (q & <- & _). apply input_range.
    + unfold packed. rewrite load_bytes_length. nia.
    + intros q r Hq Hr.
      assert (Hwq : 0 <= w * q + r) by nia.
      rewrite le_combine_testbit by exact Hwq.
      assert (Hidx : 0 <= (w * q + r) / 8 < K * w).
      { split; [apply Z.div_pos; lia|apply Z.div_lt_upper_bound; nia]. }
      unfold packed. rewrite load_bytes_nth by lia.
      rewrite Z2Nat.id by lia.
      change (Z.testbit (byte.unsigned (m (a + 1 + (w * q + r) / 8)))
                        ((w * q + r) mod 8))
        with (region_bit m (a + 1) (w * q + r)).
      rewrite Hpk by lia. unfold vs.
      rewrite nth_map_seq by lia. rewrite Z2Nat.id by lia. reflexivity.
    + constructor.
  - rewrite flat_map_app, Hexp. cbn [flat_map expand]. rewrite app_nil_r.
    unfold vs. rewrite firstn_segment by exact Hc.
    rewrite Z2Nat.id by lia. reflexivity.
Qed.

(** Closing a repeat run: header, then the value on one or two bytes. *)
Lemma commit_repeat m a rs c r x m1 dst :
  base <= a -> 0 <= c -> 1 <= r -> c + r <= n -> 0 <= x < 2 ^ w ->
  encodes w (load_bytes m base (Z.to_nat (a - base))) rs ->
  flat_map expand rs = firstn (Z.to_nat c) inp ->
  (forall p, c <= p < c + r -> I p = x) ->
  VlqEncode m a (2 * r) = (m1, dst) ->
  let m3 := if w >? 8 then store (store m1 dst x) (dst + 1) (Z.shiftr x 8)
            else store m1 dst x in
  let a' := if w >? 8 then dst + 2 else dst + 1 in
  base <= a'
  /\ exists rs',
       encodes w (load_bytes m3 base (Z.to_nat (a' - base))) rs'
       /\ flat_map expand rs' = firstn (Z.to_nat (c + r)) inp.
Proof.
  intros Ha Hc Hr Hcr Hx Henc Hexp Heq HV m3 a'.
  pose proof (VlqEncode_loop_spec 4 m a (2 * r)) as S.
  unfold VlqEncode in HV. rewrite HV in S. cbn [fst snd] in S.
  destruct S as (S1 & S2 & S3).
  pose proof (vlq_bytes_length 4 (2 * r)) as Hl.
  set (vl := vlq_bytes 4 (2 * r)) in *.
  assert (Ha' : a' = dst + Z.of_nat (value_bytes w)).
  { unfold a', value_bytes. destruct (w >? 8); lia. }
  split; [lia|].
  exists (rs ++ [Repeat (2 * r) x]). split.
  - replace (Z.to_nat (a' - base))
      with (Z.to_nat (a - base) + (length vl + value_bytes w))%nat by lia.
    rewrite !load_bytes_app.
    replace (base + Z.of_nat (Z.to_nat (a - base))) with a by lia.
    replace (a + Z.of_nat (length vl)) with dst by lia.
    assert (Hm3 : forall y, y < dst -> m3 y = m1 y).
    { intros y Hy. unfold m3. destruct (w >? 8);
        rewrite ?store_other by lia; reflexivity. }
    replace (load_bytes m3 base (Z.to_nat (a - base)))
      with (load_bytes m base (Z.to_nat (a - base))).
    2:{ apply load_bytes_ext. intros y Hy. rewrite Hm3, S3 by lia. reflexivity. }
    replace (load_bytes m3 a (length vl)) with vl.
    2:{ transitivity (load_bytes m1 a (length vl)); [symmetry; exact S2|].
        apply load_bytes_ext. intros y Hy. rewrite Hm3 by lia. reflexivity. }
    replace (load_bytes m3 dst (value_bytes w))
      with (le_split (value_bytes w) x).
    2:{ unfold m3, value_bytes, load_bytes. destruct (w >? 8);
          cbn [le_split seq map]; rewrite ?Z.add_0_r.
        - rewrite store_other, store_same by lia.
          change (Z.of_nat 1) with 1. rewrite store_same. reflexivity.
        - rewrite store_same. reflexivity. }
    apply encodes_app; [exact Henc|].
    rewrite <- (app_nil_r (le_split (value_bytes w) x)).
    apply encodes_repeat; try lia. constructor.
  - rewrite flat_map_app, Hexp. cbn [flat_map expand]. rewrite app_nil_r.
    replace (Z.shiftr (2 * r) 1) with r.
    2:{ rewrite Z.shiftr_div_pow2 by lia. change (2 ^ 1) with 2.
        Z.div_mod_to_equations. lia. }
    rewrite <- (map_seq_const (fun q => I (c + Z.of_nat q)) x (Z.to_nat r)).
    2:{ intros q Hq. apply Heq. lia. }
    rewrite firstn_segment by lia.
    replace (Z.to_nat (c + Z.of_nat (Z.to_nat r) - n)) with 0%nat by lia.
    cbn [repeat]. rewrite app_nil_r. f_equal. lia.
Qed.

Section Call.

Variable numvals : Z.
Variable flush : bool.
Hypothesis Hflush : flush = true -> numvals = n.

Local Abbreviation Inv := (Inv inp w base numvals).
Local Abbreviation measure := (measure numvals).

(** The branch of an open repeat run. *)
Lemma repeat_branch_inv s :
  Inv s ->
  (rle_pos s <? numvals) || (flush && negb (rle_run s =? 0)) = true ->
  (rle_run s >? 0) && (Z.land (rle_run s) 1 =? 0) = true ->
  Inv (repeat_branch numvals w flush s)
  /\ measure (repeat_branch numvals w flush s) < measure s.
Proof.
  intros [Iout Ipos Inv_ Iring (rs & c & pad & Henc & Hexp & Hc & Hpad & Hopen)]
         Hcond Hst.
  apply andb_true_iff in Hst as [Hgt Hev].
  apply Z.gtb_lt in Hgt. apply Z.eqb_eq in Hev.
  destruct Hopen as [[H0 _]|[(k & Hk & _)|(r & Hr & Hr1 & Hpr & Hrv & Heq)]];
    [lia|rewrite Hk in Hev; now apply odd_not_even in Hev|].
  assert (Hpad0 : pad = 0%nat) by (destruct Hpad as [?|(_ & ? & _)]; [assumption|lia]).
  subst pad. cbn [repeat] in Hexp. rewrite app_nil_r in Hexp.
  unfold repeat_branch.
  set (p := fun t => (rle_pos s + t <? numvals)
                     && (ring s (rle_pos s + t) =? run_val s)).
  destruct (leading_count_sound p) as (Hrc & Hall).
  set (rc := leading_count (rpt_map_of p)) in *.
  assert (Hlane : forall j, 0 <= j < rc ->
                  rle_pos s + j < numvals /\ I (rle_pos s + j) = run_val s).
  { intros j Hj. specialize (Hall j Hj). unfold p in Hall.
    apply andb_true_iff in Hall as [H1 H2].
    apply Z.ltb_lt in H1. apply Z.eqb_eq in H2.
    split; [exact H1|]. rewrite <- Iring by lia. exact H2. }
  assert (Hrcmax : rc <= numvals - rle_pos s).
  { destruct (Z.eq_dec rc 0); [lia|].
    destruct (Hlane (rc - 1)); lia. }
  rewrite Z.shiftl_mul_pow2 by lia. change (2 ^ 1) with 2.
  assert (Heq' : forall q, c <= q < c + (r + rc) -> I q = run_val s).
  { intros q Hq. destruct (Z.lt_ge_cases q (rle_pos s)).
    - apply Heq. lia.
    - replace q with (rle_pos s + (q - rle_pos s)) by lia.
      apply Hlane. lia. }
  destruct ((rc <? Z.min (numvals - rle_pos s) 128)
            || (flush && (rle_pos s + rc =? numvals))) eqn:Hemit.
  - (* the run is written *)
    destruct (VlqEncode (out s) (rle_out s) (rle_run s + rc * 2))
      as [m1 dst] eqn:EV.
    replace (rle_run s + rc * 2) with (2 * (r + rc)) in EV by lia.
    destruct (commit_repeat (out s) (rle_out s) rs c (r + rc) (run_val s)
                m1 dst Iout ltac:(lia) ltac:(lia) ltac:(lia) Hrv Henc Hexp
                Heq' EV) as (Hout' & rs' & Henc' & Hexp').
    destruct (w >? 8) eqn:Ew.
    + split.
      * constructor; cbn [Rle.rle_out Rle.rle_pos Rle.out Rle.rle_run Rle.vals];
          try lia.
        -- intros q Hq. unfold ring. cbn [Rle.vals]. apply Iring. lia.
        -- exists rs', (c + (r + rc)), 0%nat.
           cbn [repeat Rle.out Rle.rle_out]. rewrite app_nil_r.
           repeat split; try assumption; try lia.
           left. cbn [Rle.rle_run Rle.rle_pos]. lia.
      * unfold RleInv.measure. cbn [Rle.rle_pos Rle.rle_run].
        destruct (Z.eqb_spec (rle_run s) 0); cbn [Z.eqb]; lia.
    + split.
      * constructor; cbn [Rle.rle_out Rle.rle_pos Rle.out Rle.rle_run Rle.vals];
          try lia.
        -- intros q Hq. unfold ring. cbn [Rle.vals]. apply Iring. lia.
        -- exists rs', (c + (r + rc)), 0%nat.
           cbn [repeat Rle.out Rle.rle_out]. rewrite app_nil_r.
           repeat split; try assumption; try lia.
           left. cbn [Rle.rle_run Rle.rle_pos]. lia.
      * unfold RleInv.measure. cbn [Rle.rle_pos Rle.rle_run].
        destruct (Z.eqb_spec (rle_run s) 0); cbn [Z.eqb]; lia.
  - (* the run stays open *)
    apply orb_false_iff in Hemit as [He1 He2]. apply Z.ltb_ge in He1.
    assert (Hrc1 : 1 <= rc).
    { destruct (Z.eq_dec rc 0) as [E0|]; [|lia]. exfalso.
      assert (rle_pos s = numvals) by lia.
      apply orb_true_iff in Hcond as [Hc1|Hc2]; [apply Z.ltb_lt in Hc1; lia|].
      apply andb_true_iff in Hc2 as [Hf _]. rewrite Hf in He2. cbn [andb] in He2.
      apply Z.eqb_neq in He2. lia. }
    split.
    + constructor; cbn [Rle.rle_out Rle.rle_pos Rle.out Rle.rle_run Rle.vals];
        try lia.
      * intros q Hq. unfold ring. cbn [Rle.vals]. apply Iring. lia.
      * exists rs, c, 0%nat. cbn [repeat Rle.out Rle.rle_out].
        rewrite app_nil_r. repeat split; try assumption; try lia.
        right. right. exists (r + rc).
        cbn [Rle.rle_run Rle.rle_pos Rle.run_val].
        repeat split; try lia. intros q Hq. apply Heq'. lia.
    + unfold RleInv.measure. cbn [Rle.rle_pos Rle.rle_run].
      destruct (Z.eqb_spec (rle_run s) 0); [lia|].
      destruct (Z.eqb_spec (rle_run s + rc * 2) 0); lia.
Qed.

(** A state with the same encoder fields satisfies the invariant too. *)
Lemma inv_same s s' :
  Inv s ->
  rle_out s' = rle_out s -> rle_run s' = rle_run s ->
  run_val s' = run_val s -> rle_pos s' = rle_pos s ->
  out s' = out s -> vals s' = vals s ->
  Inv s'.
Proof.
  intros [Iout Ipos Inv_ Iring (rs & c & pad & Henc & Hexp & Hc & Hpad & Hopen)]
         E1 E2 E3 E4 E5 E6.
  constructor; rewrite ?E1, ?E4; try assumption.
  - intros p Hp. unfold ring. rewrite E6. apply Iring. exact Hp.
  - exists rs, c, pad. unfold open_run in *. rewrite E1, E2, E3, E4, E5.
    repeat split; try assumption; lia.
Qed.

(** The invariant after a literal run of [K] groups was closed. *)
Lemma inv_closed s s' m a rs c K :
  Inv s -> base <= a -> 0 <= c <= numvals -> 1 <= K <= 63 ->
  encodes w (load_bytes m base (Z.to_nat (a - base))) rs ->
  flat_map expand rs = firstn (Z.to_nat c) inp ->
  packed_at inp w m (a + 1) c K ->
  (c + 8 * K <= numvals \/ numvals = n) ->
  c + 8 * K < numvals + 8 ->
  rle_pos s <= c + 8 * K ->
  rle_out s' = a + (1 + w * K) -> rle_run s' = 0 ->
  rle_pos s' = Z.min (c + 8 * K) numvals ->
  out s' = store m a (2 * K + 1) -> vals s' = vals s ->
  Inv s'.
Proof.
  intros [Iout Ipos Inv_ Iring _] Ha Hc HK Henc Hexp Hpk Hend Hlt Hge
         E1 E2 E4 E5 E6.
  destruct (commit_literal m a rs c K Ha ltac:(lia) HK Henc Hexp Hpk)
    as (rs' & Henc' & Hexp').
  constructor; rewrite ?E1, ?E4; try lia.
  - intros p Hp. unfold ring. rewrite E6. apply Iring. lia.
  - exists rs', (Z.min (c + 8 * K) n), (Z.to_nat (c + 8 * K - n)).
    rewrite ?E5, ?E1, ?E2, ?E4. unfold open_run. rewrite ?E2, ?E4.
    repeat split; try assumption; lia.
Qed.

(** The invariant while a literal run of [K] groups is open. *)
Lemma inv_open s s' m a rs c K :
  Inv s -> base <= a -> 0 <= c -> 1 <= K <= 62 ->
  encodes w (load_bytes m base (Z.to_nat (a - base))) rs ->
  flat_map expand rs = firstn (Z.to_nat c) inp ->
  packed_at inp w m (a + 1) c K ->
  c + 8 * K < numvals ->
  rle_pos s <= c + 8 * K ->
  rle_out s' = a -> rle_run s' = 2 * K + 1 ->
  rle_pos s' = c + 8 * K ->
  out s' = m -> vals s' = vals s ->
  Inv s'.
Proof.
  intros [Iout Ipos Inv_ Iring _] Ha Hc HK Henc Hexp Hpk Hlt Hge
         E1 E2 E4 E5 E6.
  constructor; rewrite ?E1, ?E4; try lia.
  - intros p Hp. unfold ring. rewrite E6. apply Iring. lia.
  - exists rs, c, 0%nat. unfold open_run. rewrite ?E5, ?E1, ?E2, ?E4.
    cbn [repeat]. rewrite app_nil_r.
    repeat split; try assumption; try lia.
    right. left. exists K.
    repeat split; try assumption; lia.
Qed.

(** The invariant when a repeat run of [r] values starts in a closed
    state. *)
Lemma inv_start_repeat s0 s' r :
  Inv s0 -> rle_run s0 = 0 -> 1 <= r -> rle_pos s0 + r <= numvals ->
  (forall j, 0 <= j < r -> I (rle_pos s0 + j) = I (rle_pos s0)) ->
  rle_out s' = rle_out s0 -> rle_run s' = 2 * r ->
  run_val s' = I (rle_pos s0) -> rle_pos s' = rle_pos s0 + r ->
  out s' = out s0 -> vals s' = vals s0 ->
  Inv s'.
Proof.
  intros [Iout Ipos Inv_ Iring (rs & c & pad & Henc & Hexp & Hc & Hpad & Hopen)]
         H0 Hr Hle Heq E1 E2 E3 E4 E5 E6.
  assert (Hpad0 : pad = 0%nat) by (destruct Hpad as [?|(_ & _ & ? & _)]; [assumption|lia]).
  subst pad.
  assert (Hcp : c = rle_pos s0).
  { destruct Hopen as [[_ ?]|[(k & ? & ? & _)|(r0 & ? & ? & _)]]; [assumption|lia|lia]. }
  constructor; rewrite ?E1, ?E4; try lia.
  - intros p Hp. unfold ring. rewrite E6. apply Iring. lia.
  - exists rs, c, 0%nat. unfold open_run. rewrite ?E5, ?E1, ?E2, ?E3, ?E4.
    repeat split; try assumption; try lia.
    right. right. exists r.
    pose proof (input_range (rle_pos s0)).
    repeat split; try lia.
    intros p Hp. replace p with (rle_pos s0 + (p - rle_pos s0)) by lia.
      apply Heq. lia.
Qed.

(** What the invariant says when a new run or a literal run is open. *)
Lemma literal_view s :
  Inv s -> rle_pos s < numvals ->
  (rle_run s >? 0) && (Z.land (rle_run s) 1 =? 0) = false ->
  exists rs c k,
    (rle_run s = 0 /\ k = 0 \/ rle_run s = 2 * k + 1 /\ 1 <= k <= 62)
    /\ Z.shiftr (rle_run s) 1 = k
    /\ rle_pos s = c + 8 * k /\ 0 <= c
    /\ packed_at inp w (out s) (rle_out s + 1) c k
    /\ encodes w (load_bytes (out s) base (Z.to_nat (rle_out s - base))) rs
    /\ flat_map expand rs = firstn (Z.to_nat c) inp.
Proof.
  intros [Iout Ipos Inv_ Iring (rs & c & pad & Henc & Hexp & Hc & Hpad & Hopen)]
         Hlt Hst.
  assert (Hpad0 : pad = 0%nat) by (destruct Hpad as [?|(_ & _ & ? & _)]; [assumption|lia]).
  subst pad. cbn [repeat] in Hexp. rewrite app_nil_r in Hexp.
  destruct Hopen as [[H0 Hc0]|[(k & Hk & Hk1 & Hp & _ & Hpk)|(r & Hr & Hr1 & _)]].
  - exists rs, c, 0. rewrite H0.
    split; [left; split; reflexivity|]. split; [reflexivity|].
    repeat split; try assumption; try lia.
    intros q r Hq. lia.
  - exists rs, c, k. rewrite Hk, shiftr_one_odd.
    split; [right; split; [reflexivity|lia]|]. split; [reflexivity|].
    repeat split; try assumption; lia.
  - exfalso. rewrite Hr in Hst.
    apply andb_false_iff in Hst as [Hst|Hst].
    + rewrite Z.gtb_ltb in Hst. apply Z.ltb_ge in Hst. lia.
    + apply Z.eqb_neq in Hst. apply Hst.
      change 1 with (Z.ones 1) at 1. rewrite Z.land_ones by lia.
      change (2 ^ 1) with 2. Z.div_mod_to_equations. lia.
Qed.

(** In the literal branch there is a value left. *)
Lemma literal_pos_lt s :
  Inv s ->
  (rle_pos s <? numvals) || (flush && negb (rle_run s =? 0)) = true ->
  (rle_run s >? 0) && (Z.land (rle_run s) 1 =? 0) = false ->
  rle_pos s < numvals.
Proof.
  intros HI Hcond Hst.
  apply orb_true_iff in Hcond as [Hc1|Hc2]; [apply Z.ltb_lt in Hc1; lia|].
  apply andb_true_iff in Hc2 as [_ Hr]. apply negb_true_iff in Hr.
  apply Z.eqb_neq in Hr.
  destruct HI as [_ ? _ _ (rs & c & pad & _ & _ & _ & _ & Hopen)].
  destruct Hopen as [[? _]|[(k & ? & ? & ? & ? & _)|(r & Hr2 & Hr1 & _)]];
    [lia|lia|].
  exfalso. rewrite Hr2 in Hst.
  apply andb_false_iff in Hst as [Hst|Hst].
  - rewrite Z.gtb_ltb in Hst. apply Z.ltb_ge in Hst. lia.
  - apply Z.eqb_neq in Hst. apply Hst.
    change 1 with (Z.ones 1) at 1. rewrite Z.land_ones by lia.
    change (2 ^ 1) with 2. Z.div_mod_to_equations. lia.
Qed.

(** The branch of a new run or an open literal run. *)
Lemma literal_branch_inv s :
  Inv s ->
  (rle_pos s <? numvals) || (flush && negb (rle_run s =? 0)) = true ->
  (rle_run s >? 0) && (Z.land (rle_run s) 1 =? 0) = false ->
  forall s' brk, literal_branch numvals w flush s = (s', brk) ->
  Inv s'
  /\ (brk = true -> flush = false /\ numvals - rle_pos s' <= 128)
  /\ (brk = false -> measure s' < measure s).
Proof.
  intros HI Hcond Hst s' brk E.
  pose proof (literal_pos_lt s HI Hcond Hst) as Hlt.
  destruct (literal_view s HI Hlt Hst)
    as (rs & c & k & Hk & Hsh & Hpos & Hc0 & Hpk & Henc & Hexp).
  pose proof HI as [Iout Ipos Inv_ Iring _].
  set (maxvals := Z.min (numvals - rle_pos s) 128).
  assert (Hmax : 1 <= maxvals <= 128 /\ maxvals <= numvals - rle_pos s
                 /\ (maxvals = 128 \/ maxvals = numvals - rle_pos s))
    by (unfold maxvals; lia).
  set (p := fun t => (rle_pos s + t + 1 <? numvals)
                     && (ring s (rle_pos s + t) =? ring s (rle_pos s + t + 1))).
  set (v := fun t => if rle_pos s + t <? numvals then ring s (rle_pos s + t)
                     else 0).
  assert (Hv_range : forall t, 0 <= t < 128 -> 0 <= v t < 2 ^ w).
  { intros t Ht. unfold v. destruct (Z.ltb_spec (rle_pos s + t) numvals).
    - rewrite Iring by lia. apply input_range.
    - split; [lia|apply Z.pow_pos_nonneg; lia]. }
  assert (Hv_lane : forall t, 0 <= t ->
                    rle_pos s + t < numvals \/ numvals = n ->
                    v t = I (rle_pos s + t)).
  { intros t Ht Hin. unfold v. destruct (Z.ltb_spec (rle_pos s + t) numvals).
    - apply Iring. lia.
    - symmetry. apply input_past. lia. }
  assert (Hpack : forall g, 1 <= g <= 16 ->
            rle_pos s + 8 * g <= numvals \/ numvals = n ->
            packed_at inp w
              (PackLiterals (rle_out s + 1 + k * w) v (g * 8) w (out s))
              (rle_out s + 1) c (k + g)
            /\ encodes w
                 (load_bytes
                    (PackLiterals (rle_out s + 1 + k * w) v (g * 8) w (out s))
                    base (Z.to_nat (rle_out s - base))) rs).
  { intros g Hg Hin.
    destruct (pack_more (out s) (rle_out s + 1) c k g v) as [P1 P2];
      try assumption; try lia.
    - intros t Ht. rewrite Hv_lane by lia. f_equal. lia.
    - split; [exact P1|].
      erewrite load_bytes_ext; [exact Henc|].
      intros x Hx. apply P2. nia. }
  assert (Hlor : forall g, Z.lor (rle_run s + g * 2) 1 = 2 * (k + g) + 1).
  { intros g. destruct Hk as [[-> ->]|[-> _]].
    - replace (0 + g * 2) with (2 * g) by lia. rewrite lor_one_even. lia.
    - replace (2 * k + 1 + g * 2) with (2 * (k + g) + 1) by lia.
      apply lor_one_odd. }
  unfold literal_branch in E. cbv zeta in E.
  fold p v maxvals in E.
  destruct (find_run (rpt_map_of p) w maxvals) as [lit rpt] eqn:EF.
  apply find_run_sound in EF; [|exact Hw|lia].
  destruct EF as (Hlit & Hrpt & Hlt8 & Hlanes).
  assert (Hrun : forall j, 0 <= j < rpt ->
                 rle_pos s + lit + j + 1 < numvals
                 /\ I (rle_pos s + lit + j) = I (rle_pos s + lit)).
  { assert (Hp : forall j, 0 <= j < rpt ->
                 rle_pos s + lit + j + 1 < numvals
                 /\ I (rle_pos s + lit + j) = I (rle_pos s + lit + j + 1)).
    { intros j Hj. destruct (laneb_true _ _ (Hlanes j Hj)) as [_ Hpj].
      unfold p in Hpj. apply andb_true_iff in Hpj as [P1 P2].
      apply Z.ltb_lt in P1. apply Z.eqb_eq in P2.
      rewrite !Iring in P2 by lia.
      split; [lia|].
      replace (rle_pos s + lit + j) with (rle_pos s + (lit + j)) by lia.
      rewrite P2. reflexivity. }
    intros j Hj. split; [apply Hp; exact Hj|].
    pose proof (chain_equal (fun j => I (rle_pos s + lit + j)) rpt) as Hch.
    cbv beta in Hch. replace (rle_pos s + lit) with (rle_pos s + lit + 0) at 2
      by lia.
    apply Hch; [|lia]. intros i Hi.
    replace (rle_pos s + lit + (i + 1)) with (rle_pos s + lit + i + 1) by lia.
    apply Hp. exact Hi. }
  clear Hlanes. clearbody maxvals.
  rewrite ?Hsh in E. cbv beta iota in E.
  assert (Hms : forall pos' run',
            rle_pos s < pos' ->
            2 * (numvals - pos') + (if run' =? 0 then 0 else 1) < measure s).
  { intros pos' run' Hp. unfold RleInv.measure.
    destruct (run' =? 0), (rle_run s =? 0); lia. }
  assert (Hclosed0 : forall s1,
            1 <= k ->
            rle_out s1 = rle_out s + (1 + w * k) -> rle_run s1 = 0 ->
            rle_pos s1 = rle_pos s ->
            out s1 = store (out s) (rle_out s) (2 * k + 1) ->
            vals s1 = vals s -> Inv s1).
  { intros s1 Hk1 F1 F2 F3 F4 F5.
    apply (inv_closed s s1 (out s) (rle_out s) rs c k); try assumption; lia. }
  assert (Hclosed : forall g s1,
            1 <= g <= 16 -> k + g <= 63 ->
            rle_pos s + 8 * g <= numvals \/ numvals = n ->
            rle_pos s + 8 * g < numvals + 8 ->
            rle_out s1 = rle_out s + (1 + w * (k + g)) -> rle_run s1 = 0 ->
            rle_pos s1 = Z.min (rle_pos s + g * 8) numvals ->
            out s1 = store (PackLiterals (rle_out s + 1 + k * w) v (g * 8) w
                              (out s)) (rle_out s) (2 * (k + g) + 1) ->
            vals s1 = vals s -> Inv s1).
  { intros g s1 Hg Hkg Hin Hin8 F1 F2 F3 F4 F5.
    destruct (Hpack g Hg Hin) as [P1 P2].
    apply (inv_closed s s1
             (PackLiterals (rle_out s + 1 + k * w) v (g * 8) w (out s))
             (rle_out s) rs c (k + g) HI Iout); try assumption; lia. }
  assert (Hopen : forall g s1,
            1 <= g <= 16 -> k + g <= 62 ->
            rle_pos s + 8 * g < numvals ->
            rle_out s1 = rle_out s -> rle_run s1 = 2 * (k + g) + 1 ->
            rle_pos s1 = Z.min (rle_pos s + g * 8) numvals ->
            out s1 = PackLiterals (rle_out s + 1 + k * w) v (g * 8) w (out s) ->
            vals s1 = vals s -> Inv s1).
  { intros g s1 Hg Hkg Hin F1 F2 F3 F4 F5.
    destruct (Hpack g Hg ltac:(lia)) as [P1 P2].
    apply (inv_open s s1
             (PackLiterals (rle_out s + 1 + k * w) v (g * 8) w (out s))
             (rle_out s) rs c (k + g) HI Iout); try assumption; lia. }
  destruct (negb (lit =? 0) || negb (rle_run s =? 0) && negb (rpt =? 0)) eqn:E1;
    cbv beta iota in E.
  2: { (* a repeat run starts at once *)
    apply orb_false_iff in E1 as [E1a E1b].
    apply negb_false_iff in E1a. apply Z.eqb_eq in E1a. subst lit.
    assert (Hr1 : 1 <= rpt) by (apply Hlt8; lia).
    assert (Hrun0 : rle_run s = 0).
    { apply andb_false_iff in E1b as [H|H]; apply negb_false_iff in H;
        apply Z.eqb_eq in H; lia. }
    destruct (Z.eqb_spec rpt 0) as [|_]; [lia|]. cbn [negb] in E.
    apply pair_equal_spec in E as [<- <-].
    assert (Hlast : rle_pos s + rpt < numvals) by (destruct (Hrun (rpt - 1)); lia).
    split; [|split].
    - apply (inv_start_repeat s _ rpt HI Hrun0 Hr1);
        cbn [Rle.rle_out Rle.rle_run Rle.run_val Rle.rle_pos Rle.out Rle.vals];
        try reflexivity; try lia.
      + intros j Hj. destruct (Hrun j Hj) as [_ Hj2].
        replace (rle_pos s + 0 + j) with (rle_pos s + j) in Hj2 by lia.
        replace (rle_pos s + 0) with (rle_pos s) in Hj2 by lia. exact Hj2.
      + rewrite Iring by lia. f_equal. lia.
    - intros Hb. apply andb_true_iff in Hb as [Hb1 Hb2].
      apply negb_true_iff in Hb2. apply Z.eqb_eq in Hb1.
      cbn [Rle.rle_pos]. split; [assumption|lia].
    - intros _. cbn [RleInv.measure Rle.rle_pos Rle.rle_run].
      unfold RleInv.measure at 1. cbn [Rle.rle_pos Rle.rle_run].
      apply Hms. lia. }
  destruct (negb flush && (rle_pos s + lit =? numvals)) eqn:Enmd;
    cbv beta iota in E.
  - (* more data is needed *)
    apply andb_true_iff in Enmd as [Ef Eend].
    apply negb_true_iff in Ef. apply Z.eqb_eq in Eend.
    rewrite Ef in E. cbn [andb orb] in E. cbv beta iota in E.
    assert (Hr0 : rpt = 0) by lia. subst rpt.
    rewrite Z.add_0_r in E.
    set (lc := lit - Z.min lit 24) in *.
    rewrite Z.shiftr_div_pow2 in E by lia. change (2 ^ 3) with 8 in E.
    set (g0 := lc / 8) in *.
    assert (Hg0 : 0 <= g0 <= 16 /\ 8 * g0 <= lc /\ lc < lit)
      by (unfold g0, lc; Z.div_mod_to_equations; lia).
    change (0 =? 0) with true in E. cbn [negb orb] in E.
    assert (Hsame : forall s1, rle_out s1 = rle_out s -> rle_run s1 = rle_run s ->
              run_val s1 = run_val s -> rle_pos s1 = rle_pos s ->
              out s1 = out s -> vals s1 = vals s ->
              Inv s1
              /\ (true = true -> false = false /\ numvals - rle_pos s1 <= 128)
              /\ (true = false -> measure s1 < measure s)).
    { intros s1 F1 F2 F3 F4 F5 F6. split; [|split].
      - apply (inv_same s); assumption.
      - intros _. split; [reflexivity|lia].
      - discriminate. }
    rewrite Ef.
    destruct (Z.eqb_spec lc 0) as [Hlc|Hlc]; cbn [negb] in E;
      cbv beta iota in E.
    + change (0 =? 0) with true in E. cbn [negb orb] in E.
      destruct (rle_run s >=? 127) eqn:Ege; [apply Z.geb_le in Ege; lia|].
      cbv beta iota in E. apply pair_equal_spec in E as [<- <-].
      apply Hsame; reflexivity.
    + destruct (rle_run s + g0 * 2 >? 127) eqn:Eover; cbv beta iota in E.
      * (* the header byte is full *)
        rewrite Z.gtb_ltb in Eover. apply Z.ltb_lt in Eover.
        destruct (Z.eqb_spec (63 - k) 0) as [|_]; [lia|]. cbn [negb] in E.
        cbv beta iota in E. rewrite !Hlor, !shiftr_one_odd in E.
        change (0 =? 0) with true in E. cbn [negb orb] in E.
        destruct (2 * (k + (63 - k)) + 1 >=? 127) eqn:Ege;
          [|rewrite Z.geb_leb in Ege; apply Z.leb_gt in Ege; lia].
        cbv beta iota in E. apply pair_equal_spec in E as [<- <-].
        split; [|split].
        -- apply (Hclosed (63 - k)); fields; try reflexivity; lia.
        -- intros _. split; [reflexivity|fields; lia].
        -- discriminate.
      * rewrite Z.gtb_ltb in Eover. apply Z.ltb_ge in Eover.
        destruct (Z.eqb_spec g0 0) as [Hg00|Hg00]; cbn [negb] in E;
          cbv beta iota in E.
        -- change (0 =? 0) with true in E. cbn [negb orb] in E.
           destruct (rle_run s >=? 127) eqn:Ege; [apply Z.geb_le in Ege; lia|].
           cbv beta iota in E. apply pair_equal_spec in E as [<- <-].
           apply Hsame; reflexivity.
        -- rewrite !Hlor, !shiftr_one_odd in E.
           change (0 =? 0) with true in E. cbn [negb orb] in E.
           destruct (2 * (k + g0) + 1 >=? 127) eqn:Ege; cbv beta iota in E;
             apply pair_equal_spec in E as [<- <-].
           ++ apply Z.geb_le in Ege. split; [|split].
              ** apply (Hclosed g0); fields; try reflexivity; lia.
              ** intros _. split; [reflexivity|fields; lia].
              ** discriminate.
           ++ rewrite Z.geb_leb in Ege. apply Z.leb_gt in Ege.
              split; [|split].
              ** apply (Hopen g0); fields; try reflexivity; lia.
              ** intros _. split; [reflexivity|fields; lia].
              ** discriminate.
  - (* the literal values are consumed *)
    destruct (Z.eqb_spec lit 0) as [Hl0|Hl0]; cbn [negb] in E;
      cbv beta iota in E.
    + (* an open literal run is closed before a repeat run *)
      subst lit. cbn [negb orb] in E1.
      apply andb_true_iff in E1 as [E1a E1b].
      apply negb_true_iff in E1a. apply Z.eqb_neq in E1a.
      apply negb_true_iff in E1b. apply Z.eqb_neq in E1b.
      destruct Hk as [[? _]|[Hk Hk1]]; [lia|].
      destruct (Z.eqb_spec rpt 0) as [|_]; [lia|]. cbn [negb orb] in E.
      destruct (rle_run s >=? 3) eqn:Ege;
        [|rewrite Z.geb_leb in Ege; apply Z.leb_gt in Ege; lia].
      cbv beta iota in E. rewrite Hsh in E.
      destruct (Z.eqb_spec rpt 0) as [|_]; [lia|]. cbn [negb] in E.
      apply pair_equal_spec in E as [<- <-].
      assert (Hlast : rle_pos s + rpt < numvals)
        by (destruct (Hrun (rpt - 1)); lia).
      split; [|split].
      * apply (inv_start_repeat
                 {| rle_out := rle_out s + (1 + w * k); rle_run := 0;
                    run_val := run_val s; rle_pos := rle_pos s;
                    rle_numvals := rle_numvals s; rle_lit_count := 0;
                    rle_rpt_count := rpt; vals := vals s;
                    out := store (out s) (rle_out s) (rle_run s) |} _ rpt);
          fields; try reflexivity; try lia.
        -- apply Hclosed0; fields; try reflexivity; try lia.
           rewrite Hk. reflexivity.
        -- intros j Hj. destruct (Hrun j Hj) as [_ Hj2].
           replace (rle_pos s + 0 + j) with (rle_pos s + j) in Hj2 by lia.
           replace (rle_pos s + 0) with (rle_pos s) in Hj2 by lia. exact Hj2.
        -- rewrite Iring by lia. f_equal. lia.
      * intros Hb. apply andb_true_iff in Hb as [Hb1 Hb2].
        apply negb_true_iff in Hb2. apply Z.eqb_eq in Hb1.
        fields. split; [assumption|lia].
      * intros _. unfold RleInv.measure at 1. fields. apply Hms. lia.
    + destruct (flush && (rle_pos s + lit =? numvals)) eqn:Efe;
        cbv beta iota in E.
      * (* the last values of the page *)
        apply andb_true_iff in Efe as [Ef Eend]. apply Z.eqb_eq in Eend.
        pose proof (Hflush Ef) as Hn.
        rewrite Ef in E. cbn [andb] in E.
        assert (Hr0 : rpt = 0) by lia. subst rpt.
        rewrite Z.shiftr_div_pow2 in E by lia. change (2 ^ 3) with 8 in E.
        set (g0 := (lit + 7) / 8) in *.
        assert (Hg0 : 1 <= g0 <= 16 /\ lit <= 8 * g0 < lit + 8)
          by (unfold g0; Z.div_mod_to_equations; lia).
        clearbody g0.
        change (0 =? 0) with true in E. cbn [negb orb] in E.
        destruct (rle_run s + g0 * 2 >? 127) eqn:Eover; cbv beta iota in E.
        -- rewrite Z.gtb_ltb in Eover. apply Z.ltb_lt in Eover.
           destruct (Z.eqb_spec (63 - k) 0) as [|_]; [lia|]. cbn [negb] in E.
           cbv beta iota in E. rewrite !Hlor, !shiftr_one_odd in E.
           destruct (Z.eqb_spec (Z.min (rle_pos s + (63 - k) * 8) numvals)
                                numvals) as [|_]; [lia|].
           change (0 =? 0) with true in E. cbn [negb orb andb] in E.
           cbv beta iota in E.
           destruct (2 * (k + (63 - k)) + 1 >=? 127) eqn:Ege;
             [|rewrite Z.geb_leb in Ege; apply Z.leb_gt in Ege; lia].
           cbv beta iota in E. change (0 =? 0) with true in E.
           cbn [negb] in E. apply pair_equal_spec in E as [<- <-].
           split; [|split].
           ++ apply (Hclosed (63 - k)); fields; try reflexivity; lia.
           ++ discriminate.
           ++ intros _. unfold RleInv.measure at 1. fields. apply Hms. lia.
        -- rewrite Z.gtb_ltb in Eover. apply Z.ltb_ge in Eover.
           destruct (Z.eqb_spec g0 0) as [|_]; [lia|]. cbn [negb] in E.
           cbv beta iota in E. rewrite !Hlor, !shiftr_one_odd in E.
           destruct (Z.eqb_spec (Z.min (rle_pos s + g0 * 8) numvals)
                                numvals) as [_|]; [|lia].
           change (0 =? 0) with true in E. cbn [negb orb andb] in E.
           cbv beta iota in E.
           destruct (2 * (k + g0) + 1 >=? 3) eqn:Ege;
             [|rewrite Z.geb_leb in Ege; apply Z.leb_gt in Ege; lia].
           cbv beta iota in E. change (0 =? 0) with true in E.
           cbn [negb] in E. apply pair_equal_spec in E as [<- <-].
           split; [|split].
           ++ apply (Hclosed g0); fields; try reflexivity; lia.
           ++ discriminate.
           ++ intros _. unfold RleInv.measure at 1. fields. apply Hms. lia.
      * (* the values after the literal part are still in the batch *)
        assert (Hne : rle_pos s + lit <> numvals).
        { apply andb_false_iff in Efe as [Ef|Ef];
            apply andb_false_iff in Enmd as [Ef'|Ef'];
            try (apply Z.eqb_neq in Ef; exact Ef);
            try (apply Z.eqb_neq in Ef'; exact Ef').
          rewrite Ef in Ef'. discriminate. }
        rewrite Z.add_0_r in E.
        rewrite Z.shiftr_div_pow2 in E by lia. change (2 ^ 3) with 8 in E.
        set (g0 := lit / 8) in *.
        assert (Hg0 : 1 <= g0 <= 16 /\ 8 * g0 = lit).
        { destruct (Z.eq_dec lit maxvals) as [Hlm|Hlm].
          - assert (lit = 128) by lia. unfold g0.
            Z.div_mod_to_equations. lia.
          - destruct Hlt8 as [Hm8 _]; [lia|].
            unfold g0. Z.div_mod_to_equations. lia. }
        clearbody g0.
        destruct (rle_run s + g0 * 2 >? 127) eqn:Eover; cbv beta iota in E.
        -- rewrite Z.gtb_ltb in Eover. apply Z.ltb_lt in Eover.
           destruct (Z.eqb_spec (63 - k) 0) as [|_]; [lia|]. cbn [negb] in E.
           cbv beta iota in E. rewrite !Hlor, !shiftr_one_odd in E.
           destruct (Z.eqb_spec (Z.min (rle_pos s + (63 - k) * 8) numvals)
                                numvals) as [|_]; [lia|].
           rewrite andb_false_r in E.
           change (0 =? 0) with true in E. cbn [negb orb] in E.
           change (0 =? 0) with true in E. cbn [negb orb andb] in E.
           cbv beta iota in E.
           destruct (2 * (k + (63 - k)) + 1 >=? 127) eqn:Ege;
             [|rewrite Z.geb_leb in Ege; apply Z.leb_gt in Ege; lia].
           cbv beta iota in E. change (0 =? 0) with true in E.
           cbn [negb] in E. apply pair_equal_spec in E as [<- <-].
           split; [|split].
           ++ apply (Hclosed (63 - k)); fields; try reflexivity; lia.
           ++ discriminate.
           ++ intros _. unfold RleInv.measure at 1. fields. apply Hms. lia.
        -- rewrite Z.gtb_ltb in Eover. apply Z.ltb_ge in Eover.
           destruct (Z.eqb_spec g0 0) as [|_]; [lia|]. cbn [negb] in E.
           cbv beta iota in E. rewrite !Hlor, !shiftr_one_odd in E.
           destruct (Z.eqb_spec (Z.min (rle_pos s + g0 * 8) numvals)
                                numvals) as [|_]; [lia|].
           rewrite andb_false_r, orb_false_r in E.
           destruct (Z.eqb_spec rpt 0) as [Hr0|Hr0]; cbn [negb] in E.
           ++ (* no repeat run follows *)
              change (0 =? 0) with true in E. cbn [negb orb andb] in E.
              cbv beta iota in E.
              destruct (2 * (k + g0) + 1 >=? 127) eqn:Ege; cbv beta iota in E;
                rewrite Hr0 in E; change (0 =? 0) with true in E;
                cbn [negb] in E; apply pair_equal_spec in E as [<- <-].
              ** apply Z.geb_le in Ege. split; [|split].
                 --- apply (Hclosed g0); fields; try reflexivity; lia.
                 --- discriminate.
                 --- intros _. unfold RleInv.measure at 1. fields.
                     apply Hms. lia.
              ** rewrite Z.geb_leb in Ege. apply Z.leb_gt in Ege.
                 split; [|split].
                 --- apply (Hopen g0); fields; try reflexivity; lia.
                 --- discriminate.
                 --- intros _. unfold RleInv.measure at 1. fields.
                     apply Hms. lia.
           ++ (* the literal run is closed and a repeat run starts *)
              change (0 =? 0) with true in E. cbn [negb orb andb] in E.
              cbv beta iota in E.
              destruct (2 * (k + g0) + 1 >=? 3) eqn:Ege;
                [|rewrite Z.geb_leb in Ege; apply Z.leb_gt in Ege; lia].
              cbv beta iota in E.
              destruct (Z.eqb_spec rpt 0) as [|_]; [lia|]. cbn [negb] in E.
              apply pair_equal_spec in E as [<- <-].
              assert (Hlast : rle_pos s + lit + rpt < numvals)
                by (destruct (Hrun (rpt - 1)); lia).
              split; [|split].
              ** apply (inv_start_repeat
                   {| rle_out := rle_out s + (1 + w * (k + g0)); rle_run := 0;
                      run_val := run_val s;
                      rle_pos := Z.min (rle_pos s + g0 * 8) numvals;
                      rle_numvals := rle_numvals s; rle_lit_count := lit;
                      rle_rpt_count := rpt; vals := vals s;
                      out := store (PackLiterals (rle_out s + 1 + k * w) v
                                      (g0 * 8) w (out s))
                                   (rle_out s) (2 * (k + g0) + 1) |} _ rpt);
                   fields; try reflexivity; try lia.
                 --- apply (Hclosed g0); fields; try reflexivity; lia.
                 --- intros j Hj. destruct (Hrun j Hj) as [_ Hj2].
                     replace (Z.min (rle_pos s + g0 * 8) numvals)
                       with (rle_pos s + lit) by lia.
                     exact Hj2.
                 --- rewrite Iring by lia. f_equal. lia.
              ** intros Hb. apply andb_true_iff in Hb as [Hb1 Hb2].
                 apply negb_true_iff in Hb2. apply Z.eqb_eq in Hb1.
                 fields. split; [assumption|lia].
              ** intros _. unfold RleInv.measure at 1. fields.
                 apply Hms. lia.
Qed.

Lemma measure_nonneg s : Inv s -> 0 <= measure s.
Proof.
  intros [_ Ipos _ _ _]. unfold RleInv.measure.
  destruct (rle_run s =? 0); lia.
Qed.

(** One iteration of the loop keeps the invariant; it either leaves the
    loop to wait for more values, or makes progress. *)
Lemma RleEncode_body_inv s :
  Inv s ->
  (rle_pos s <? numvals) || (flush && negb (rle_run s =? 0)) = true ->
  forall s' brk, RleEncode_body numvals w flush s = (s', brk) ->
  Inv s'
  /\ (brk = true -> flush = false /\ numvals - rle_pos s' <= 128)
  /\ (brk = false -> measure s' < measure s).
Proof.
  intros HI Hcond s' brk E. unfold RleEncode_body in E.
  destruct ((rle_run s >? 0) && (Z.land (rle_run s) 1 =? 0)) eqn:Hst.
  - apply pair_equal_spec in E as [<- <-].
    destruct (repeat_branch_inv s HI Hcond Hst) as [H1 H2].
    split; [exact H1|]. split; [discriminate|]. intros _. exact H2.
  - apply (literal_branch_inv s HI Hcond Hst). exact E.
Qed.

(** The loop ends with enough fuel, and leaves at most 128 values for the
    next call; with [flush] nothing is left and no run stays open. *)
Lemma RleEncode_loop_inv fuel : forall s,
  Inv s -> measure s < Z.of_nat fuel ->
  exists s', RleEncode_loop numvals w flush fuel s = Some s'
    /\ Inv s' /\ numvals - rle_pos s' <= 128
    /\ (flush = true -> rle_pos s' = numvals /\ rle_run s' = 0).
Proof.
  induction fuel as [|fuel IH]; intros s HI Hm.
  - pose proof (measure_nonneg s HI). lia.
  - cbn [RleEncode_loop].
    destruct ((rle_pos s <? numvals) || (flush && negb (rle_run s =? 0)))
      eqn:Hcond.
    + destruct (RleEncode_body numvals w flush s) as [s1 brk] eqn:EB.
      destruct (RleEncode_body_inv s HI Hcond s1 brk EB) as (H1 & H2 & H3).
      destruct brk.
      * destruct (H2 eq_refl) as [Hf Hlag].
        exists s1. split; [reflexivity|]. split; [exact H1|].
        split; [exact Hlag|]. intros Hf'. rewrite Hf in Hf'. discriminate.
      * apply IH; [exact H1|]. specialize (H3 eq_refl). lia.
    + apply orb_false_iff in Hcond as [Hc1 Hc2]. apply Z.ltb_ge in Hc1.
      pose proof HI as [_ Ipos _ _ _].
      exists s. split; [reflexivity|]. split; [exact HI|]. split; [lia|].
      intros Hf. rewrite Hf in Hc2. cbn [andb] in Hc2.
      apply negb_false_iff in Hc2. apply Z.eqb_eq in Hc2. split; [lia|exact Hc2].
Qed.

(** [RleEncode] returns, and keeps the invariant. *)
Lemma RleEncode_inv s :
  Inv s ->
  exists s', RleEncode numvals w flush s = Some s'
    /\ Inv s' /\ rle_numvals s' = numvals /\ numvals - rle_pos s' <= 128
    /\ (flush = true -> rle_pos s' = numvals /\ rle_run s' = 0).
Proof.
  intros HI. unfold RleEncode.
  destruct (RleEncode_loop_inv (Z.to_nat (2 * (numvals - rle_pos s) + 2)) s HI)
    as (s1 & E & H1 & H2 & H3).
  { pose proof HI as [_ Ipos _ _ _]. unfold RleInv.measure.
    destruct (rle_run s =? 0); lia. }
  rewrite E. eexists. split; [reflexivity|].
  split; [apply (inv_same s1); [exact H1|reflexivity..]|].
  fields. cbn [Rle.rle_numvals]. repeat split; try lia; apply H3; assumption.
Qed.

(** When the groups of the batch do not fit the one-byte header, the run is
    filled to 63 groups and closed, and no repeat run is started. *)
Lemma literal_truncation s :
  Inv s ->
  (rle_pos s <? numvals) || (flush && negb (rle_run s =? 0)) = true ->
  (rle_run s >? 0) && (Z.land (rle_run s) 1 =? 0) = false ->
  forall s' brk, literal_branch numvals w flush s = (s', brk) ->
  literal_count numvals w flush s <> 0 ->
  rle_run s + literal_groups numvals w flush s * 2 > 0x7f ->
  rle_run s' = 0
  /\ out s' (rle_out s) = byte.of_Z 0x7f
  /\ rle_out s' = rle_out s + (1 + w * 0x3f)
  /\ rle_pos s' = rle_pos s + 8 * (0x3f - Z.shiftr (rle_run s) 1).
Proof.
  intros HI Hcond Hst s' brk E H1 H2.
  pose proof (literal_pos_lt s HI Hcond Hst) as Hlt.
  destruct (literal_view s HI Hlt Hst)
    as (rs & c & k & Hk & Hsh & Hpos & Hc0 & Hpk & Henc & Hexp).
  pose proof HI as [Iout Ipos Inv_ Iring _].
  unfold literal_groups, literal_count, batch_counts in H1, H2.
  unfold literal_branch in E. cbv zeta in E, H1, H2.
  set (maxvals := Z.min (numvals - rle_pos s) 128) in *.
  assert (Hmax : 1 <= maxvals <= 128 /\ maxvals <= numvals - rle_pos s)
    by (unfold maxvals; lia).
  set (p := fun t => (rle_pos s + t + 1 <? numvals)
                     && (ring s (rle_pos s + t) =? ring s (rle_pos s + t + 1)))
    in *.
  destruct (find_run (rpt_map_of p) w maxvals) as [lit rpt] eqn:EF.
  apply find_run_sound in EF; [|exact Hw|lia].
  destruct EF as (Hlit & Hrpt & _ & _).
  clearbody maxvals. cbn [fst] in H1, H2.
  rewrite ?Hsh in *. cbv beta iota in E.
  set (nmd := negb flush && (rle_pos s + lit =? numvals)) in *.
  set (lc := if nmd then lit - Z.min lit 24 else lit) in *.
  assert (Hlc : 0 < lc <= lit) by (unfold lc in *; destruct nmd; lia).
  set (g0 := Z.shiftr (lc + (if flush && (rle_pos s + lc =? numvals)
                             then 7 else 0)) 3) in *.
  assert (Hg0 : 8 * g0 <= lc + 7).
  { unfold g0. rewrite Z.shiftr_div_pow2 by lia. change (2 ^ 3) with 8.
    destruct (flush && (rle_pos s + lc =? numvals));
      Z.div_mod_to_equations; lia. }
  clearbody g0.
  destruct (Z.eqb_spec lit 0) as [|_]; [lia|]. cbn [negb orb] in E.
  destruct (Z.eqb_spec lc 0) as [|_]; [lia|]. cbn [negb] in E.
  destruct (rle_run s + g0 * 2 >? 127) eqn:Eover;
    [|rewrite Z.gtb_ltb in Eover; apply Z.ltb_ge in Eover; lia].
  destruct (Z.eqb_spec (63 - k) 0) as [|_]; [lia|]. cbn [negb] in E.
  cbv beta iota in E.
  assert (Hlor : Z.lor (rle_run s + (63 - k) * 2) 1 = 127).
  { destruct Hk as [[-> ->]|[-> _]].
    - reflexivity.
    - replace (2 * k + 1 + (63 - k) * 2) with (2 * 63 + 1) by lia.
      reflexivity. }
  rewrite !Hlor in E. change (Z.shiftr 127 1) with 63 in E.
  change (0 =? 0) with true in E. cbn [negb orb] in E.
  assert (Hge : forall b : bool, (127 >=? (if b then 3 else 127)) = true)
    by (intros []; reflexivity).
  rewrite Hge in E. cbv beta iota in E.
  assert (Hmin : Z.min (rle_pos s + (63 - k) * 8) numvals
                 = rle_pos s + 8 * (63 - k)) by lia.
  destruct nmd; cbv beta iota in E;
    [|change (0 =? 0) with true in E; cbn [negb] in E];
    apply pair_equal_spec in E as [<- _]; fields;
    (split; [reflexivity|]); (split; [apply store_same|]);
    (split; [reflexivity|exact Hmin]).
Qed.

End Call.

(** *** The level encoder: batches of 128 values through the ring *)

Local Abbreviation InvAt := (RleInv.Inv inp w base).

Lemma load_batch_ring s nv' :
  InvAt (rle_numvals s) s -> rle_numvals s - rle_pos s <= 128 ->
  rle_numvals s <= nv' <= rle_numvals s + 128 ->
  forall p, rle_pos s <= p < nv' -> ring (load_batch inp s) p = I p.
Proof.
  intros [_ Ipos _ Iring _] Hlag Hnv p Hp.
  unfold ring, load_batch, for_lanes. cbn [Rle.vals].
  change (rle_buffer_size - 1) with (Z.ones 9).
  etransitivity;
    [apply (ring_fill
              (fun t => Z.land (rle_numvals s + t) (Z.ones 9))
              (fun t => u16 (if rle_numvals s + t <? num_values inp
                             then nth (Z.to_nat (rle_numvals s + t)) inp 0
                             else 0)))|].
  destruct (find _ (rev lanes)) as [t|] eqn:Ef.
  - apply find_some in Ef as [Hin Heq]. apply in_rev, In_lanes in Hin.
    apply Z.eqb_eq in Heq. rewrite !Z.land_ones in Heq by lia.
    change (2 ^ 9) with 512 in Heq.
    assert (Hpt : p = rle_numvals s + t)
      by (Z.div_mod_to_equations; lia).
    rewrite <- Hpt.
    assert (Hval : (if p <? num_values inp then nth (Z.to_nat p) inp 0 else 0)
                   = I p).
    { unfold num_values, input_at.
      destruct (Z.ltb_spec p n); [reflexivity|].
      symmetry. apply nth_overflow. lia. }
    rewrite Hval. pose proof (input_range p) as Hr.
    assert (2 ^ w <= 2 ^ 16) by (apply Z.pow_le_mono_r; lia).
    unfold u16. apply Z.mod_small. lia.
  - destruct (Z.lt_ge_cases p (rle_numvals s)) as [Hlo|Hhi].
    + apply Iring. lia.
    + exfalso.
      pose proof (find_none _ _ Ef (p - rle_numvals s)) as Hn.
      cbv beta in Hn.
      replace (rle_numvals s + (p - rle_numvals s)) with p in Hn by lia.
      rewrite Z.eqb_refl in Hn.
      assert (true = false); [|discriminate].
      apply Hn. apply -> in_rev. apply In_lanes. lia.
Qed.

Lemma load_batch_inv s nv' :
  InvAt (rle_numvals s) s -> rle_numvals s - rle_pos s <= 128 ->
  rle_numvals s <= nv' <= rle_numvals s + 128 -> nv' <= n ->
  InvAt nv' (load_batch inp s).
Proof.
  intros HI Hlag Hnv Hn.
  pose proof (load_batch_ring s nv' HI Hlag Hnv) as Hring.
  destruct HI as [Iout Ipos Inv_ _ (rs & c & pad & Henc & Hexp & Hc & Hpad & Hopen)].
  constructor; try exact Hring; unfold load_batch; fields; try lia.
  exists rs, c, pad.
  repeat split; try assumption; try lia.
  destruct Hopen as [H0|[(k & Hk1 & Hk2 & Hk3 & Hk4 & Hk5)|Hr]].
  - left. exact H0.
  - right. left. exists k. fields. repeat split; try assumption; lia.
  - right. right. exact Hr.
Qed.

(** The state between two batches. *)
Lemma encode_levels_loop_inv fuel : forall s,
  InvAt (rle_numvals s) s -> rle_numvals s - rle_pos s <= 128 ->
  (rle_numvals s = n -> rle_pos s = n /\ rle_run s = 0) ->
  n - rle_numvals s <= Z.of_nat fuel ->
  exists s', encode_levels_loop inp w fuel s = Some s'
    /\ InvAt n s' /\ rle_pos s' = n /\ rle_run s' = 0.
Proof.
  induction fuel as [|fuel IH]; intros s HI Hlag Hend Hfuel;
    pose proof HI as [_ Ipos Inv_ _ _].
  - cbn [encode_levels_loop]. unfold num_values.
    assert (Hn : rle_numvals s = n) by lia.
    destruct (Z.ltb_spec (rle_numvals s) n); [lia|].
    exists s. rewrite <- Hn at 1. destruct (Hend Hn) as [H1 H2].
    split; [reflexivity|]. split; [exact HI|]. split; assumption.
  - cbn [encode_levels_loop]. cbv zeta. unfold num_values.
    destruct (Z.ltb_spec (rle_numvals s) n) as [Hlt|Hge].
    + set (nv' := rle_numvals s + Z.min (n - rle_numvals s) 128).
      assert (Hnv' : rle_numvals s < nv' <= rle_numvals s + 128 /\ nv' <= n)
        by (unfold nv'; lia).
      clearbody nv'.
      destruct (RleEncode_inv nv' (nv' =? n)
                  ltac:(intros Hf; apply Z.eqb_eq in Hf; exact Hf)
                  (load_batch inp s)
                  (load_batch_inv s nv' HI Hlag ltac:(lia) ltac:(lia)))
        as (s1 & E1 & H1 & H2 & H3 & H4).
      rewrite E1. apply IH.
      * rewrite H2. exact H1.
      * lia.
      * intros Hn. rewrite H2 in Hn.
        destruct H4 as [A B]; [apply Z.eqb_eq; exact Hn|].
        split; [lia|exact B].
      * lia.
    + assert (Hn : rle_numvals s = n) by lia.
      exists s. rewrite <- Hn at 1. destruct (Hend Hn) as [H1 H2].
      split; [reflexivity|]. split; [exact HI|]. split; assumption.
Qed.

End Steps.

End RleInvFacts.

(** ** The stream of a level array and its reader *)

Module RleCorrect.
Import Rle RleFormat RleFormatFacts RleMem RleInv RleInvFacts.

(** The level encoder returns a well-formed stream whose runs expand to the
    input, followed by fewer than eight zeros that fill the last group. *)
Lemma rle_stream_encodes inp w :
  1 <= w <= 16 ->
  Forall (fun x => 0 <= x < 2 ^ w) inp ->
  Z.of_nat (length inp) < 2 ^ 30 ->
  exists bs rs pad,
    rle_stream inp w = Some bs
    /\ encodes w bs rs
    /\ flat_map expand rs = inp ++ repeat 0 pad
    /\ (pad < 8)%nat.
Proof.
  intros Hw Hinp Hlen.
  set (m0 := fun _ : Z => Byte.x00).
  assert (HI0 : Inv inp w 4 0 (levels_init (fun _ => 0) 0 m0)).
  { constructor; cbn [levels_init rle_out rle_pos rle_run out vals]; try lia.
    exists [], 0, 0%nat. split; [apply encodes_nil|]. split; [reflexivity|].
    split; [lia|]. split; [left; reflexivity|]. left. split; reflexivity. }
  destruct (encode_levels_loop_inv inp w 4 Hw Hinp Hlen (length inp)
              (levels_init (fun _ => 0) 0 m0) HI0) as (s & E & HI & Hp & Hr).
  - cbn [levels_init rle_numvals rle_pos]. lia.
  - cbn [levels_init rle_numvals rle_pos rle_run]. intros <-.
    split; reflexivity.
  - cbn [levels_init rle_numvals]. lia.
  - destruct HI as [Iout _ _ _ (rs & c & pad & Henc & Hexp & Hc & Hpad & Hopen)].
    assert (Hcn : c = Z.of_nat (length inp)).
    { destruct Hopen as [[_ ?]|[(k & ? & ? & _)|(r & ? & ? & _)]]; lia. }
    unfold rle_stream, encode_levels. fold m0. rewrite E.
    eexists. exists rs, pad. split; [reflexivity|].
    split; [|split].
    + erewrite load_bytes_ext; [exact Henc|].
      intros x Hx. cbn [fold_left]. unfold store.
      repeat match goal with
             | |- context [x =? ?a] => destruct (Z.eqb_spec x a); [lia|]
             end.
      reflexivity.
    + rewrite Hexp, Hcn, Nat2Z.id, firstn_all. reflexivity.
    + destruct Hpad as [->|(_ & _ & _ & ?)]; lia.
Qed.

(** C3: for every bit width from 1 to 16 and every input of values of
    that width, the hybrid RLE stream that [RleEncode] writes, fed in batches
    of at most 128 values with [flush] on the last batch, is returned and
    decodes to the input followed by fewer than eight zeros that fill the
    last literal group; the reader that takes as many values as were written
    gets the input back.  Runs that span batches or end on a batch boundary
    are covered, since the input is arbitrary. *)
Theorem rle_round_trip (inp : list Z) (nbits : Z) :
  1 <= nbits <= 16 ->
  Forall (fun x => 0 <= x < 2 ^ nbits) inp ->
  Z.of_nat (length inp) < 2 ^ 30 ->
  exists bs pad,
    rle_stream inp nbits = Some bs
    /\ rle_decode nbits bs = Some (inp ++ repeat 0 pad)
    /\ (pad < 8)%nat
    /\ firstn (length inp) (inp ++ repeat 0 pad) = inp.
Proof.
  intros Hw Hinp Hlen.
  destruct (rle_stream_encodes inp nbits Hw Hinp Hlen)
    as (bs & rs & pad & E & Henc & Hexp & Hpad).
  exists bs, pad. split; [exact E|].
  destruct (encodes_decode nbits bs rs Hw Henc) as [_ Hdec].
  rewrite Hdec, Hexp. split; [reflexivity|]. split; [exact Hpad|].
  rewrite firstn_app, firstn_all, Nat.sub_diag. cbn [firstn].
  apply app_nil_r.
Qed.

Lemma rle_round_trip_witness :
  (1 <= 3 <= 16
   /\ Forall (fun x => 0 <= x < 2 ^ 3) [5; 5; 5; 5; 5; 5; 5; 5; 5; 1; 7; 0; 2]
   /\ Z.of_nat (length [5; 5; 5; 5; 5; 5; 5; 5; 5; 1; 7; 0; 2]) < 2 ^ 30)
  /\ exists bs pad,
       rle_stream [5; 5; 5; 5; 5; 5; 5; 5; 5; 1; 7; 0; 2] 3 = Some bs
       /\ rle_decode 3 bs
          = Some ([5; 5; 5; 5; 5; 5; 5; 5; 5; 1; 7; 0; 2] ++ repeat 0 pad)
       /\ (pad < 8)%nat
       /\ firstn (length [5; 5; 5; 5; 5; 5; 5; 5; 5; 1; 7; 0; 2])
                 ([5; 5; 5; 5; 5; 5; 5; 5; 5; 1; 7; 0; 2] ++ repeat 0 pad)
          = [5; 5; 5; 5; 5; 5; 5; 5; 5; 1; 7; 0; 2].
Proof.
  assert (H1 : 1 <= 3 <= 16) by lia.
  assert (H2 : Forall (fun x => 0 <= x < 2 ^ 3)
                      [5; 5; 5; 5; 5; 5; 5; 5; 5; 1; 7; 0; 2])
    by (repeat constructor; lia).
  assert (H3 : Z.of_nat (length [5; 5; 5; 5; 5; 5; 5; 5; 5; 1; 7; 0; 2])
               < 2 ^ 30) by (vm_compute; reflexivity).
  split; [exact (conj H1 (conj H2 H3))|].
  exact (rle_round_trip _ 3 H1 H2 H3).
Defined.

(** C10: the header of every literal run of the stream is odd and at most
    0x7f, so it takes one byte and the run holds at most 504 values (63
    groups of eight).  In the literal branch, when the groups of the batch
    would not fit, the encoder fills the open run to exactly 63 groups, stores
    the header 0x7f and closes the run, and leaves no repeat run open: the
    repeat run found in the batch is dealt with in a later iteration. *)
Theorem literal_header_bound (inp : list Z) (nbits : Z) :
  1 <= nbits <= 16 ->
  Forall (fun x => 0 <= x < 2 ^ nbits) inp ->
  Z.of_nat (length inp) < 2 ^ 30 ->
  (exists bs rs,
     rle_stream inp nbits = Some bs
     /\ rle_runs nbits bs = Some rs
     /\ forall h vs, In (Literal h vs) rs ->
          Z.odd h = true /\ 1 <= h <= 0x7f
          /\ Z.of_nat (length vs) = 8 * Z.shiftr h 1
          /\ Z.of_nat (length vs) <= 504)
  /\ (forall base numvals flush s s' brk,
        (flush = true -> numvals = Z.of_nat (length inp)) ->
        Inv inp nbits base numvals s ->
        (rle_pos s <? numvals) || (flush && negb (rle_run s =? 0)) = true ->
        (rle_run s >? 0) && (Z.land (rle_run s) 1 =? 0) = false ->
        literal_branch numvals nbits flush s = (s', brk) ->
        literal_count numvals nbits flush s <> 0 ->
        rle_run s + literal_groups numvals nbits flush s * 2 > 0x7f ->
        rle_run s' = 0
        /\ out s' (rle_out s) = byte.of_Z 0x7f
        /\ rle_out s' = rle_out s + (1 + nbits * 0x3f)
        /\ rle_pos s' = rle_pos s + 8 * (0x3f - Z.shiftr (rle_run s) 1)).
Proof.
  intros Hw Hinp Hlen. split.
  - destruct (rle_stream_encodes inp nbits Hw Hinp Hlen)
      as (bs & rs & pad & E & Henc & _).
    exists bs, rs. split; [exact E|].
    destruct (encodes_decode nbits bs rs Hw Henc) as [Hruns _].
    split; [exact Hruns|]. intros h vs Hin.
    destruct (encodes_literal_bound nbits bs rs Henc h vs Hin)
      as (g & -> & Hg & Hl).
    rewrite shiftr_one_odd.
    assert (Hodd : Z.odd (2 * g + 1) = true)
      by (rewrite Z.add_comm, Z.odd_add_mul_2; reflexivity).
    repeat split; try assumption; lia.
  - intros base numvals flush s s' brk Hflush HI Hcond Hst E H1 H2.
    eapply literal_truncation; eassumption.
Qed.

Lemma literal_header_bound_witness :
  (1 <= 1 <= 16
   /\ Forall (fun x => 0 <= x < 2 ^ 1) [1; 0; 1; 1; 0; 0; 1; 0; 1]
   /\ Z.of_nat (length [1; 0; 1; 1; 0; 0; 1; 0; 1]) < 2 ^ 30)
  /\ exists bs rs,
       rle_stream [1; 0; 1; 1; 0; 0; 1; 0; 1] 1 = Some bs
       /\ rle_runs 1 bs = Some rs
       /\ forall h vs, In (Literal h vs) rs ->
            Z.odd h = true /\ 1 <= h <= 0x7f
            /\ Z.of_nat (length vs) = 8 * Z.shiftr h 1
            /\ Z.of_nat (length vs) <= 504.
Proof.
  assert (H1 : 1 <= 1 <= 16) by lia.
  assert (H2 : Forall (fun x => 0 <= x < 2 ^ 1) [1; 0; 1; 1; 0; 0; 1; 0; 1])
    by (repeat constructor; lia).
  assert (H3 : Z.of_nat (length [1; 0; 1; 1; 0; 0; 1; 0; 1]) < 2 ^ 30)
    by (vm_compute; reflexivity).
  split; [exact (conj H1 (conj H2 H3))|].
  exact (proj1 (literal_header_bound _ 1 H1 H2 H3)).
Defined.

End RleCorrect.

(** ** RLE encoder: nothing is written before the stream *)

Module RleFrame.
Import Rle RleBits RlePack RleFormat RleFormatFacts RleMem RleInv RleInvFacts.

Ltac in_stores Hin :=
  repeat match type of Hin with
         | In _ (if ?c then _ else _) => destruct c eqn:?; [|destruct Hin]
         | In _ [] => destruct Hin
         end.

(** [PackLiterals] writes at [dst] or after it. *)
Lemma PackLiterals_below dst v count w m a :
  a < dst -> PackLiterals dst v count w m a = m a.
Proof.
  intros Ha. unfold PackLiterals.
  destruct ((w =? 1) || (w =? 2) || (w =? 4) || (w =? 8) || (w =? 12)
            || (w =? 16)) eqn:Hsel.
  - apply scatter_frame. intros t x Ht Hin.
    repeat (apply orb_true_iff in Hsel as [Hsel|Hsel]);
      apply Z.eqb_eq in Hsel; subst w;
      unfold pack_lane in Hin; cbn [Z.eqb Pos.eqb] in Hin;
      cbv beta zeta in Hin; in_stores Hin;
      rewrite ?Z.shiftr_div_pow2 in Hin by lia;
      repeat (destruct Hin as [Hin|Hin];
              [apply pair_equal_spec in Hin as [H1 _]|]);
      try (destruct Hin);
      Z.div_mod_to_equations; lia.
  - apply scatter_frame. intros t x Ht Hin.
    unfold copy_lane in Hin.
    apply in_app_or in Hin as [Hin|Hin]; in_stores Hin;
      destruct Hin as [Hin|[]]; apply pair_equal_spec in Hin as [H1 _]; lia.
Qed.

Section Frame.

Variable inp : list Z.
Variable w : Z.
Variable base : Z.

Hypothesis Hw : 1 <= w <= 16.
Hypothesis Hinp : Forall (fun x => 0 <= x < 2 ^ w) inp.
Hypothesis Hlen : Z.of_nat (length inp) < 2 ^ 30.

Variable numvals : Z.
Variable flush : bool.
Hypothesis Hflush : flush = true -> numvals = Z.of_nat (length inp).

Local Abbreviation Inv := (RleInv.Inv inp w base numvals).

Lemma run_nonneg s : Inv s -> 0 <= rle_run s.
Proof.
  intros [_ _ _ _ (rs & c & pad & _ & _ & _ & _ & Hopen)].
  destruct Hopen as [[? _]|[(k & ? & ? & _)|(r & ? & ? & _)]]; lia.
Qed.

Lemma repeat_branch_frame s x :
  Inv s -> x < base -> out (repeat_branch numvals w flush s) x = out s x.
Proof.
  intros HI Hx. pose proof (inv_out _ _ _ _ _ HI) as Hout.
  unfold repeat_branch. cbv zeta.
  match goal with
  | |- context [if ?c then _ else _] => destruct c; [|reflexivity]
  end.
  match goal with
  | |- context [VlqEncode ?m ?p ?v] =>
      pose proof (VlqEncode_loop_spec 4 m p v) as (V1 & _ & V3);
      unfold VlqEncode; destruct (VlqEncode_loop 4 m p v) as [m1 dst]
  end.
  cbn [fst snd] in V1, V3.
  destruct (w >? 8); cbn [out]; rewrite ?store_other by lia; apply V3; lia.
Qed.

Lemma literal_branch_frame s x :
  Inv s -> x < base ->
  out (fst (literal_branch numvals w flush s)) x = out s x.
Proof.
  intros HI Hx. pose proof (inv_out _ _ _ _ _ HI) as Hout.
  pose proof (run_nonneg s HI) as Hrun.
  assert (Hoff : 0 <= Z.shiftr (rle_run s) 1 * w)
    by (apply Z.mul_nonneg_nonneg; [apply Z.shiftr_nonneg; lia|lia]).
  unfold literal_branch. cbv zeta.
  destruct (find_run _ _ _) as [lit rpt].
  repeat (match goal with
          | |- context [if ?c then _ else _] => destruct c
          end; cbv iota beta; cbn [fst snd out]);
    rewrite ?store_other by lia; rewrite ?PackLiterals_below by lia;
    reflexivity.
Qed.

Lemma RleEncode_body_frame s x :
  Inv s -> x < base ->
  out (fst (RleEncode_body numvals w flush s)) x = out s x.
Proof.
  intros HI Hx. unfold RleEncode_body.
  destruct ((rle_run s >? 0) && (Z.land (rle_run s) 1 =? 0)).
  - cbn [fst]. apply repeat_branch_frame; assumption.
  - apply literal_branch_frame; assumption.
Qed.

Lemma RleEncode_loop_frame fuel x : forall s s',
  Inv s -> x < base ->
  RleEncode_loop numvals w flush fuel s = Some s' ->
  out s' x = out s x.
Proof.
  induction fuel as [|fuel IH]; intros s s' HI Hx E; cbn [RleEncode_loop] in E.
  - destruct ((rle_pos s <? numvals) || (flush && negb (rle_run s =? 0)));
      [discriminate|]. injection E as <-. reflexivity.
  - destruct ((rle_pos s <? numvals) || (flush && negb (rle_run s =? 0)))
      eqn:Hcond; [|injection E as <-; reflexivity].
    pose proof (RleEncode_body_frame s x HI Hx) as Hb.
    destruct (RleEncode_body numvals w flush s) as [s1 brk] eqn:EB.
    destruct (RleEncode_body_inv inp w base Hw Hinp Hlen numvals flush Hflush
                s HI Hcond s1 brk EB) as (H1 & _ & _).
    cbn [fst] in Hb. destruct brk.
    + injection E as <-. exact Hb.
    + rewrite (IH s1 s' H1 Hx E). exact Hb.
Qed.

(** A call of [RleEncode] leaves the bytes before the stream alone. *)
Lemma RleEncode_frame s s' x :
  Inv s -> x < base ->
  RleEncode numvals w flush s = Some s' ->
  out s' x = out s x.
Proof.
  intros HI Hx E. unfold RleEncode in E.
  destruct (RleEncode_loop numvals w flush _ s) as [s1|] eqn:E1;
    [|discriminate].
  injection E as <-. cbn [out].
  exact (RleEncode_loop_frame _ x s s1 HI Hx E1).
Qed.

End Frame.

(** The level encoder leaves the bytes before the stream alone. *)
Lemma encode_levels_loop_frame (inp : list Z) (w base : Z) fuel x :
  1 <= w <= 16 ->
  Forall (fun v => 0 <= v < 2 ^ w) inp ->
  Z.of_nat (length inp) < 2 ^ 30 ->
  forall s s',
  RleInv.Inv inp w base (rle_numvals s) s ->
  rle_numvals s - rle_pos s <= 128 ->
  x < base ->
  encode_levels_loop inp w fuel s = Some s' ->
  out s' x = out s x.
Proof.
  intros Hw Hinp Hlen.
  induction fuel as [|fuel IH]; intros s s' HI Hlag Hx E;
    cbn [encode_levels_loop] in E; unfold num_values in E.
  - destruct (rle_numvals s <? Z.of_nat (length inp)); [discriminate|].
    injection E as <-. reflexivity.
  - destruct (Z.ltb_spec (rle_numvals s) (Z.of_nat (length inp)))
      as [Hlt|Hge]; [|injection E as <-; reflexivity].
    cbv zeta in E.
    set (nv' := rle_numvals s
                + Z.min (Z.of_nat (length inp) - rle_numvals s) 128) in *.
    assert (Hnv' : rle_numvals s < nv' <= rle_numvals s + 128
                   /\ nv' <= Z.of_nat (length inp)) by (unfold nv'; lia).
    clearbody nv'.
    assert (Hf : (nv' =? Z.of_nat (length inp)) = true ->
                 nv' = Z.of_nat (length inp))
      by (intros H; apply Z.eqb_eq in H; exact H).
    pose proof (load_batch_inv inp w base Hw Hinp s nv' HI Hlag
                  ltac:(lia) ltac:(lia)) as HI1.
    destruct (RleEncode_inv inp w base Hw Hinp Hlen nv'
                (nv' =? Z.of_nat (length inp)) Hf (load_batch inp s) HI1)
      as (s1 & E1 & H1 & H2 & H3 & H4).
    rewrite E1 in E.
    rewrite (IH s1 s'); [| |lia|exact Hx|exact E].
    + exact (RleEncode_frame inp w base Hw Hinp Hlen nv'
               (nv' =? Z.of_nat (length inp)) Hf (load_batch inp s) s1 x
               HI1 Hx E1).
    + rewrite H2. exact H1.
Qed.

End RleFrame.

(** ** The page planner against its description *)

Module PlannerClaims.
Import Planner PlannerFacts PlannerExamples PlannerCeiling
  PlannerCeilingFacts.




End PlannerClaims.

(** ** [gpuDecideCompression]: the decision for a chunk *)

Module CompressionFacts.
Import Rle Compression.

Lemma big_sum_ext f g k :
  (forall i, (i < k)%nat -> f i = g i) -> big_sum f k = big_sum g k.
Proof.
  induction k as [|k IH]; intros H; [reflexivity|].
  cbn [big_sum]. rewrite IH by (intros; apply H; lia).
  rewrite H by lia. reflexivity.
Qed.

Lemma big_sum_add f g k :
  big_sum (fun i => f i + g i) k = big_sum f k + big_sum g k.
Proof. induction k as [|k IH]; cbn [big_sum]; lia. Qed.

Lemma big_sum_split f a b :
  big_sum f (a + b) = big_sum f a + big_sum (fun i => f (a + i)%nat) b.
Proof.
  induction b as [|b IH].
  - rewrite Nat.add_0_r. cbn [big_sum]. lia.
  - rewrite Nat.add_succ_r. cbn [big_sum]. rewrite IH. lia.
Qed.

Lemma big_sum_zero f k :
  (forall i, (i < k)%nat -> f i = 0) -> big_sum f k = 0.
Proof.
  induction k as [|k IH]; intros H; [reflexivity|].
  cbn [big_sum]. rewrite IH by (intros; apply H; lia). rewrite H by lia.
  reflexivity.
Qed.

Lemma big_sum_nonneg f k :
  (forall i, (i < k)%nat -> 0 <= f i) -> 0 <= big_sum f k.
Proof.
  induction k as [|k IH]; intros H; cbn [big_sum]; [lia|].
  specialize (H k ltac:(lia)) as Hk.
  assert (0 <= big_sum f k) by (apply IH; intros; apply H; lia). lia.
Qed.

(** The strided sums of the lanes add up to the sum over all indices. *)
Lemma big_sum_stride (G : nat -> Z) (J : nat) :
  big_sum (fun t => big_sum (fun j => G (t + 32 * j)%nat) J) 32
  = big_sum G (32 * J).
Proof.
  induction J as [|J IH].
  - rewrite Nat.mul_0_r. change (big_sum G 0) with 0.
    apply big_sum_zero. reflexivity.
  - replace (32 * S J)%nat with (32 * J + 32)%nat by lia.
    rewrite big_sum_split, <- IH, <- big_sum_add.
    apply big_sum_ext. intros t Ht. cbn [big_sum]. do 2 f_equal; lia.
Qed.

Lemma total_app g l1 l2 : total g (l1 ++ l2) = total g l1 + total g l2.
Proof.
  unfold total. induction l1 as [|x l1 IH]; cbn [fold_right app]; lia.
Qed.

Lemma total_flat_map g (L : Z -> list EncPage) ts :
  total g (flat_map L ts)
  = fold_right (fun t a => total g (L t) + a) 0 ts.
Proof.
  induction ts as [|t ts IH]; [reflexivity|].
  cbn [flat_map fold_right]. rewrite total_app, IH. reflexivity.
Qed.

Lemma fold_sum_acc {A} (F : A -> Z) l z :
  fold_right (fun t a => F t + a) z l
  = fold_right (fun t a => F t + a) 0 l + z.
Proof. induction l as [|x l IH]; cbn [fold_right]; lia. Qed.

Lemma sum_map_seq (F : Z -> Z) k :
  fold_right (fun t a => F t + a) 0 (map Z.of_nat (seq 0 k))
  = big_sum (fun i => F (Z.of_nat i)) k.
Proof.
  induction k as [|k IH]; [reflexivity|].
  rewrite seq_S, map_app, fold_right_app, fold_sum_acc, IH.
  cbn [map fold_right big_sum Nat.add]. lia.
Qed.

Lemma total_big_sum g pgs :
  total g pgs = big_sum (at_index g pgs) (length pgs).
Proof.
  induction pgs as [|p pgs IH] using rev_ind; [reflexivity|].
  rewrite total_app, length_app, Nat.add_1_r. cbn [total fold_right big_sum].
  rewrite IH. unfold at_index at 3.
  rewrite nth_error_app2, Nat.sub_diag by lia. cbn [nth_error].
  f_equal; [|lia]. apply big_sum_ext. intros i Hi. unfold at_index.
  rewrite nth_error_app1 by lia. reflexivity.
Qed.

Lemma lane_loop_sum g pgs : forall fuel page,
  total g (lane_loop fuel pgs (Z.of_nat page))
  = big_sum (fun j => at_index g pgs (page + 32 * j)) fuel.
Proof.
  induction fuel as [|fuel IH]; intros page; [reflexivity|].
  cbn [lane_loop].
  replace (S fuel) with (1 + fuel)%nat by lia. rewrite big_sum_split.
  cbn [big_sum]. rewrite Nat.mul_0_r, Nat.add_0_r.
  destruct (Z.ltb_spec (Z.of_nat page) (Z.of_nat (length pgs))) as [Hlt|Hge].
  - rewrite Nat2Z.id. unfold at_index at 1.
    destruct (nth_error pgs page) as [p|] eqn:En.
    + cbn [total fold_right].
      replace (Z.of_nat page + 32) with (Z.of_nat (page + 32)) by lia.
      fold (total g (lane_loop fuel pgs (Z.of_nat (page + 32)))).
      rewrite IH. rewrite Z.add_0_l. f_equal.
      apply big_sum_ext. intros j _. f_equal; lia.
    + apply nth_error_None in En. lia.
  - cbn [total fold_right]. symmetry.
    assert (Hz : forall i, (page <= i)%nat -> at_index g pgs i = 0).
    { intros i Hi. unfold at_index.
      destruct (nth_error pgs i) eqn:En; [|reflexivity].
      assert (nth_error pgs i <> None) by congruence.
      apply nth_error_Some in H. lia. }
    rewrite Hz by lia. rewrite big_sum_zero; [reflexivity|].
    intros j _. cbv beta. apply Hz. lia.
Qed.

(** Every page is visited by exactly one lane. *)
Lemma lanes_total g pgs :
  total g (flat_map (lane_pages pgs) warp_lanes) = total g pgs.
Proof.
  rewrite total_flat_map. unfold warp_lanes. rewrite sum_map_seq.
  unfold lane_pages.
  erewrite big_sum_ext; [|intros t _; apply lane_loop_sum].
  rewrite (big_sum_stride (at_index g pgs)), total_big_sum.
  replace (32 * length pgs)%nat with (length pgs + 31 * length pgs)%nat by lia.
  rewrite big_sum_split. rewrite (big_sum_zero (fun i => _) (31 * _)); [lia|].
  intros i _. unfold at_index.
  destruct (nth_error pgs (length pgs + i)) eqn:En; [|reflexivity].
  assert (H : nth_error pgs (length pgs + i) <> None) by congruence.
  apply nth_error_Some in H. lia.
Qed.

Lemma u32_add_l a b : u32 (u32 a + b) = u32 (a + b).
Proof. unfold u32. apply Zplus_mod_idemp_l. Qed.

Lemma u32_add_r a b : u32 (a + u32 b) = u32 (a + b).
Proof. unfold u32. apply Zplus_mod_idemp_r. Qed.

Lemma u32_idem a : u32 (u32 a) = u32 a.
Proof. unfold u32. apply Zmod_mod. Qed.

Lemma fold_u32_total {A} (g : A -> Z) l : forall a,
  fold_left (fun a p => u32 (a + g p)) l (u32 a)
  = u32 (a + fold_right (fun p s => g p + s) 0 l).
Proof.
  induction l as [|p l IH]; intros a; cbn [fold_left fold_right].
  - rewrite Z.add_0_r. reflexivity.
  - rewrite u32_add_l, IH. f_equal; lia.
Qed.

Lemma lane_uncompressed_total pgs t :
  lane_uncompressed pgs t = u32 (total max_data_size (lane_pages pgs t)).
Proof.
  unfold lane_uncompressed. change 0 with (u32 0) at 1.
  rewrite fold_u32_total. reflexivity.
Qed.

Lemma fold_compressed l : forall a,
  fold_left (fun a p => match comp_stat p with
                        | Some st => u32 (a + bytes_written st)
                        | None => a
                        end) l (u32 a)
  = u32 (a + total compressed_bytes l).
Proof.
  induction l as [|p l IH]; intros a; cbn [fold_left total fold_right].
  - rewrite Z.add_0_r. reflexivity.
  - fold (total compressed_bytes l). unfold compressed_bytes at 1.
    destruct (comp_stat p) as [st|].
    + rewrite u32_add_l, IH. f_equal; lia.
    + rewrite IH. f_equal; lia.
Qed.

Lemma lane_compressed_total pgs t :
  lane_compressed pgs t = u32 (total compressed_bytes (lane_pages pgs t)).
Proof.
  unfold lane_compressed. change 0 with (u32 0) at 1.
  rewrite fold_compressed. reflexivity.
Qed.

Lemma sum_u32 (X : Z -> Z) ts :
  u32 (fold_right (fun t a => u32 (X t) + a) 0 ts)
  = u32 (fold_right (fun t a => X t + a) 0 ts).
Proof.
  induction ts as [|t ts IH]; [reflexivity|]. cbn [fold_right].
  rewrite u32_add_l, <- u32_add_r, IH, u32_add_r. reflexivity.
Qed.

Lemma sum_ext (X Y : Z -> Z) ts :
  (forall t, X t = Y t) ->
  fold_right (fun t a => X t + a) 0 ts = fold_right (fun t a => Y t + a) 0 ts.
Proof.
  intros H. induction ts as [|t ts IH]; [reflexivity|].
  cbn [fold_right]. rewrite H, IH. reflexivity.
Qed.

(** The reduction over the warp gives the sum over all pages, modulo
    2^32. *)
Lemma warp_sum_total g (v : Z -> Z) pgs :
  (forall t, v t = u32 (total g (lane_pages pgs t))) ->
  warp_reduce_sum v = u32 (total g pgs).
Proof.
  intros Hv. unfold warp_reduce_sum. change 0 with (u32 0) at 1.
  rewrite fold_u32_total, Z.add_0_l.
  rewrite (sum_ext v (fun t => u32 (total g (lane_pages pgs t))) _ Hv).
  rewrite sum_u32, <- total_flat_map, lanes_total. reflexivity.
Qed.

Lemma count_bounds f l :
  0 <= total (count_of f) l <= Z.of_nat (length l).
Proof.
  unfold total, count_of.
  induction l as [|p l IH]; cbn [fold_right length]; [lia|].
  destruct (f p); lia.
Qed.

Lemma count_pos f l :
  0 < total (count_of f) l <-> exists p, In p l /\ f p = true.
Proof.
  unfold total, count_of. induction l as [|p l IH]; cbn [fold_right].
  - split; [lia|intros (p & [] & _)].
  - pose proof (count_bounds f l) as Hb. unfold total, count_of in Hb.
    split.
    + intros H. destruct (f p) eqn:Ef.
      * exists p. split; [left; reflexivity|exact Ef].
      * destruct (proj1 IH ltac:(lia)) as (q & Hq & Hfq).
        exists q. split; [right; exact Hq|exact Hfq].
    + intros (q & [<-|Hq] & Hfq).
      * rewrite Hfq. lia.
      * assert (0 < fold_right (fun p a => (if f p then 1 else 0) + a) 0 l)
          by (apply IH; exists q; split; assumption).
        destruct (f p); lia.
Qed.

Lemma has_compression_iff pgs :
  has_compression pgs = true <-> exists p, In p pgs /\ attempted p = true.
Proof.
  rewrite <- count_pos, <- lanes_total, count_pos.
  unfold has_compression. rewrite existsb_exists. reflexivity.
Qed.

Lemma fold_errors l : forall e,
  fold_left (fun e p => match comp_stat p with
                        | Some st => if negb (status st =? 0) then u32 (e + 1)
                                     else e
                        | None => e
                        end) l (u32 e)
  = u32 (e + total (count_of failed) l).
Proof.
  induction l as [|p l IH]; intros e; cbn [fold_left total fold_right].
  - rewrite Z.add_0_r. reflexivity.
  - fold (total (count_of failed) l). unfold count_of at 1, failed at 1.
    destruct (comp_stat p) as [st|]; [destruct (negb (status st =? 0))|].
    + rewrite u32_add_l, IH. f_equal; lia.
    + rewrite IH. f_equal; lia.
    + rewrite IH. f_equal; lia.
Qed.

Lemma error_count_zero pgs :
  Z.of_nat (length pgs) < 2 ^ 32 ->
  (error_count pgs = 0 <-> forall p, In p pgs -> failed p = false).
Proof.
  intros Hn. unfold error_count.
  pose proof (fold_errors (flat_map (lane_pages pgs) warp_lanes) 0) as Hfold.
  change (u32 0) with 0 in Hfold. rewrite Hfold, Z.add_0_l, lanes_total.
  pose proof (count_bounds failed pgs) as Hb.
  rewrite u32_small by lia. split.
  - intros H0 p Hp. destruct (failed p) eqn:Ef; [|reflexivity].
    assert (0 < total (count_of failed) pgs)
      by (apply count_pos; exists p; split; assumption).
    lia.
  - intros Hall. destruct (Z.eq_dec (total (count_of failed) pgs) 0) as [|Hne];
      [assumption|].
    destruct (proj1 (count_pos failed pgs) ltac:(lia)) as (p & Hp & Hf).
    rewrite (Hall p Hp) in Hf. discriminate.
Qed.

Lemma total_nonneg g l :
  Forall (fun p => 0 <= g p) l -> 0 <= total g l.
Proof. unfold total. induction 1; cbn [fold_right]; lia. Qed.

(** C6: the chunk is marked compressed exactly when compression was
    attempted for one of its pages, no page reported a nonzero status, and
    the compressed bytes of its pages add up to strictly less than the
    uncompressed bytes; hence one failed page makes the whole chunk
    uncompressed.  The decision for a chunk reads that chunk only. *)
Theorem decide_compression (ck : EncColumnChunk) :
  Z.of_nat (length (pages ck)) < 2 ^ 32 ->
  Forall (fun p => 0 <= max_data_size p /\ 0 <= compressed_bytes p)
         (pages ck) ->
  total max_data_size (pages ck) < 2 ^ 32 ->
  total compressed_bytes (pages ck) < 2 ^ 32 ->
  (is_compressed (decide ck) = true <->
     (exists p, In p (pages ck) /\ comp_stat p <> None)
     /\ (forall p st, In p (pages ck) -> comp_stat p = Some st ->
                      status st = 0)
     /\ total compressed_bytes (pages ck) < total max_data_size (pages ck))
  /\ (forall p st, In p (pages ck) -> comp_stat p = Some st ->
                   status st <> 0 -> is_compressed (decide ck) = false)
  /\ (forall chunks i,
        nth_error (gpuDecideCompression chunks) i
        = option_map decide (nth_error chunks i)).
Proof.
  intros Hn Hpos Hu Hc.
  assert (Hu0 : 0 <= total max_data_size (pages ck)).
  { apply total_nonneg. eapply Forall_impl; [|exact Hpos]. intros p [H _]. exact H. }
  assert (Hc0 : 0 <= total compressed_bytes (pages ck)).
  { apply total_nonneg. eapply Forall_impl; [|exact Hpos].
    intros p [_ H]. exact H. }
  assert (Eu : warp_reduce_sum (lane_uncompressed (pages ck))
               = total max_data_size (pages ck)).
  { rewrite (warp_sum_total max_data_size _ (pages ck))
      by (intros t; apply lane_uncompressed_total).
    apply u32_small. lia. }
  assert (Ec : warp_reduce_sum (lane_compressed (pages ck))
               = total compressed_bytes (pages ck)).
  { rewrite (warp_sum_total compressed_bytes _ (pages ck))
      by (intros t; apply lane_compressed_total).
    apply u32_small. lia. }
  assert (Hiff : is_compressed (decide ck) = true <->
     (exists p, In p (pages ck) /\ comp_stat p <> None)
     /\ (forall p st, In p (pages ck) -> comp_stat p = Some st ->
                      status st = 0)
     /\ total compressed_bytes (pages ck) < total max_data_size (pages ck)).
  { unfold decide. cbn [is_compressed]. rewrite Eu, Ec.
    pose proof (has_compression_iff (pages ck)) as Hh.
    pose proof (error_count_zero (pages ck) Hn) as He.
    split.
    - intros H. destruct (has_compression (pages ck)); [|discriminate].
      apply andb_true_iff in H as [H1 H2].
      apply Z.eqb_eq in H1. apply Z.ltb_lt in H2.
      destruct (proj1 Hh eq_refl) as (p & Hp & Ha).
      split; [|split; [|exact H2]].
      + exists p. split; [exact Hp|]. unfold attempted in Ha.
        destruct (comp_stat p); [discriminate|discriminate].
      + intros q st Hq Hst. pose proof (proj1 He H1 q Hq) as Hf.
        unfold failed in Hf. rewrite Hst in Hf.
        apply negb_false_iff in Hf. apply Z.eqb_eq in Hf. exact Hf.
    - intros ((p & Hp & Ha) & Hall & Hlt).
      assert (Hhc : has_compression (pages ck) = true).
      { apply Hh. exists p. split; [exact Hp|]. unfold attempted.
        destruct (comp_stat p); [reflexivity|congruence]. }
      rewrite Hhc. apply andb_true_iff. split.
      + apply Z.eqb_eq. apply He. intros q Hq. unfold failed.
        destruct (comp_stat q) as [st|] eqn:Hst; [|reflexivity].
        rewrite (Hall q st Hq Hst). reflexivity.
      + apply Z.ltb_lt. exact Hlt. }
  split; [exact Hiff|]. split.
  - intros p st Hp Hst Hne.
    destruct (is_compressed (decide ck)) eqn:E; [|reflexivity].
    destruct (proj1 Hiff eq_refl) as (_ & Hall & _).
    specialize (Hall p st Hp Hst). contradiction.
  - intros chunks i. unfold gpuDecideCompression. apply nth_error_map.
Qed.

Lemma decide_compression_witness :
  is_compressed (decide ex_chunk) = true
  /\ is_compressed (decide ex_failed_chunk) = false.
Proof.
  split.
  - apply (decide_compression ex_chunk).
    + vm_compute. reflexivity.
    + repeat constructor; vm_compute; discriminate.
    + vm_compute. reflexivity.
    + vm_compute. reflexivity.
    + split; [|split].
      * eexists. split; [left; reflexivity|]. discriminate.
      * intros p st [<-|[<-|[]]] Hst; injection Hst as <-; reflexivity.
      * vm_compute. reflexivity.
  - apply (decide_compression ex_failed_chunk)
      with (p := {| max_data_size := 1000;
                    comp_stat := Some {| bytes_written := 10; status := 1 |} |})
           (st := {| bytes_written := 10; status := 1 |}).
    + vm_compute. reflexivity.
    + repeat constructor; vm_compute; discriminate.
    + vm_compute. reflexivity.
    + vm_compute. reflexivity.
    + right. left. reflexivity.
    + reflexivity.
    + discriminate.
Defined.

End CompressionFacts.

(** ** [gpuGatherPages]: the final chunk buffer *)

Module GatherFacts.
Import Rle RleMem Gather.

Section Facts.

Variable ck_g : EncColumnChunk.

Local Abbreviation page_bytes := (page_bytes ck_g).
Local Abbreviation sources_ok := (sources_ok ck_g).
Local Abbreviation gather_loop := (gather_loop ck_g).
Local Abbreviation page_src := (page_src ck_g).

Lemma memcpy_block_in m dst src len x :
  dst <= x < dst + len -> memcpy_block m dst src len x = m (src + (x - dst)).
Proof.
  intros H. unfold memcpy_block.
  destruct (Z.leb_spec dst x); [|lia].
  destruct (Z.ltb_spec x (dst + len)); [reflexivity|lia].
Qed.

Lemma memcpy_block_out m dst src len x :
  x < dst \/ dst + len <= x -> memcpy_block m dst src len x = m x.
Proof.
  intros H. unfold memcpy_block.
  destruct (Z.leb_spec dst x); [|reflexivity].
  destruct (Z.ltb_spec x (dst + len)); [lia|reflexivity].
Qed.

Lemma load_bytes_shift m m' a b n :
  (forall i, 0 <= i < Z.of_nat n -> m (a + i) = m' (b + i)) ->
  load_bytes m a n = load_bytes m' b n.
Proof.
  intros H. unfold load_bytes. apply map_ext_in. intros k Hk.
  apply in_seq in Hk. apply H. lia.
Qed.

Lemma pages_len_nonneg lo pgs : sources_ok lo pgs -> 0 <= pages_len pgs.
Proof.
  revert lo. induction pgs as [|p pgs IH]; intros lo H; cbn [pages_len fold_right].
  - lia.
  - destruct H as (_ & Hh & Hd & Hr). specialize (IH _ Hr).
    change (0 <= page_len p + pages_len pgs). unfold page_len. lia.
Qed.

(** Pages whose sources lie after the bytes that changed read the same. *)
Lemma page_bytes_ext m m' lo pgs :
  sources_ok lo pgs -> (forall x, lo <= x -> m' x = m x) ->
  map (page_bytes m') pgs = map (page_bytes m) pgs.
Proof.
  revert lo. induction pgs as [|p pgs IH]; intros lo H Hm; [reflexivity|].
  destruct H as (Hlo & Hh & Hd & Hr). cbn [map]. f_equal.
  - unfold Gather.page_bytes. f_equal; apply load_bytes_ext; intros x Hx;
      apply Hm; lia.
  - apply (IH _ Hr). intros x Hx. apply Hm. lia.
Qed.

(** The loop writes the pages one after the other from [g_dst], and
    nothing else. *)
Lemma gather_loop_spec pgs : forall page s lo,
  g_dst s <= lo -> sources_ok lo pgs ->
  let r := gather_loop page pgs s in
  g_dst r = g_dst s + pages_len pgs
  /\ load_bytes (g_mem r) (g_dst s) (Z.to_nat (pages_len pgs))
     = concat (map (page_bytes (g_mem s)) pgs)
  /\ (forall x, x < g_dst s \/ g_dst s + pages_len pgs <= x ->
                g_mem r x = g_mem s x).
Proof.
  induction pgs as [|p pgs IH]; intros page s lo Hdst Hok;
    cbn [Gather.gather_loop pages_len fold_right map concat].
  - cbn zeta. split; [lia|]. split; [reflexivity|]. intros; reflexivity.
  - destruct Hok as (Hlo & Hh & Hd & Hr).
    pose proof (pages_len_nonneg _ _ Hr) as Hnn.
    assert (Hpl : 0 <= page_len p) by (unfold page_len; lia).
    fold (pages_len pgs).
    set (s1 := gather_page ck_g page p s).
    assert (Hd1 : g_dst s1 = g_dst s + page_len p)
      by (unfold s1, gather_page, page_len; cbn [g_dst]; lia).
    assert (Hin1 : forall x, g_dst s <= x < g_dst s + hdr_size p ->
              g_mem s1 x = g_mem s (page_src p + (x - g_dst s))).
    { intros x Hx. unfold s1, gather_page. cbn [g_mem].
      rewrite memcpy_block_out by lia. apply memcpy_block_in. lia. }
    assert (Hin2 : forall x,
              g_dst s + hdr_size p <= x < g_dst s + page_len p ->
              g_mem s1 x
              = g_mem s (page_src p + max_hdr_size p
                         + (x - (g_dst s + hdr_size p)))).
    { intros x Hx. unfold page_len in Hx. unfold s1, gather_page. cbn [g_mem].
      rewrite memcpy_block_in by lia. apply memcpy_block_out. lia. }
    assert (Hout : forall x, x < g_dst s \/ g_dst s + page_len p <= x ->
              g_mem s1 x = g_mem s x).
    { intros x Hx. unfold page_len in Hx. unfold s1, gather_page. cbn [g_mem].
      rewrite !memcpy_block_out by lia. reflexivity. }
    destruct (IH (page + 1) s1
                 (page_src p + max_hdr_size p + max_data_size p))
      as (R1 & R2 & R3); [unfold page_len in Hd1; lia|exact Hr|].
    cbv zeta. split; [lia|]. split.
    + replace (Z.to_nat (page_len p + pages_len pgs))
        with (Z.to_nat (hdr_size p) + (Z.to_nat (max_data_size p)
              + Z.to_nat (pages_len pgs)))%nat
        by (unfold page_len; lia).
      rewrite !load_bytes_app. unfold Gather.page_bytes at 1.
      rewrite <- app_assoc. f_equal; [|f_equal].
      * apply load_bytes_shift. intros i Hi.
        rewrite R3 by (unfold page_len in *; lia).
        rewrite Hin1 by lia. f_equal. lia.
      * apply load_bytes_shift. intros i Hi.
        rewrite R3 by (unfold page_len in *; lia).
        rewrite Hin2 by (unfold page_len; lia). f_equal. lia.
      * replace (g_dst s + Z.of_nat (Z.to_nat (hdr_size p))
                 + Z.of_nat (Z.to_nat (max_data_size p)))
          with (g_dst s1) by (unfold page_len in Hd1; lia).
        rewrite R2.
        f_equal. apply (page_bytes_ext _ _ _ _ Hr).
        intros x Hx. apply Hout. unfold page_len. lia.
    + intros x Hx. rewrite R3 by lia. apply Hout. lia.
Qed.

End Facts.

End GatherFacts.

(** ** The page encoder against the layout *)

Module EncodeClaims.
Import Rle Planner PlannerFacts EncodeExamples.

(** C5 does not hold in the code.  For the dictionary-encoded chunk
    [dict_chunk] the layout reserves 23 bytes for the data of the last page
    (17 values at 8 bits: 1 + 5 + 17), and the encoder writes 26 bytes: the
    byte of the bit width, the header of one literal run and three groups of
    eight values, the last group being filled with seven zeros. *)
Theorem data_budget_exceeded :
  Planner.page_type dict_last_page = Planner.DATA_PAGE
  /\ pg_num_values dict_last_page = 17
  /\ max_data_size dict_last_page = 23
  /\ dict_last_page_size = Some 26
  /\ ~ (forall actual, dict_last_page_size = Some actual ->
                       actual <= max_data_size dict_last_page).
Proof.
  assert (E : dict_last_page_size = Some 26) by (vm_compute; reflexivity).
  assert (R : max_data_size dict_last_page = 23) by (vm_compute; reflexivity).
  split; [vm_compute; reflexivity|].
  split; [vm_compute; reflexivity|].
  split; [exact R|]. split; [exact E|].
  intros H. specialize (H 26 E). rewrite R in H. lia.
Qed.

(** C4, as stated, fails: the data page of [null_chunk] holds two fragments
    and its encoded data (7 bytes of definition levels and 64 bytes of
    values) is larger than the limit of 64 bytes. *)
Lemma page_bytes_exceed_limit :
  Planner.page_type null_page = Planner.DATA_PAGE
  /\ num_fragments null_page = 2
  /\ max_page_size_bytes null_params = 64
  /\ null_page_size = Some 71
  /\ ~ (forall size, null_page_size = Some size ->
          size <= max_page_size_bytes null_params
          \/ num_fragments null_page <= 1).
Proof.
  assert (E : null_page_size = Some 71) by (vm_compute; reflexivity).
  assert (F : num_fragments null_page = 2) by (vm_compute; reflexivity).
  split; [vm_compute; reflexivity|].
  split; [exact F|]. split; [reflexivity|]. split; [exact E|].
  intros H. destruct (H 71 E) as [H1|H1].
  - change (max_page_size_bytes null_params) with 64 in H1. lia.
  - rewrite F in H1. lia.
Qed.

(** C4, amended: for a well-formed chunk the layout is returned, its data
    pages are made of consecutive runs of the fragments of the chunk, their
    rows add up to the rows of the chunk, and for each data page the sizes
    of its fragments as the planner counts them (the size of the fragment
    data, or two bytes per leaf value with a dictionary; levels and header
    not counted) add up to at most [max_page_size_bytes] unless the page
    holds a single fragment. *)
Theorem pages_partition_rows (col_g : column_desc) (ck_g : EncColumnChunk)
    (P : params) :
  chunk_ok ck_g P ->
  exists L groups,
    gpuInitPages col_g ck_g P = Some L
    /\ concat groups = fragments ck_g
    /\ Forall2 (covers ck_g P) (data_pages (out_pages L)) groups
    /\ fold_right (fun p a => pg_num_rows p + a) 0 (data_pages (out_pages L))
       = ck_num_rows ck_g.
Proof.
  intros OK.
  destruct (gpuInitPages_layout col_g ck_g P OK)
    as (L & groups & H1 & H2 & H3 & _ & H5).
  exists L, groups. repeat split; assumption.
Qed.

Lemma pages_partition_rows_witness :
  chunk_ok null_chunk null_params
  /\ exists L groups,
       gpuInitPages null_col null_chunk null_params = Some L
       /\ concat groups = fragments null_chunk
       /\ Forall2 (covers null_chunk null_params)
                  (data_pages (out_pages L)) groups
       /\ fold_right (fun p a => pg_num_rows p + a) 0
                     (data_pages (out_pages L))
          = ck_num_rows null_chunk.
Proof.
  assert (OK : chunk_ok null_chunk null_params).
  { constructor.
    - repeat constructor; vm_compute; (reflexivity || discriminate).
    - reflexivity.
    - vm_compute. reflexivity.
    - vm_compute. reflexivity.
    - vm_compute. reflexivity.
    - vm_compute. discriminate.
    - exact I. }
  split; [exact OK|].
  exact (pages_partition_rows null_col null_chunk null_params OK).
Defined.

End EncodeClaims.

(** ** INT96 timestamps *)

Module Int96Claims.
Import Rle RleMem Encode Int96Spec.

Lemma s64_range x : - 2 ^ 63 <= s64 x < 2 ^ 63.
Proof.
  unfold s64. pose proof (Z.mod_pos_bound (x + 2 ^ 63) (2 ^ 64)). lia.
Qed.

Lemma int96_timestamp_range id v :
  - 2 ^ 63 <= int96_timestamp_ns id v < 2 ^ 63.
Proof. destruct id; cbn [int96_timestamp_ns]; try apply s64_range; lia. Qed.

(** The epoch difference comes out of the calendar arithmetic. *)
Lemma julian_epoch :
  days_from_civil 1970 1 1 = 0
  /\ days_from_civil (-4713) 11 24 = -2440588
  /\ julian_calendar_epoch_diff = 2440588 * 24 - 12
  /\ ceil_days julian_calendar_epoch_diff = 2440588.
Proof. repeat split; vm_compute; reflexivity. Qed.

Lemma le_split_8 v :
  le_split 8 v
  = [byte.of_Z v; byte.of_Z (Z.shiftr v 8); byte.of_Z (Z.shiftr v 16);
     byte.of_Z (Z.shiftr v 24); byte.of_Z (Z.shiftr v 32);
     byte.of_Z (Z.shiftr v 40); byte.of_Z (Z.shiftr v 48);
     byte.of_Z (Z.shiftr v 56)].
Proof.
  cbv [le_split]. rewrite !Z.shiftr_shiftr by lia. reflexivity.
Qed.

Lemma le_split_4 v :
  le_split 4 v
  = [byte.of_Z v; byte.of_Z (Z.shiftr v 8); byte.of_Z (Z.shiftr v 16);
     byte.of_Z (Z.shiftr v 24)].
Proof.
  cbv [le_split]. rewrite !Z.shiftr_shiftr by lia. reflexivity.
Qed.

(** The twelve bytes written for a valid INT96 value at [dst + pos], from
    the nanoseconds [ns] that the code hands to [convert_nanoseconds]. *)
Lemma int96_stores_bytes (id : type_id) (ts_scale : Z) (e : element)
    (m : mem) (dst pos len : Z) :
  let ns := int96_timestamp_ns id (scale_timestamp ts_scale (el_int e)) in
  let m' := apply_stores m
              (map (fun ov => (dst + (pos + fst ov), snd ov))
                   (plain_stores INT96 id ts_scale len e)) in
  load_bytes m' (dst + pos) 12
  = le_split 8 (ns mod ns_per_day)
    ++ le_split 4 (floor_days ns + ceil_days julian_calendar_epoch_diff).
Proof.
  intros ns m'.
  pose proof (int96_timestamp_range id (scale_timestamp ts_scale (el_int e)))
    as Hr. fold ns in Hr.
  destruct julian_epoch as (_ & _ & Hdiff & Hceil).
  assert (Hday : 0 < ns_per_day) by (vm_compute; reflexivity).
  assert (Hj : u32 (floor_days ns + ceil_days julian_calendar_epoch_diff)
               = floor_days ns + ceil_days julian_calendar_epoch_diff).
  { apply u32_small. rewrite Hceil. unfold floor_days.
    assert (- 106752 <= ns / ns_per_day < 106752).
    { unfold ns_per_day in *. change (2 ^ 63) with 9223372036854775808 in Hr.
      split; [apply Z.div_le_lower_bound|apply Z.div_lt_upper_bound]; lia. }
    change (2 ^ 32) with 4294967296. lia. }
  assert (Hlast : ns - floor_days ns * ns_per_day = ns mod ns_per_day).
  { unfold floor_days. rewrite Z.mod_eq by lia. lia. }
  unfold m'. cbn [plain_stores]. unfold int96_stores, convert_nanoseconds.
  cbn [fst snd]. fold ns. rewrite Hj, Hlast.
  rewrite le_split_8, le_split_4.
  cbn [map fst snd]. unfold apply_stores. cbn [fold_left fst snd].
  unfold load_bytes. cbn [seq map app]. unfold store.
  repeat match goal with
         | |- context [?a =? ?b] =>
             destruct (Z.eqb_spec a b); [try lia|try lia]
         end.
  reflexivity.
Qed.

(** The nanoseconds that the code computes are those of the amended
    description, as long as nothing leaves the 64 bits. *)
Lemma int96_written_ns_eq (id : type_id) (ts_scale v : Z) :
  - 2 ^ 63 <= v < 2 ^ 63 ->
  (0 < ts_scale -> - 2 ^ 63 <= v * ts_scale < 2 ^ 63) ->
  - 2 ^ 63 <= int96_written_ns id ts_scale v < 2 ^ 63 ->
  int96_timestamp_ns id (scale_timestamp ts_scale v)
  = int96_written_ns id ts_scale v.
Proof.
  intros Hv Hs Ht.
  assert (S64 : forall x, - 2 ^ 63 <= x < 2 ^ 63 -> s64 x = x).
  { intros x Hx. unfold s64. rewrite Z.mod_small by lia. lia. }
  assert (Hsc : scale_timestamp ts_scale v
                = (if ts_scale =? 0 then v
                   else if ts_scale <? 0 then Z.quot v (- ts_scale)
                   else v * ts_scale)).
  { unfold scale_timestamp. destruct (Z.eqb_spec ts_scale 0); cbn [negb];
      [reflexivity|].
    destruct (Z.ltb_spec ts_scale 0); [reflexivity|].
    apply S64. apply Hs. lia. }
  rewrite Hsc. unfold int96_written_ns in *. cbv zeta in *.
  destruct id; cbn [int96_timestamp_ns]; try reflexivity; apply S64; exact Ht.
Qed.

(** C8, as stated, fails: a column of nanoseconds is written with
    [ts_scale = -1000], and the value -1 (the last nanosecond of
    1969-12-31, Julian day 2440587) is written as midnight of Julian day
    2440588; the value 1500 is written as 1000 nanoseconds.  With
    [ts_scale = 0] the value 1 is written as 1000 nanoseconds. *)
Lemma int96_pair_as_stated_fails :
  timestamp_value_ns TIMESTAMP_NANOSECONDS (-1) = -1
  /\ int96_of_instant (-1)
     = le_split 8 86399999999999 ++ le_split 4 2440587
  /\ int96_written TIMESTAMP_NANOSECONDS (-1000) (-1)
     = le_split 8 0 ++ le_split 4 2440588
  /\ int96_written TIMESTAMP_NANOSECONDS (-1000) (-1)
     <> int96_of_instant (timestamp_value_ns TIMESTAMP_NANOSECONDS (-1))
  /\ int96_written TIMESTAMP_NANOSECONDS (-1000) 1500
     = int96_of_instant 1000
  /\ int96_written TIMESTAMP_NANOSECONDS (-1000) 1500
     <> int96_of_instant (timestamp_value_ns TIMESTAMP_NANOSECONDS 1500)
  /\ int96_written TIMESTAMP_NANOSECONDS 0 1
     <> int96_of_instant (timestamp_value_ns TIMESTAMP_NANOSECONDS 1).
Proof.
  split; [reflexivity|].
  split; [vm_compute; reflexivity|].
  split; [vm_compute; reflexivity|].
  split; [vm_compute; intros H; discriminate H|].
  split; [vm_compute; reflexivity|].
  split; [vm_compute; intros H; discriminate H|].
  vm_compute. intros H. discriminate H.
Qed.

(** C8, amended: the twelve bytes written for a valid INT96 value are the
    nanoseconds since midnight, as a little-endian 64-bit integer, and the
    Julian day, as a little-endian 32-bit integer, of the instant obtained
    from the column value by applying [ts_scale] (a multiplication when it
    is positive, a division towards zero when it is negative) and reading
    the result as milliseconds for a column of seconds or milliseconds and
    as microseconds for a column of microseconds or nanoseconds.  This is
    the instant of the column value for milliseconds and microseconds
    without scaling and for seconds with the scale 1000; for nanoseconds
    with the scale -1000 it is the value cut towards zero to a whole
    microsecond.  The value and the scale are a 64-bit and a 32-bit
    integer, and neither the scaling nor the conversion to nanoseconds
    leaves the 64 bits.  The Julian day is the number of days since 1970-01-01,
    rounded down, plus 2440588, which is the difference between the two
    epochs that [julian_calendar_epoch_diff] computes from the civil dates
    1970-01-01 and -4713-11-24 12:00, rounded up to whole days. *)
Theorem int96_pair (id : type_id) (ts_scale : Z) (e : element) (m : mem)
    (dst pos len : Z) :
  let v := el_int e in
  let t := int96_written_ns id ts_scale v in
  - 2 ^ 63 <= v < 2 ^ 63 ->
  - 2 ^ 31 < ts_scale < 2 ^ 31 ->
  (0 < ts_scale -> - 2 ^ 63 <= v * ts_scale < 2 ^ 63) ->
  - 2 ^ 63 <= t < 2 ^ 63 ->
  let m' := apply_stores m
              (map (fun ov => (dst + (pos + fst ov), snd ov))
                   (plain_stores INT96 id ts_scale len e)) in
  load_bytes m' (dst + pos) 12 = int96_of_instant t
  /\ le_combine (firstn 8 (load_bytes m' (dst + pos) 12))
     = t mod 86400000000000
  /\ le_combine (skipn 8 (load_bytes m' (dst + pos) 12))
     = t / 86400000000000 + 2440588
  /\ 0 <= t mod 86400000000000 < 86400000000000
  /\ (ts_scale = 0 ->
      id = TIMESTAMP_MILLISECONDS \/ id = TIMESTAMP_MICROSECONDS ->
      t = timestamp_value_ns id v)
  /\ (ts_scale = 1000 -> id = TIMESTAMP_SECONDS ->
      t = timestamp_value_ns id v)
  /\ (ts_scale = -1000 -> id = TIMESTAMP_NANOSECONDS ->
      t = timestamp_value_ns id v - Z.rem v 1000)
  /\ julian_calendar_epoch_diff
     = days_from_civil 1970 1 1 * 24
       - (days_from_civil (-4713) 11 24 * 24 + 12)
  /\ ceil_days julian_calendar_epoch_diff = 2440588.
Proof.
  intros v t Hv _ Hs Ht m'.
  destruct julian_epoch as (_ & _ & Hdiff & Hceil).
  pose proof (int96_stores_bytes id ts_scale e m dst pos len) as Hb.
  cbv zeta in Hb. fold m' v in Hb.
  rewrite (int96_written_ns_eq id ts_scale v Hv Hs Ht) in Hb. fold t in Hb.
  assert (Hbytes : load_bytes m' (dst + pos) 12 = int96_of_instant t).
  { rewrite Hb, Hceil. reflexivity. }
  assert (Hmod : 0 <= t mod 86400000000000 < 86400000000000)
    by (apply Z.mod_pos_bound; lia).
  assert (Hdiv : - 106752 <= t / 86400000000000 < 106752).
  { change (2 ^ 63) with 9223372036854775808 in Ht.
    split; [apply Z.div_le_lower_bound|apply Z.div_lt_upper_bound]; lia. }
  split; [exact Hbytes|].
  split; [|split; [|split; [exact Hmod|]]].
  - rewrite Hbytes. unfold int96_of_instant.
    rewrite firstn_app, length_le_split, Nat.sub_diag, firstn_all2
      by (rewrite length_le_split; lia).
    cbn [firstn]. rewrite app_nil_r, le_combine_split.
    apply Z.mod_small. change (2 ^ (8 * Z.of_nat 8)) with 18446744073709551616.
    lia.
  - rewrite Hbytes. unfold int96_of_instant.
    rewrite skipn_app, length_le_split, Nat.sub_diag, skipn_all2
      by (rewrite length_le_split; lia).
    cbn [skipn app]. rewrite le_combine_split.
    apply Z.mod_small. change (2 ^ (8 * Z.of_nat 4)) with 4294967296. lia.
  - split; [|split; [|split; [|split; [reflexivity|exact Hceil]]]].
    + intros -> [-> | ->]; unfold t, int96_written_ns, timestamp_value_ns;
        cbn [Z.eqb]; reflexivity.
    + intros -> ->. unfold t, int96_written_ns, timestamp_value_ns.
      cbn [Z.eqb Z.ltb Z.compare]. lia.
    + intros -> ->. unfold t, int96_written_ns, timestamp_value_ns.
      cbn [Z.eqb Z.ltb Z.compare Z.opp].
      pose proof (Z.quot_rem' v 1000). lia.
Qed.

Lemma int96_pair_witness :
  (- 2 ^ 63 <= -1 < 2 ^ 63)
  /\ load_bytes
       (apply_stores (fun _ => Byte.xff)
          (map (fun ov => (100 + (4 + fst ov), snd ov))
               (plain_stores INT96 TIMESTAMP_MILLISECONDS 0 12 (EInt (-1)))))
       (100 + 4) 12
     = int96_of_instant (-1000000)
  /\ int96_of_instant (-1000000)
     = le_split 8 86399999000000 ++ le_split 4 2440587.
Proof.
  assert (H1 : - 2 ^ 63 <= -1 < 2 ^ 63) by lia.
  split; [exact H1|]. split; [|vm_compute; reflexivity].
  refine (proj1 (int96_pair TIMESTAMP_MILLISECONDS 0 (EInt (-1))
                   (fun _ => Byte.xff) 100 4 12 H1 _ _ _)).
  - lia.
  - intros H. lia.
  - vm_compute. split; [intros H; discriminate H|reflexivity].
Defined.

End Int96Claims.

(** ** [EncodeStatistics]: the bytes and the fields *)

Module StatsFacts.
Import Rle RleFormat RleFormatFacts RleMem Stats.

Lemma cpw_put_loop_spec fuel : forall m p v,
  let r := cpw_put_loop fuel m p v in
  snd r = p + Z.of_nat (length (vlq_bytes fuel v))
  /\ load_bytes (fst r) p (length (vlq_bytes fuel v)) = vlq_bytes fuel v
  /\ forall x, x < p \/ snd r <= x -> fst r x = m x.
Proof.
  assert (E : forall fuel m p v,
             cpw_put_loop fuel m p v = VlqEncode_loop fuel m p v).
  { induction fuel0 as [|f IH]; intros m p v; cbn [cpw_put_loop VlqEncode_loop];
      [reflexivity|]. destruct (v >? 127); [apply IH|reflexivity]. }
  intros m p v. rewrite E. apply VlqEncode_loop_spec.
Qed.

Lemma written_nil m start : written m start start [].
Proof. split; [cbn [length]; lia|reflexivity]. Qed.

Lemma written_app m m' start p p' bs bs' :
  written m start p bs ->
  p' = p + Z.of_nat (length bs') ->
  load_bytes m' p (length bs') = bs' ->
  (forall x, x < p -> m' x = m x) ->
  written m' start p' (bs ++ bs').
Proof.
  intros [Hp Hb] Hp' Hb' Hfr. split.
  - rewrite length_app. lia.
  - rewrite length_app, load_bytes_app. f_equal.
    + rewrite <- Hb at 2. apply load_bytes_ext. intros x Hx. apply Hfr. lia.
    + rewrite <- Hp. exact Hb'.
Qed.

Lemma written_store m start p bs v :
  written m start p bs ->
  written (store m p v) start (p + 1) (bs ++ [byte.of_Z v]).
Proof.
  intros H. apply (written_app m _ start p _ bs _ H).
  - cbn [length]. lia.
  - unfold load_bytes. cbn [length seq map]. rewrite Z.add_0_r, store_same.
    reflexivity.
  - intros x Hx. apply store_other. lia.
Qed.

Lemma written_vlq fuel m start p bs v :
  written m start p bs ->
  written (fst (cpw_put_loop fuel m p v)) start
          (snd (cpw_put_loop fuel m p v)) (bs ++ vlq_bytes fuel v).
Proof.
  intros H. destruct (cpw_put_loop_spec fuel m p v) as (S1 & S2 & S3).
  apply (written_app m _ start p _ bs _ H); [exact S1|exact S2|].
  intros x Hx. apply S3. left. exact Hx.
Qed.

Lemma write_bytes_spec l : forall m p,
  load_bytes (write_bytes m p l) p (length l) = l
  /\ forall x, x < p \/ p + Z.of_nat (length l) <= x ->
               write_bytes m p l x = m x.
Proof.
  induction l as [|b l IH]; intros m p; cbn [write_bytes length].
  - split; [reflexivity|]. intros; reflexivity.
  - destruct (IH (store m p (byte.unsigned b)) (p + 1)) as [I1 I2]. split.
    + change (S (length l)) with (1 + length l)%nat.
      rewrite load_bytes_app. change (b :: l) with ([b] ++ l).
      f_equal; [|exact I1].
      unfold load_bytes. cbn [seq map]. rewrite Z.add_0_r, I2 by lia.
      rewrite store_same, byte.of_Z_unsigned. reflexivity.
    + intros x Hx. rewrite I2 by lia. apply store_other. lia.
Qed.

Lemma written_bytes m start p bs l :
  written m start p bs ->
  written (write_bytes m p l) start (p + Z.of_nat (length l)) (bs ++ l).
Proof.
  intros H. destruct (write_bytes_spec l m p) as [W1 W2].
  apply (written_app m _ start p _ bs _ H); [reflexivity|exact W1|].
  intros x Hx. apply W2. left. exact Hx.
Qed.

Lemma unzigzag_zigzag n : 0 <= n < 2 ^ 63 -> unzigzag (u64 (zigzag n)) = n.
Proof.
  intros Hn. unfold zigzag. destruct (Z.ltb_spec n 0); [lia|].
  change (- 0) with 0. rewrite Z.lxor_0_r, Z.add_0_r.
  unfold u64. rewrite Z.mod_small by lia.
  unfold unzigzag. rewrite Z.shiftr_div_pow2 by lia. change (2 ^ 1) with 2.
  replace (n * 2 / 2) with n by (Z.div_mod_to_equations; lia).
  change 1 with (Z.ones 1). rewrite Z.land_ones by lia.
  replace (n * 2 mod 2 ^ 1) with 0
    by (change (2 ^ 1) with 2; Z.div_mod_to_equations; lia).
  apply Z.lxor_0_r.
Qed.

Lemma read_struct_step fuel cur b rest :
  read_struct (S fuel) cur (b :: rest)
  = let x := byte.unsigned b in
    if x =? 0 then Some ([], rest)
    else
      let delta := Z.shiftr x 4 in
      let ty := Z.land x 15 in
      if delta =? 0 then None
      else if ty =? 6 then
        match read_vlq 10 0 0 rest with
        | Some (u, rest') =>
            match read_struct fuel (cur + delta) rest' with
            | Some (fs, tl) => Some ((cur + delta, TI64 (unzigzag u)) :: fs, tl)
            | None => None
            end
        | None => None
        end
      else if ty =? 8 then
        match read_vlq 5 0 0 rest with
        | Some (len, rest') =>
            if (length rest' <? Z.to_nat len)%nat then None
            else
              match read_struct fuel (cur + delta)
                                (skipn (Z.to_nat len) rest') with
              | Some (fs, tl) =>
                  Some ((cur + delta, TBinary (firstn (Z.to_nat len) rest'))
                          :: fs, tl)
              | None => None
              end
        | None => None
        end
      else None.
Proof. reflexivity. Qed.

Section Facts.

Variable double_to_float : list byte -> list byte.

(** The bytes of the fields. *)
Lemma field_int64_written e start bs field value :
  written (buffer e) start (current_header_ptr e) bs ->
  current_field_index e < field <= current_field_index e + 15 ->
  let e' := field_int64 field value e in
  written (buffer e') start (current_header_ptr e')
    (bs ++ [byte.of_Z (Z.lor (Z.shiftl (field - current_field_index e) 4)
                             ST_FLD_I64)]
        ++ vlq_bytes 9 (u64 (zigzag value)))
  /\ current_field_index e' = field.
Proof.
  intros H Hf. unfold field_int64, cpw_put_fldh.
  destruct (Z.gtb_spec field (current_field_index e)) as [_|]; [|lia].
  destruct (Z.leb_spec field (current_field_index e + 15)) as [_|]; [|lia].
  cbn [andb]. unfold cpw_put_int64, cpw_put_uint64.
  destruct (cpw_put_loop 9 _ _ _) as [m2 p2] eqn:E. cbn [buffer
    current_header_ptr current_field_index]. split; [|reflexivity].
  rewrite app_assoc.
  pose proof (written_vlq 9 _ start _ _ (u64 (zigzag value))
                (written_store _ start _ bs
                   (Z.lor (Z.shiftl (field - current_field_index e) 4)
                          ST_FLD_I64) H)) as W.
  rewrite E in W. exact W.
Qed.

Lemma field_binary_written e start bs field value len :
  written (buffer e) start (current_header_ptr e) bs ->
  current_field_index e < field <= current_field_index e + 15 ->
  0 <= len -> (Z.to_nat len <= length value)%nat ->
  let e' := field_binary field value len e in
  written (buffer e') start (current_header_ptr e')
    (bs ++ [byte.of_Z (Z.lor (Z.shiftl (field - current_field_index e) 4)
                             ST_FLD_BINARY)]
        ++ vlq_bytes 4 (u32 len) ++ firstn (Z.to_nat len) value)
  /\ current_field_index e' = field.
Proof.
  intros H Hf Hl Hv. unfold field_binary, cpw_put_fldh.
  destruct (Z.gtb_spec field (current_field_index e)) as [_|]; [|lia].
  destruct (Z.leb_spec field (current_field_index e + 15)) as [_|]; [|lia].
  cbn [andb]. unfold cpw_put_uint32.
  destruct (cpw_put_loop 4 _ _ _) as [m2 p2] eqn:E. cbn [buffer
    current_header_ptr current_field_index]. split; [|reflexivity].
  pose proof (written_vlq 4 _ start _ _ (u32 len)
                (written_store _ start _ bs
                   (Z.lor (Z.shiftl (field - current_field_index e) 4)
                          ST_FLD_BINARY) H)) as W.
  rewrite E in W. cbn [fst snd] in W.
  pose proof (written_bytes _ start _ _ (firstn (Z.to_nat len) value) W) as W2.
  rewrite length_firstn, Nat.min_l in W2 by exact Hv.
  rewrite Z2Nat.id in W2 by exact Hl.
  rewrite <- !app_assoc in W2. exact W2.
Qed.

(** The writer and its bytes. *)
Lemma EncodeStatistics_written m start s dtype :
  stats_ok double_to_float s ->
  written (fst (EncodeStatistics double_to_float m start s dtype)) start
          (snd (EncodeStatistics double_to_float m start s dtype))
          (stat_bytes double_to_float s dtype).
Proof.
  intros (Hn & Hmin & Hmax & Hsmin & Hsmax & Hf).
  assert (Hval : forall v, length (raw v) = 16%nat ->
            0 <= snd (value_of double_to_float dtype v)
            /\ (Z.to_nat (snd (value_of double_to_float dtype v))
                <= length (fst (value_of double_to_float dtype v)))%nat).
  { intros v Hr. unfold value_of. destruct (is_string dtype); cbn [fst snd].
    - split; lia.
    - destruct (is_float32 dtype) eqn:Ef; cbn [fst snd].
      + destruct dtype; try discriminate. cbn [dtype_len]. rewrite Hf.
        split; lia.
      + rewrite Hr. destruct dtype; cbn [dtype_len]; split; lia. }
  unfold EncodeStatistics, encoder_end, stat_bytes.
  set (e0 := encoder_start m start).
  destruct (field_int64_written e0 start [] 3 (null_count s)) as [W1 F1].
  { apply written_nil. }
  { cbn [e0 encoder_start current_field_index]. lia. }
  cbn [app e0 encoder_start current_field_index] in W1.
  change (Z.lor (Z.shiftl (3 - 0) 4) ST_FLD_I64) with 0x36 in W1.
  set (e1 := field_int64 3 (null_count s) e0) in *.
  destruct (has_minmax s).
  - destruct (value_of double_to_float dtype (min_value s)) as [vmin lmin] eqn:Emin.
    destruct (value_of double_to_float dtype (max_value s)) as [vmax lmax] eqn:Emax.
    pose proof (Hval _ Hmin) as [Hl1 Hl2]. rewrite Emin in Hl1, Hl2.
    pose proof (Hval _ Hmax) as [Hl3 Hl4]. rewrite Emax in Hl3, Hl4.
    cbn [fst snd] in *.
    destruct (field_binary_written e1 start _ 5 vmax lmax W1) as [W2 F2];
      [lia|exact Hl3|exact Hl4|].
    rewrite F1 in W2. change (Z.lor (Z.shiftl (5 - 3) 4) ST_FLD_BINARY)
      with 0x28 in W2.
    set (e2 := field_binary 5 vmax lmax e1) in *.
    destruct (field_binary_written e2 start _ 6 vmin lmin W2) as [W3 F3];
      [lia|exact Hl1|exact Hl2|].
    rewrite F2 in W3. change (Z.lor (Z.shiftl (6 - 5) 4) ST_FLD_BINARY)
      with 0x18 in W3.
    cbn [fst snd]. rewrite <- !app_assoc in W3. cbn [app] in W3 |- *.
    exact W3.
  - cbn [fst snd]. rewrite app_nil_r. exact W1.
Qed.

(** The reader finds the fields in the bytes. *)
Lemma read_stat_bytes s dtype tl :
  stats_ok double_to_float s ->
  read_struct 4 0 (stat_bytes double_to_float s dtype ++ Byte.x00 :: tl)
  = Some (stat_fields double_to_float s dtype, tl).
Proof.
  intros (Hn & Hmin & Hmax & Hsmin & Hsmax & Hf).
  assert (Hval : forall v, length (raw v) = 16%nat ->
            Z.of_nat (length (str_val v)) < 2 ^ 32 ->
            0 <= snd (value_of double_to_float dtype v) < 2 ^ 32
            /\ (Z.to_nat (snd (value_of double_to_float dtype v))
                <= length (fst (value_of double_to_float dtype v)))%nat).
  { intros v Hr Hs. unfold value_of. destruct (is_string dtype); cbn [fst snd].
    - split; lia.
    - destruct (is_float32 dtype) eqn:Ef; cbn [fst snd].
      + destruct dtype; try discriminate. cbn [dtype_len]. rewrite Hf.
        split; lia.
      + rewrite Hr. destruct dtype; cbn [dtype_len]; split; lia. }
  assert (Hbin : forall fuel delta cur v len rest,
            0 <= len < 2 ^ 32 -> (Z.to_nat len <= length v)%nat ->
            (delta = 1 \/ delta = 2) ->
            read_struct (S fuel) cur
              (byte.of_Z (Z.lor (Z.shiftl delta 4) 8)
               :: vlq_bytes 4 (u32 len) ++ firstn (Z.to_nat len) v ++ rest)
            = match read_struct fuel (cur + delta) rest with
              | Some (fs, tl) =>
                  Some ((cur + delta, TBinary (firstn (Z.to_nat len) v)) :: fs,
                        tl)
              | None => None
              end).
  { intros fuel delta cur v len rest Hlen Hv Hd.
    assert (Hx : byte.unsigned (byte.of_Z (Z.lor (Z.shiftl delta 4) 8))
                 = 16 * delta + 8)
      by (destruct Hd as [-> | ->]; reflexivity).
    rewrite read_struct_step. cbv zeta. rewrite Hx.
    assert (Hd4 : Z.shiftr (16 * delta + 8) 4 = delta)
      by (destruct Hd as [-> | ->]; reflexivity).
    assert (Hty : Z.land (16 * delta + 8) 15 = 8)
      by (destruct Hd as [-> | ->]; reflexivity).
    rewrite Hd4, Hty.
    destruct (Z.eqb_spec (16 * delta + 8) 0); [lia|].
    destruct (Z.eqb_spec delta 0); [lia|].
    change (8 =? 6) with false. change (8 =? 8) with true. cbv iota.
    rewrite (vlq_bytes_read 4 (u32 len) 0 0)
      by (rewrite ?u32_small by lia;
          change (2 ^ (7 * (Z.of_nat 4 + 1))) with (2 ^ 35); lia).
    rewrite Z.shiftl_0_r, Z.lor_0_l, u32_small by lia.
    rewrite length_app, length_firstn, Nat.min_l by exact Hv.
    destruct (Nat.ltb_spec (Z.to_nat len + length rest) (Z.to_nat len));
      [lia|].
    assert (Hlf : length (firstn (Z.to_nat len) v) = Z.to_nat len)
      by (rewrite length_firstn; lia).
    rewrite firstn_app, Hlf, Nat.sub_diag, firstn_firstn, Nat.min_id.
    cbn [firstn]. rewrite app_nil_r.
    rewrite skipn_app, Hlf, Nat.sub_diag, <- Hlf at 1.
    rewrite skipn_all. cbn [skipn app]. reflexivity. }
  unfold stat_bytes, stat_fields.
  rewrite <- !app_assoc. cbn [app].
  rewrite read_struct_step. cbv zeta.
  change (byte.unsigned (byte.of_Z 54)) with 54.
  change (54 =? 0) with false. change (Z.shiftr 54 4) with 3.
  change (Z.land 54 15) with 6. change (3 =? 0) with false.
  change (6 =? 6) with true. cbv iota.
  assert (Hz : 0 <= u64 (zigzag (null_count s)) < 2 ^ (7 * (Z.of_nat 9 + 1))).
  { unfold u64. pose proof (Z.mod_pos_bound (zigzag (null_count s)) (2 ^ 64)).
    change (2 ^ (7 * (Z.of_nat 9 + 1))) with (2 ^ 70). lia. }
  rewrite (vlq_bytes_read 9 _ 0 0 _ Hz) by lia.
  rewrite Z.shiftl_0_r, Z.lor_0_l, unzigzag_zigzag by lia.
  change (0 + 3) with 3.
  destruct (has_minmax s).
  - pose proof (Hval _ Hmin Hsmin) as [Hl1 Hl2].
    pose proof (Hval _ Hmax Hsmax) as [Hl3 Hl4].
    cbv zeta. repeat (cbn [app]; rewrite <- ?app_assoc).
    change (byte.of_Z 40) with (byte.of_Z (Z.lor (Z.shiftl 2 4) 8)).
    rewrite Hbin by (try assumption; right; reflexivity).
    change (byte.of_Z 24) with (byte.of_Z (Z.lor (Z.shiftl 1 4) 8)).
    rewrite Hbin by (try assumption; left; reflexivity).
    rewrite read_struct_step. cbv zeta.
    change (byte.unsigned Byte.x00 =? 0) with true. cbv iota.
    reflexivity.
  - cbn [app]. rewrite read_struct_step. cbv zeta.
    change (byte.unsigned Byte.x00 =? 0) with true.
    cbv iota. reflexivity.
Qed.

End Facts.

Lemma firstn_length_le {A} n (l : list A) :
  (n <= length l)%nat -> length (firstn n l) = n.
Proof. intros H. rewrite length_firstn. lia. Qed.

(** C9: the bytes written by [EncodeStatistics] are, for a reader of the
    Thrift compact protocol, the field 3 with the null count, followed, only
    when [has_minmax] is set, by the binary fields 5 (maximum) and 6
    (minimum).  The binaries are the raw bytes of the values: the bytes of
    the string for strings, the four bytes of the double narrowed to a float
    for float32, and else the first 1, 4, 8 or 16 bytes of the value
    according to the type. *)
Theorem statistics_fields (double_to_float : list byte -> list byte)
    (m : mem) (start : Z) (s : statistics_chunk) (dtype : statistics_dtype)
    (tl : list byte) :
  stats_ok double_to_float s ->
  let r := EncodeStatistics double_to_float m start s dtype in
  let bs := load_bytes (fst r) start (Z.to_nat (snd r - start)) in
  read_struct 4 0 (bs ++ Byte.x00 :: tl)
  = Some (stat_fields double_to_float s dtype, tl)
  /\ (has_minmax s = false ->
      stat_fields double_to_float s dtype = [(3, TI64 (null_count s))])
  /\ (has_minmax s = true ->
      exists vmax vmin,
        stat_fields double_to_float s dtype
        = [(3, TI64 (null_count s)); (5, TBinary vmax); (6, TBinary vmin)]
        /\ (dtype = dtype_string ->
            vmax = str_val (max_value s) /\ vmin = str_val (min_value s))
        /\ (dtype = dtype_float32 ->
            vmax = double_to_float (firstn 8 (raw (max_value s)))
            /\ vmin = double_to_float (firstn 8 (raw (min_value s)))
            /\ length vmax = 4%nat /\ length vmin = 4%nat)
        /\ (dtype <> dtype_string -> dtype <> dtype_float32 ->
            vmax = firstn (Z.to_nat (dtype_len dtype)) (raw (max_value s))
            /\ vmin = firstn (Z.to_nat (dtype_len dtype)) (raw (min_value s))
            /\ Z.of_nat (length vmax) = dtype_len dtype
            /\ Z.of_nat (length vmin) = dtype_len dtype)
        /\ (In dtype [dtype_int8; dtype_int16; dtype_int32; dtype_date32;
                      dtype_float32] -> dtype_len dtype = 4)
        /\ (In dtype [dtype_int64; dtype_timestamp64; dtype_float64;
                      dtype_decimal64] -> dtype_len dtype = 8)
        /\ (dtype = dtype_decimal128 -> dtype_len dtype = 16)).
Proof.
  intros OK r bs.
  pose proof (EncodeStatistics_written double_to_float m start s dtype OK)
    as [Hp Hb].
  fold r in Hp, Hb.
  assert (Ebs : bs = stat_bytes double_to_float s dtype).
  { unfold bs. rewrite Hp.
    replace (Z.to_nat (start + Z.of_nat (length (stat_bytes double_to_float s
                                                   dtype)) - start))
      with (length (stat_bytes double_to_float s dtype)) by lia.
    exact Hb. }
  destruct OK as (Hn & Hmin & Hmax & Hsmin & Hsmax & Hf).
  split; [rewrite Ebs; apply read_stat_bytes;
          repeat split; assumption || lia|].
  split.
  - intros H. unfold stat_fields. rewrite H. reflexivity.
  - intros H. unfold stat_fields. rewrite H.
    eexists _, _. split; [reflexivity|].
    unfold value_of. split; [|split; [|split; [|split; [|split]]]].
    + intros ->. cbn [is_string fst snd]. rewrite !Nat2Z.id, !firstn_all.
      split; reflexivity.
    + intros ->. cbn [is_string is_float32 fst snd dtype_len].
      change (Z.to_nat 4) with 4%nat.
      rewrite (firstn_all2 (n := 4)
                 (double_to_float (firstn 8 (raw (max_value s)))))
        by (rewrite Hf; lia).
      rewrite (firstn_all2 (n := 4)
                 (double_to_float (firstn 8 (raw (min_value s)))))
        by (rewrite Hf; lia).
      rewrite !Hf. repeat split; reflexivity.
    + intros H1 H2.
      assert (E1 : is_string dtype = false)
        by (destruct dtype; try reflexivity; congruence).
      assert (E2 : is_float32 dtype = false)
        by (destruct dtype; try reflexivity; congruence).
      rewrite E1, E2. cbn [fst snd].
      assert (Hd : (Z.to_nat (dtype_len dtype) <= 16)%nat)
        by (destruct dtype; cbn [dtype_len]; lia).
      assert (Hd0 : 0 <= dtype_len dtype)
        by (destruct dtype; cbn [dtype_len]; lia).
      rewrite !firstn_length_le by lia. repeat split; lia.
    + intros Hin. cbn [In] in Hin.
      repeat destruct Hin as [<-|Hin]; try reflexivity. destruct Hin.
    + intros Hin. cbn [In] in Hin.
      repeat destruct Hin as [<-|Hin]; try reflexivity. destruct Hin.
    + intros ->. reflexivity.
Qed.

Lemma statistics_fields_witness :
  stats_ok ex_narrow ex_stats
  /\ stat_fields ex_narrow ex_stats dtype_int32
     = [(3, TI64 2);
        (5, TBinary [Byte.x02; Byte.x01; Byte.x00; Byte.x00]);
        (6, TBinary [Byte.x01; Byte.x00; Byte.x00; Byte.x00])]
  /\ read_struct 4 0
       (load_bytes
          (fst (EncodeStatistics ex_narrow (fun _ => Byte.xff) 10 ex_stats
                  dtype_int32)) 10
          (Z.to_nat
             (snd (EncodeStatistics ex_narrow (fun _ => Byte.xff) 10 ex_stats
                     dtype_int32) - 10))
        ++ [Byte.x00])
     = Some (stat_fields ex_narrow ex_stats dtype_int32, []).
Proof.
  assert (OK : stats_ok ex_narrow ex_stats).
  { unfold stats_ok. repeat split; try (vm_compute; congruence). }
  split; [exact OK|]. split; [vm_compute; reflexivity|].
  exact (proj1 (statistics_fields ex_narrow (fun _ => Byte.xff) 10 ex_stats
                  dtype_int32 [] OK)).
Defined.

End StatsFacts.

(** ** The order of the pages of a chunk *)

Module OrderClaims.
Import Rle RleMem.

(** C7: in the layout of a chunk that uses a dictionary the first page is
    the dictionary page and all the others are data pages; and the gather
    kernel leaves the bytes before [dst_base] (the chunk statistics, when
    there are any) as they are and writes after them, in page order, the
    header of each page immediately followed by its data. *)
Theorem pages_in_order :
  (forall col_g ck_g P L,
     Planner.gpuInitPages col_g ck_g P = Some L ->
     Planner.use_dictionary ck_g = true ->
     exists d rest,
       Planner.out_pages L = d :: rest
       /\ Planner.page_type d = Planner.DICTIONARY_PAGE
       /\ Forall (fun p => Planner.page_type p = Planner.DATA_PAGE) rest)
  /\ (forall ck m,
        Gather.sources_ok ck (Gather.dst_base ck) (Gather.pages ck) ->
        let r := Gather.gpuGatherPages ck m in
        load_bytes (fst r) (Gather.dst_base ck)
                   (Z.to_nat (Gather.pages_len (Gather.pages ck)))
        = concat (map (Gather.page_bytes ck m) (Gather.pages ck))
        /\ (forall x, x < Gather.dst_base ck -> fst r x = m x)
        /\ Gather.compressed_size (snd r) = Gather.pages_len (Gather.pages ck)).
Proof.
  split.
  - intros col_g ck_g P L HL Hd.
    destruct (PlannerFacts.dictionary_page_first col_g ck_g P L HL Hd)
      as (d & rest & H1 & H2 & _ & H4).
    exists d, rest. repeat split; assumption.
  - intros ck m Hok r.
    pose proof (GatherFacts.gather_loop_spec ck (Gather.pages ck) 0
                  {| Gather.g_mem := m; Gather.g_dst := Gather.dst_base ck;
                     Gather.g_uncompressed_size := Gather.bfr_size ck;
                     Gather.g_dictionary_size := Gather.dictionary_size ck |}
                  (Gather.dst_base ck) (Z.le_refl _) Hok) as H.
    cbv zeta in H. cbn [Gather.g_dst Gather.g_mem] in H.
    destruct H as (H1 & H2 & H3).
    unfold r, Gather.gpuGatherPages. cbn [fst snd Gather.compressed_size].
    split; [exact H2|]. split.
    + intros x Hx. apply H3. left. exact Hx.
    + rewrite H1. lia.
Qed.

Lemma pages_in_order_witness :
  (exists d rest,
     option_map Planner.out_pages
       (Planner.gpuInitPages EncodeExamples.dict_col EncodeExamples.dict_chunk
          EncodeExamples.dict_params) = Some (d :: rest)
     /\ Planner.page_type d = Planner.DICTIONARY_PAGE
     /\ Forall (fun p => Planner.page_type p = Planner.DATA_PAGE) rest)
  /\ load_bytes (fst (Gather.gpuGatherPages Gather.ex_chunk Gather.ex_mem)) 4 10
     = map byte.of_Z [4; 5; 12; 13; 14; 20; 21; 22; 28; 29].
Proof.
  split.
  - destruct (Planner.gpuInitPages EncodeExamples.dict_col
                EncodeExamples.dict_chunk EncodeExamples.dict_params)
      as [L|] eqn:E; [|vm_compute in E; discriminate E].
    destruct (proj1 pages_in_order _ _ _ L E eq_refl)
      as (d & rest & H1 & H2 & H3).
    exists d, rest. cbn [option_map]. rewrite H1.
    split; [reflexivity|]. split; assumption.
  - assert (Hok : Gather.sources_ok Gather.ex_chunk
                    (Gather.dst_base Gather.ex_chunk)
                    (Gather.pages Gather.ex_chunk)).
    { vm_compute. repeat split; discriminate. }
    destruct (proj2 pages_in_order Gather.ex_chunk Gather.ex_mem Hok)
      as (H1 & _ & _).
    exact H1.
Defined.

End OrderClaims.

(** ** The levels of the example column *)

Module DremelClaims.

Import Dremel.

(** The nesting levels of the example are the two lists and the leaf; each
    contributes one definition level, and the levels cover 3 rows, 4 inner
    lists and 5 values. *)
Lemma ex_nesting :
  map def_contribution (nesting_levels ex_col ex_nullability) = [1; 1; 1]
  /\ def_at_level ex_col ex_nullability = [0; 1; 2]
  /\ column_offsets ex_col = [0; 0; 0]
  /\ column_ends ex_col = [3; 4; 5].
Proof. repeat split; reflexivity. Qed.

(** The merge of the leaf with the inner lists: the two empty inner lists
    get a slot each, and the first slot of each inner list gets repetition
    level 1. *)
Lemma ex_merge_leaf :
  merge_leaf ex_col ex_nullability
  = {| new_offsets := [0; 1; 4; 6; 7];
       cur_rep := [1; 1; 2; 2; 1; 2; 1];
       cur_def := [1; 2; 2; 2; 2; 2; 1] |}.
Proof. reflexivity. Qed.

(** C1, as stated: for the column [[], [[],[1,2,3],[4,5]], [[]]] the
    definition levels are [0,1,2,2,2,2,2,1] and the repetition levels are
    [0,0,0,2,2,1,2,0].  This fails: the third slot is the value 1, which
    starts the second inner list of the second row, and the code gives it
    repetition level 1, not 0. *)
Lemma dremel_levels_as_stated_fail :
  ~ (def_level (get_dremel_data ex_col ex_nullability)
       = [0; 1; 2; 2; 2; 2; 2; 1]
     /\ rep_level (get_dremel_data ex_col ex_nullability)
       = [0; 0; 0; 2; 2; 1; 2; 0]).
Proof.
  intros [_ H]. vm_compute in H. discriminate H.
Qed.

(** C1, amended: for the column [[], [[],[1,2,3],[4,5]], [[]]] with no
    nullable level, [get_dremel_data] gives the definition levels
    [0,1,2,2,2,2,2,1] (one slot per empty list and one per leaf value) and
    the repetition levels [0,0,1,2,2,1,2,0]: 0 at the first slot of each
    row, 1 at the first slot of each further inner list of a row, 2 inside
    an inner list.  These are the levels of the Dremel encoding of the
    value, there are 8 of them, the offsets of the rows into them are
    [0,1,7,8], and the leaf has 5 values. *)
Theorem dremel_levels_example :
  let d := get_dremel_data ex_col ex_nullability in
  def_level d = [0; 1; 2; 2; 2; 2; 2; 1]
  /\ rep_level d = [0; 0; 1; 2; 2; 1; 2; 0]
  /\ combine (rep_level d) (def_level d) = spec_levels ex_rows
  /\ dremel_offsets d = [0; 1; 7; 8]
  /\ leaf_data_size d = 5.
Proof.
  cbv zeta. repeat split; vm_compute; reflexivity.
Qed.

End DremelClaims.

(** ** The page headers: bytes, size and reader *)

Module HeaderFacts.
Import Rle RlePack RleFormat RleFormatFacts RleMem Stats StatsFacts Headers.

(** *** Writers compose *)

Lemma wrote_nil m start : wrote m start (m, start) [].
Proof.
  split; [cbn [snd length]; lia|]. split; [reflexivity|].
  intros; reflexivity.
Qed.

Lemma wrote_trans m start r bs r' bs' :
  wrote m start r bs -> wrote (fst r) (snd r) r' bs' ->
  wrote m start r' (bs ++ bs').
Proof.
  intros (P1 & L1 & F1) (P2 & L2 & F2).
  split; [rewrite length_app; lia|]. split.
  - rewrite length_app, load_bytes_app. f_equal.
    + rewrite <- L1 at 2. apply load_bytes_ext. intros i Hi.
      apply F2. left. lia.
    + rewrite <- P1. exact L2.
  - intros x Hx. rewrite F2 by lia. apply F1. lia.
Qed.

Lemma wrote_store m p v : wrote m p (store m p v, p + 1) [byte.of_Z v].
Proof.
  split; [cbn [snd length]; lia|]. split.
  - unfold load_bytes. cbn [length seq map fst]. rewrite Z.add_0_r, store_same.
    reflexivity.
  - intros x Hx. cbn [fst snd] in *. apply store_other. lia.
Qed.

Lemma wrote_zero m p : wrote m p (store m p 0, p + 1) [Byte.x00].
Proof. exact (wrote_store m p 0). Qed.

Lemma wrote_vlq fuel m p v :
  wrote m p (cpw_put_loop fuel m p v) (vlq_bytes fuel v).
Proof. exact (cpw_put_loop_spec fuel m p v). Qed.

Lemma wrote_bytes m p l :
  wrote m p (write_bytes m p l, p + Z.of_nat (length l)) l.
Proof.
  destruct (write_bytes_spec l m p) as [W1 W2].
  split; [reflexivity|]. split; [exact W1|exact W2].
Qed.

Lemma wrote_fldh m p f cur t :
  cur < f <= cur + 15 ->
  wrote m p (cpw_put_fldh m p f cur t)
        [byte.of_Z (Z.lor (Z.shiftl (f - cur) 4) t)].
Proof.
  intros Hf. unfold cpw_put_fldh.
  destruct (Z.gtb_spec f cur) as [_|]; [|lia].
  destruct (Z.leb_spec f (cur + 15)) as [_|]; [|lia].
  cbn [andb]. apply wrote_store.
Qed.

Lemma wrote_fldh_long m p f cur t :
  ~ (cur < f <= cur + 15) ->
  wrote m p (cpw_put_fldh m p f cur t)
        (byte.of_Z t :: vlq_bytes 4 (u32 (zigzag f))).
Proof.
  intros Hf. unfold cpw_put_fldh.
  assert (E : (f >? cur) && (f <=? cur + 15) = false).
  { destruct (Z.gtb_spec f cur); destruct (Z.leb_spec f (cur + 15));
      cbn [andb]; try reflexivity; lia. }
  rewrite E. unfold cpw_put_int32, cpw_put_uint32.
  change (byte.of_Z t :: vlq_bytes 4 (u32 (zigzag f)))
    with ([byte.of_Z t] ++ vlq_bytes 4 (u32 (zigzag f))).
  eapply wrote_trans; [apply wrote_store|]. cbn [fst snd]. apply wrote_vlq.
Qed.

(** *** The methods of the encoder *)

Ltac norm_app :=
  repeat first [rewrite <- app_assoc | progress cbn [app]].

Ltac norm_app_in H :=
  repeat first [rewrite <- app_assoc in H | progress cbn [app] in H].

(** The encoder [e] has written [bs] since [start] and its last field is
    [idx]. *)
Local Abbreviation ewrote m start e bs idx :=
  (wrote m start (buffer e, current_header_ptr e) bs
   /\ current_field_index e = idx).

Lemma ewrote_start m start : ewrote m start (encoder_start m start) [] 0.
Proof. split; [apply wrote_nil|reflexivity]. Qed.

Lemma ewrote_int32 m start e bs idx f v delta :
  ewrote m start e bs idx -> f = idx + delta -> 1 <= delta <= 15 ->
  ewrote m start (field_int32 f v e) (bs ++ int32_field delta v) f.
Proof.
  intros [W <-] -> Hd. unfold field_int32.
  pose proof (wrote_fldh (buffer e) (current_header_ptr e)
                (current_field_index e + delta)
                (current_field_index e) ST_FLD_I32 ltac:(lia)) as W1.
  replace (current_field_index e + delta - current_field_index e)
    with delta in W1 by lia.
  destruct (cpw_put_fldh _ _ _ _ _) as [m1 p1].
  pose proof (wrote_vlq 4 m1 p1 (u32 (zigzag (s32 v)))) as W2.
  unfold cpw_put_int32, cpw_put_uint32.
  destruct (cpw_put_loop 4 m1 p1 _) as [m2 p2].
  cbn [buffer current_header_ptr current_field_index].
  split; [|reflexivity].
  eapply wrote_trans; [exact W|]. cbn [fst snd].
  exact (wrote_trans _ _ _ _ _ _ W1 W2).
Qed.

Lemma ewrote_int64 m start e bs idx f v delta :
  ewrote m start e bs idx -> f = idx + delta -> 1 <= delta <= 15 ->
  ewrote m start (field_int64 f v e)
         (bs ++ byte.of_Z (Z.lor (Z.shiftl delta 4) ST_FLD_I64)
                :: vlq_bytes 9 (u64 (zigzag v))) f.
Proof.
  intros [W <-] -> Hd. unfold field_int64.
  pose proof (wrote_fldh (buffer e) (current_header_ptr e)
                (current_field_index e + delta)
                (current_field_index e) ST_FLD_I64 ltac:(lia)) as W1.
  replace (current_field_index e + delta - current_field_index e)
    with delta in W1 by lia.
  destruct (cpw_put_fldh _ _ _ _ _) as [m1 p1].
  pose proof (wrote_vlq 9 m1 p1 (u64 (zigzag v))) as W2.
  unfold cpw_put_int64, cpw_put_uint64.
  destruct (cpw_put_loop 9 m1 p1 _) as [m2 p2].
  cbn [buffer current_header_ptr current_field_index].
  split; [|reflexivity].
  eapply wrote_trans; [exact W|]. cbn [fst snd].
  exact (wrote_trans _ _ _ _ _ _ W1 W2).
Qed.

Lemma ewrote_binary m start e bs idx f value len delta :
  ewrote m start e bs idx -> f = idx + delta -> 1 <= delta <= 15 ->
  0 <= len -> (Z.to_nat len <= length value)%nat ->
  ewrote m start (field_binary f value len e)
         (bs ++ byte.of_Z (Z.lor (Z.shiftl delta 4) ST_FLD_BINARY)
                :: vlq_bytes 4 (u32 len) ++ firstn (Z.to_nat len) value) f.
Proof.
  intros [W <-] -> Hd Hl Hv. unfold field_binary.
  pose proof (wrote_fldh (buffer e) (current_header_ptr e)
                (current_field_index e + delta)
                (current_field_index e) ST_FLD_BINARY ltac:(lia)) as W1.
  replace (current_field_index e + delta - current_field_index e)
    with delta in W1 by lia.
  destruct (cpw_put_fldh _ _ _ _ _) as [m1 p1].
  pose proof (wrote_vlq 4 m1 p1 (u32 len)) as W2.
  unfold cpw_put_uint32.
  destruct (cpw_put_loop 4 m1 p1 _) as [m2 p2].
  pose proof (wrote_bytes m2 p2 (firstn (Z.to_nat len) value)) as W3.
  rewrite length_firstn, Nat.min_l, Z2Nat.id in W3 by assumption.
  cbn [buffer current_header_ptr current_field_index].
  split; [|reflexivity].
  eapply wrote_trans; [exact W|]. cbn [fst snd].
  exact (wrote_trans _ _ _ _ _ _ W1 (wrote_trans _ _ _ _ _ _ W2 W3)).
Qed.

Lemma ewrote_struct_begin m start e bs idx f delta :
  ewrote m start e bs idx -> f = idx + delta -> 1 <= delta <= 15 ->
  ewrote m start (field_struct_begin f e) (bs ++ struct_field delta) 0.
Proof.
  intros [W <-] -> Hd. unfold field_struct_begin.
  pose proof (wrote_fldh (buffer e) (current_header_ptr e)
                (current_field_index e + delta)
                (current_field_index e) ST_FLD_STRUCT ltac:(lia)) as W1.
  replace (current_field_index e + delta - current_field_index e)
    with delta in W1 by lia.
  destruct (cpw_put_fldh _ _ _ _ _) as [m1 p1].
  cbn [buffer current_header_ptr current_field_index].
  split; [|reflexivity].
  exact (wrote_trans _ _ _ _ _ _ W W1).
Qed.

Lemma ewrote_struct_end m start e bs idx f :
  ewrote m start e bs idx ->
  ewrote m start (field_struct_end f e) (bs ++ [Byte.x00]) f.
Proof.
  intros [W _]. unfold field_struct_end.
  cbn [buffer current_header_ptr current_field_index].
  split; [|reflexivity].
  exact (wrote_trans _ _ _ _ _ _ W (wrote_zero _ _)).
Qed.

Lemma ewrote_end m start e bs idx :
  ewrote m start e bs idx ->
  wrote m start (encoder_end_flag false e) (bs ++ [Byte.x00]).
Proof.
  intros [W _]. unfold encoder_end_flag.
  exact (wrote_trans _ _ _ _ _ _ W (wrote_zero _ _)).
Qed.

(** *** Integers of the protocol *)

Lemma s32_range x : - 2 ^ 31 <= s32 x < 2 ^ 31.
Proof.
  unfold s32. pose proof (Z.mod_pos_bound (x + 2 ^ 31) (2 ^ 32)). lia.
Qed.

Lemma s32_small x : - 2 ^ 31 <= x < 2 ^ 31 -> s32 x = x.
Proof. intros H. unfold s32. rewrite Z.mod_small; lia. Qed.

Lemma zigzag_nonneg v : 0 <= v -> zigzag v = 2 * v.
Proof.
  intros H. unfold zigzag. destruct (Z.ltb_spec v 0); [lia|].
  change (- 0) with 0. rewrite Z.lxor_0_r. lia.
Qed.

Lemma zigzag_neg v : v < 0 -> zigzag v = - 2 * v - 1.
Proof.
  intros H. unfold zigzag. destruct (Z.ltb_spec v 0); [|lia].
  rewrite Z.lxor_m1_r. unfold Z.lnot. lia.
Qed.

Lemma zigzag_range32 v : - 2 ^ 31 <= v < 2 ^ 31 -> 0 <= zigzag v < 2 ^ 32.
Proof.
  intros H. destruct (Z.lt_ge_cases v 0).
  - rewrite zigzag_neg by assumption. lia.
  - rewrite zigzag_nonneg by assumption. lia.
Qed.

Lemma unzigzag_even u : 0 <= u -> unzigzag (2 * u) = u.
Proof.
  intros H. unfold unzigzag.
  rewrite Z.shiftr_div_pow2 by lia. change (2 ^ 1) with 2.
  replace (2 * u / 2) with u by (Z.div_mod_to_equations; lia).
  change 1 with (Z.ones 1). rewrite Z.land_ones by lia. change (2 ^ 1) with 2.
  replace (2 * u mod 2) with 0 by (Z.div_mod_to_equations; lia).
  change (- 0) with 0. apply Z.lxor_0_r.
Qed.

Lemma unzigzag_odd u : 0 <= u -> unzigzag (2 * u + 1) = - u - 1.
Proof.
  intros H. unfold unzigzag.
  rewrite Z.shiftr_div_pow2 by lia. change (2 ^ 1) with 2.
  replace ((2 * u + 1) / 2) with u by (Z.div_mod_to_equations; lia).
  change 1 with (Z.ones 1) at 2. rewrite Z.land_ones by lia.
  change (2 ^ 1) with 2.
  replace ((2 * u + 1) mod 2) with 1 by (Z.div_mod_to_equations; lia).
  rewrite Z.lxor_m1_r. unfold Z.lnot. lia.
Qed.

(** The zigzag code of a 32-bit integer is read back. *)
Lemma zigzag32_round v :
  - 2 ^ 31 <= v < 2 ^ 31 -> unzigzag (u32 (zigzag v)) = v.
Proof.
  intros H. rewrite u32_small by (apply zigzag_range32; exact H).
  destruct (Z.lt_ge_cases v 0).
  - rewrite zigzag_neg by assumption.
    replace (- 2 * v - 1) with (2 * (- v - 1) + 1) by lia.
    rewrite unzigzag_odd by lia. lia.
  - rewrite zigzag_nonneg by assumption. apply unzigzag_even. assumption.
Qed.

(** A value below [2 ^ (7 k)] takes at most [k] bytes. *)
Lemma vlq_bytes_short fuel : forall v k,
  0 <= v < 2 ^ (7 * Z.of_nat (S k)) ->
  (length (vlq_bytes fuel v) <= S k)%nat.
Proof.
  induction fuel as [|fuel IH]; intros v k Hv; cbn [vlq_bytes].
  - cbn [length]. lia.
  - destruct (Z.gtb_spec v 127) as [Hgt|Hle]; cbn [length]; [|lia].
    destruct k as [|k]; [change (2 ^ (7 * Z.of_nat 1)) with 128 in Hv; lia|].
    apply le_n_S. apply IH. split; [apply Z.shiftr_nonneg; lia|].
    rewrite Z.shiftr_div_pow2 by lia.
    apply Z.div_lt_upper_bound; [lia|].
    rewrite <- Z.pow_add_r by lia.
    replace (7 + 7 * Z.of_nat (S k)) with (7 * Z.of_nat (S (S k))) by lia.
    lia.
Qed.

Lemma vlq_bytes_one fuel v : v <= 127 -> vlq_bytes fuel v = [byte.of_Z v].
Proof.
  intros H. destruct fuel; cbn [vlq_bytes]; [reflexivity|].
  destruct (Z.gtb_spec v 127); [lia|reflexivity].
Qed.

(** An integer field takes between two and six bytes, and two when its
    value is between -64 and 63. *)
Lemma int32_field_length delta v :
  (2 <= length (int32_field delta v) <= 6)%nat.
Proof.
  unfold int32_field. cbn [length].
  pose proof (vlq_bytes_length 4 (u32 (zigzag (s32 v)))). lia.
Qed.

Lemma int32_field_small delta v :
  - 64 <= v < 64 -> length (int32_field delta v) = 2%nat.
Proof.
  intros H. unfold int32_field. cbn [length]. f_equal.
  rewrite s32_small by lia.
  rewrite u32_small by (apply zigzag_range32; lia).
  rewrite vlq_bytes_one; [reflexivity|].
  destruct (Z.lt_ge_cases v 0).
  - rewrite zigzag_neg by assumption. lia.
  - rewrite zigzag_nonneg by assumption. lia.
Qed.

(** *** The reader on the bytes of the fields *)

Lemma read_fields_step fuel cur b rest :
  read_fields (S fuel) cur (b :: rest)
  = let x := byte.unsigned b in
    if x =? 0 then Some ([], rest)
    else
      match (if Z.shiftr x 4 =? 0 then
               match read_vlq 5 0 0 rest with
               | Some (u, rest') => Some (unzigzag u, rest')
               | None => None
               end
             else Some (cur + Z.shiftr x 4, rest)) with
      | Some (f, rest1) =>
          match read_value (Z.land x 15) rest1 (read_fields fuel 0) with
          | Some (v, rest2) =>
              match read_fields fuel f rest2 with
              | Some (fs, tl) => Some ((f, v) :: fs, tl)
              | None => None
              end
          | None => None
          end
      | None => None
      end.
Proof. reflexivity. Qed.

Lemma read_fields_stop fuel cur rest :
  read_fields (S fuel) cur (Byte.x00 :: rest) = Some ([], rest).
Proof. reflexivity. Qed.

(** The byte of a short field header: the difference of the field ids and
    the type. *)
Lemma fldh_byte delta t :
  1 <= delta <= 15 -> 0 <= t <= 15 ->
  let x := byte.unsigned (byte.of_Z (Z.lor (Z.shiftl delta 4) t)) in
  (x =? 0) = false /\ Z.shiftr x 4 = delta /\ Z.land x 15 = t.
Proof.
  intros Hd Ht.
  assert (E : Z.lor (Z.shiftl delta 4) t = 16 * delta + t).
  { assert (D : Z.land (Z.shiftl delta 4) t = 0).
    { apply Z.bits_inj'. intros k Hk. rewrite Z.land_spec, Z.bits_0.
      destruct (Z.lt_ge_cases k 4).
      - rewrite Z.shiftl_spec_low by lia. reflexivity.
      - rewrite (testbit_high t 4 k) by lia. apply andb_false_r. }
    rewrite <- Z.lxor_lor, <- Z.add_nocarry_lxor by exact D.
    rewrite Z.shiftl_mul_pow2 by lia. change (2 ^ 4) with 16. lia. }
  cbv zeta. rewrite E, byte.unsigned_of_Z. unfold byte.wrap.
  rewrite Z.mod_small by lia.
  split; [apply Z.eqb_neq; lia|]. split.
  - rewrite Z.shiftr_div_pow2 by lia. change (2 ^ 4) with 16.
    Z.div_mod_to_equations; lia.
  - change 15 with (Z.ones 4). rewrite Z.land_ones by lia.
    change (2 ^ 4) with 16. Z.div_mod_to_equations; lia.
Qed.

Lemma read_int32 fuel cur delta v rest :
  1 <= delta <= 15 ->
  read_fields (S fuel) cur (int32_field delta v ++ rest)
  = match read_fields fuel (cur + delta) rest with
    | Some (fs, tl) => Some ((cur + delta, TInt (s32 v)) :: fs, tl)
    | None => None
    end.
Proof.
  intros Hd. unfold int32_field. cbn [app]. rewrite read_fields_step.
  destruct (fldh_byte delta ST_FLD_I32 Hd ltac:(unfold ST_FLD_I32; lia))
    as (E0 & E1 & E2).
  cbv zeta in E0, E1, E2 |- *. rewrite E0, E1, E2.
  destruct (Z.eqb_spec delta 0); [lia|].
  unfold read_value. change (ST_FLD_I32 =? ST_FLD_I32) with true. cbv iota.
  pose proof (zigzag_range32 _ (s32_range v)) as Hz.
  rewrite (vlq_bytes_read 4 _ 0 0)
    by (rewrite ?u32_small by lia;
        change (2 ^ (7 * (Z.of_nat 4 + 1))) with (2 ^ 35); lia).
  rewrite Z.shiftl_0_r, Z.lor_0_l, zigzag32_round by apply s32_range.
  reflexivity.
Qed.

Lemma read_int64 fuel cur delta v rest :
  1 <= delta <= 15 -> 0 <= v < 2 ^ 63 ->
  read_fields (S fuel) cur
    (byte.of_Z (Z.lor (Z.shiftl delta 4) ST_FLD_I64)
     :: vlq_bytes 9 (u64 (zigzag v)) ++ rest)
  = match read_fields fuel (cur + delta) rest with
    | Some (fs, tl) => Some ((cur + delta, TInt v) :: fs, tl)
    | None => None
    end.
Proof.
  intros Hd Hv. rewrite read_fields_step.
  destruct (fldh_byte delta ST_FLD_I64 Hd ltac:(unfold ST_FLD_I64; lia))
    as (E0 & E1 & E2).
  cbv zeta in E0, E1, E2 |- *. rewrite E0, E1, E2.
  destruct (Z.eqb_spec delta 0); [lia|].
  unfold read_value. change (ST_FLD_I64 =? ST_FLD_I32) with false.
  change (ST_FLD_I64 =? ST_FLD_I64) with true. cbv iota.
  assert (Hz : 0 <= u64 (zigzag v) < 2 ^ (7 * (Z.of_nat 9 + 1))).
  { unfold u64. pose proof (Z.mod_pos_bound (zigzag v) (2 ^ 64)).
    change (2 ^ (7 * (Z.of_nat 9 + 1))) with (2 ^ 70). lia. }
  rewrite (vlq_bytes_read 9 _ 0 0 _ Hz) by lia.
  rewrite Z.shiftl_0_r, Z.lor_0_l, unzigzag_zigzag by lia.
  reflexivity.
Qed.

Lemma read_binary fuel cur delta v len rest :
  1 <= delta <= 15 -> 0 <= len < 2 ^ 32 -> (Z.to_nat len <= length v)%nat ->
  read_fields (S fuel) cur
    (byte.of_Z (Z.lor (Z.shiftl delta 4) ST_FLD_BINARY)
     :: vlq_bytes 4 (u32 len) ++ firstn (Z.to_nat len) v ++ rest)
  = match read_fields fuel (cur + delta) rest with
    | Some (fs, tl) =>
        Some ((cur + delta, TBytes (firstn (Z.to_nat len) v)) :: fs, tl)
    | None => None
    end.
Proof.
  intros Hd Hlen Hv. rewrite read_fields_step.
  destruct (fldh_byte delta ST_FLD_BINARY Hd
              ltac:(unfold ST_FLD_BINARY; lia)) as (E0 & E1 & E2).
  cbv zeta in E0, E1, E2 |- *. rewrite E0, E1, E2.
  destruct (Z.eqb_spec delta 0); [lia|].
  unfold read_value. change (ST_FLD_BINARY =? ST_FLD_I32) with false.
  change (ST_FLD_BINARY =? ST_FLD_I64) with false.
  change (ST_FLD_BINARY =? ST_FLD_BINARY) with true. cbv iota.
  rewrite (vlq_bytes_read 4 (u32 len) 0 0)
    by (rewrite ?u32_small by lia;
        change (2 ^ (7 * (Z.of_nat 4 + 1))) with (2 ^ 35); lia).
  rewrite Z.shiftl_0_r, Z.lor_0_l, u32_small by lia.
  rewrite length_app, length_firstn, Nat.min_l by exact Hv.
  destruct (Nat.ltb_spec (Z.to_nat len + length rest) (Z.to_nat len));
    [lia|].
  assert (Hlf : length (firstn (Z.to_nat len) v) = Z.to_nat len)
    by (rewrite length_firstn; lia).
  rewrite firstn_app, Hlf, Nat.sub_diag, firstn_firstn, Nat.min_id.
  cbn [firstn]. rewrite app_nil_r.
  rewrite skipn_app, Hlf, Nat.sub_diag, <- Hlf at 1.
  rewrite skipn_all. cbn [skipn app]. reflexivity.
Qed.

Lemma read_struct_field fuel cur delta rest :
  1 <= delta <= 15 ->
  read_fields (S fuel) cur (struct_field delta ++ rest)
  = match read_fields fuel 0 rest with
    | Some (fs, rest') =>
        match read_fields fuel (cur + delta) rest' with
        | Some (fs', tl) => Some ((cur + delta, TStruct fs) :: fs', tl)
        | None => None
        end
    | None => None
    end.
Proof.
  intros Hd. unfold struct_field. cbn [app]. rewrite read_fields_step.
  destruct (fldh_byte delta ST_FLD_STRUCT Hd
              ltac:(unfold ST_FLD_STRUCT; lia)) as (E0 & E1 & E2).
  cbv zeta in E0, E1, E2 |- *. rewrite E0, E1, E2.
  destruct (Z.eqb_spec delta 0); [lia|].
  unfold read_value. change (ST_FLD_STRUCT =? ST_FLD_I32) with false.
  change (ST_FLD_STRUCT =? ST_FLD_I64) with false.
  change (ST_FLD_STRUCT =? ST_FLD_BINARY) with false.
  change (ST_FLD_STRUCT =? ST_FLD_STRUCT) with true. cbv iota.
  destruct (read_fields fuel 0 rest) as [[fs rest']|]; reflexivity.
Qed.

Lemma dtype_len_range dtype : 0 <= dtype_len dtype <= 16.
Proof. destruct dtype; cbn [dtype_len]; lia. Qed.

Section Facts.

Variable enable_bool_rle : bool.
Variable double_to_float : list byte -> list byte.

(** Lengths handed to [field_binary] by [EncodeStatistics]. *)
Lemma value_of_fits dtype v :
  length (raw v) = 16%nat ->
  (forall bs, length (double_to_float bs) = 4%nat) ->
  0 <= snd (value_of double_to_float dtype v)
  /\ (Z.to_nat (snd (value_of double_to_float dtype v))
      <= length (fst (value_of double_to_float dtype v)))%nat.
Proof.
  intros Hr Hf. unfold value_of. destruct (is_string dtype); cbn [fst snd].
  - split; lia.
  - destruct (is_float32 dtype) eqn:Ef; cbn [fst snd].
    + destruct dtype; try discriminate. cbn [dtype_len]. rewrite Hf.
      split; lia.
    + rewrite Hr. destruct dtype; cbn [dtype_len]; split; lia.
Qed.

Lemma EncodeStatistics_wrote m start s dtype :
  stats_ok double_to_float s ->
  wrote m start (EncodeStatistics double_to_float m start s dtype)
        (stat_bytes double_to_float s dtype).
Proof.
  intros (Hn & Hmin & Hmax & Hsmin & Hsmax & Hf).
  unfold EncodeStatistics, encoder_end, stat_bytes.
  pose proof (ewrote_int64 m start _ _ _ 3 (null_count s) 3
                (ewrote_start m start) eq_refl ltac:(lia)) as W1.
  destruct (has_minmax s).
  - destruct (value_of double_to_float dtype (min_value s)) as [vmin lmin] eqn:Emin.
    destruct (value_of double_to_float dtype (max_value s)) as [vmax lmax] eqn:Emax.
    pose proof (value_of_fits dtype _ Hmin Hf) as [Hl1 Hl2].
    rewrite Emin in Hl1, Hl2.
    pose proof (value_of_fits dtype _ Hmax Hf) as [Hl3 Hl4].
    rewrite Emax in Hl3, Hl4. cbn [fst snd] in Hl1, Hl2, Hl3, Hl4 |- *.
    pose proof (ewrote_binary _ _ _ _ _ 5 vmax lmax 2 W1 eq_refl ltac:(lia)
                  Hl3 Hl4) as W2.
    pose proof (ewrote_binary _ _ _ _ _ 6 vmin lmin 1 W2 eq_refl ltac:(lia)
                  Hl1 Hl2) as [W3 _].
    norm_app_in W3. norm_app. exact W3.
  - destruct W1 as [W1 _]. norm_app_in W1. norm_app. rewrite app_nil_r.
    exact W1.
Qed.

Variable ck_g : chunk_view.

Lemma ewrote_stats m start e bs idx ps :
  ewrote m start e bs idx -> stats_ok double_to_float ps ->
  ewrote m start
    (set_ptr (fst (EncodeStatistics double_to_float (buffer e)
                     (current_header_ptr e) ps (stats_dtype ck_g)))
             (snd (EncodeStatistics double_to_float (buffer e)
                     (current_header_ptr e) ps (stats_dtype ck_g))) e)
    (bs ++ stat_bytes double_to_float ps (stats_dtype ck_g)) idx.
Proof.
  intros [W <-] OK. unfold set_ptr.
  cbn [buffer current_header_ptr current_field_index].
  split; [|reflexivity].
  eapply wrote_trans; [exact W|]. cbn [fst snd].
  rewrite <- surjective_pairing. apply EncodeStatistics_wrote. exact OK.
Qed.

(** The header of a page is [header_bytes], written from the start of the
    header; nothing else is touched. *)
Lemma encode_header_wrote page_g bytes_written page_stats m :
  opt_ok double_to_float page_stats ->
  wrote m (hdr_start_of ck_g page_g)
        (encode_header enable_bool_rle double_to_float ck_g page_g
                       bytes_written page_stats m)
        (header_bytes enable_bool_rle double_to_float ck_g page_g
                      bytes_written page_stats).
Proof.
  intros OK. unfold encode_header, header_bytes. cbv zeta.
  generalize (encoding_code (page_encoding enable_bool_rle ck_g
                                           (Planner.page_type page_g))).
  intros enc.
  generalize (compressed_page_size_of ck_g page_g bytes_written).
  intros cps.
  generalize (hdr_start_of ck_g page_g). intros start.
  pose proof (ewrote_start m start) as W0.
  destruct (Planner.page_type page_g) eqn:Et.
  - pose proof (ewrote_int32 _ _ _ _ _ 1 (page_type_code Planner.DATA_PAGE) 1
                  W0 eq_refl ltac:(lia)) as W1.
    pose proof (ewrote_int32 _ _ _ _ _ 2 (Planner.max_data_size page_g) 1 W1
                  eq_refl ltac:(lia)) as W2.
    pose proof (ewrote_int32 _ _ _ _ _ 3 cps 1 W2 eq_refl ltac:(lia)) as W3.
    pose proof (ewrote_struct_begin _ _ _ _ _ 5 2 W3 eq_refl ltac:(lia)) as W4.
    pose proof (ewrote_int32 _ _ _ _ _ 1 (Planner.pg_num_values page_g) 1 W4
                  eq_refl ltac:(lia)) as W5.
    pose proof (ewrote_int32 _ _ _ _ _ 2 enc 1 W5 eq_refl ltac:(lia)) as W6.
    pose proof (ewrote_int32 _ _ _ _ _ 3 (encoding_code RLE) 1 W6 eq_refl
                  ltac:(lia)) as W7.
    pose proof (ewrote_int32 _ _ _ _ _ 4 (encoding_code RLE) 1 W7 eq_refl
                  ltac:(lia)) as W8.
    destruct page_stats as [ps|].
    + pose proof (ewrote_struct_begin _ _ _ _ _ 5 1 W8 eq_refl ltac:(lia))
        as W9.
      pose proof (ewrote_stats _ _ _ _ _ ps W9 OK) as W10.
      destruct (EncodeStatistics _ _ _ _ _) as [m' p'].
      cbn [fst snd] in W10.
      pose proof (ewrote_struct_end _ _ _ _ _ 5 W10) as W11.
      pose proof (ewrote_struct_end _ _ _ _ _ 5 W11) as W12.
      pose proof (ewrote_end _ _ _ _ _ W12) as W13.
      norm_app_in W13. norm_app. exact W13.
    + pose proof (ewrote_struct_end _ _ _ _ _ 5 W8) as W12.
      pose proof (ewrote_end _ _ _ _ _ W12) as W13.
      norm_app_in W13. norm_app. exact W13.
  - pose proof (ewrote_int32 _ _ _ _ _ 1 (page_type_code Planner.INDEX_PAGE) 1
                  W0 eq_refl ltac:(lia)) as W1.
    pose proof (ewrote_int32 _ _ _ _ _ 2 (Planner.max_data_size page_g) 1 W1
                  eq_refl ltac:(lia)) as W2.
    pose proof (ewrote_int32 _ _ _ _ _ 3 cps 1 W2 eq_refl ltac:(lia)) as W3.
    pose proof (ewrote_struct_begin _ _ _ _ _ 7 4 W3 eq_refl ltac:(lia)) as W4.
    pose proof (ewrote_int32 _ _ _ _ _ 1 (num_dict_entries ck_g) 1 W4
                  eq_refl ltac:(lia)) as W5.
    pose proof (ewrote_int32 _ _ _ _ _ 2 enc 1 W5 eq_refl ltac:(lia)) as W6.
    pose proof (ewrote_struct_end _ _ _ _ _ 7 W6) as W7.
    pose proof (ewrote_end _ _ _ _ _ W7) as W8.
    norm_app_in W8. norm_app. exact W8.
  - pose proof (ewrote_int32 _ _ _ _ _ 1
                  (page_type_code Planner.DICTIONARY_PAGE) 1
                  W0 eq_refl ltac:(lia)) as W1.
    pose proof (ewrote_int32 _ _ _ _ _ 2 (Planner.max_data_size page_g) 1 W1
                  eq_refl ltac:(lia)) as W2.
    pose proof (ewrote_int32 _ _ _ _ _ 3 cps 1 W2 eq_refl ltac:(lia)) as W3.
    pose proof (ewrote_struct_begin _ _ _ _ _ 7 4 W3 eq_refl ltac:(lia)) as W4.
    pose proof (ewrote_int32 _ _ _ _ _ 1 (num_dict_entries ck_g) 1 W4
                  eq_refl ltac:(lia)) as W5.
    pose proof (ewrote_int32 _ _ _ _ _ 2 enc 1 W5 eq_refl ltac:(lia)) as W6.
    pose proof (ewrote_struct_end _ _ _ _ _ 7 W6) as W7.
    pose proof (ewrote_end _ _ _ _ _ W7) as W8.
    norm_app_in W8. norm_app. exact W8.
Qed.

(** *** The reader on the bytes of the header *)

Lemma value_of_small dtype v :
  length (raw v) = 16%nat ->
  Z.of_nat (length (str_val v)) < 2 ^ 32 ->
  (forall bs, length (double_to_float bs) = 4%nat) ->
  0 <= snd (value_of double_to_float dtype v) < 2 ^ 32.
Proof.
  intros Hr Hs Hf. unfold value_of. destruct (is_string dtype); cbn [fst snd].
  - lia.
  - destruct (is_float32 dtype); cbn [fst snd];
      destruct dtype; cbn [dtype_len]; lia.
Qed.

Lemma read_stats fuel ps tl :
  stats_ok double_to_float ps ->
  read_fields (S (S (S (S fuel)))) 0
    (stat_bytes double_to_float ps (stats_dtype ck_g) ++ Byte.x00 :: tl)
  = Some (stat_tree double_to_float ck_g ps, tl).
Proof.
  intros (Hn & Hmin & Hmax & Hsmin & Hsmax & Hf).
  unfold stat_bytes, stat_tree. norm_app.
  change (byte.of_Z 54) with (byte.of_Z (Z.lor (Z.shiftl 3 4) ST_FLD_I64)).
  rewrite read_int64 by lia. change (0 + 3) with 3.
  destruct (has_minmax ps).
  - pose proof (value_of_fits (stats_dtype ck_g) _ Hmin Hf) as [_ Hl2].
    pose proof (value_of_fits (stats_dtype ck_g) _ Hmax Hf) as [_ Hl4].
    pose proof (value_of_small (stats_dtype ck_g) _ Hmin Hsmin Hf) as Hl1.
    pose proof (value_of_small (stats_dtype ck_g) _ Hmax Hsmax Hf) as Hl3.
    cbv zeta. norm_app.
    change (byte.of_Z 40)
      with (byte.of_Z (Z.lor (Z.shiftl 2 4) ST_FLD_BINARY)).
    rewrite read_binary by (assumption || lia).
    change (byte.of_Z 24)
      with (byte.of_Z (Z.lor (Z.shiftl 1 4) ST_FLD_BINARY)).
    rewrite read_binary by (assumption || lia).
    rewrite read_fields_stop. reflexivity.
  - cbn [app]. rewrite read_fields_stop. reflexivity.
Qed.

Lemma read_header page_g bytes_written page_stats tl :
  opt_ok double_to_float page_stats ->
  read_fields 16 0
    (header_bytes enable_bool_rle double_to_float ck_g page_g bytes_written
                  page_stats ++ tl)
  = Some (header_tree enable_bool_rle double_to_float ck_g page_g
                      bytes_written page_stats, tl).
Proof.
  intros OK. unfold header_bytes, header_tree. cbv zeta.
  set (enc := encoding_code (page_encoding enable_bool_rle ck_g
                                           (Planner.page_type page_g))).
  assert (Henc : s32 enc = enc).
  { apply s32_small. unfold enc.
    destruct (page_encoding _ _ _); cbn [encoding_code]; lia. }
  assert (Hty : s32 (page_type_code (Planner.page_type page_g))
                = page_type_code (Planner.page_type page_g)).
  { apply s32_small. destruct (Planner.page_type page_g);
      cbn [page_type_code]; lia. }
  norm_app.
  rewrite !read_int32 by lia. rewrite Hty.
  destruct (Planner.page_type page_g).
  - norm_app. rewrite read_struct_field by lia.
    rewrite !read_int32 by lia. rewrite Henc.
    change (s32 (encoding_code RLE)) with 3.
    destruct page_stats as [ps|].
    + norm_app. rewrite read_struct_field by lia.
      rewrite (read_stats _ ps) by exact OK.
      rewrite !read_fields_stop. reflexivity.
    + norm_app. rewrite !read_fields_stop. reflexivity.
  - norm_app. rewrite read_struct_field by lia.
    rewrite !read_int32 by lia. rewrite Henc.
    rewrite !read_fields_stop. reflexivity.
  - norm_app. rewrite read_struct_field by lia.
    rewrite !read_int32 by lia. rewrite Henc.
    rewrite !read_fields_stop. reflexivity.
Qed.

(** *** The size of the header *)

Lemma binary_field_length v len :
  0 <= len < 2 ^ 32 -> (Z.to_nat len <= length v)%nat ->
  Z.of_nat (length (vlq_bytes 4 (u32 len) ++ firstn (Z.to_nat len) v))
  <= 5 + len
  /\ (len <= 127 ->
      Z.of_nat (length (vlq_bytes 4 (u32 len) ++ firstn (Z.to_nat len) v))
      = 1 + len).
Proof.
  intros Hl Hv. rewrite length_app, length_firstn, Nat.min_l by exact Hv.
  rewrite u32_small by lia. split.
  - pose proof (vlq_bytes_length 4 len). lia.
  - intros Hs. rewrite vlq_bytes_one by lia. cbn [length]. lia.
Qed.

(** The statistics take at most 18 bytes and the two strings, or 10 bytes
    and the two values of fixed size. *)
Lemma stat_bytes_length ps :
  stats_ok double_to_float ps ->
  Z.of_nat (length (stat_bytes double_to_float ps (stats_dtype ck_g)))
  <= if is_string (stats_dtype ck_g)
     then 18 + Z.of_nat (length (str_val (min_value ps)))
             + Z.of_nat (length (str_val (max_value ps)))
     else 10 + 2 * dtype_len (stats_dtype ck_g).
Proof.
  intros (Hn & Hmin & Hmax & Hsmin & Hsmax & Hf).
  unfold stat_bytes.
  assert (Hnull : (length (vlq_bytes 9 (u64 (zigzag (null_count ps))))
                   <= 5)%nat).
  { apply (vlq_bytes_short 9 _ 4). rewrite zigzag_nonneg by lia.
    unfold u64. rewrite Z.mod_small by lia.
    change (2 ^ (7 * Z.of_nat 5)) with (2 ^ 35). lia. }
  assert (Hpos : 0 <= dtype_len (stats_dtype ck_g) <= 16)
    by (destruct (stats_dtype ck_g); cbn [dtype_len]; lia).
  destruct (has_minmax ps).
  - pose proof (value_of_fits (stats_dtype ck_g) _ Hmin Hf) as [_ Hl2].
    pose proof (value_of_fits (stats_dtype ck_g) _ Hmax Hf) as [_ Hl4].
    pose proof (value_of_small (stats_dtype ck_g) _ Hmin Hsmin Hf) as Hl1.
    pose proof (value_of_small (stats_dtype ck_g) _ Hmax Hsmax Hf) as Hl3.
    destruct (binary_field_length _ _ Hl1 Hl2) as [B1 B1'].
    destruct (binary_field_length _ _ Hl3 Hl4) as [B2 B2'].
    cbv zeta. rewrite !length_app in *. cbn [length] in *.
    unfold value_of in *.
    destruct (is_string (stats_dtype ck_g)); cbn [fst snd] in *; [lia|].
    assert (E : forall v, snd (if is_float32 (stats_dtype ck_g)
                               then (double_to_float (firstn 8 (raw v)),
                                     dtype_len (stats_dtype ck_g))
                               else (raw v, dtype_len (stats_dtype ck_g)))
                          = dtype_len (stats_dtype ck_g))
      by (intros v; destruct (is_float32 _); reflexivity).
    rewrite !E in *. lia.
  - rewrite !length_app. cbn [length].
    destruct (is_string (stats_dtype ck_g)); lia.
Qed.

(** The header without statistics takes at most 29 bytes for a data page
    and 25 bytes for a dictionary page; page statistics add their bytes and
    two. *)
Lemma header_bytes_length page_g bytes_written page_stats :
  Z.of_nat (length (header_bytes enable_bool_rle double_to_float ck_g page_g
                                 bytes_written page_stats))
  <= match Planner.page_type page_g, page_stats with
     | Planner.DATA_PAGE, Some ps =>
         31 + Z.of_nat (length (stat_bytes double_to_float ps
                                           (stats_dtype ck_g)))
     | Planner.DATA_PAGE, None => 29
     | _, _ => 25
     end.
Proof.
  unfold header_bytes. cbv zeta.
  set (enc := encoding_code (page_encoding enable_bool_rle ck_g
                                           (Planner.page_type page_g))).
  assert (Henc : length (int32_field 1 enc) = 2%nat).
  { apply int32_field_small. unfold enc.
    destruct (page_encoding _ _ _); cbn [encoding_code]; lia. }
  assert (Hty : length (int32_field 1 (page_type_code
                                         (Planner.page_type page_g)))
                = 2%nat).
  { apply int32_field_small. destruct (Planner.page_type page_g);
      cbn [page_type_code]; lia. }
  assert (Hrle : length (int32_field 1 (encoding_code RLE)) = 2%nat)
    by (apply int32_field_small; cbn [encoding_code]; lia).
  pose proof (int32_field_length 1 (Planner.max_data_size page_g)).
  pose proof (int32_field_length 1
                (compressed_page_size_of ck_g page_g bytes_written)).
  pose proof (int32_field_length 1 (Planner.pg_num_values page_g)).
  pose proof (int32_field_length 1 (num_dict_entries ck_g)).
  destruct (Planner.page_type page_g); [destruct page_stats|..];
    rewrite !length_app, ?Hty, ?Henc, ?Hrle; unfold struct_field;
    cbn [length]; lia.
Qed.

End Facts.

Lemma u32_le x : 0 <= x -> 0 <= u32 x <= x.
Proof.
  intros H. unfold u32. pose proof (Z.mod_pos_bound x (2 ^ 32)).
  pose proof (Z.mod_le x (2 ^ 32)). lia.
Qed.

(** X1: the header that [gpuEncodePageHeaders] writes for a page is read
    back by a reader of the Thrift compact protocol as the page type, the
    uncompressed and the compressed size, and the data page header (number
    of values, encoding, RLE for both level encodings, and the page
    statistics when they are given) or the dictionary page header (number of
    entries, encoding); [hdr_size] is the length of that header.  For a
    compressed chunk the compressed size is the number of bytes the
    compressor reported, and it becomes the [max_data_size] of the page. *)
Theorem page_header_round_trip (enable_bool_rle : bool)
    (double_to_float : list byte -> list byte) (ck_g : chunk_view)
    (page_g : Planner.EncPage) (first_page : bool) (bytes_written : Z)
    (page_stats chunk_stats : option statistics_chunk) (m : mem)
    (tl : list byte) :
  opt_ok double_to_float page_stats ->
  match page_stats with
  | Some ps => Z.of_nat (length (str_val (min_value ps)))
               + Z.of_nat (length (str_val (max_value ps))) < 2 ^ 31
  | None => True
  end ->
  let r := gpuEncodePageHeaders enable_bool_rle double_to_float ck_g page_g
             first_page bytes_written page_stats chunk_stats m in
  read_fields 16 0
    (load_bytes (res_mem r) (hdr_start_of ck_g page_g)
                (Z.to_nat (Planner.hdr_size (res_page r))) ++ tl)
  = Some (header_tree enable_bool_rle double_to_float ck_g page_g
                      bytes_written page_stats, tl)
  /\ Planner.max_data_size (res_page r)
     = (if is_compressed ck_g then u32 bytes_written
        else Planner.max_data_size page_g).
Proof.
  intros OK Hshort r.
  unfold r, gpuEncodePageHeaders.
  destruct (chunk_statistics _ _ _ _ _) as [m0 ss].
  pose proof (encode_header_wrote enable_bool_rle double_to_float ck_g page_g
                bytes_written page_stats m0 OK) as (P & L & _).
  pose proof (header_bytes_length enable_bool_rle double_to_float ck_g page_g
                bytes_written page_stats) as Hlen.
  destruct (encode_header _ _ _ _ _ _ _) as [m1 hdr_end].
  cbn [fst snd res_mem res_page Planner.hdr_size Planner.max_data_size] in *.
  split; [|reflexivity].
  assert (Hsmall : Z.of_nat (length (header_bytes enable_bool_rle
                     double_to_float ck_g page_g bytes_written page_stats))
                   < 2 ^ 32).
  { destruct (Planner.page_type page_g); try lia.
    destruct page_stats as [ps|]; [|lia].
    pose proof (stat_bytes_length double_to_float ck_g ps OK) as Hs.
    pose proof (dtype_len_range (stats_dtype ck_g)).
    destruct (is_string (stats_dtype ck_g)); lia. }
  rewrite P.
  replace (hdr_start_of ck_g page_g + Z.of_nat (length _)
           - hdr_start_of ck_g page_g)
    with (Z.of_nat (length (header_bytes enable_bool_rle double_to_float ck_g
                              page_g bytes_written page_stats))) by lia.
  rewrite u32_small, Nat2Z.id, L by lia.
  apply read_header. exact OK.
Qed.

Lemma page_header_round_trip_witness :
  opt_ok ex_narrow (Some ex_stats)
  /\ header_tree true ex_narrow ex_chunk ex_page 0 (Some ex_stats)
     = [ (1, TInt 0); (2, TInt 4096); (3, TInt 4096);
         (5, TStruct
               [ (1, TInt 1000); (2, TInt 0); (3, TInt 3); (4, TInt 3);
                 (5, TStruct
                       [ (3, TInt 2);
                         (5, TBytes [Byte.x02; Byte.x01; Byte.x00; Byte.x00]);
                         (6, TBytes [Byte.x01; Byte.x00; Byte.x00; Byte.x00])
                       ]) ]) ]
  /\ read_fields 16 0
       (load_bytes
          (res_mem (gpuEncodePageHeaders true ex_narrow ex_chunk ex_page
                      false 0 (Some ex_stats) None (fun _ => Byte.xff)))
          (hdr_start_of ex_chunk ex_page)
          (Z.to_nat
             (Planner.hdr_size
                (res_page (gpuEncodePageHeaders true ex_narrow ex_chunk
                             ex_page false 0 (Some ex_stats) None
                             (fun _ => Byte.xff)))))
        ++ [])
     = Some (header_tree true ex_narrow ex_chunk ex_page 0 (Some ex_stats),
             []).
Proof.
  assert (OK : opt_ok ex_narrow (Some ex_stats)).
  { unfold opt_ok, stats_ok. repeat split; try (vm_compute; congruence). }
  split; [exact OK|]. split; [vm_compute; reflexivity|].
  refine (proj1 (page_header_round_trip true ex_narrow ex_chunk ex_page
                   false 0 (Some ex_stats) None (fun _ => Byte.xff) [] OK _)).
  vm_compute. reflexivity.
Defined.

(** X2: without page statistics the header of a data page takes at most
    29 bytes and that of a dictionary page at most 25, so it stays inside
    the 32 bytes that [gpuInitPages] reserves for it; and for a page that is
    not the first of its chunk the kernel changes no byte outside
    [hdr_start, hdr_start + hdr_size) and leaves the size of the chunk
    statistics alone. *)
Theorem page_header_plain_size (enable_bool_rle : bool)
    (double_to_float : list byte -> list byte) (ck_g : chunk_view)
    (page_g : Planner.EncPage) (bytes_written : Z)
    (chunk_stats : option statistics_chunk) (m : mem) :
  (forall first_page,
     0 <= Planner.hdr_size
            (res_page (gpuEncodePageHeaders enable_bool_rle double_to_float
                         ck_g page_g first_page bytes_written None
                         chunk_stats m))
       <= match Planner.page_type page_g with
          | Planner.DATA_PAGE => 29
          | _ => 25
          end)
  /\ (let r := gpuEncodePageHeaders enable_bool_rle double_to_float ck_g
                 page_g false bytes_written None chunk_stats m in
      res_ck_stat_size r = None
      /\ forall x,
           x < hdr_start_of ck_g page_g
           \/ hdr_start_of ck_g page_g + Planner.hdr_size (res_page r) <= x ->
           res_mem r x = m x).
Proof.
  assert (Hb : forall m0,
            let e := encode_header enable_bool_rle double_to_float ck_g page_g
                       bytes_written None m0 in
            0 <= u32 (snd e - hdr_start_of ck_g page_g)
              <= match Planner.page_type page_g with
                 | Planner.DATA_PAGE => 29
                 | _ => 25
                 end
            /\ snd e
               = hdr_start_of ck_g page_g
                 + u32 (snd e - hdr_start_of ck_g page_g)
            /\ forall x, x < hdr_start_of ck_g page_g \/ snd e <= x ->
                         fst e x = m0 x).
  { intros m0 e.
    pose proof (encode_header_wrote enable_bool_rle double_to_float ck_g
                  page_g bytes_written None m0 I) as (P & _ & F).
    pose proof (header_bytes_length enable_bool_rle double_to_float ck_g
                  page_g bytes_written None) as Hlen.
    fold e in P, F.
    assert (E : snd e - hdr_start_of ck_g page_g
                = Z.of_nat (length (header_bytes enable_bool_rle
                     double_to_float ck_g page_g bytes_written None)))
      by lia.
    rewrite E, u32_small by (destruct (Planner.page_type page_g); lia).
    split; [destruct (Planner.page_type page_g); lia|].
    split; [lia|exact F]. }
  split.
  - intros first_page. unfold gpuEncodePageHeaders.
    destruct (chunk_statistics _ _ _ _ _) as [m0 ss].
    specialize (Hb m0). cbv zeta in Hb.
    destruct (encode_header _ _ _ _ _ _ _) as [m1 hdr_end].
    cbn [fst snd res_page Planner.hdr_size] in *. apply Hb.
  - cbv zeta. unfold gpuEncodePageHeaders.
    assert (E : chunk_statistics double_to_float ck_g false chunk_stats m
                = (m, None))
      by (unfold chunk_statistics; destruct chunk_stats; reflexivity).
    rewrite E. specialize (Hb m). cbv zeta in Hb.
    destruct (encode_header _ _ _ _ _ _ _) as [m1 hdr_end].
    cbn [fst snd res_page res_mem res_ck_stat_size Planner.hdr_size] in *.
    destruct Hb as (_ & P & F).
    split; [reflexivity|]. intros x Hx. apply F. lia.
Qed.

(** X3: with page statistics the header of a data page stays inside the
    bytes that [gpuInitPages] reserves for it ([32 + 16 + 15 + 2 * len] for
    strings no longer than [len], [32 + 16 + 30] for the types from
    [dtype_int64] on and [32 + 16 + 15] for the others), and writing the
    header changes no byte from [hdr_start + hdr_size] on: those bytes are
    as the chunk statistics step left them. *)
Theorem page_header_stats_fit (enable_bool_rle : bool)
    (double_to_float : list byte -> list byte) (ck_g : chunk_view)
    (page_g : Planner.EncPage) (first_page : bool) (bytes_written : Z)
    (ps : statistics_chunk) (chunk_stats : option statistics_chunk) (m : mem)
    (col_g : Planner.column_desc) (pck : Planner.EncColumnChunk)
    (max_stats_len : Z) :
  stats_ok double_to_float ps ->
  Planner.page_type page_g = Planner.DATA_PAGE ->
  Planner.stats pck <> None ->
  Planner.stats_is_string col_g = is_string (stats_dtype ck_g) ->
  (stats_dtype ck_g = dtype_decimal128 ->
   Planner.stats_ge_int64 col_g = true) ->
  Z.of_nat (length (str_val (min_value ps))) <= max_stats_len ->
  Z.of_nat (length (str_val (max_value ps))) <= max_stats_len ->
  max_stats_len < 2 ^ 30 ->
  let r := gpuEncodePageHeaders enable_bool_rle double_to_float ck_g page_g
             first_page bytes_written (Some ps) chunk_stats m in
  0 <= Planner.hdr_size (res_page r)
    <= Planner.data_max_hdr_size col_g pck max_stats_len
  /\ forall x,
       hdr_start_of ck_g page_g + Planner.hdr_size (res_page r) <= x ->
       res_mem r x
       = fst (chunk_statistics double_to_float ck_g first_page chunk_stats m)
             x.
Proof.
  intros OK Et Hst Hstr Hdec Hmin Hmax Hmsl r.
  unfold r, gpuEncodePageHeaders.
  destruct (chunk_statistics _ _ _ _ _) as [m0 ss].
  pose proof (encode_header_wrote enable_bool_rle double_to_float ck_g page_g
                bytes_written (Some ps) m0 OK) as (P & _ & F).
  pose proof (header_bytes_length enable_bool_rle double_to_float ck_g page_g
                bytes_written (Some ps)) as Hlen.
  rewrite Et in Hlen.
  pose proof (stat_bytes_length double_to_float ck_g ps OK) as Hs.
  destruct (encode_header _ _ _ _ _ _ _) as [m1 hdr_end].
  cbn [fst snd res_mem res_page Planner.hdr_size] in *.
  assert (E : hdr_end - hdr_start_of ck_g page_g
              = Z.of_nat (length (header_bytes enable_bool_rle
                   double_to_float ck_g page_g bytes_written (Some ps))))
    by lia.
  pose proof (dtype_len_range (stats_dtype ck_g)) as Hd.
  assert (Hbound : Z.of_nat (length (header_bytes enable_bool_rle
                      double_to_float ck_g page_g bytes_written (Some ps)))
                   <= Planner.data_max_hdr_size col_g pck max_stats_len).
  { unfold Planner.data_max_hdr_size.
    destruct (Planner.stats pck); [|congruence].
    rewrite Hstr. destruct (is_string (stats_dtype ck_g)) eqn:Es; [lia|].
    destruct (Planner.stats_ge_int64 col_g) eqn:Eg; [lia|].
    assert (dtype_len (stats_dtype ck_g) <= 8).
    { destruct (stats_dtype ck_g); cbn [dtype_len]; try lia.
      specialize (Hdec eq_refl). congruence. }
    lia. }
  assert (Hsmall : Z.of_nat (length (header_bytes enable_bool_rle
                      double_to_float ck_g page_g bytes_written (Some ps)))
                   < 2 ^ 32)
    by (destruct (is_string (stats_dtype ck_g)); lia).
  rewrite E, u32_small by lia.
  split; [lia|]. intros x Hx. apply F. lia.
Qed.

Lemma page_header_stats_fit_witness :
  stats_ok ex_narrow ex_stats
  /\ Planner.data_max_hdr_size ex_stat_col ex_stat_chunk 0 = 63
  /\ 0 <= Planner.hdr_size
            (res_page (gpuEncodePageHeaders true ex_narrow ex_chunk ex_page
                         false 0 (Some ex_stats) None (fun _ => Byte.xff)))
       <= Planner.data_max_hdr_size ex_stat_col ex_stat_chunk 0.
Proof.
  assert (OK : stats_ok ex_narrow ex_stats).
  { unfold stats_ok. repeat split; try (vm_compute; congruence). }
  split; [exact OK|]. split; [reflexivity|].
  refine (proj1 (page_header_stats_fit true ex_narrow ex_chunk ex_page false 0
                   ex_stats None (fun _ => Byte.xff) ex_stat_col
                   ex_stat_chunk 0 OK eq_refl _ eq_refl _ _ _ _)).
  - discriminate.
  - discriminate.
  - vm_compute. discriminate.
  - vm_compute. discriminate.
  - reflexivity.
Defined.

(** X4: the block of the first page of a chunk with chunk statistics
    writes them at the start of the chunk buffer; they take at most
    [48 + 2 * len] bytes when the strings are no longer than [len], which is
    what [gpuInitPages] reserves, and at most 42 bytes for the other types;
    the size is stored as [ck_stat_size], and when the header of the page
    starts after them a reader finds the null count, the maximum and the
    minimum in them once a stop byte follows. *)
Theorem chunk_statistics_size (enable_bool_rle : bool)
    (double_to_float : list byte -> list byte) (ck_g : chunk_view)
    (page_g : Planner.EncPage) (bytes_written : Z)
    (page_stats : option statistics_chunk) (cs : statistics_chunk) (m : mem)
    (len : Z) (tl : list byte) :
  stats_ok double_to_float cs ->
  opt_ok double_to_float page_stats ->
  Z.of_nat (length (str_val (min_value cs))) <= len ->
  Z.of_nat (length (str_val (max_value cs))) <= len ->
  len < 2 ^ 30 ->
  let r := gpuEncodePageHeaders enable_bool_rle double_to_float ck_g page_g
             true bytes_written page_stats (Some cs) m in
  let bfr := if is_compressed ck_g then compressed_bfr ck_g
             else uncompressed_bfr ck_g in
  exists n,
    res_ck_stat_size r = Some n
    /\ 0 <= n <= 48 + 2 * len
    /\ (is_string (stats_dtype ck_g) = false -> n <= 42)
    /\ (bfr + n <= hdr_start_of ck_g page_g ->
        read_fields 4 0
          (load_bytes (res_mem r) bfr (Z.to_nat n) ++ Byte.x00 :: tl)
        = Some (stat_tree double_to_float ck_g cs, tl)).
Proof.
  intros OK OKp Hmin Hmax Hlen r bfr.
  unfold r, gpuEncodePageHeaders, chunk_statistics. fold bfr.
  pose proof (EncodeStatistics_wrote double_to_float m bfr cs
                (stats_dtype ck_g) OK) as (P & L & _).
  pose proof (stat_bytes_length double_to_float ck_g cs OK) as Hs.
  pose proof (dtype_len_range (stats_dtype ck_g)) as Hd.
  destruct (EncodeStatistics _ _ _ _ _) as [m0 hdr_end].
  pose proof (encode_header_wrote enable_bool_rle double_to_float ck_g page_g
                bytes_written page_stats m0 OKp) as (_ & _ & F).
  destruct (encode_header _ _ _ _ _ _ _) as [m1 hdr_end1].
  cbn [fst snd res_mem res_ck_stat_size] in *.
  set (n := Z.of_nat (length (stat_bytes double_to_float cs
                                         (stats_dtype ck_g)))) in *.
  assert (E : hdr_end - bfr = n) by lia.
  assert (Hn : 0 <= n <= 48 + 2 * len /\
               (is_string (stats_dtype ck_g) = false -> n <= 42)).
  { destruct (is_string (stats_dtype ck_g)); split; try lia;
      discriminate. }
  exists n. rewrite E, u32_small by lia.
  split; [reflexivity|]. split; [apply Hn|]. split; [apply Hn|].
  intros Hsep. unfold n. rewrite Nat2Z.id.
  replace (load_bytes m1 bfr _)
    with (stat_bytes double_to_float cs (stats_dtype ck_g)).
  - apply (read_stats double_to_float ck_g 0 cs tl OK).
  - rewrite <- L at 1. apply load_bytes_ext. intros x Hx.
    symmetry. apply F. left. fold n in Hx. lia.
Qed.

Lemma chunk_statistics_size_witness :
  stats_ok ex_narrow ex_stats
  /\ exists n,
       res_ck_stat_size
         (gpuEncodePageHeaders true ex_narrow ex_chunk ex_page true 0 None
            (Some ex_stats) (fun _ => Byte.xff)) = Some n
       /\ 0 <= n <= 48 + 2 * 0.
Proof.
  assert (OK : stats_ok ex_narrow ex_stats).
  { unfold stats_ok. repeat split; try (vm_compute; congruence). }
  split; [exact OK|].
  assert (H0 : Z.of_nat (length (str_val (min_value ex_stats))) <= 0)
    by (vm_compute; discriminate).
  assert (H0' : Z.of_nat (length (str_val (max_value ex_stats))) <= 0)
    by (vm_compute; discriminate).
  assert (Hl : 0 < 2 ^ 30) by reflexivity.
  destruct (chunk_statistics_size true ex_narrow ex_chunk ex_page 0 None
              ex_stats (fun _ => Byte.xff) 0 [] OK I H0 H0' Hl)
    as (n & H1 & H2 & _).
  exists n. split; [exact H1|exact H2].
Defined.

(** *** Variable-length integers and field headers *)

Lemma vlq_bytes_long fuel v : 127 < v -> (2 <= length (vlq_bytes (S fuel) v))%nat.
Proof.
  intros H. cbn [vlq_bytes]. destruct (Z.gtb_spec v 127); [|lia].
  cbn [length]. pose proof (vlq_bytes_length fuel (Z.shiftr v 7)). lia.
Qed.

(** X5: [VlqEncode] writes an unsigned 32-bit integer on one to five
    bytes, one byte exactly when the value is below 128; the bytes are read
    back as the value, and nothing else in the buffer is changed.
    [cpw_put_uint32] writes the same bytes. *)
Theorem vlq_round_trip (m : mem) (p v : Z) (tl : list byte) :
  0 <= v < 2 ^ 32 ->
  let r := VlqEncode m p v in
  let n := Z.to_nat (snd r - p) in
  (1 <= n <= 5)%nat
  /\ (n = 1%nat <-> v < 128)
  /\ read_vlq 5 0 0 (load_bytes (fst r) p n ++ tl) = Some (v, tl)
  /\ (forall x, x < p \/ snd r <= x -> fst r x = m x)
  /\ load_bytes (fst (cpw_put_uint32 m p v)) p n = load_bytes (fst r) p n
  /\ snd (cpw_put_uint32 m p v) = snd r.
Proof.
  intros Hv r n.
  destruct (VlqEncode_loop_spec 4 m p v) as (P & L & F).
  destruct (cpw_put_loop_spec 4 m p (u32 v)) as (P' & L' & _).
  rewrite (u32_small v) in P', L' by lia.
  fold (VlqEncode m p v) in P, L, F. fold r in P, L, F.
  assert (En : n = length (vlq_bytes 4 v)) by (unfold n; lia).
  pose proof (vlq_bytes_length 4 v) as Hl.
  rewrite En. split; [lia|]. split.
  - split.
    + intros H1. destruct (Z.lt_ge_cases v 128); [assumption|].
      pose proof (vlq_bytes_long 3 v ltac:(lia)). lia.
    + intros Hs. rewrite vlq_bytes_one by lia. reflexivity.
  - split; [|split; [exact F|]].
    2:{ unfold cpw_put_uint32. rewrite (u32_small v) by lia.
        split; [rewrite L, L'; reflexivity|lia]. }
    rewrite L, (vlq_bytes_read 4 v 0 0)
      by (change (2 ^ (7 * (Z.of_nat 4 + 1))) with (2 ^ 35); lia).
    rewrite Z.shiftl_0_r, Z.lor_0_l. reflexivity.
Qed.

Lemma vlq_round_trip_witness :
  0 <= 300 < 2 ^ 32
  /\ load_bytes (fst (VlqEncode (fun _ => Byte.x00) 8 300)) 8 2
     = [Byte.xac; Byte.x02]
  /\ read_vlq 5 0 0
       (load_bytes (fst (VlqEncode (fun _ => Byte.x00) 8 300)) 8
          (Z.to_nat (snd (VlqEncode (fun _ => Byte.x00) 8 300) - 8)) ++ [])
     = Some (300, []).
Proof.
  assert (H : 0 <= 300 < 2 ^ 32) by lia.
  split; [exact H|]. split; [vm_compute; reflexivity|].
  exact (proj1 (proj2 (proj2 (vlq_round_trip (fun _ => Byte.x00) 8 300 []
                                H)))).
Defined.

(** X6: [cpw_put_int32] writes a signed 32-bit integer in zigzag form on
    one to five bytes, one byte when the value is between -64 and 63; the
    bytes are read back as the value, and nothing else in the buffer is
    changed. *)
Theorem zigzag_round_trip (m : mem) (p v : Z) (tl : list byte) :
  - 2 ^ 31 <= v < 2 ^ 31 ->
  let r := cpw_put_int32 m p v in
  let n := Z.to_nat (snd r - p) in
  (1 <= n <= 5)%nat
  /\ (- 64 <= v < 64 -> n = 1%nat)
  /\ option_map (fun ur => (unzigzag (fst ur), snd ur))
                (read_vlq 5 0 0 (load_bytes (fst r) p n ++ tl))
     = Some (v, tl)
  /\ forall x, x < p \/ snd r <= x -> fst r x = m x.
Proof.
  intros Hv r n.
  destruct (cpw_put_loop_spec 4 m p (u32 (zigzag v))) as (P & L & F).
  fold (cpw_put_uint32 m p (zigzag v)) in P, L, F.
  fold (cpw_put_int32 m p v) in P, L, F. fold r in P, L, F.
  pose proof (zigzag_range32 v Hv) as Hz.
  rewrite (u32_small (zigzag v)) in P, L by lia.
  assert (En : n = length (vlq_bytes 4 (zigzag v))) by (unfold n; lia).
  pose proof (vlq_bytes_length 4 (zigzag v)) as Hl.
  rewrite En. split; [lia|]. split; [|split; [|exact F]].
  - intros Hs. rewrite vlq_bytes_one; [reflexivity|].
    destruct (Z.lt_ge_cases v 0).
    + rewrite zigzag_neg by assumption. lia.
    + rewrite zigzag_nonneg by assumption. lia.
  - rewrite L, (vlq_bytes_read 4 (zigzag v) 0 0)
      by (change (2 ^ (7 * (Z.of_nat 4 + 1))) with (2 ^ 35); lia).
    rewrite Z.shiftl_0_r, Z.lor_0_l. cbn [option_map fst snd].
    rewrite <- (u32_small (zigzag v)) by lia.
    rewrite zigzag32_round by exact Hv. reflexivity.
Qed.

Lemma zigzag_round_trip_witness :
  - 2 ^ 31 <= - 3 < 2 ^ 31
  /\ load_bytes (fst (cpw_put_int32 (fun _ => Byte.x00) 8 (- 3))) 8 1
     = [Byte.x05]
  /\ option_map (fun ur => (unzigzag (fst ur), snd ur))
       (read_vlq 5 0 0
          (load_bytes (fst (cpw_put_int32 (fun _ => Byte.x00) 8 (- 3))) 8
             (Z.to_nat (snd (cpw_put_int32 (fun _ => Byte.x00) 8 (- 3)) - 8))
           ++ []))
     = Some (- 3, []).
Proof.
  assert (H : - 2 ^ 31 <= - 3 < 2 ^ 31) by lia.
  split; [exact H|]. split; [vm_compute; reflexivity|].
  exact (proj1 (proj2 (proj2 (zigzag_round_trip (fun _ => Byte.x00) 8 (- 3) []
                                H)))).
Defined.

Lemma read_long_int32 fuel cur f v rest :
  - 2 ^ 31 <= f < 2 ^ 31 ->
  read_fields (S fuel) cur
    (byte.of_Z ST_FLD_I32 :: vlq_bytes 4 (u32 (zigzag f))
     ++ vlq_bytes 4 (u32 (zigzag (s32 v))) ++ rest)
  = match read_fields fuel f rest with
    | Some (fs, tl) => Some ((f, TInt (s32 v)) :: fs, tl)
    | None => None
    end.
Proof.
  intros Hf. rewrite read_fields_step.
  change (byte.unsigned (byte.of_Z ST_FLD_I32)) with 5. cbv zeta.
  change (5 =? 0) with false. change (Z.shiftr 5 4 =? 0) with true.
  change (Z.land 5 15) with ST_FLD_I32. cbv iota.
  pose proof (zigzag_range32 _ Hf) as Hz.
  rewrite (vlq_bytes_read 4 _ 0 0)
    by (rewrite ?u32_small by lia;
        change (2 ^ (7 * (Z.of_nat 4 + 1))) with (2 ^ 35); lia).
  rewrite Z.shiftl_0_r, Z.lor_0_l, zigzag32_round by exact Hf.
  unfold read_value. change (ST_FLD_I32 =? ST_FLD_I32) with true. cbv iota.
  pose proof (zigzag_range32 _ (s32_range v)) as Hz'.
  rewrite (vlq_bytes_read 4 _ 0 0)
    by (rewrite ?u32_small by lia;
        change (2 ^ (7 * (Z.of_nat 4 + 1))) with (2 ^ 35); lia).
  rewrite Z.shiftl_0_r, Z.lor_0_l, zigzag32_round by apply s32_range.
  reflexivity.
Qed.

(** X7: an integer field written by [field_int32] is read back with its
    field id and its 32-bit value whatever the previous field id was, so
    the short form of the field header (id 1 to 15 above the previous one)
    and the long form are both decoded; in the short form the header and
    the value take 2 to 6 bytes.  The encoder remembers the id as its last
    field and changes nothing outside the bytes it writes. *)
Theorem field_header_round_trip (e : header_encoder) (f v : Z) (fuel : nat)
    (rest : list byte) :
  - 2 ^ 31 <= f < 2 ^ 31 ->
  let e' := field_int32 f v e in
  let n := Z.to_nat (current_header_ptr e' - current_header_ptr e) in
  read_fields (S fuel) (current_field_index e)
    (load_bytes (buffer e') (current_header_ptr e) n ++ rest)
  = match read_fields fuel f rest with
    | Some (fs, tl) => Some ((f, TInt (s32 v)) :: fs, tl)
    | None => None
    end
  /\ current_field_index e' = f
  /\ (current_field_index e < f <= current_field_index e + 15 ->
      (2 <= n <= 6)%nat)
  /\ (forall x, x < current_header_ptr e \/ current_header_ptr e' <= x ->
                buffer e' x = buffer e x).
Proof.
  intros Hf e' n.
  destruct (Z.lt_ge_cases (current_field_index e) f) as [Hlo|Hlo];
    [destruct (Z.le_gt_cases f (current_field_index e + 15)) as [Hhi|Hhi]|].
  - (* short form *)
    destruct (ewrote_int32 (buffer e) (current_header_ptr e) e []
                (current_field_index e) f v (f - current_field_index e))
      as [(P & L & F) I1].
    + split; [apply wrote_nil|reflexivity].
    + lia.
    + lia.
    + fold e' in P, L, F, I1. cbn [fst snd app] in P, L, F.
      pose proof (int32_field_length (f - current_field_index e) v) as Hl.
      assert (En : n = length (int32_field (f - current_field_index e) v))
        by (unfold n; lia).
      rewrite En, L, read_int32 by lia.
      replace (current_field_index e + (f - current_field_index e)) with f
        by lia.
      split; [reflexivity|]. split; [exact I1|].
      split; [intros _; lia|exact F].
  - (* the id is too far above the previous one *)
    unfold n, e', field_int32.
    pose proof (wrote_fldh_long (buffer e) (current_header_ptr e) f
                  (current_field_index e) ST_FLD_I32 ltac:(lia)) as W1.
    destruct (cpw_put_fldh _ _ _ _ _) as [m1 p1].
    pose proof (wrote_vlq 4 m1 p1 (u32 (zigzag (s32 v)))) as W2.
    unfold cpw_put_int32, cpw_put_uint32.
    destruct (cpw_put_loop 4 m1 p1 _) as [m2 p2].
    cbn [buffer current_header_ptr current_field_index].
    destruct (wrote_trans _ _ _ _ _ _ W1 W2) as (P & L & F).
    cbn [fst snd] in P, L, F.
    set (bs := (byte.of_Z ST_FLD_I32 :: vlq_bytes 4 (u32 (zigzag f)))
               ++ vlq_bytes 4 (u32 (zigzag (s32 v)))) in *.
    replace (Z.to_nat (p2 - current_header_ptr e)) with (length bs) by lia.
    rewrite L. unfold bs. norm_app. rewrite read_long_int32 by exact Hf.
    split; [reflexivity|]. split; [reflexivity|]. split; [lia|].
    exact F.
  - (* the id is not above the previous one *)
    unfold n, e', field_int32.
    pose proof (wrote_fldh_long (buffer e) (current_header_ptr e) f
                  (current_field_index e) ST_FLD_I32 ltac:(lia)) as W1.
    destruct (cpw_put_fldh _ _ _ _ _) as [m1 p1].
    pose proof (wrote_vlq 4 m1 p1 (u32 (zigzag (s32 v)))) as W2.
    unfold cpw_put_int32, cpw_put_uint32.
    destruct (cpw_put_loop 4 m1 p1 _) as [m2 p2].
    cbn [buffer current_header_ptr current_field_index].
    destruct (wrote_trans _ _ _ _ _ _ W1 W2) as (P & L & F).
    cbn [fst snd] in P, L, F.
    set (bs := (byte.of_Z ST_FLD_I32 :: vlq_bytes 4 (u32 (zigzag f)))
               ++ vlq_bytes 4 (u32 (zigzag (s32 v)))) in *.
    replace (Z.to_nat (p2 - current_header_ptr e)) with (length bs) by lia.
    rewrite L. unfold bs. norm_app. rewrite read_long_int32 by exact Hf.
    split; [reflexivity|]. split; [reflexivity|]. split; [lia|].
    exact F.
Qed.

Lemma field_header_round_trip_witness :
  - 2 ^ 31 <= 40 < 2 ^ 31
  /\ load_bytes
       (buffer (field_int32 40 7 (encoder_start (fun _ => Byte.xff) 0))) 0 3
     = [Byte.x05; Byte.x50; Byte.x0e]
  /\ read_fields 2 0
       (load_bytes
          (buffer (field_int32 40 7 (encoder_start (fun _ => Byte.xff) 0)))
          (current_header_ptr (encoder_start (fun _ => Byte.xff) 0))
          (Z.to_nat
             (current_header_ptr
                (field_int32 40 7 (encoder_start (fun _ => Byte.xff) 0))
              - current_header_ptr (encoder_start (fun _ => Byte.xff) 0)))
        ++ [Byte.x00])
     = Some ([(40, TInt 7)], []).
Proof.
  assert (H : - 2 ^ 31 <= 40 < 2 ^ 31) by lia.
  split; [exact H|]. split; [vm_compute; reflexivity|].
  exact (proj1 (field_header_round_trip (encoder_start (fun _ => Byte.xff) 0)
                  40 7 1 [Byte.x00] H)).
Defined.

End HeaderFacts.

(** ** Fragments: rows, sizes and the encoder *)

Module FragmentFacts.
Import Rle Encode Fragments.

(** *** Sums over a range *)

Lemma sum_from_app f n1 : forall s n2,
  sum_from f s (n1 + n2)
  = sum_from f s n1 + sum_from f (s + Z.of_nat n1) n2.
Proof.
  induction n1 as [|n1 IH]; intros s n2.
  - cbn [sum_from Nat.add]. rewrite Z.add_0_r. reflexivity.
  - cbn [sum_from Nat.add]. rewrite IH.
    replace (s + 1 + Z.of_nat n1) with (s + Z.of_nat (S n1)) by lia. lia.
Qed.

Lemma sum_from_ext f g n : forall s,
  (forall k, (k < n)%nat -> f (s + Z.of_nat k) = g (s + Z.of_nat k)) ->
  sum_from f s n = sum_from g s n.
Proof.
  induction n as [|n IH]; intros s H; [reflexivity|].
  cbn [sum_from]. f_equal.
  - specialize (H O ltac:(lia)). rewrite Z.add_0_r in H. exact H.
  - apply IH. intros k Hk. specialize (H (S k) ltac:(lia)).
    replace (s + 1 + Z.of_nat k) with (s + Z.of_nat (S k)) by lia. exact H.
Qed.

Lemma sum_from_shift f n : forall s d,
  sum_from (fun t => f (d + t)) s n = sum_from f (d + s) n.
Proof.
  induction n as [|n IH]; intros s d; [reflexivity|].
  cbn [sum_from]. rewrite IH. f_equal. f_equal. lia.
Qed.

Lemma sum_from_zero f n : forall s,
  (forall k, (k < n)%nat -> f (s + Z.of_nat k) = 0) -> sum_from f s n = 0.
Proof.
  induction n as [|n IH]; intros s H; [reflexivity|].
  cbn [sum_from]. rewrite IH.
  - specialize (H O ltac:(lia)). rewrite Z.add_0_r in H. lia.
  - intros k Hk. specialize (H (S k) ltac:(lia)).
    replace (s + 1 + Z.of_nat k) with (s + Z.of_nat (S k)) by lia. exact H.
Qed.

Lemma sum_from_nonneg f n : forall s,
  (forall j, 0 <= f j) -> 0 <= sum_from f s n.
Proof.
  induction n as [|n IH]; intros s H; cbn [sum_from]; [lia|].
  specialize (IH (s + 1) H). specialize (H s). lia.
Qed.

Lemma sum_from_le f n1 n2 s :
  (forall j, 0 <= f j) -> (n1 <= n2)%nat ->
  sum_from f s n1 <= sum_from f s n2.
Proof.
  intros H Hn. replace n2 with (n1 + (n2 - n1))%nat by lia.
  rewrite sum_from_app.
  pose proof (sum_from_nonneg f (n2 - n1) (s + Z.of_nat n1) H). lia.
Qed.

(** The lanes below [cnt] hold the values from [s] on, the others
    nothing: their sum over [B] lanes. *)
Lemma sum_from_cut f s cnt B :
  0 <= cnt ->
  sum_from (fun t => if t <? cnt then f (s + t) else 0) 0 B
  = sum_from f s (Nat.min (Z.to_nat cnt) B).
Proof.
  intros Hc.
  destruct (Nat.le_ge_cases B (Z.to_nat cnt)) as [Hle|Hge].
  - rewrite Nat.min_r by exact Hle.
    transitivity (sum_from (fun t => f (s + t)) 0 B).
    + apply sum_from_ext. intros k Hk.
      destruct (Z.ltb_spec (0 + Z.of_nat k) cnt); [reflexivity|lia].
    + rewrite sum_from_shift, Z.add_0_r. reflexivity.
  - rewrite Nat.min_l by exact Hge.
    replace B with (Z.to_nat cnt + (B - Z.to_nat cnt))%nat at 1 by lia.
    rewrite sum_from_app.
    rewrite (sum_from_zero _ (B - Z.to_nat cnt)).
    + rewrite Z.add_0_r.
      transitivity (sum_from (fun t => f (s + t)) 0 (Z.to_nat cnt)).
      * apply sum_from_ext. intros k Hk.
        destruct (Z.ltb_spec (0 + Z.of_nat k) cnt); [reflexivity|lia].
      * rewrite sum_from_shift, Z.add_0_r. reflexivity.
    + intros k Hk.
      destruct (Z.ltb_spec (0 + Z.of_nat (Z.to_nat cnt) + Z.of_nat k) cnt);
        [lia|reflexivity].
Qed.

Lemma sum_lanes (x : Z -> Z) B : forall a,
  fold_right (fun t s => x t + s) 0 (map Z.of_nat (seq a B))
  = sum_from x (Z.of_nat a) B.
Proof.
  induction B as [|B IH]; intros a; [reflexivity|].
  cbn [seq map fold_right sum_from]. rewrite IH. f_equal. f_equal. lia.
Qed.

Lemma block_sum_total x : block_sum x = u32 (sum_from x 0 512).
Proof.
  unfold block_sum, block_lanes. change 0 with (u32 0) at 1.
  rewrite CompressionFacts.fold_u32_total, sum_lanes. reflexivity.
Qed.

Lemma block_total_sum x : block_total x = u32 (sum_from x 0 128).
Proof.
  unfold block_total, lanes. change 0 with (u32 0) at 1.
  rewrite CompressionFacts.fold_u32_total, sum_lanes. reflexivity.
Qed.

(** *** The size of the data of a fragment *)

Lemma physical_type_len_range t id : 1 <= physical_type_len t id <= 16.
Proof. destruct t, id; cbn [physical_type_len]; lia. Qed.

Section Sizes.

Variable col : column_view.

Lemma value_len_nonneg j : 0 <= value_len col j.
Proof.
  unfold value_len. destruct (nth _ _ _); [|lia].
  pose proof (physical_type_len_range (physical_type col) (leaf_type col)).
  cbv zeta. destruct (physical_type col); try lia.
  apply Z.mod_pos_bound. lia.
Qed.

Lemma leaf_len_nonneg j : 0 <= leaf_len col j.
Proof.
  unfold leaf_len. pose proof (value_len_nonneg j).
  destruct (j <? leaf_size col); lia.
Qed.

Lemma lane_len_eq nvals start i t :
  0 <= start -> 0 <= i -> 0 <= t < 512 -> start + i + 512 < 2 ^ 32 ->
  lane_len col nvals start i t
  = if t <? nvals - i then leaf_len col (start + i + t) else 0.
Proof.
  intros Hs Hi Ht Hw. unfold lane_len, leaf_len. cbv zeta.
  rewrite !u32_small by lia.
  destruct (Z.ltb_spec (i + t) nvals), (Z.ltb_spec t (nvals - i));
    try lia; reflexivity.
Qed.

Lemma block_sum_lanes nvals start i :
  0 <= start -> 0 <= i <= nvals -> start + i + 512 < 2 ^ 32 ->
  block_sum (lane_len col nvals start i)
  = u32 (sum_from (leaf_len col) (start + i)
                  (Nat.min (Z.to_nat (nvals - i)) 512)).
Proof.
  intros Hs Hi Hw. rewrite block_sum_total. f_equal.
  rewrite <- sum_from_cut by lia.
  apply sum_from_ext. intros k Hk.
  rewrite lane_len_eq by lia. rewrite Z.add_assoc. reflexivity.
Qed.

Lemma data_size_loop_spec nvals start : forall fuel i acc,
  0 <= start -> 0 <= i -> start + nvals + 1024 < 2 ^ 32 ->
  nvals - i <= 512 * Z.of_nat fuel ->
  data_size_loop col fuel nvals start i (u32 acc)
  = u32 (acc + sum_from (leaf_len col) (start + i) (Z.to_nat (nvals - i))).
Proof.
  induction fuel as [|fuel IH]; intros i acc Hs Hi Hw Hf.
  - cbn [data_size_loop]. replace (Z.to_nat (nvals - i)) with O by lia.
    cbn [sum_from]. rewrite Z.add_0_r. reflexivity.
  - cbn [data_size_loop]. destruct (Z.ltb_spec i nvals) as [Hlt|Hge].
    + rewrite block_sum_lanes by lia.
      rewrite CompressionFacts.u32_add_l, CompressionFacts.u32_add_r.
      unfold block_size. rewrite (u32_small (i + 512)) by lia.
      destruct (Z.le_gt_cases (nvals - i) 512) as [Hlast|Hmore].
      * rewrite Nat.min_l by lia.
        destruct fuel as [|fuel']; cbn [data_size_loop]; [reflexivity|].
        destruct (Z.ltb_spec (i + 512) nvals); [lia|reflexivity].
      * rewrite Nat.min_r by lia. rewrite IH by lia.
        f_equal. rewrite <- Z.add_assoc. f_equal.
        replace (Z.to_nat (nvals - i))
          with (512 + Z.to_nat (nvals - (i + 512)))%nat by lia.
        rewrite sum_from_app. f_equal. f_equal. lia.
    + replace (Z.to_nat (nvals - i)) with O by lia.
      cbn [sum_from]. rewrite Z.add_0_r. reflexivity.
Qed.

End Sizes.

(** *** The rows of the fragments *)

Lemma upper_bound_sorted l : forall p y,
  (forall a b, (a <= b < length l)%nat -> nth a l 0 <= nth b l 0) ->
  (p + 1 < length l)%nat ->
  nth p l 0 <= y < nth (p + 1) l 0 ->
  upper_bound l y = Z.of_nat p + 1.
Proof.
  induction l as [|x rest IH]; intros p y Hs Hp Hy; [cbn [length] in Hp; lia|].
  cbn [upper_bound].
  assert (Hx : x <= y).
  { specialize (Hs O p ltac:(cbn [length] in *; lia)). cbn [nth] in Hs.
    destruct p; cbn [nth] in *; lia. }
  destruct (Z.ltb_spec y x); [lia|].
  destruct p as [|p].
  - destruct rest as [|x1 rest]; [cbn [length] in Hp; lia|].
    cbn [nth Nat.add] in Hy. cbn [upper_bound].
    destruct (Z.ltb_spec y x1); [reflexivity|lia].
  - rewrite (IH p y).
    + lia.
    + intros a b Hab. apply (Hs (S a) (S b)). cbn [length]. lia.
    + cbn [length] in Hp. lia.
    + exact Hy.
Qed.

Lemma sum_from_snoc f s n :
  sum_from f s (S n) = sum_from f s n + f (s + Z.of_nat n).
Proof.
  replace (S n) with (n + 1)%nat by lia. rewrite sum_from_app.
  cbn [sum_from]. lia.
Qed.

Lemma sum_from_const c n : forall s, sum_from (fun _ => c) s n = Z.of_nat n * c.
Proof.
  induction n as [|n IH]; intros s; [reflexivity|].
  cbn [sum_from]. rewrite IH. lia.
Qed.

(** The rows of the first [j] fragments of a partition of [n] rows. *)
Lemma rows_prefix fs n o k : forall j,
  0 < fs -> 0 < n -> (k - 1) * fs < n <= k * fs -> Z.of_nat j <= k ->
  sum_from (fun y => Z.min fs (n - (y - o) * fs)) o j
  = Z.min (Z.of_nat j * fs) n.
Proof.
  induction j as [|j IH]; intros Hfs Hn Hk Hj.
  - cbn [sum_from]. lia.
  - rewrite sum_from_snoc, IH by lia.
    replace (o + Z.of_nat j - o) with (Z.of_nat j) by lia.
    assert (Z.of_nat j * fs <= (k - 1) * fs) by nia.
    nia.
Qed.

(** X8: the fragments of a partition cover its rows in order: the
    fragment number [j] of the partition starts [j * fragment_size] rows
    after the start of the partition and has [fragment_size] rows, the last
    one what is left (at least one row), so the rows of the fragments add up
    to the rows of the partition; for a column without lists a fragment has
    as many values as rows. *)
Theorem fragment_rows (col : column_view) (nested : bool)
    (row_to_value_idx : Z -> Z) (partitions : list partition_info)
    (part_frag_offset : list Z) (fragment_size : Z) (p : nat)
    (part : partition_info) :
  (forall a b, (a <= b < length part_frag_offset)%nat ->
     nth a part_frag_offset 0 <= nth b part_frag_offset 0) ->
  (p + 1 < length part_frag_offset)%nat ->
  nth_error partitions p = Some part ->
  0 < fragment_size ->
  0 <= part_start_row part ->
  0 < part_num_rows part ->
  part_start_row part + part_num_rows part < 2 ^ 32 ->
  let first := nth p part_frag_offset 0 in
  let count := nth (p + 1) part_frag_offset 0 - first in
  (count - 1) * fragment_size < part_num_rows part <= count * fragment_size ->
  let K := gpuInitPageFragments col nested row_to_value_idx partitions
             part_frag_offset fragment_size in
  (forall frag_y, first <= frag_y < first + count ->
     frag_start_row (K frag_y)
     = part_start_row part + (frag_y - first) * fragment_size
     /\ Planner.num_rows (frag (K frag_y))
        = Z.min fragment_size
                (part_num_rows part - (frag_y - first) * fragment_size)
     /\ 1 <= Planner.num_rows (frag (K frag_y)) <= fragment_size
     /\ (nested = false ->
         Planner.num_values (frag (K frag_y))
         = Planner.num_rows (frag (K frag_y))))
  /\ sum_from (fun frag_y => Planner.num_rows (frag (K frag_y))) first
              (Z.to_nat count)
     = part_num_rows part.
Proof.
  intros Hsorted Hp Hpart Hfs Hs Hn Hw first count Hc K.
  assert (Hcount : 0 < count) by nia.
  assert (Hone : forall frag_y, first <= frag_y < first + count ->
            frag_start_row (K frag_y)
            = part_start_row part + (frag_y - first) * fragment_size
            /\ Planner.num_rows (frag (K frag_y))
               = Z.min fragment_size
                   (part_num_rows part - (frag_y - first) * fragment_size)
            /\ (nested = false ->
                Planner.num_values (frag (K frag_y))
                = Planner.num_rows (frag (K frag_y)))).
  { intros frag_y Hy. unfold K, gpuInitPageFragments. cbv zeta.
    rewrite (upper_bound_sorted part_frag_offset p frag_y Hsorted Hp)
      by (fold first; unfold count in Hy; lia).
    replace (Z.of_nat p + 1 - 1) with (Z.of_nat p) by lia.
    rewrite Nat2Z.id. fold first.
    rewrite (nth_error_nth _ _ _ Hpart).
    cbn [frag frag_start_row Planner.num_rows Planner.num_values].
    assert (Hj : 0 <= (frag_y - first) * fragment_size
                 <= (count - 1) * fragment_size) by nia.
    rewrite (u32_small ((frag_y - first) * fragment_size
                        + part_start_row part)) by lia.
    replace (part_start_row part + part_num_rows part
             - ((frag_y - first) * fragment_size + part_start_row part))
      with (part_num_rows part - (frag_y - first) * fragment_size) by lia.
    rewrite u32_small by lia.
    split; [lia|]. split; [reflexivity|].
    intros ->. reflexivity. }
  split.
  - intros frag_y Hy. destruct (Hone frag_y Hy) as (H1 & H2 & H3).
    split; [exact H1|]. split; [exact H2|]. split; [|exact H3].
    rewrite H2. nia.
  - transitivity (sum_from (fun y => Z.min fragment_size
                              (part_num_rows part
                               - (y - first) * fragment_size))
                           first (Z.to_nat count)).
    + apply sum_from_ext. intros k Hk.
      apply (Hone (first + Z.of_nat k)). lia.
    + rewrite (rows_prefix fragment_size (part_num_rows part) first count)
        by lia.
      rewrite Z2Nat.id by lia. lia.
Qed.

Lemma fragment_rows_witness :
  (forall frag_y, 0 <= frag_y < 0 + 3 ->
     frag_start_row (ex_fragment frag_y) = 0 + (frag_y - 0) * 400)
  /\ sum_from (fun frag_y => Planner.num_rows (frag (ex_fragment frag_y))) 0 3
     = 1000.
Proof.
  assert (Hsorted : forall a b, (a <= b < length ex_part_frag_offset)%nat ->
            nth a ex_part_frag_offset 0 <= nth b ex_part_frag_offset 0).
  { intros a b Hab. cbn [ex_part_frag_offset length] in Hab.
    destruct a as [|[|[|a]]]; destruct b as [|[|[|b]]];
      cbn [nth ex_part_frag_offset]; lia. }
  assert (Hp : (0 + 1 < length ex_part_frag_offset)%nat)
    by (cbn [ex_part_frag_offset length]; lia).
  assert (Hfs : 0 < 400) by lia.
  assert (Hs : 0 <= 0) by lia.
  assert (Hn : 0 < 1000) by lia.
  assert (Hw : 0 + 1000 < 2 ^ 32) by lia.
  assert (Hc : (3 - 1) * 400 < 1000 <= 3 * 400) by lia.
  destruct (fragment_rows ex_col false (fun row => row) ex_partitions
              ex_part_frag_offset 400 0
              {| part_start_row := 0; part_num_rows := 1000 |}
              Hsorted Hp eq_refl Hfs Hs Hn Hw Hc) as [H1 H2].
  split; [|exact H2].
  intros frag_y Hy. apply (H1 frag_y Hy).
Defined.

(** The block sums of the data-size loop add up to the plain sum over the
    leaf values of the fragment. *)
Lemma fragment_data_size_eq (col : column_view) (nested : bool)
    (row_to_value_idx : Z -> Z) (partitions : list partition_info)
    (part_frag_offset : list Z) (fragment_size frag_y : Z) :
  let f := gpuInitPageFragments col nested row_to_value_idx partitions
             part_frag_offset fragment_size frag_y in
  let n := Planner.num_leaf_values (frag f) in
  0 <= start_value_idx f -> 0 <= n ->
  start_value_idx f + n + 1024 < 2 ^ 32 ->
  Planner.fragment_data_size (frag f)
  = u32 (sum_from (leaf_len col) (start_value_idx f) (Z.to_nat n)).
Proof.
  intros f n Hs Hn Hw.
  assert (Hfuel : n - 0 <= 512 * Z.of_nat (Z.to_nat (n / block_size + 1))).
  { unfold block_size.
    rewrite Z2Nat.id by (assert (0 <= n / 512) by (apply Z.div_pos; lia);
                         lia).
    pose proof (Z.div_mod n 512 ltac:(lia)).
    pose proof (Z.mod_pos_bound n 512 ltac:(lia)). lia. }
  pose proof (data_size_loop_spec col n (start_value_idx f)
                (Z.to_nat (n / block_size + 1)) 0 0 Hs ltac:(lia) Hw Hfuel)
    as H.
  change (u32 0) with 0 in H.
  rewrite Z.add_0_l, Z.add_0_r, Z.sub_0_r in H. exact H.
Qed.

(** X9: the data size of a fragment is the sum, over its leaf values, of
    the bytes of each value: nothing for a null or for an index past the end
    of the leaf column, the size of the physical type for a value of fixed
    size (one byte for a boolean), four bytes and the length for a string;
    the sum is taken modulo [2 ^ 32].  When all the values are there and of
    fixed size, it is their number times the size of the type. *)
Theorem fragment_data_size_sum (col : column_view) (nested : bool)
    (row_to_value_idx : Z -> Z) (partitions : list partition_info)
    (part_frag_offset : list Z) (fragment_size frag_y : Z) :
  let f := gpuInitPageFragments col nested row_to_value_idx partitions
             part_frag_offset fragment_size frag_y in
  let n := Planner.num_leaf_values (frag f) in
  0 <= start_value_idx f -> 0 <= n ->
  start_value_idx f + n + 1024 < 2 ^ 32 ->
  Planner.fragment_data_size (frag f)
  = u32 (sum_from (leaf_len col) (start_value_idx f) (Z.to_nat n))
  /\ (physical_type col <> BYTE_ARRAY ->
      start_value_idx f + n <= leaf_size col ->
      (forall j, start_value_idx f <= j < start_value_idx f + n ->
         nth (Z.to_nat j) (leaf_column col) None <> None) ->
      Planner.fragment_data_size (frag f)
      = u32 (n * physical_type_len (physical_type col) (leaf_type col))).
Proof.
  intros f n Hs Hn Hw.
  pose proof (fragment_data_size_eq col nested row_to_value_idx partitions
                part_frag_offset fragment_size frag_y Hs Hn Hw) as E.
  fold f n in E.
  split; [exact E|].
  intros Hty Hin Hall. rewrite E. f_equal.
  rewrite <- (Z2Nat.id n) at 2 by exact Hn.
  rewrite <- (sum_from_const _ (Z.to_nat n) (start_value_idx f)).
  apply sum_from_ext. intros k Hk.
  unfold leaf_len, value_len.
  destruct (Z.ltb_spec (start_value_idx f + Z.of_nat k) (leaf_size col));
    [|lia].
  specialize (Hall (start_value_idx f + Z.of_nat k) ltac:(lia)).
  destruct (nth _ (leaf_column col) None); [|congruence].
  cbv zeta. destruct (physical_type col); try reflexivity. congruence.
Qed.

Lemma fragment_data_size_sum_witness :
  Planner.fragment_data_size (frag (ex_fragment 0)) = 1368
  /\ Planner.fragment_data_size (frag (ex_fragment 0))
     = u32 (sum_from (leaf_len ex_col) (start_value_idx (ex_fragment 0))
                     (Z.to_nat (Planner.num_leaf_values
                                  (frag (ex_fragment 0))))).
Proof.
  split; [vm_compute; reflexivity|].
  refine (proj1 (fragment_data_size_sum ex_col false (fun row => row)
                   ex_partitions ex_part_frag_offset 400 0 _ _ _)).
  - vm_compute. discriminate.
  - vm_compute. discriminate.
  - vm_compute. reflexivity.
Defined.

(** *** The PLAIN encoder writes what the fragments counted *)

Section Plain.

Variable enable_bool_rle : bool.
Variable col : column_view.
Variable ck : chunk_view.
Variable page : page_view.

Hypothesis Hdata : page_type page = DATA_PAGE.
Hypothesis Hnodict : use_dictionary ck = false.
Hypothesis Hnobool : physical_type col <> BOOLEAN.

Local Abbreviation n := (num_leaf_values page).
Local Abbreviation psv := (page_start_val page).

Lemma dict_bits_plain : dict_bits col ck page = -1.
Proof.
  unfold dict_bits. rewrite Hnodict.
  destruct (physical_type col); try reflexivity. congruence.
Qed.

(** The length that lane [t] of a batch hands to the scan. *)
Lemma plain_len_eq idx t :
  0 <= idx -> 0 <= t ->
  (if fst (lane_value col ck page idx t) then
     match physical_type col with
     | BYTE_ARRAY =>
         u32 (physical_type_len (physical_type col) (leaf_type col)
              + Z.of_nat (length (el_bytes
                                    (leaf_element col
                                       (snd (lane_value col ck page idx t))))))
     | _ => physical_type_len (physical_type col) (leaf_type col)
     end
   else 0)
  = if t <? n - idx then leaf_len col (psv + idx + t) else 0.
Proof.
  intros Hi Ht. unfold lane_value, leaf_len, value_len, leaf_element,
    leaf_size. rewrite Hdata, Hnodict. cbn [is_dictionary_page]. cbv zeta.
  cbn [fst snd]. rewrite <- Z.add_assoc.
  destruct (Z.ltb_spec (psv + (idx + t)) (Z.of_nat (length (leaf_column col))));
    destruct (Z.ltb_spec (idx + t) n); destruct (Z.ltb_spec t (n - idx));
    try lia; cbn [andb]; try reflexivity.
  destruct (nth _ (leaf_column col) None); reflexivity.
Qed.

Lemma plain_batch_advance idx cur m :
  0 <= idx <= n ->
  snd (plain_batch col ck page idx cur m)
  = cur + u32 (sum_from (leaf_len col) (psv + idx)
                        (Nat.min (Z.to_nat (n - idx)) 128)).
Proof.
  intros Hi. unfold plain_batch. cbv zeta. cbn [snd]. f_equal.
  rewrite block_total_sum. f_equal.
  rewrite <- sum_from_cut by lia.
  apply sum_from_ext. intros k Hk.
  rewrite plain_len_eq by lia. rewrite Z.add_0_l. reflexivity.
Qed.

Lemma values_loop_plain : forall fuel idx cur s,
  0 <= idx -> n + 128 < 2 ^ 32 ->
  n - idx <= Z.of_nat fuel ->
  sum_from (leaf_len col) (psv + idx) (Z.to_nat (n - idx)) < 2 ^ 32 ->
  exists s',
    values_loop enable_bool_rle col ck page fuel idx cur s
    = Some (s', cur + sum_from (leaf_len col) (psv + idx)
                               (Z.to_nat (n - idx))).
Proof.
  induction fuel as [|fuel IH]; intros idx cur s Hi Hn Hf Hsum.
  - cbn [values_loop]. destruct (Z.ltb_spec idx n); [lia|].
    exists s. replace (Z.to_nat (n - idx)) with O by lia.
    cbn [sum_from]. rewrite Z.add_0_r. reflexivity.
  - cbn [values_loop]. destruct (Z.ltb_spec idx n) as [Hlt|Hge].
    + cbv zeta. rewrite dict_bits_plain.
      change (-1 >=? 0) with false. cbv iota.
      pose proof (plain_batch_advance idx cur (out s) ltac:(lia)) as Hadv.
      destruct (plain_batch col ck page idx cur (out s)) as [m' cur'].
      cbn [snd] in Hadv. subst cur'.
      set (k := Nat.min (Z.to_nat (n - idx)) 128) in *.
      assert (Hk : Z.of_nat k = Z.min (n - idx) 128) by (unfold k; lia).
      rewrite <- Hk.
      assert (Hsplit : sum_from (leaf_len col) (psv + idx)
                                (Z.to_nat (n - idx))
                       = sum_from (leaf_len col) (psv + idx) k
                         + sum_from (leaf_len col) (psv + (idx + Z.of_nat k))
                                    (Z.to_nat (n - (idx + Z.of_nat k)))).
      { replace (Z.to_nat (n - idx))
          with (k + Z.to_nat (n - (idx + Z.of_nat k)))%nat by lia.
        rewrite sum_from_app.
        replace (psv + idx + Z.of_nat k) with (psv + (idx + Z.of_nat k))
          by lia.
        reflexivity. }
      pose proof (sum_from_nonneg (leaf_len col) k (psv + idx)
                    (leaf_len_nonneg col)) as H1.
      pose proof (sum_from_nonneg (leaf_len col)
                    (Z.to_nat (n - (idx + Z.of_nat k)))
                    (psv + (idx + Z.of_nat k)) (leaf_len_nonneg col)) as H2.
      rewrite (u32_small (sum_from (leaf_len col) (psv + idx) k)) by lia.
      rewrite (u32_small (idx + Z.of_nat k)) by lia.
      destruct (IH (idx + Z.of_nat k)
                  (cur + sum_from (leaf_len col) (psv + idx) k)
                  {| rle_out := rle_out s; rle_run := rle_run s;
                     run_val := run_val s; rle_pos := rle_pos s;
                     rle_numvals := rle_numvals s;
                     rle_lit_count := rle_lit_count s;
                     rle_rpt_count := rle_rpt_count s;
                     vals := vals s; out := m' |})
        as [s' Hs']; try lia.
      exists s'. rewrite Hs'. f_equal. f_equal. lia.
    + exists s. replace (Z.to_nat (n - idx)) with O by lia.
      cbn [sum_from]. rewrite Z.add_0_r. reflexivity.
Qed.

End Plain.

(** X10: for a data page in the PLAIN encoding (no dictionary, not a
    boolean column) that holds the leaf values of a fragment, the page
    encoder returns once its levels are written, and the size it reports is
    the bytes of the levels plus exactly the data size that
    [gpuInitPageFragments] computed for the fragment; without levels it is
    that data size. *)
Theorem plain_page_matches_fragment (enable_bool_rle : bool)
    (col : column_view) (ck : chunk_view) (page : page_view) (m : mem)
    (nested : bool) (row_to_value_idx : Z -> Z)
    (partitions : list partition_info) (part_frag_offset : list Z)
    (fragment_size frag_y : Z) :
  let f := gpuInitPageFragments col nested row_to_value_idx partitions
             part_frag_offset fragment_size frag_y in
  let base := page_data page + max_hdr_size page in
  page_type page = DATA_PAGE ->
  use_dictionary ck = false ->
  physical_type col <> BOOLEAN ->
  page_start_val page = start_value_idx f ->
  num_leaf_values page = Planner.num_leaf_values (frag f) ->
  0 <= start_value_idx f ->
  0 <= Planner.num_leaf_values (frag f) ->
  start_value_idx f + Planner.num_leaf_values (frag f) + 1024 < 2 ^ 32 ->
  sum_from (leaf_len col) (start_value_idx f)
           (Z.to_nat (Planner.num_leaf_values (frag f))) < 2 ^ 32 ->
  (forall m1 cur vs,
     encode_page_levels col page base m = Some (m1, cur, vs) ->
     exists m',
       gpuEncodePages enable_bool_rle col ck page m
       = Some (m', u32 (cur - base
                        + Planner.fragment_data_size (frag f))))
  /\ (num_def_level_bits col = 0 -> num_rep_level_bits col = 0 ->
      exists m',
        gpuEncodePages enable_bool_rle col ck page m
        = Some (m', Planner.fragment_data_size (frag f))).
Proof.
  intros f base Hdata Hnodict Hnobool Hpsv Hn Hs Hn0 Hw Hsum.
  pose proof (fragment_data_size_eq col nested row_to_value_idx partitions
                part_frag_offset fragment_size frag_y Hs Hn0 Hw) as Hfd.
  cbv zeta in Hfd.
  fold f in Hfd. rewrite u32_small in Hfd.
  2:{ split; [|exact Hsum]. apply sum_from_nonneg, leaf_len_nonneg. }
  assert (Hgen : forall m1 cur vs,
            encode_page_levels col page base m = Some (m1, cur, vs) ->
            exists m',
              gpuEncodePages enable_bool_rle col ck page m
              = Some (m', u32 (cur - base
                               + Planner.fragment_data_size (frag f)))).
  { intros m1 cur vs Hlv. unfold gpuEncodePages. fold base. rewrite Hlv.
    rewrite (dict_bits_plain col ck page Hnodict Hnobool).
    change ((-1 >=? 0) && negb (Type_eqb (physical_type col) BOOLEAN))
      with false. cbv iota.
    match goal with
    | |- context [values_loop _ _ _ _ _ _ _ ?s0] =>
        destruct (values_loop_plain enable_bool_rle col ck page Hdata
                    Hnodict Hnobool
                    (Z.to_nat (num_leaf_values page)) 0 cur s0)
          as [s' Hs']
    end; try lia.
    - rewrite Z.add_0_r, Z.sub_0_r, Hpsv, Hn. exact Hsum.
    - rewrite Hs'. exists (out s'). f_equal. f_equal. f_equal.
      rewrite Z.add_0_r, Z.sub_0_r, Hpsv, Hn, Hfd. lia. }
  split; [exact Hgen|].
  intros Hdef Hrep.
  assert (Hlv : encode_page_levels col page base m
                = Some (m, base, fun _ => 0)).
  { unfold encode_page_levels. rewrite Hdata, Hdef, Hrep. reflexivity. }
  destruct (Hgen _ _ _ Hlv) as [m' Hm']. exists m'. rewrite Hm'.
  f_equal. f_equal. rewrite Z.sub_diag, Z.add_0_l. apply u32_small.
  rewrite Hfd. split; [|exact Hsum]. apply sum_from_nonneg, leaf_len_nonneg.
Qed.

Lemma plain_page_matches_fragment_witness :
  Planner.fragment_data_size (frag ex_plain_fragment) = 2400
  /\ exists m',
       gpuEncodePages true ex_plain_col ex_plain_chunk ex_plain_page
                      (fun _ => Byte.x00)
       = Some (m', Planner.fragment_data_size (frag ex_plain_fragment)).
Proof.
  split; [vm_compute; reflexivity|].
  refine (proj2 (plain_page_matches_fragment true ex_plain_col ex_plain_chunk
                   ex_plain_page (fun _ => Byte.x00) false (fun row => row)
                   [ {| part_start_row := 0; part_num_rows := 300 |} ]
                   [0; 1] 300 0 eq_refl eq_refl _ _ _ _ _ _ _)
                eq_refl eq_refl).
  - discriminate.
  - vm_compute. reflexivity.
  - vm_compute. reflexivity.
  - vm_compute. discriminate.
  - vm_compute. discriminate.
  - vm_compute. reflexivity.
  - vm_compute. reflexivity.
Defined.

(** *** The statistics groups of the fragments *)

Lemma flat_map_blocks {A} (g : Z -> list A) G :
  flat_map (fun y => flat_map (fun w => g (y * 4 + w)) [0; 1; 2; 3])
           (map Z.of_nat (seq 0 G))
  = flat_map g (map Z.of_nat (seq 0 (4 * G))).
Proof.
  induction G as [|G IH]; [reflexivity|].
  rewrite seq_S, map_app, flat_map_app, IH.
  replace (4 * S G)%nat with (4 * G + 4)%nat by lia.
  rewrite seq_app, map_app, flat_map_app. f_equal.
  cbn [Nat.add map flat_map seq app]. rewrite !app_nil_r.
  replace (Z.of_nat G * 4 + 0) with (Z.of_nat (4 * G)) by lia.
  replace (Z.of_nat G * 4 + 1) with (Z.of_nat (S (4 * G))) by lia.
  replace (Z.of_nat G * 4 + 2) with (Z.of_nat (S (S (4 * G)))) by lia.
  replace (Z.of_nat G * 4 + 3) with (Z.of_nat (S (S (S (4 * G))))) by lia.
  rewrite <- ?app_assoc. reflexivity.
Qed.

Lemma flat_map_agree {A B} (f g : A -> list B) l :
  (forall a, In a l -> f a = g a) -> flat_map f l = flat_map g l.
Proof.
  induction l as [|x l IH]; intros H; [reflexivity|].
  cbn [flat_map]. rewrite (H x) by (left; reflexivity).
  rewrite IH by (intros a Ha; apply H; right; exact Ha). reflexivity.
Qed.

Lemma flat_map_guard {A} (h : nat -> A) n : forall a k,
  (a + k)%nat = n \/ (n <= a)%nat \/ (a <= n <= a + k)%nat ->
  flat_map (fun i => if (Z.of_nat i <? Z.of_nat n) then [h i] else [])
           (seq a k)
  = map h (seq a (Nat.min (a + k) n - a)).
Proof.
  intros a k. revert a. induction k as [|k IH]; intros a H.
  - replace (Nat.min (a + 0) n - a)%nat with O by lia. reflexivity.
  - cbn [seq flat_map]. rewrite IH by lia.
    destruct (Z.ltb_spec (Z.of_nat a) (Z.of_nat n)) as [Hlt|Hge].
    + replace (Nat.min (a + S k) n - a)%nat
        with (S (Nat.min (S a + k) n - S a)) by lia.
      reflexivity.
    + replace (Nat.min (S a + k) n - S a)%nat with O by lia.
      replace (Nat.min (a + S k) n - a)%nat with O by lia. reflexivity.
Qed.

(** X11: [InitFragmentStatistics] launches enough blocks for every
    fragment of a column to get its statistics group, once and none past the
    last fragment: fragment [i] gets the group that starts at its first leaf
    value and counts its leaf values. *)
Theorem fragment_statistics_cover (fragments : list fragment) :
  Z.of_nat (length fragments) + 4 < 2 ^ 32 ->
  InitFragmentStatistics fragments
  = map (fun i =>
           (Z.of_nat i,
            {| group_start_row :=
                 start_value_idx
                   (nth i fragments
                        no_fragment);
               group_num_rows :=
                 Planner.num_leaf_values
                   (frag (nth i fragments
                            no_fragment)) |}))
        (seq 0 (length fragments)).
Proof.
  intros Hn. unfold InitFragmentStatistics. cbv zeta.
  set (n := length fragments) in *.
  set (d := no_fragment).
  set (G := Z.to_nat (div_rounding_up_safe (Z.of_nat n) 4)).
  assert (HG : (n <= 4 * G < n + 4)%nat).
  { unfold G, div_rounding_up_safe.
    pose proof (Z.div_mod (Z.of_nat n) 4 ltac:(lia)).
    pose proof (Z.mod_pos_bound (Z.of_nat n) 4 ltac:(lia)).
    assert (0 <= Z.of_nat n / 4) by (apply Z.div_pos; lia).
    destruct (Z.eqb_spec (Z.of_nat n mod 4) 0); lia. }
  set (g := fun i : Z =>
              match init_fragment_stat fragments 0 i with
              | Some x => [x]
              | None => []
              end).
  transitivity (flat_map g (map Z.of_nat (seq 0 (4 * G)))).
  - rewrite <- flat_map_blocks. apply flat_map_ext. intros y.
    apply flat_map_ext. intros w. unfold g, init_fragment_stat.
    replace (0 * 4 + (y * 4 + w)) with (y * 4 + w) by lia. reflexivity.
  - rewrite flat_map_concat_map, map_map, <- flat_map_concat_map.
    transitivity
      (flat_map (fun i => if Z.of_nat i <? Z.of_nat n
                          then [(Z.of_nat i,
                                 {| group_start_row :=
                                      start_value_idx (nth i fragments d);
                                    group_num_rows :=
                                      Planner.num_leaf_values
                                        (frag (nth i fragments d)) |})]
                          else [])
                (seq 0 (4 * G))).
    + apply flat_map_agree. intros i Hi. apply in_seq in Hi.
      unfold g, init_fragment_stat. cbv zeta.
      replace (0 * 4 + Z.of_nat i) with (Z.of_nat i) by lia.
      rewrite u32_small by lia. fold n.
      destruct (Z.ltb_spec (Z.of_nat i) (Z.of_nat n)); [|reflexivity].
      rewrite Nat2Z.id.
      destruct (nth_error fragments i) as [f|] eqn:E.
      * rewrite (nth_error_nth _ _ d E). reflexivity.
      * apply nth_error_None in E. fold n in E. lia.
    + rewrite flat_map_guard by lia.
      replace (Nat.min (0 + 4 * G) n - 0)%nat with n by lia. reflexivity.
Qed.

Lemma fragment_statistics_cover_witness :
  Z.of_nat (length (map ex_fragment [0; 1; 2; 3; 4])) + 4 < 2 ^ 32
  /\ map fst (InitFragmentStatistics (map ex_fragment [0; 1; 2; 3; 4]))
     = [0; 1; 2; 3; 4].
Proof.
  assert (H : Z.of_nat (length (map ex_fragment [0; 1; 2; 3; 4])) + 4
              < 2 ^ 32) by (cbn [map length]; lia).
  split; [exact H|].
  rewrite (fragment_statistics_cover _ H). reflexivity.
Defined.

(** *** The hashes *)

Lemma land_mask x : Z.land x (Z.shiftl 1 init_hash_bits - 1) = x mod 4096.
Proof.
  change (Z.shiftl 1 init_hash_bits - 1) with (Z.ones 12).
  rewrite Z.land_ones by lia. reflexivity.
Qed.

(** X12: the three hashes give a value below [2 ^ 12] for every input, the
    empty string hashes to 0, and a 64-bit value that fits 32 bits hashes as
    its 32-bit value. *)
Theorem init_hash_range (c0 cl len v : Z) :
  0 <= hash_string c0 cl len < 2 ^ init_hash_bits
  /\ hash_string c0 cl 0 = 0
  /\ 0 <= uint32_init_hash v < 2 ^ init_hash_bits
  /\ 0 <= uint64_init_hash v < 2 ^ init_hash_bits
  /\ (0 <= v < 2 ^ 32 -> uint64_init_hash v = uint32_init_hash v).
Proof.
  change (2 ^ init_hash_bits) with 4096.
  split; [|split; [reflexivity|split; [|split]]].
  - unfold hash_string. destruct (negb (len =? 0)); [|lia].
    rewrite land_mask. apply Z.mod_pos_bound. lia.
  - unfold uint32_init_hash. rewrite land_mask. apply Z.mod_pos_bound. lia.
  - unfold uint64_init_hash, uint32_init_hash. rewrite land_mask.
    apply Z.mod_pos_bound. lia.
  - intros Hv. unfold uint64_init_hash. f_equal.
    rewrite Z.shiftr_div_pow2 by lia.
    rewrite (Z.div_small v (2 ^ 32)) by lia. rewrite Z.add_0_r.
    unfold Stats.u64. rewrite (Z.mod_small v (2 ^ 64)) by lia.
    apply u32_small. lia.
Qed.

Lemma init_hash_range_witness :
  0 <= 123456789 < 2 ^ 32
  /\ uint32_init_hash 123456789 = 2219
  /\ uint64_init_hash 123456789 = uint32_init_hash 123456789.
Proof.
  assert (H : 0 <= 123456789 < 2 ^ 32) by lia.
  split; [exact H|]. split; [vm_compute; reflexivity|].
  exact (proj2 (proj2 (proj2 (proj2 (init_hash_range 0 0 0 123456789)))) H).
Defined.

End FragmentFacts.

(** ** The layout: pages back to back, totals, empty chunks *)

Module LayoutFacts.
Import Planner PlannerFacts Layout.

Lemma chained_snoc next at_ pgs : forall start stop p stop',
  chained next at_ start pgs stop -> at_ p = stop ->
  stop' = next stop p ->
  chained next at_ start (pgs ++ [p]) stop'.
Proof.
  induction pgs as [|q pgs IH]; intros start stop p stop' H Hp ->;
    cbn [chained app].
  - cbn [chained] in H. subst stop. split; [exact Hp|reflexivity].
  - destruct H as [Hq H]. split; [exact Hq|].
    eapply IH; [exact H|exact Hp|reflexivity].
Qed.

Lemma max_of_snoc f pgs p :
  max_of f (pgs ++ [p]) = Z.max (max_of f pgs) (f p).
Proof. unfold max_of. rewrite fold_left_app. reflexivity. Qed.

Lemma total_of_snoc f pgs p :
  total_of f (pgs ++ [p]) = total_of f pgs + f p.
Proof.
  unfold total_of. induction pgs as [|q pgs IH]; cbn [app fold_right]; lia.
Qed.

Lemma u32_plus_l a c : u32 (u32 a + c) = u32 (a + c).
Proof. unfold u32. apply Zplus_mod_idemp_l. Qed.

Lemma u32_u32 a : u32 (u32 a) = u32 a.
Proof. unfold u32. apply Zmod_mod. Qed.

Section Facts.

Variable col_g : column_desc.
Variable ck_g : EncColumnChunk.
Variable P : params.

Local Abbreviation totals := (totals ck_g P).

Lemma totals_init : totals (init_state ck_g).
Proof.
  constructor; cbn [init_state pages page_offset comp_page_offset cur_row
                    num_pages page_headers_size max_page_data_size chained
                    length]; try reflexivity.
  constructor.
Qed.

Lemma totals_dict s : totals s -> pages s = [] -> totals (dict_page ck_g P s).
Proof.
  intros [T1 T2 T3 T4 T5 T6 T7] Hp. unfold dict_page.
  destruct (use_dictionary ck_g); [|constructor; assumption].
  constructor; cbn [pages page_offset comp_page_offset cur_row num_pages
                    page_headers_size max_page_data_size].
  - eapply chained_snoc; [exact T1|reflexivity|reflexivity].
  - eapply chained_snoc; [exact T2|reflexivity|reflexivity].
  - eapply chained_snoc; [exact T3|reflexivity|reflexivity].
  - rewrite Hp. reflexivity.
  - rewrite total_of_snoc, T5, u32_plus_l. reflexivity.
  - rewrite max_of_snoc, T6. reflexivity.
  - apply Forall_app. split; [exact T7|]. constructor; [reflexivity|constructor].
Qed.

Lemma totals_flush s : totals s -> totals (flush col_g ck_g P s).
Proof.
  intros [T1 T2 T3 T4 T5 T6 T7]. unfold flush. cbv zeta.
  constructor; cbn [pages page_offset comp_page_offset cur_row num_pages
                    page_headers_size max_page_data_size].
  - eapply chained_snoc; [exact T1|reflexivity|reflexivity].
  - eapply chained_snoc; [exact T2|reflexivity|reflexivity].
  - eapply chained_snoc; [exact T3|reflexivity|reflexivity].
  - rewrite length_app, Nat2Z.inj_add, T4, u32_plus_l. reflexivity.
  - rewrite total_of_snoc, T5, u32_plus_l. reflexivity.
  - rewrite max_of_snoc, T6. reflexivity.
  - apply Forall_app. split; [exact T7|]. constructor; [reflexivity|constructor].
Qed.

Lemma totals_body mm f s :
  totals s -> totals (body col_g ck_g P mm (set_frag f s)).
Proof.
  intros T. unfold body.
  assert (T' : totals (set_frag f s)) by (destruct T; constructor; assumption).
  destruct (must_flush ck_g P (set_frag f s)).
  - pose proof (totals_flush _ T') as [T1 T2 T3 T4 T5 T6 T7].
    constructor; assumption.
  - destruct T' as [T1 T2 T3 T4 T5 T6 T7]. constructor; assumption.
Qed.

Lemma totals_loop rest : forall s s',
  pack_loop col_g ck_g P rest s = Some s' -> totals s -> totals s'.
Proof.
  induction rest as [|f rest IH]; intros s s' H T; cbn [pack_loop] in H.
  - destruct (st_num_rows s <? ck_num_rows ck_g); [discriminate|].
    injection H as <-. apply totals_body. exact T.
  - destruct (st_num_rows s <? ck_num_rows ck_g).
    + destruct (minmax_len_at col_g ck_g (fragments_in_chunk s)) as [mm|];
        [|discriminate].
      destruct (num_rows f =? 0).
      * injection H as <-. apply totals_body. exact T.
      * apply (IH _ _ H). apply totals_body. exact T.
    + injection H as <-. apply totals_body. exact T.
Qed.

Lemma gpuInitPages_totals L :
  gpuInitPages col_g ck_g P = Some L ->
  exists s,
    pack_loop col_g ck_g P (fragments ck_g)
              (dict_page ck_g P (init_state ck_g)) = Some s
    /\ totals s /\ out_pages L = pages s
    /\ out_num_pages L = num_pages s
    /\ out_page_headers_size L = page_headers_size s
    /\ out_max_page_data_size L = max_page_data_size s
    /\ out_bfr_size L
       = (if (ck_stat_size ck_g =? 0)
             && match stats ck_g with Some _ => true | None => false end
          then u32 (page_offset s + out_ck_stat_size L)
          else page_offset s).
Proof.
  unfold gpuInitPages. intros H.
  destruct (pack_loop _ _ _ _ _) as [s|] eqn:E; [|discriminate].
  injection H as <-. exists s. split; [reflexivity|].
  split; [apply (totals_loop _ _ _ E), totals_dict;
          [apply totals_init|reflexivity]|].
  cbn [out_pages out_num_pages out_page_headers_size out_max_page_data_size
       out_bfr_size out_ck_stat_size].
  repeat split; try reflexivity.
  destruct ((ck_stat_size ck_g =? 0) && _); reflexivity.
Qed.

End Facts.

(** X13: the pages of a chunk lie back to back in the uncompressed buffer:
    the first at [ck_stat_size], each next one after the bytes reserved for
    the header and the data of the one before (32-bit offsets), and
    [bfr_size] is the end of the last one, plus the room of the chunk
    statistics when it is added; in the compressed buffer the step is the
    header and [max_page_comp_data_size]; and the first row of a page is the
    first row of the chunk plus the rows of the data pages before it. *)
Theorem pages_back_to_back (col_g : column_desc) (ck_g : EncColumnChunk)
    (P : params) (L : chunk_layout) :
  gpuInitPages col_g ck_g P = Some L ->
  exists stop comp_stop row_stop,
    chained next_offset page_data (ck_stat_size ck_g) (out_pages L) stop
    /\ out_bfr_size L
       = (if (ck_stat_size ck_g =? 0)
             && match stats ck_g with Some _ => true | None => false end
          then u32 (stop + out_ck_stat_size L)
          else stop)
    /\ chained (next_comp (max_page_comp_data_size P)) compressed_data
               (ck_stat_size ck_g) (out_pages L) comp_stop
    /\ chained next_row start_row (ck_start_row ck_g) (out_pages L) row_stop.
Proof.
  intros H.
  destruct (gpuInitPages_totals col_g ck_g P L H)
    as (s & _ & [T1 T2 T3 _ _ _ _] & Hp & _ & _ & _ & Hb).
  exists (page_offset s), (comp_page_offset s), (cur_row s).
  rewrite Hp. repeat split; assumption.
Qed.

Lemma pages_back_to_back_witness :
  gpuInitPages PlannerExamples.ex_col PlannerExamples.ex_chunk
               PlannerExamples.ex_params = Some ex_layout
  /\ map page_data (out_pages ex_layout) = [0]
  /\ exists stop comp_stop row_stop,
       chained next_offset page_data 0 (out_pages ex_layout) stop
       /\ out_bfr_size ex_layout = stop
       /\ chained (next_comp 0) compressed_data 0 (out_pages ex_layout)
                  comp_stop
       /\ chained next_row start_row 0 (out_pages ex_layout) row_stop.
Proof.
  assert (H : gpuInitPages PlannerExamples.ex_col PlannerExamples.ex_chunk
                PlannerExamples.ex_params = Some ex_layout)
    by (vm_compute; reflexivity).
  split; [exact H|]. split; [vm_compute; reflexivity|].
  exact (pages_back_to_back _ _ _ _ H).
Defined.

(** X14: the totals that [gpuInitPages] stores in the chunk agree with its
    pages: [num_pages] is their number, [page_headers_size] the sum of the
    bytes reserved for their headers (both modulo [2 ^ 32]),
    [max_page_data_size] the largest [max_data_size], and every page carries
    the id of the chunk. *)
Theorem layout_totals (col_g : column_desc) (ck_g : EncColumnChunk)
    (P : params) (L : chunk_layout) :
  gpuInitPages col_g ck_g P = Some L ->
  out_num_pages L = u32 (Z.of_nat (length (out_pages L)))
  /\ out_page_headers_size L = u32 (total_of max_hdr_size (out_pages L))
  /\ out_max_page_data_size L = max_of max_data_size (out_pages L)
  /\ Forall (fun p => chunk_id p = block_chunk_id P) (out_pages L).
Proof.
  intros H.
  destruct (gpuInitPages_totals col_g ck_g P L H)
    as (s & _ & [_ _ _ T4 T5 T6 T7] & Hp & Hn & Hh & Hm & _).
  rewrite Hp, Hn, Hh, Hm. repeat split; assumption.
Qed.

Lemma layout_totals_witness :
  gpuInitPages PlannerExamples.ex_col PlannerExamples.ex_chunk
               PlannerExamples.ex_params = Some ex_layout
  /\ out_num_pages ex_layout
     = u32 (Z.of_nat (length (out_pages ex_layout)))
  /\ out_page_headers_size ex_layout
     = u32 (total_of max_hdr_size (out_pages ex_layout)).
Proof.
  assert (H : gpuInitPages PlannerExamples.ex_col PlannerExamples.ex_chunk
                PlannerExamples.ex_params = Some ex_layout)
    by (vm_compute; reflexivity).
  split; [exact H|].
  destruct (layout_totals _ _ _ _ H) as (H1 & H2 & _).
  split; [exact H1|exact H2].
Defined.

(** X15: on a well-formed chunk with at least one fragment, every data
    page holds at least one fragment, one row and one value, and the data
    pages share out all the fragments and all the values of the chunk. *)
Theorem data_pages_nonempty (col_g : column_desc) (ck_g : EncColumnChunk)
    (P : params) :
  chunk_ok ck_g P -> fragments ck_g <> [] ->
  exists L,
    gpuInitPages col_g ck_g P = Some L
    /\ Forall (fun p => 1 <= num_fragments p /\ 1 <= pg_num_rows p
                        /\ 1 <= pg_num_values p)
              (data_pages (out_pages L))
    /\ total_of num_fragments (data_pages (out_pages L))
       = Z.of_nat (length (fragments ck_g))
    /\ total_of pg_num_values (data_pages (out_pages L))
       = sum_of num_values (fragments ck_g).
Proof.
  intros OK Hne.
  destruct (gpuInitPages_layout col_g ck_g P OK)
    as (L & groups & HL & Hcat & Hcov & Hg & _).
  specialize (Hg Hne). exists L. split; [exact HL|].
  pose proof (ok_frags _ _ OK) as Hok. rewrite <- Hcat in Hok |- *.
  clear HL Hcat Hne.
  induction Hcov as [|p g dp groups Hc _ IH]; cbn [total_of fold_right concat].
  - split; [constructor|]. split; reflexivity.
  - cbn [concat] in Hok. apply Forall_app in Hok as [Hokg Hokr].
    inversion Hg as [|? ? Hgne Hgr]; subst.
    destruct (IH Hgr Hokr) as (I1 & I2 & I3).
    destruct Hc as (_ & Hnf & Hrows & Hvals & _).
    assert (Hlen : 1 <= Z.of_nat (length g))
      by (destruct g; [congruence|cbn [length]; lia]).
    assert (Hr : Z.of_nat (length g) <= sum_of num_rows g).
    { apply sum_of_pos_length. eapply Forall_impl; [|exact Hokg].
      cbv beta. intros f Hf. apply Hf. }
    assert (Hv : Z.of_nat (length g) <= sum_of num_values g).
    { apply sum_of_pos_length. eapply Forall_impl; [|exact Hokg].
      cbv beta. intros f Hf. apply Hf. }
    split; [constructor; [lia|exact I1]|].
    fold (total_of num_fragments dp). fold (total_of pg_num_values dp).
    rewrite I2, I3, length_app, sum_of_app. lia.
Qed.

Lemma data_pages_nonempty_witness :
  chunk_ok PlannerExamples.ex_chunk PlannerExamples.ex_params
  /\ exists L,
       gpuInitPages PlannerExamples.ex_col PlannerExamples.ex_chunk
                    PlannerExamples.ex_params = Some L
       /\ total_of pg_num_values (data_pages (out_pages L)) = 100.
Proof.
  assert (OK : chunk_ok PlannerExamples.ex_chunk PlannerExamples.ex_params).
  { constructor.
    - repeat constructor; vm_compute; (reflexivity || discriminate).
    - reflexivity.
    - vm_compute. reflexivity.
    - vm_compute. reflexivity.
    - vm_compute. reflexivity.
    - vm_compute. discriminate.
    - exact I. }
  split; [exact OK|].
  destruct (data_pages_nonempty PlannerExamples.ex_col
              PlannerExamples.ex_chunk PlannerExamples.ex_params OK)
    as (L & H1 & _ & _ & H3).
  - discriminate.
  - exists L. split; [exact H1|]. rewrite H3. reflexivity.
Defined.

(** X16: a chunk without rows still gets one data page: the loop runs
    once without reading a fragment and closes a page of no fragment, no row
    and no value that starts at the first row of the chunk; with a
    dictionary the chunk has two pages, else one. *)
Theorem empty_chunk_page (col_g : column_desc) (ck_g : EncColumnChunk)
    (P : params) :
  ck_num_rows ck_g = 0 ->
  exists L p,
    gpuInitPages col_g ck_g P = Some L
    /\ data_pages (out_pages L) = [p]
    /\ num_fragments p = 0 /\ pg_num_rows p = 0 /\ pg_num_values p = 0
    /\ start_row p = ck_start_row ck_g
    /\ out_num_pages L = (if use_dictionary ck_g then 2 else 1).
Proof.
  intros H0. unfold gpuInitPages.
  assert (E : forall rest s,
            st_num_rows s = 0 ->
            pack_loop col_g ck_g P rest s
            = Some (accumulate ck_g 0
                      (flush col_g ck_g P
                         (set_frag
                            {| fragment_data_size := 0;
                               num_values := num_values (frag_g s);
                               num_leaf_values := num_leaf_values (frag_g s);
                               num_rows := 0;
                               num_dict_vals := num_dict_vals (frag_g s) |}
                            s)))).
  { intros rest s Hs.
    assert (Hc : (st_num_rows s <? ck_num_rows ck_g) = false)
      by (rewrite Hs, H0; reflexivity).
    destruct rest; cbn [pack_loop]; rewrite Hc; unfold body;
      unfold must_flush at 1; cbn [set_frag st_num_rows];
      rewrite Hs, H0; reflexivity. }
  set (s0 := dict_page ck_g P (init_state ck_g)).
  assert (Hs0 : st_num_rows s0 = 0 /\ fragments_in_chunk s0 = 0
                /\ page_start s0 = 0 /\ rows_in_page s0 = 0
                /\ values_in_page s0 = 0 /\ cur_row s0 = ck_start_row ck_g
                /\ num_pages s0 = (if use_dictionary ck_g then 1 else 0))
    by (unfold s0, dict_page; destruct (use_dictionary ck_g);
        repeat split; reflexivity).
  destruct Hs0 as (S1 & S2 & S3 & S4 & S5 & S6 & S7).
  rewrite (E _ s0 S1).
  eexists. eexists. split; [reflexivity|].
  cbn [out_pages out_num_pages pages accumulate flush set_frag num_pages
       fragments_in_chunk page_start rows_in_page values_in_page cur_row].
  rewrite S2, S3, S4, S5, S6, S7.
  split.
  - unfold data_pages. rewrite filter_app.
    fold (data_pages (pages s0)).
    change (pages s0) with (dict_pages ck_g P).
    rewrite (data_pages_dict ck_g P). cbn [app filter is_data_page page_type].
    reflexivity.
  - cbn [num_fragments pg_num_rows pg_num_values start_row].
    repeat split; try reflexivity.
    destruct (use_dictionary ck_g); reflexivity.
Qed.

Lemma empty_chunk_page_witness :
  ck_num_rows ex_empty_chunk = 0
  /\ exists L p,
       gpuInitPages PlannerExamples.ex_col ex_empty_chunk
                    PlannerExamples.ex_params = Some L
       /\ data_pages (out_pages L) = [p]
       /\ pg_num_rows p = 0 /\ start_row p = 7.
Proof.
  split; [reflexivity|].
  destruct (empty_chunk_page PlannerExamples.ex_col ex_empty_chunk
              PlannerExamples.ex_params eq_refl)
    as (L & p & H1 & H2 & _ & H4 & _ & H6 & _).
  exists L, p. repeat split; assumption.
Defined.

End LayoutFacts.

(** ** The sizes stored in a chunk by the decision and by the gather *)

Module ChunkSizes.
Import Rle.

(** X17: whatever the pages, the lane-strided loops and the warp
    reductions of [gpuDecideCompression] compute the plain sums over the
    pages of the chunk modulo [2 ^ 32]: [bfr_size] becomes the sum of the
    data sizes, [compressed_size] the sum of the compressed sizes for a chunk
    that is marked compressed and the same as [bfr_size] otherwise, so it is
    never larger than [bfr_size]; a chunk without pages, or for which no
    compression was attempted, is not marked compressed. *)
Theorem decide_sizes (ck : Compression.EncColumnChunk) :
  let ck' := Compression.decide ck in
  Compression.bfr_size ck'
  = u32 (Compression.total Compression.max_data_size (Compression.pages ck))
  /\ Compression.compressed_size ck'
     = (if Compression.is_compressed ck'
        then u32 (Compression.total Compression.compressed_bytes
                    (Compression.pages ck))
        else Compression.bfr_size ck')
  /\ Compression.compressed_size ck' <= Compression.bfr_size ck'
  /\ Compression.pages ck' = Compression.pages ck
  /\ ((forall p, In p (Compression.pages ck) ->
         Compression.comp_stat p = None) ->
      Compression.is_compressed ck' = false).
Proof.
  cbv zeta.
  assert (Eu : Compression.warp_reduce_sum
                 (Compression.lane_uncompressed (Compression.pages ck))
               = u32 (Compression.total Compression.max_data_size
                        (Compression.pages ck))).
  { apply CompressionFacts.warp_sum_total.
    intros t. apply CompressionFacts.lane_uncompressed_total. }
  assert (Ec : Compression.warp_reduce_sum
                 (Compression.lane_compressed (Compression.pages ck))
               = u32 (Compression.total Compression.compressed_bytes
                        (Compression.pages ck))).
  { apply CompressionFacts.warp_sum_total.
    intros t. apply CompressionFacts.lane_compressed_total. }
  unfold Compression.decide.
  cbn [Compression.bfr_size Compression.compressed_size
       Compression.is_compressed Compression.pages].
  rewrite Eu, Ec.
  split; [reflexivity|]. split; [reflexivity|]. split; [|split].
  - destruct (Compression.has_compression (Compression.pages ck)); [|lia].
    destruct (Compression.error_count (Compression.pages ck) =? 0);
      cbn [andb]; [|lia].
    destruct (Z.ltb_spec
                (u32 (Compression.total Compression.compressed_bytes
                        (Compression.pages ck)))
                (u32 (Compression.total Compression.max_data_size
                        (Compression.pages ck)))); lia.
  - reflexivity.
  - intros Hnone.
    destruct (Compression.has_compression (Compression.pages ck)) eqn:E;
      [|reflexivity].
    apply CompressionFacts.has_compression_iff in E as (p & Hp & Ha).
    unfold Compression.attempted in Ha. rewrite (Hnone p Hp) in Ha.
    discriminate.
Qed.

Lemma decide_sizes_witness :
  (forall p, In p (@nil Compression.EncPage) -> Compression.comp_stat p = None)
  /\ Compression.is_compressed
       (Compression.decide
          {| Compression.pages := []; Compression.is_compressed := true;
             Compression.bfr_size := 5; Compression.compressed_size := 5 |})
     = false
  /\ Compression.bfr_size (Compression.decide Compression.ex_chunk) = 2000
  /\ Compression.compressed_size (Compression.decide Compression.ex_chunk)
     = 700.
Proof.
  assert (H : forall p, In p (@nil Compression.EncPage) ->
                        Compression.comp_stat p = None)
    by (intros p []).
  split; [exact H|]. split.
  - exact (proj2 (proj2 (proj2 (proj2
             (decide_sizes
                {| Compression.pages := []; Compression.is_compressed := true;
                   Compression.bfr_size := 5;
                   Compression.compressed_size := 5 |})))) H).
  - split; vm_compute; reflexivity.
Defined.

(** The sizes accumulated by the loop of the gather. *)
Lemma gather_loop_sizes ck pgs : forall page s,
  let s' := Gather.gather_loop ck page pgs s in
  Gather.g_uncompressed_size s'
  = u32 (Gather.g_uncompressed_size s
         + fold_right (fun p a => Gather.hdr_size p + a) 0 pgs)
    \/ (pgs = [] /\ s' = s).
Proof.
  induction pgs as [|p pgs IH]; intros page s; cbn [Gather.gather_loop].
  - right. split; reflexivity.
  - left. cbv zeta.
    destruct (IH (page + 1) (Gather.gather_page ck page p s)) as [E|[-> E]].
    + cbv zeta in E. rewrite E. cbn [Gather.gather_page
        Gather.g_uncompressed_size fold_right].
      rewrite CompressionFacts.u32_add_l. f_equal. lia.
    + cbv zeta in E. cbn [Gather.gather_loop] in E |- *.
      cbn [Gather.gather_page Gather.g_uncompressed_size fold_right].
      rewrite Z.add_0_r. reflexivity.
Qed.

Lemma gather_loop_dict ck pgs : forall page s,
  1 <= page ->
  Gather.g_dictionary_size (Gather.gather_loop ck page pgs s)
  = Gather.g_dictionary_size s.
Proof.
  induction pgs as [|p pgs IH]; intros page s Hp; cbn [Gather.gather_loop];
    [reflexivity|].
  rewrite IH by lia. cbn [Gather.gather_page Gather.g_dictionary_size].
  destruct (Z.eqb_spec page 0); [lia|reflexivity].
Qed.

(** X18: [gpuGatherPages] adds the sizes of the headers of the pages to the
    [bfr_size] of the chunk (modulo [2 ^ 32]), stores as [dictionary_size]
    the header and the data of the first page when the chunk uses a
    dictionary and leaves it alone otherwise, and keeps the pages and the
    buffers of the chunk; for a chunk without pages the memory is unchanged
    and [compressed_size] is zero. *)
Theorem gather_sizes (ck : Gather.EncColumnChunk) (m : mem) :
  let r := Gather.gpuGatherPages ck m in
  (Gather.pages ck <> [] ->
   Gather.bfr_size (snd r)
   = u32 (Gather.bfr_size ck
          + fold_right (fun p a => Gather.hdr_size p + a) 0 (Gather.pages ck)))
  /\ Gather.dictionary_size (snd r)
     = (if Gather.use_dictionary ck then
          match Gather.pages ck with
          | p :: _ => u32 (Gather.hdr_size p + Gather.max_data_size p)
          | [] => Gather.dictionary_size ck
          end
        else Gather.dictionary_size ck)
  /\ Gather.pages (snd r) = Gather.pages ck
  /\ Gather.is_compressed (snd r) = Gather.is_compressed ck
  /\ (Gather.pages ck = [] ->
      fst r = m /\ Gather.compressed_size (snd r) = 0
      /\ Gather.bfr_size (snd r) = Gather.bfr_size ck).
Proof.
  cbv zeta. unfold Gather.gpuGatherPages.
  cbn [fst snd Gather.bfr_size Gather.dictionary_size Gather.pages
       Gather.is_compressed Gather.compressed_size].
  split; [|split; [|split; [reflexivity|split; [reflexivity|]]]].
  - intros Hne.
    match goal with
    | |- context [Gather.gather_loop ck 0 ?pgs ?s] =>
        destruct (gather_loop_sizes ck pgs 0 s) as [E|[E _]]
    end; [exact E|congruence].
  - destruct (Gather.use_dictionary ck) eqn:Ed; [|reflexivity].
    destruct (Gather.pages ck) as [|p pgs]; [reflexivity|].
    cbn [Gather.gather_loop]. rewrite gather_loop_dict by lia.
    cbn [Gather.gather_page Gather.g_dictionary_size]. rewrite Ed.
    reflexivity.
  - intros ->. cbn [Gather.gather_loop Gather.g_mem Gather.g_dst
                    Gather.g_uncompressed_size].
    split; [reflexivity|]. split; [lia|reflexivity].
Qed.

Lemma gather_sizes_witness :
  Gather.pages Gather.ex_chunk <> []
  /\ Gather.bfr_size (snd (Gather.gpuGatherPages Gather.ex_chunk
                             Gather.ex_mem))
     = u32 (Gather.bfr_size Gather.ex_chunk
            + fold_right (fun p a => Gather.hdr_size p + a) 0
                         (Gather.pages Gather.ex_chunk))
  /\ Gather.bfr_size (snd (Gather.gpuGatherPages Gather.ex_chunk
                             Gather.ex_mem)) = 10.
Proof.
  assert (H : Gather.pages Gather.ex_chunk <> []) by discriminate.
  split; [exact H|]. split.
  - exact (proj1 (gather_sizes Gather.ex_chunk Gather.ex_mem) H).
  - vm_compute. reflexivity.
Defined.

End ChunkSizes.

(** ** Definition levels: range, meaning, and the two ways to compute
    them *)

Module DefLevelFacts.
Import Dremel DefLevels.

Lemma nullable_count_nonneg c nb : forall l, 0 <= nullable_count c nb l.
Proof.
  induction c as [o s v|o s v offs child IH|o s v child IH]; intros l;
    cbn [nullable_count]; try specialize (IH (S l));
    destruct (nth l nb false); lia.
Qed.

(** X19: the definition level that [def_level_fn] gives to a row lies
    between the level it starts from and that level plus the number of
    nullable levels from the column down its structs; it reaches the upper
    end exactly when the row is valid at every nullable level, and it stops
    counting at the first nullable level where the row is null. *)
Theorem def_level_range (c : column) (nb : list bool) :
  forall (l : nat) (def i : Z),
  def <= def_level_fn c nb l def i <= def + nullable_count c nb l
  /\ (def_level_fn c nb l def i = def + nullable_count c nb l
      <-> levels_valid c nb l i = true)
  /\ (nth l nb false = true -> valid_at c i = false ->
      def_level_fn c nb l def i = def).
Proof.
  induction c as [o s v|o s v offs child IH|o s v child IH]; intros l def i;
    cbn [def_level_fn nullable_count levels_valid].
  - destruct (nth l nb false); cbn [negb orb].
    + destruct (valid_at _ i); cbn [andb].
      * split; [lia|]. split; [split; [reflexivity|lia]|discriminate].
      * split; [lia|]. split; [split; [lia|discriminate]|reflexivity].
    + split; [lia|]. split; [split; [reflexivity|lia]|discriminate].
  - destruct (nth l nb false); cbn [negb orb].
    + destruct (valid_at _ i); cbn [andb].
      * split; [lia|]. split; [split; [reflexivity|lia]|discriminate].
      * split; [lia|]. split; [split; [lia|discriminate]|reflexivity].
    + split; [lia|]. split; [split; [reflexivity|lia]|discriminate].
  - pose proof (nullable_count_nonneg child nb (S l)) as Hc.
    destruct (nth l nb false); cbn [negb orb].
    + destruct (valid_at _ i); cbn [andb].
      * destruct (IH (S l) (def + 1) i) as (I1 & I2 & _).
        split; [lia|]. split; [|discriminate].
        rewrite <- I2. split; lia.
      * split; [lia|]. split; [split; [lia|discriminate]|reflexivity].
    + destruct (IH (S l) def i) as (I1 & I2 & _).
      split; [lia|]. split; [|discriminate].
      rewrite <- I2. split; lia.
Qed.

Lemma def_level_range_witness :
  nth 0 [true; true] false = true
  /\ valid_at ex_struct 1 = false
  /\ def_level_fn ex_struct [true; true] 0 0 1 = 0
  /\ map (def_level_fn ex_struct [true; true] 0 0) [0; 1; 2; 3]
     = [2; 0; 1; 2].
Proof.
  assert (H1 : nth 0 [true; true] false = true) by reflexivity.
  assert (H2 : valid_at ex_struct 1 = false) by reflexivity.
  split; [exact H1|]. split; [exact H2|]. split.
  - exact (proj2 (proj2 (def_level_range ex_struct [true; true] 0 0 1)) H1 H2).
  - reflexivity.
Defined.

(** X20: on a column that is not sliced, the definition level that the
    page encoder computes for a row of a column without lists is the one
    that [def_level_fn] computes for the same row: the two walks down the
    structs agree. *)
Theorem def_levels_agree (c : column) :
  forall (nb : list bool) (l : nat) (def row : Z),
  0 <= row < 2 ^ 32 -> 0 <= def ->
  def + nullable_count c nb l < 2 ^ 32 ->
  Encode.def_lvl_walk (encoder_levels c) (skipn l nb) row def
  = def_level_fn c nb l def row.
Proof.
  assert (Hhd : forall l (nb : list bool),
            hd false (skipn l nb) = nth l nb false).
  { induction l as [|l IH]; intros [|b nb]; cbn [skipn hd nth];
      try reflexivity. apply IH. }
  assert (Htl : forall l (nb : list bool), tl (skipn l nb) = skipn (S l) nb).
  { induction l as [|l IH]; intros [|b nb]; cbn [skipn tl];
      try reflexivity.
    - rewrite IH. reflexivity. }
  induction c as [o s v|o s v offs child IH|o s v child IH];
    intros nb l def row Hrow Hdef Hw;
    cbn [encoder_levels Encode.def_lvl_walk def_level_fn nullable_count
         Encode.cl_is_valid Encode.cl_is_struct Encode.cl_offset] in *;
    rewrite Hhd.
  - destruct (nth l nb false); cbn [andb].
    + destruct (valid_at _ row); cbn [negb]; [|reflexivity].
      apply u32_small. lia.
    + reflexivity.
  - destruct (nth l nb false); cbn [andb].
    + destruct (valid_at _ row); cbn [negb]; [|reflexivity].
      apply u32_small. lia.
    + reflexivity.
  - pose proof (nullable_count_nonneg child nb (S l)) as Hc.
    rewrite Htl, Z.add_0_r, (u32_small row) by lia.
    destruct (nth l nb false); cbn [andb].
    + destruct (valid_at _ row); cbn [negb]; [|reflexivity].
      rewrite (u32_small (def + 1)) by lia. apply IH; lia.
    + apply IH; lia.
Qed.

Lemma def_levels_agree_witness :
  (0 <= 2 < 2 ^ 32 /\ 0 <= 0
   /\ 0 + nullable_count ex_struct [true; true] 0 < 2 ^ 32)
  /\ Encode.def_lvl_walk (encoder_levels ex_struct) [true; true] 2 0 = 1
  /\ Encode.def_lvl_walk (encoder_levels ex_struct) (skipn 0 [true; true]) 2 0
     = def_level_fn ex_struct [true; true] 0 0 2.
Proof.
  assert (H1 : 0 <= 2 < 2 ^ 32) by lia.
  assert (H2 : 0 <= 0) by lia.
  assert (H3 : 0 + nullable_count ex_struct [true; true] 0 < 2 ^ 32)
    by (vm_compute; reflexivity).
  split; [exact (conj H1 (conj H2 H3))|]. split; [reflexivity|].
  exact (def_levels_agree ex_struct [true; true] 0 0 2 H1 H2 H3).
Defined.

End DefLevelFacts.

(** ** The level block of a page: length prefix and stream *)

Module LevelBlock.
Import Rle RleFormat RleFormatFacts RleMem RleInv RleInvFacts RleFrame.

(** A well-formed stream takes at most seven bytes for each value of its
    runs. *)
Lemma encodes_length w bs rs :
  1 <= w <= 16 -> encodes w bs rs ->
  Z.of_nat (length bs) <= 7 * Z.of_nat (length (flat_map expand rs)).
Proof.
  intros Hw H.
  induction H as [|c v bs rs Hc Hc32 Hv H IH
                  |g vs packed bs rs Hg Hlen Hvs Hpl Hbits H IH].
  - cbn. lia.
  - cbn [flat_map]. rewrite !length_app, length_le_split.
    pose proof (vlq_bytes_length 4 (2 * c)) as Hl.
    cbn [expand]. rewrite repeat_length.
    replace (Z.shiftr (2 * c) 1) with c
      by (rewrite Z.shiftr_div_pow2 by lia; change (2 ^ 1) with 2;
          rewrite Z.mul_comm, Z.div_mul by lia; reflexivity).
    assert ((value_bytes w <= 2)%nat)
      by (unfold value_bytes; destruct (w >? 8); lia).
    lia.
  - cbn [flat_map expand length]. rewrite !length_app. nia.
Qed.

(** The four bytes stored at the cursor hold the value, lowest byte first. *)
Lemma length_prefix_stored m cur v :
  0 <= v < 2 ^ 32 ->
  le_combine
    (load_bytes
       (fold_left (fun m t => store m (cur + t) (Z.shiftr v (t * 8)))
                  [0; 1; 2; 3] m) cur 4) = v.
Proof.
  intros Hv. cbn [fold_left load_bytes seq map].
  unfold store.
  repeat match goal with
         | |- context [?a =? ?b] =>
             destruct (Z.eqb_spec a b); [|lia]
         | |- context [?a =? ?b] =>
             destruct (Z.eqb_spec a b); [lia|]
         end.
  change (0 * 8) with 0. change (1 * 8) with 8. change (2 * 8) with 16.
  change (3 * 8) with 24. rewrite Z.shiftr_0_r.
  transitivity (le_combine (le_split 4 v));
    [|rewrite le_combine_split; apply Z.mod_small; exact Hv].
  reflexivity.
Qed.

(** X21: the level block that [gpuEncodePages] writes for a page of
    fewer than 2^29 levels of 1 to 16 bits starts, wherever the cursor is
    and whatever the buffer held, with four bytes that give, lowest byte
    first, the length of what follows up to the new cursor; those bytes are
    an RLE stream that decodes to the levels followed by fewer than eight
    zeros.  Nothing before the cursor is changed. *)
Theorem level_block_layout (inp : list Z) (nbits : Z) (vs : Z -> Z)
    (cur : Z) (m : mem) :
  1 <= nbits <= 16 ->
  Forall (fun x => 0 <= x < 2 ^ nbits) inp ->
  Z.of_nat (length inp) < 2 ^ 29 ->
  exists m' e ring pad,
    encode_levels inp nbits vs cur m = Some (m', e, ring)
    /\ cur + 4 <= e
    /\ le_combine (load_bytes m' cur 4) = e - (cur + 4)
    /\ rle_decode nbits (load_bytes m' (cur + 4) (Z.to_nat (e - (cur + 4))))
       = Some (inp ++ repeat 0 pad)
    /\ (pad < 8)%nat
    /\ forall x, x < cur -> m' x = m x.
Proof.
  intros Hw Hinp Hlen.
  assert (Hlen30 : Z.of_nat (length inp) < 2 ^ 30) by lia.
  assert (HI0 : Inv inp nbits (cur + 4) 0 (levels_init vs cur m)).
  { constructor; cbn [levels_init rle_out rle_pos rle_run out vals]; try lia.
    exists [], 0, 0%nat. split.
    { replace (cur + 4 - (cur + 4)) with 0 by lia. apply encodes_nil. }
    split; [reflexivity|].
    split; [lia|]. split; [left; reflexivity|]. left. split; reflexivity. }
  destruct (encode_levels_loop_inv inp nbits (cur + 4) Hw Hinp Hlen30
              (length inp) (levels_init vs cur m) HI0)
    as (s & E & HI & Hp & Hr).
  - cbn [levels_init rle_numvals rle_pos]. lia.
  - cbn [levels_init rle_numvals rle_pos rle_run]. intros <-.
    split; reflexivity.
  - cbn [levels_init rle_numvals]. lia.
  - assert (Hfr : forall x, x < cur + 4 -> out s x = m x).
    { intros x Hx.
      exact (encode_levels_loop_frame inp nbits (cur + 4) (length inp) x
               Hw Hinp Hlen30 (levels_init vs cur m) s HI0
               ltac:(cbn [levels_init rle_numvals rle_pos]; lia) Hx E). }
    destruct HI as [Iout _ _ _ (rs & c & pad & Henc & Hexp & Hc & Hpad & Hopen)].
    assert (Hcn : c = Z.of_nat (length inp)).
    { destruct Hopen as [[_ ?]|[(k & ? & ? & _)|(r & ? & ? & _)]]; lia. }
    assert (Hpad8 : (pad < 8)%nat)
      by (destruct Hpad as [->|(_ & _ & _ & ?)]; lia).
    assert (Hall : flat_map expand rs = inp ++ repeat 0 pad)
      by (rewrite Hexp, Hcn, Nat2Z.id, firstn_all; reflexivity).
    pose proof (encodes_length _ _ _ Hw Henc) as Hsz.
    rewrite load_bytes_length, Hall, length_app, repeat_length in Hsz.
    assert (Hfit : 0 <= rle_out s - cur - 4 < 2 ^ 32) by lia.
    unfold encode_levels. rewrite E. cbv zeta.
    rewrite (u32_small _ Hfit).
    eexists _, _, _, pad. split; [reflexivity|].
    split; [exact Iout|]. split; [|split; [|split; [exact Hpad8|]]].
    + rewrite length_prefix_stored by exact Hfit. lia.
    + destruct (encodes_decode nbits _ rs Hw Henc) as [_ Hdec].
      rewrite <- Hall, <- Hdec. f_equal.
      apply load_bytes_ext. intros x Hx. cbn [fold_left]. unfold store.
      repeat match goal with
             | |- context [x =? ?a] => destruct (Z.eqb_spec x a); [lia|]
             end.
      reflexivity.
    + intros x Hx. cbn [fold_left]. rewrite !store_other by lia.
      apply Hfr. lia.
Qed.

Lemma level_block_layout_witness :
  exists m' e ring pad,
    encode_levels [1; 1; 0; 1; 1; 1; 1; 1; 1; 1; 1; 1] 1 (fun _ => 0) 100
                  (fun _ => Byte.xff) = Some (m', e, ring)
    /\ 100 + 4 <= e
    /\ le_combine (load_bytes m' 100 4) = e - (100 + 4)
    /\ rle_decode 1 (load_bytes m' (100 + 4) (Z.to_nat (e - (100 + 4))))
       = Some ([1; 1; 0; 1; 1; 1; 1; 1; 1; 1; 1; 1] ++ repeat 0 pad)
    /\ (pad < 8)%nat
    /\ forall x, x < 100 -> m' x = Byte.xff.
Proof.
  apply level_block_layout.
  - lia.
  - repeat constructor; lia.
  - vm_compute. reflexivity.
Defined.

End LevelBlock.

(** ** The bytes of a page in the PLAIN encoding *)

Module PlainFacts.
Import Rle RleBits RleFormatFacts RleMem Encode Fragments FragmentFacts
  PlainBytes.

(** *** Stores at consecutive addresses *)

Lemma apply_stores_frame ws : forall m x,
  ~ In x (map fst ws) -> apply_stores m ws x = m x.
Proof.
  induction ws as [|[a v] ws IH]; intros m x H; [reflexivity|].
  change (apply_stores m ((a, v) :: ws)) with (apply_stores (store m a v) ws).
  rewrite IH by (intros Hin; apply H; right; exact Hin).
  apply store_other. intros ->. apply H. left. reflexivity.
Qed.

Lemma load_bytes_cons m a n :
  load_bytes m a (S n) = m a :: load_bytes m (a + 1) n.
Proof.
  change (S n) with (1 + n)%nat. rewrite load_bytes_app.
  unfold load_bytes at 1. cbn [seq map app]. rewrite Z.add_0_r.
  reflexivity.
Qed.

Lemma apply_stores_consec ws : forall m a,
  map fst ws = map (fun i => a + Z.of_nat i) (seq 0 (length ws)) ->
  load_bytes (apply_stores m ws) a (length ws)
  = map (fun ov => byte.of_Z (snd ov)) ws.
Proof.
  induction ws as [|[a0 v] ws IH]; intros m a H; [reflexivity|].
  cbn [length seq map fst snd] in H. injection H as Ha Hrest.
  rewrite Z.add_0_r in Ha. subst a0.
  rewrite <- seq_shift, map_map in Hrest.
  assert (Hrest' : map fst ws
                   = map (fun i => a + 1 + Z.of_nat i) (seq 0 (length ws))).
  { rewrite Hrest. apply map_ext. intros i. lia. }
  cbn [length map snd]. rewrite load_bytes_cons.
  change (apply_stores m ((a, v) :: ws)) with (apply_stores (store m a v) ws).
  f_equal.
  - rewrite apply_stores_frame.
    + apply store_same.
    + rewrite Hrest'. intros Hin.
      apply in_map_iff in Hin as (i & Hi & _). lia.
  - apply IH. exact Hrest'.
Qed.

(** Stores that cover [N] consecutive addresses from [a] leave the bytes
    they carry there, and nothing else changes. *)
Lemma apply_stores_block ws m a N :
  map fst ws = map (fun i => a + Z.of_nat i) (seq 0 N) ->
  load_bytes (apply_stores m ws) a N = map (fun ov => byte.of_Z (snd ov)) ws
  /\ forall x, x < a \/ a + Z.of_nat N <= x -> apply_stores m ws x = m x.
Proof.
  intros H.
  assert (HN : N = length ws).
  { apply (f_equal (@length _)) in H.
    rewrite !length_map, length_seq in H. lia. }
  subst N. split.
  - apply apply_stores_consec. exact H.
  - intros x Hx. apply apply_stores_frame. rewrite H. intros Hin.
    apply in_map_iff in Hin as (i & Hi & Hin). apply in_seq in Hin. lia.
Qed.

Lemma map_flat_map {A B C} (f : B -> C) (g : A -> list B) l :
  map f (flat_map g l) = flat_map (fun x => map f (g x)) l.
Proof.
  induction l as [|x l IH]; [reflexivity|].
  cbn [flat_map]. rewrite map_app, IH. reflexivity.
Qed.

Lemma length_flat_lanes {A} (f : Z -> list A) k :
  Z.of_nat (length (flat_map f (map Z.of_nat (seq 0 k))))
  = sum_from (fun l => Z.of_nat (length (f l))) 0 k.
Proof.
  induction k as [|k IH]; [reflexivity|].
  rewrite seq_S, map_app, flat_map_app, length_app, sum_from_snoc.
  cbn [Nat.add map flat_map]. rewrite app_nil_r, Z.add_0_l. lia.
Qed.

(** Blocks laid one after the other, each at the sum of the lengths of
    those before it, cover consecutive addresses. *)
Lemma consec_blocks {A} (f : Z -> list A) base k :
  flat_map
    (fun t =>
       map (fun i => base + sum_from (fun l => Z.of_nat (length (f l))) 0
                                     (Z.to_nat t) + Z.of_nat i)
           (seq 0 (length (f t))))
    (map Z.of_nat (seq 0 k))
  = map (fun i => base + Z.of_nat i)
        (seq 0 (length (flat_map f (map Z.of_nat (seq 0 k))))).
Proof.
  induction k as [|k IH]; [reflexivity|].
  rewrite seq_S, !map_app, !flat_map_app, IH, length_app, seq_app, map_app.
  f_equal. cbn [Nat.add map flat_map]. rewrite !app_nil_r, Nat2Z.id.
  rewrite (map_seq_off (length (f (Z.of_nat k)))
             (fun i => base + Z.of_nat i)).
  apply map_ext. intros i. rewrite <- length_flat_lanes. lia.
Qed.

(** *** The scan of the block *)

Lemma fold_left_agree {A B} (f g : A -> B -> A) l : forall a,
  (forall a b, In b l -> f a b = g a b) -> fold_left f l a = fold_left g l a.
Proof.
  induction l as [|b l IH]; intros a H; [reflexivity|].
  cbn [fold_left]. rewrite (H a b) by (left; reflexivity).
  apply IH. intros a' b' Hb. apply H. right. exact Hb.
Qed.

Lemma fold_left_keep {A B} (l : list B) (a : A) :
  fold_left (fun a _ => a) l a = a.
Proof. induction l as [|b l IH]; [reflexivity|exact IH]. Qed.

(** [ExclusiveSum] gives lane [t] the sum of the lanes before it. *)
Lemma exclusive_sum_prefix x tn :
  (tn <= 128)%nat ->
  exclusive_sum x (Z.of_nat tn) = u32 (sum_from x 0 tn).
Proof.
  intros H. unfold exclusive_sum, lanes.
  replace (seq 0 128) with (seq 0 tn ++ seq tn (128 - tn))
    by (rewrite <- seq_app; f_equal; lia).
  rewrite map_app, fold_left_app.
  rewrite (fold_left_agree _ (fun a l => u32 (a + x l))
             (map Z.of_nat (seq 0 tn))).
  2:{ intros a b Hb. apply in_map_iff in Hb as (i & <- & Hi).
      apply in_seq in Hi. destruct (Z.ltb_spec (Z.of_nat i) (Z.of_nat tn));
        [reflexivity|lia]. }
  rewrite (fold_left_agree _ (fun a _ => a)
             (map Z.of_nat (seq tn (128 - tn)))).
  2:{ intros a b Hb. apply in_map_iff in Hb as (i & <- & Hi).
      apply in_seq in Hi. destruct (Z.ltb_spec (Z.of_nat i) (Z.of_nat tn));
        [lia|reflexivity]. }
  rewrite fold_left_keep.
  change 0 with (u32 0) at 1.
  rewrite CompressionFacts.fold_u32_total, sum_lanes. reflexivity.
Qed.

(** *** One value *)

Lemma raw_stores_fst bs from :
  map fst (raw_stores bs from)
  = map (fun i => from + Z.of_nat i) (seq 0 (length bs)).
Proof. unfold raw_stores. rewrite map_map. reflexivity. Qed.

Lemma raw_stores_snd bs from :
  map (fun ov => byte.of_Z (snd ov)) (raw_stores bs from) = bs.
Proof.
  unfold raw_stores. rewrite map_map. cbn [snd].
  apply nth_ext with (d := Byte.x00) (d' := Byte.x00).
  - rewrite length_map, length_seq. reflexivity.
  - intros k Hk. rewrite length_map, length_seq in Hk.
    rewrite nth_map_seq by exact Hk. apply byte.of_Z_unsigned.
Qed.

(** The stores of one value cover the bytes of its PLAIN encoding, in
    order. *)
Lemma plain_stores_bytes col e :
  well_typed col e = true -> physical_type col <> BOOLEAN ->
  let len :=
    match physical_type col with
    | BYTE_ARRAY =>
        u32 (physical_type_len (physical_type col) (leaf_type col)
             + Z.of_nat (length (el_bytes e)))
    | _ => physical_type_len (physical_type col) (leaf_type col)
    end in
  let ws := plain_stores (physical_type col) (leaf_type col) (ts_scale col)
                         len e in
  map fst ws = map Z.of_nat (seq 0 (length (plain_value_bytes col e)))
  /\ map (fun ov => byte.of_Z (snd ov)) ws = plain_value_bytes col e
  /\ Z.of_nat (length (plain_value_bytes col e)) = len.
Proof.
  intros Hwt Hnb. unfold well_typed, plain_value_bytes in *.
  destruct (physical_type col) eqn:Ept; cbv zeta;
    cbn [plain_stores physical_type_len].
  - congruence.
  - rewrite length_le_split. repeat split.
  - rewrite length_le_split. repeat split.
  - unfold int96_stores. cbv zeta.
    rewrite length_app, !length_le_split. repeat split.
  - rewrite length_le_split. repeat split.
  - apply Nat.eqb_eq in Hwt.
    rewrite firstn_all2 by lia. rewrite raw_stores_fst, raw_stores_snd, Hwt.
    repeat split.
  - apply Z.ltb_lt in Hwt.
    rewrite length_app, length_le_split.
    rewrite (u32_small (4 + _)) by lia.
    replace (4 + Z.of_nat (length (el_bytes e)) - 4)
      with (Z.of_nat (length (el_bytes e))) by lia.
    rewrite u32_small by lia.
    assert (Hraw : (if negb (Z.of_nat (length (el_bytes e)) =? 0)
                    then raw_stores (el_bytes e) 4 else [])
                   = raw_stores (el_bytes e) 4).
    { destruct (Z.eqb_spec (Z.of_nat (length (el_bytes e))) 0) as [H0|H0];
        [|reflexivity].
      destruct (el_bytes e); [reflexivity|cbn [length] in H0; lia]. }
    rewrite Hraw, !map_app, raw_stores_fst, raw_stores_snd.
    split; [|split].
    + rewrite seq_app, map_app. f_equal.
      cbn [Nat.add]. rewrite (map_seq_off _ _ 4). apply map_ext.
      intros i. lia.
    + reflexivity.
    + lia.
  - destruct (leaf_type col); try discriminate.
    apply Nat.eqb_eq in Hwt.
    rewrite firstn_all2 by lia.
    rewrite raw_stores_fst, raw_stores_snd, !length_rev, Hwt.
    repeat split.
Qed.

Lemma map_seq_off_flat {A} n : forall a (f : nat -> list A),
  flat_map f (seq a n) = flat_map (fun i => f (a + i)%nat) (seq 0 n).
Proof.
  induction n as [|n IH]; intros a f; cbn [seq flat_map]; [reflexivity|].
  rewrite Nat.add_0_r. f_equal.
  rewrite (IH (S a) f), (IH 1%nat (fun i => f (a + i)%nat)).
  apply flat_map_agree. intros i _. f_equal. lia.
Qed.

(** The lanes past the count hold nothing. *)
Lemma flat_map_cut {A} (h : Z -> list A) c B :
  0 <= c ->
  flat_map (fun t => if t <? c then h t else []) (map Z.of_nat (seq 0 B))
  = flat_map (fun i => h (Z.of_nat i)) (seq 0 (Nat.min (Z.to_nat c) B)).
Proof.
  intros Hc. induction B as [|B IH].
  - rewrite Nat.min_0_r. reflexivity.
  - rewrite seq_S, map_app, flat_map_app, IH.
    cbn [Nat.add map flat_map]. rewrite app_nil_r.
    destruct (Z.ltb_spec (Z.of_nat B) c) as [Hlt|Hge].
    + replace (Nat.min (Z.to_nat c) (S B)) with (S B) by lia.
      replace (Nat.min (Z.to_nat c) B) with B by lia.
      rewrite seq_S, flat_map_app. cbn [Nat.add flat_map].
      rewrite app_nil_r. reflexivity.
    + replace (Nat.min (Z.to_nat c) (S B)) with (Nat.min (Z.to_nat c) B)
        by lia.
      apply app_nil_r.
Qed.

(** *** Batches of 128 values *)

Section Batches.

Variable enable_bool_rle : bool.
Variable col : column_view.
Variable ck : chunk_view.
Variable page : page_view.

(** The bytes of value number [i] of the page. *)
Variable f : Z -> list byte.

Local Abbreviation n := (num_leaf_values page).

(** The bytes that lane [t] of the batch at [idx] writes. *)
Local Abbreviation lane_bytes idx :=
  (fun t => if t <? n - idx then f (idx + t) else []).

(** The length that lane [t] hands to the scan. *)
Local Abbreviation lane_len idx :=
  (fun t =>
     if fst (lane_value col ck page idx t) then
       match physical_type col with
       | BYTE_ARRAY =>
           u32 (physical_type_len (physical_type col) (leaf_type col)
                + Z.of_nat (length (el_bytes
                                      (leaf_element col
                                         (snd (lane_value col ck page idx
                                                          t))))))
       | _ => physical_type_len (physical_type col) (leaf_type col)
       end
     else 0).

(** The stores of lane [t], given its position [pos] in the batch. *)
Local Abbreviation lane_ws idx dst pos t :=
  (if fst (lane_value col ck page idx t) then
     map (fun ov => (dst + (pos + fst ov), snd ov))
         (plain_stores (physical_type col) (leaf_type col) (ts_scale col)
            (lane_len idx t%Z)
            (leaf_element col (snd (lane_value col ck page idx t))))
   else []).

Local Abbreviation batch_bytes idx k :=
  (flat_map (fun i => f (idx + Z.of_nat i)) (seq 0 k)).

Hypothesis Hbits : dict_bits col ck page = -1.
Hypothesis Hlen : forall idx t,
  0 <= idx -> 0 <= t ->
  lane_len idx t = Z.of_nat (length (lane_bytes idx t)).
Hypothesis Hws : forall idx dst pos t,
  0 <= idx -> 0 <= t ->
  map fst (lane_ws idx dst pos t)
  = map (fun i => dst + pos + Z.of_nat i)
        (seq 0 (length (lane_bytes idx t)))
  /\ map (fun ov => byte.of_Z (snd ov)) (lane_ws idx dst pos t)
     = lane_bytes idx t.

Lemma lanes_bytes idx :
  0 <= idx <= n ->
  flat_map (lane_bytes idx) lanes
  = batch_bytes idx (Nat.min (Z.to_nat (n - idx)) 128).
Proof.
  intros Hi. unfold lanes.
  rewrite (flat_map_cut (fun t => f (idx + t))) by lia.
  reflexivity.
Qed.

Lemma batch_bytes_app idx k1 k2 :
  batch_bytes idx (k1 + k2)
  = batch_bytes idx k1 ++ batch_bytes (idx + Z.of_nat k1) k2.
Proof.
  rewrite seq_app, flat_map_app. f_equal.
  cbn [Nat.add]. rewrite (map_seq_off_flat k2 k1). apply flat_map_agree.
  intros i _. f_equal. lia.
Qed.

(** A batch writes the bytes of its values from the cursor on, moves the
    cursor past them and changes nothing else. *)
Lemma plain_batch_bytes idx cur m :
  0 <= idx <= n ->
  let bs := batch_bytes idx (Nat.min (Z.to_nat (n - idx)) 128) in
  Z.of_nat (length bs) < 2 ^ 32 ->
  snd (plain_batch col ck page idx cur m) = cur + Z.of_nat (length bs)
  /\ load_bytes (fst (plain_batch col ck page idx cur m)) cur (length bs)
     = bs
  /\ forall x, x < cur \/ cur + Z.of_nat (length bs) <= x ->
       fst (plain_batch col ck page idx cur m) x = m x.
Proof.
  intros Hi bs Hfit.
  assert (Hbs : flat_map (lane_bytes idx) lanes = bs)
    by (apply lanes_bytes; exact Hi).
  assert (Hsum : forall tn,
            sum_from (lane_len idx) 0 tn
            = sum_from (fun l => Z.of_nat (length (lane_bytes idx l))) 0 tn).
  { intros tn. apply sum_from_ext. intros k _. apply Hlen; lia. }
  assert (Htot : sum_from (fun l => Z.of_nat (length (lane_bytes idx l)))
                          0 128 = Z.of_nat (length bs)).
  { rewrite <- Hbs. unfold lanes. symmetry. apply length_flat_lanes. }
  assert (Hpre : forall tn, (tn <= 128)%nat ->
            0 <= sum_from (fun l => Z.of_nat (length (lane_bytes idx l)))
                          0 tn <= Z.of_nat (length bs)).
  { intros tn Htn. rewrite <- Htot. split.
    - apply sum_from_nonneg. intros j. lia.
    - apply sum_from_le; [intros j; lia|exact Htn]. }
  assert (Hpos : forall t, In t lanes ->
            exclusive_sum (lane_len idx) t
            = sum_from (fun l => Z.of_nat (length (lane_bytes idx l))) 0
                       (Z.to_nat t)).
  { intros t Ht. apply In_lanes in Ht.
    rewrite <- (Z2Nat.id t) at 1 by lia.
    rewrite exclusive_sum_prefix by lia. rewrite Hsum.
    apply u32_small. specialize (Hpre (Z.to_nat t) ltac:(lia)). lia. }
  unfold plain_batch. cbv zeta. cbn [fst snd].
  split.
  { f_equal. rewrite block_total_sum, (Hsum 128%nat), Htot.
    apply u32_small. lia. }
  match goal with
  | |- context [apply_stores m ?S] => set (ws := S)
  end.
  destruct (apply_stores_block ws m cur (length bs)) as [H1 H2].
  - unfold ws. rewrite map_flat_map.
    transitivity
      (flat_map
         (fun t =>
            map (fun i =>
                   cur + sum_from
                           (fun l => Z.of_nat (length (lane_bytes idx l)))
                           0 (Z.to_nat t) + Z.of_nat i)
                (seq 0 (length (lane_bytes idx t)))) lanes).
    + apply flat_map_agree. intros t Ht.
      pose proof (In_lanes t) as Hr. apply Hr in Ht as Hrange.
      destruct (Hws idx cur (exclusive_sum (lane_len idx) t) t
                  ltac:(lia) ltac:(lia)) as [Ha _].
      cbv beta zeta in Ha |- *. rewrite Ha, (Hpos t Ht). reflexivity.
    + unfold lanes. rewrite consec_blocks. fold lanes. rewrite Hbs.
      reflexivity.
  - split; [|exact H2].
    rewrite H1. unfold ws. rewrite map_flat_map, <- Hbs.
    apply flat_map_agree. intros t Ht.
    pose proof (In_lanes t) as Hr. apply Hr in Ht as Hrange.
    destruct (Hws idx cur (exclusive_sum (lane_len idx) t) t
                ltac:(lia) ltac:(lia)) as [_ Hb].
    cbv beta zeta in Hb |- *. exact Hb.
Qed.

(** The loop over the batches of a page. *)
Lemma values_loop_bytes : forall fuel idx cur s,
  0 <= idx -> n + 128 < 2 ^ 32 ->
  n - idx <= Z.of_nat fuel ->
  let bs := batch_bytes idx (Z.to_nat (n - idx)) in
  Z.of_nat (length bs) < 2 ^ 32 ->
  exists s',
    values_loop enable_bool_rle col ck page fuel idx cur s
    = Some (s', cur + Z.of_nat (length bs))
    /\ load_bytes (out s') cur (length bs) = bs
    /\ forall x, x < cur \/ cur + Z.of_nat (length bs) <= x ->
         out s' x = out s x.
Proof.
  induction fuel as [|fuel IH]; intros idx cur s Hi Hn Hf bs Hfit.
  - cbn [values_loop]. destruct (Z.ltb_spec idx n); [lia|].
    exists s. subst bs. replace (Z.to_nat (n - idx)) with O by lia.
    cbn [seq flat_map length load_bytes map].
    rewrite Z.add_0_r. repeat split.
  - cbn [values_loop]. destruct (Z.ltb_spec idx n) as [Hlt|Hge].
    + cbv zeta. rewrite Hbits.
      change (-1 >=? 0) with false. cbv iota.
      set (k := Nat.min (Z.to_nat (n - idx)) 128).
      assert (Hk : Z.of_nat k = Z.min (n - idx) 128) by (unfold k; lia).
      assert (Hsplit :
                bs = batch_bytes idx k
                     ++ batch_bytes (idx + Z.of_nat k)
                          (Z.to_nat (n - (idx + Z.of_nat k)))).
      { unfold bs.
        replace (Z.to_nat (n - idx))
          with (k + Z.to_nat (n - (idx + Z.of_nat k)))%nat by lia.
        apply batch_bytes_app. }
      clearbody bs. subst bs. rewrite length_app in Hfit |- *.
      destruct (plain_batch_bytes idx cur (out s) ltac:(lia))
        as (Hadv & Hload & Hframe); [fold k; lia|].
      fold k in Hadv, Hload, Hframe.
      destruct (plain_batch col ck page idx cur (out s)) as [m' cur'].
      cbn [fst snd] in Hadv, Hload, Hframe. subst cur'.
      rewrite <- Hk. rewrite (u32_small (idx + Z.of_nat k)) by lia.
      destruct (IH (idx + Z.of_nat k)
                  (cur + Z.of_nat (length (batch_bytes idx k)))
                  {| rle_out := rle_out s; rle_run := rle_run s;
                     run_val := run_val s; rle_pos := rle_pos s;
                     rle_numvals := rle_numvals s;
                     rle_lit_count := rle_lit_count s;
                     rle_rpt_count := rle_rpt_count s;
                     vals := vals s; out := m' |})
        as (s' & Hs' & Hl' & Hf'); try lia.
      cbn [out] in Hf'. exists s'. split; [|split].
      * rewrite Hs'. f_equal. f_equal. lia.
      * rewrite load_bytes_app. f_equal; [|exact Hl'].
        rewrite <- Hload at 2. apply load_bytes_ext. intros x Hx.
        apply Hf'. lia.
      * intros x Hx. rewrite Hf' by lia. apply Hframe. lia.
    + exists s. subst bs. replace (Z.to_nat (n - idx)) with O by lia.
      cbn [seq flat_map length load_bytes map].
      rewrite Z.add_0_r. repeat split.
Qed.

(** The page: the values follow the levels. *)
Lemma page_values_bytes m :
  let base := page_data page + max_hdr_size page in
  let bs := flat_map (fun i => f (Z.of_nat i)) (seq 0 (Z.to_nat n)) in
  physical_type col <> BOOLEAN ->
  n + 128 < 2 ^ 32 ->
  Z.of_nat (length bs) < 2 ^ 32 ->
  forall m1 cur vs,
    encode_page_levels col page base m = Some (m1, cur, vs) ->
    exists m',
      gpuEncodePages enable_bool_rle col ck page m
      = Some (m', u32 (cur - base + Z.of_nat (length bs)))
      /\ load_bytes m' cur (length bs) = bs
      /\ forall x, x < cur \/ cur + Z.of_nat (length bs) <= x ->
           m' x = m1 x.
Proof.
  intros base bs Hnobool Hn Hfit m1 cur vs Hlv.
  assert (Ebs : bs = batch_bytes 0 (Z.to_nat (n - 0))).
  { unfold bs. rewrite Z.sub_0_r. reflexivity. }
  unfold gpuEncodePages. fold base. rewrite Hlv, Hbits.
  change ((-1 >=? 0) && negb (Type_eqb (physical_type col) BOOLEAN))
    with false. cbv iota.
  match goal with
  | |- context [values_loop _ _ _ _ _ _ _ ?s0] =>
      destruct (values_loop_bytes (Z.to_nat n) 0 cur s0)
        as (s' & Hs' & Hl & Hf)
  end; try lia.
  - rewrite <- Ebs. exact Hfit.
  - rewrite <- Ebs in Hs', Hl, Hf.
    cbn [out] in Hf. rewrite Hs'. exists (out s').
    split; [|split]; [|exact Hl|exact Hf].
    f_equal. f_equal. f_equal. lia.
Qed.

End Batches.

(** *** The lanes of a data page *)

Section DataPage.

Variable col : column_view.
Variable ck : chunk_view.
Variable page : page_view.

Hypothesis Hdata : page_type page = DATA_PAGE.
Hypothesis Hnodict : use_dictionary ck = false.
Hypothesis Hnobool : physical_type col <> BOOLEAN.
Hypothesis Hpsv : 0 <= page_start_val page.
Hypothesis Hwt :
  forall e, In (Some e) (leaf_column col) -> well_typed col e = true.

Local Abbreviation n := (num_leaf_values page).
Local Abbreviation psv := (page_start_val page).

Lemma leaf_bytes_length j :
  0 <= j -> Z.of_nat (length (leaf_bytes col j)) = leaf_len col j.
Proof.
  intros Hj. unfold leaf_bytes, leaf_len, value_len, leaf_size.
  destruct (Z.ltb_spec j (Z.of_nat (length (leaf_column col)))) as [Hlt|Hge].
  - destruct (nth (Z.to_nat j) (leaf_column col) None) as [e|] eqn:En;
      [|reflexivity].
    assert (Hin : In (Some e) (leaf_column col))
      by (rewrite <- En; apply nth_In; lia).
    destruct (plain_stores_bytes col e (Hwt e Hin) Hnobool) as (_ & _ & Hl).
    exact Hl.
  - rewrite nth_overflow by lia. reflexivity.
Qed.

Lemma data_lane_len idx t :
  0 <= idx -> 0 <= t ->
  (if fst (lane_value col ck page idx t) then
     match physical_type col with
     | BYTE_ARRAY =>
         u32 (physical_type_len (physical_type col) (leaf_type col)
              + Z.of_nat (length (el_bytes
                                    (leaf_element col
                                       (snd (lane_value col ck page idx
                                                        t))))))
     | _ => physical_type_len (physical_type col) (leaf_type col)
     end
   else 0)
  = Z.of_nat (length (if t <? n - idx
                      then leaf_bytes col (psv + (idx + t)) else [])).
Proof.
  intros Hi Ht.
  rewrite (plain_len_eq col ck page Hdata Hnodict idx t Hi Ht).
  destruct (t <? n - idx); [|reflexivity].
  rewrite <- Z.add_assoc. symmetry. apply leaf_bytes_length. lia.
Qed.

Lemma data_lane_stores idx dst pos t :
  0 <= idx -> 0 <= t ->
  let ws :=
    if fst (lane_value col ck page idx t) then
      map (fun ov => (dst + (pos + fst ov), snd ov))
          (plain_stores (physical_type col) (leaf_type col) (ts_scale col)
             (if fst (lane_value col ck page idx t) then
                match physical_type col with
                | BYTE_ARRAY =>
                    u32 (physical_type_len (physical_type col)
                                           (leaf_type col)
                         + Z.of_nat
                             (length (el_bytes
                                        (leaf_element col
                                           (snd (lane_value col ck page idx
                                                            t))))))
                | _ => physical_type_len (physical_type col) (leaf_type col)
                end
              else 0)
             (leaf_element col (snd (lane_value col ck page idx t))))
    else [] in
  map fst ws
  = map (fun i => dst + pos + Z.of_nat i)
        (seq 0 (length (if t <? n - idx
                        then leaf_bytes col (psv + (idx + t)) else [])))
  /\ map (fun ov => byte.of_Z (snd ov)) ws
     = (if t <? n - idx then leaf_bytes col (psv + (idx + t)) else []).
Proof.
  intros Hi Ht. cbv beta zeta.
  unfold lane_value, leaf_element, leaf_bytes.
  rewrite Hdata, Hnodict. cbn [is_dictionary_page]. cbv zeta. cbn [fst snd].
  destruct (Z.ltb_spec (psv + (idx + t)) (Z.of_nat (length (leaf_column col))))
    as [Hin|Hout];
    destruct (Z.ltb_spec (idx + t) n); destruct (Z.ltb_spec t (n - idx));
    try lia; cbn [andb]; try (split; reflexivity).
  - destruct (nth (Z.to_nat (psv + (idx + t))) (leaf_column col) None)
      as [e|] eqn:En; [|split; reflexivity].
    assert (He : In (Some e) (leaf_column col))
      by (rewrite <- En; apply nth_In; lia).
    destruct (plain_stores_bytes col e (Hwt e He) Hnobool) as (H1 & H2 & _).
    cbv zeta in H1, H2. rewrite !map_map. cbn [fst snd]. split.
    + rewrite <- (map_map fst (fun o => dst + (pos + o))), H1, map_map.
      apply map_ext. intros i. lia.
    + exact H2.
  - rewrite nth_overflow by lia. split; reflexivity.
Qed.

End DataPage.

(** *** The lanes of a dictionary page *)

Section DictPage.

Variable col : column_view.
Variable ck : chunk_view.
Variable page : page_view.

Hypothesis Hdict : page_type page = DICTIONARY_PAGE.
Hypothesis Hnobool : physical_type col <> BOOLEAN.
Hypothesis Hwt :
  forall i, 0 <= i < num_leaf_values page ->
    well_typed col (leaf_element col (nth (Z.to_nat i) (dict_data ck) 0))
    = true.

Local Abbreviation n := (num_leaf_values page).
Local Abbreviation entry i :=
  (plain_value_bytes col
     (leaf_element col (nth (Z.to_nat i) (dict_data ck) 0))).

Lemma dict_bits_dict : dict_bits col ck page = -1.
Proof.
  unfold dict_bits. rewrite Hdict. cbn [is_dictionary_page negb].
  rewrite andb_false_r.
  destruct (physical_type col); try reflexivity. congruence.
Qed.

Lemma dict_lane_len idx t :
  0 <= idx -> 0 <= t ->
  (if fst (lane_value col ck page idx t) then
     match physical_type col with
     | BYTE_ARRAY =>
         u32 (physical_type_len (physical_type col) (leaf_type col)
              + Z.of_nat (length (el_bytes
                                    (leaf_element col
                                       (snd (lane_value col ck page idx
                                                        t))))))
     | _ => physical_type_len (physical_type col) (leaf_type col)
     end
   else 0)
  = Z.of_nat (length (if t <? n - idx then entry (idx + t) else [])).
Proof.
  intros Hi Ht. unfold lane_value. rewrite Hdict.
  cbn [is_dictionary_page]. cbv zeta. cbn [fst snd].
  destruct (Z.ltb_spec (idx + t) n); destruct (Z.ltb_spec t (n - idx));
    try lia; [|reflexivity].
  destruct (plain_stores_bytes col _ (Hwt (idx + t) ltac:(lia)) Hnobool)
    as (_ & _ & Hl).
  symmetry. exact Hl.
Qed.

Lemma dict_lane_stores idx dst pos t :
  0 <= idx -> 0 <= t ->
  let ws :=
    if fst (lane_value col ck page idx t) then
      map (fun ov => (dst + (pos + fst ov), snd ov))
          (plain_stores (physical_type col) (leaf_type col) (ts_scale col)
             (if fst (lane_value col ck page idx t) then
                match physical_type col with
                | BYTE_ARRAY =>
                    u32 (physical_type_len (physical_type col)
                                           (leaf_type col)
                         + Z.of_nat
                             (length (el_bytes
                                        (leaf_element col
                                           (snd (lane_value col ck page idx
                                                            t))))))
                | _ => physical_type_len (physical_type col) (leaf_type col)
                end
              else 0)
             (leaf_element col (snd (lane_value col ck page idx t))))
    else [] in
  map fst ws
  = map (fun i => dst + pos + Z.of_nat i)
        (seq 0 (length (if t <? n - idx then entry (idx + t) else [])))
  /\ map (fun ov => byte.of_Z (snd ov)) ws
     = (if t <? n - idx then entry (idx + t) else []).
Proof.
  intros Hi Ht. cbv beta zeta. unfold lane_value. rewrite Hdict.
  cbn [is_dictionary_page]. cbv zeta. cbn [fst snd].
  destruct (Z.ltb_spec (idx + t) n); destruct (Z.ltb_spec t (n - idx));
    try lia; [|split; reflexivity].
  destruct (plain_stores_bytes col _ (Hwt (idx + t) ltac:(lia)) Hnobool)
    as (H1 & H2 & _).
  cbv zeta in H1, H2. rewrite !map_map. cbn [fst snd]. split.
  - rewrite <- (map_map fst (fun o => dst + (pos + o))), H1, map_map.
    apply map_ext. intros i. lia.
  - exact H2.
Qed.

End DictPage.

(** X22: a data page in the PLAIN encoding (no dictionary, not a boolean
    column) holds, right after its levels, the values of the page that are
    not null, in order, each in the PLAIN encoding of the file format:
    integers on four or eight bytes lowest byte first, a string after its
    length on four bytes, a decimal highest byte first.  This holds when
    the values have the bytes of their type and the page fits 32 bits.  The
    size the encoder reports is the bytes of the levels plus those bytes,
    and nothing outside them is changed after the levels are written. *)
Theorem plain_page_bytes (enable_bool_rle : bool) (col : column_view)
    (ck : chunk_view) (page : page_view) (m : mem) :
  let base := page_data page + max_hdr_size page in
  let bs := page_plain_bytes col (page_start_val page)
                             (Z.to_nat (num_leaf_values page)) in
  page_type page = DATA_PAGE ->
  use_dictionary ck = false ->
  physical_type col <> BOOLEAN ->
  0 <= page_start_val page ->
  num_leaf_values page + 128 < 2 ^ 32 ->
  (forall e, In (Some e) (leaf_column col) -> well_typed col e = true) ->
  Z.of_nat (length bs) < 2 ^ 32 ->
  forall m1 cur vs,
    encode_page_levels col page base m = Some (m1, cur, vs) ->
    exists m',
      gpuEncodePages enable_bool_rle col ck page m
      = Some (m', u32 (cur - base + Z.of_nat (length bs)))
      /\ load_bytes m' cur (length bs) = bs
      /\ forall x, x < cur \/ cur + Z.of_nat (length bs) <= x ->
           m' x = m1 x.
Proof.
  intros base bs Hdata Hnodict Hnobool Hpsv Hn Hwt Hfit m1 cur vs Hlv.
  assert (Ebs : bs = flat_map (fun i => leaf_bytes col
                                           (page_start_val page + Z.of_nat i))
                              (seq 0 (Z.to_nat (num_leaf_values page))))
    by reflexivity.
  clearbody bs. subst bs.
  exact (page_values_bytes enable_bool_rle col ck page
           (fun i => leaf_bytes col (page_start_val page + i))
           (dict_bits_plain col ck page Hnodict Hnobool)
           (data_lane_len col ck page Hdata Hnodict Hnobool Hpsv Hwt)
           (data_lane_stores col ck page Hdata Hnodict Hnobool Hpsv Hwt)
           m Hnobool Hn Hfit m1 cur vs Hlv).
Qed.

Lemma plain_page_bytes_witness :
  exists m',
    gpuEncodePages true ex_str_col ex_plain_chunk ex_page4
                   (fun _ => Byte.xff) = Some (m', 15)
    /\ load_bytes m' 32 15
       = [Byte.x02; Byte.x00; Byte.x00; Byte.x00; Byte.x61; Byte.x62;
          Byte.x00; Byte.x00; Byte.x00; Byte.x00;
          Byte.x01; Byte.x00; Byte.x00; Byte.x00; Byte.x63].
Proof.
  assert (Hwt : forall e, In (Some e) (leaf_column ex_str_col) ->
                  well_typed ex_str_col e = true).
  { intros e [H|[H|[H|[H|[]]]]]; inversion H; reflexivity. }
  destruct (plain_page_bytes true ex_str_col ex_plain_chunk ex_page4
              (fun _ => Byte.xff) eq_refl eq_refl ltac:(discriminate)
              ltac:(simpl; lia) ltac:(simpl; lia) Hwt
              ltac:(vm_compute; reflexivity)
              (fun _ => Byte.xff) 32 (fun _ => 0) eq_refl)
    as (m' & H1 & H2 & _).
  exists m'. split; [exact H1|exact H2].
Defined.

(** X23: a dictionary page holds the values of the dictionary in the
    order of [dict_data], each in the PLAIN encoding of the file format,
    right at the start of the page data, when the values have the bytes of
    their type and the page fits 32 bits; the size the encoder reports is
    the number of those bytes and nothing outside them is changed. *)
Theorem dictionary_page_bytes (enable_bool_rle : bool) (col : column_view)
    (ck : chunk_view) (page : page_view) (m : mem) :
  let base := page_data page + max_hdr_size page in
  let bs := dict_page_bytes col ck (Z.to_nat (num_leaf_values page)) in
  page_type page = DICTIONARY_PAGE ->
  physical_type col <> BOOLEAN ->
  num_leaf_values page <= Z.of_nat (length (dict_data ck)) ->
  num_leaf_values page + 128 < 2 ^ 32 ->
  (forall i, 0 <= i < num_leaf_values page ->
     well_typed col (leaf_element col (nth (Z.to_nat i) (dict_data ck) 0))
     = true) ->
  Z.of_nat (length bs) < 2 ^ 32 ->
  exists m',
    gpuEncodePages enable_bool_rle col ck page m
    = Some (m', Z.of_nat (length bs))
    /\ load_bytes m' base (length bs) = bs
    /\ forall x, x < base \/ base + Z.of_nat (length bs) <= x ->
         m' x = m x.
Proof.
  intros base bs Hdict Hnobool Hsize Hn Hwt Hfit.
  assert (Ebs : bs = flat_map
                       (fun i => plain_value_bytes col
                                   (leaf_element col
                                      (nth (Z.to_nat (Z.of_nat i))
                                           (dict_data ck) 0)))
                       (seq 0 (Z.to_nat (num_leaf_values page)))).
  { unfold bs, dict_page_bytes. apply flat_map_agree. intros i _.
    rewrite Nat2Z.id. reflexivity. }
  clearbody bs. subst bs.
  assert (Hlv : encode_page_levels col page base m
                = Some (m, base, fun _ => 0)).
  { unfold encode_page_levels. rewrite Hdict. reflexivity. }
  destruct (page_values_bytes enable_bool_rle col ck page
              (fun i => plain_value_bytes col
                          (leaf_element col
                             (nth (Z.to_nat i) (dict_data ck) 0)))
              (dict_bits_dict col ck page Hdict Hnobool)
              (dict_lane_len col ck page Hdict Hnobool Hwt)
              (dict_lane_stores col ck page Hdict Hnobool Hwt)
              m Hnobool Hn Hfit m base (fun _ => 0) Hlv)
    as (m' & H1 & H2 & H3).
  exists m'. split; [|split; [exact H2|exact H3]].
  rewrite H1. f_equal. f_equal. fold base.
  rewrite Z.sub_diag, Z.add_0_l. apply u32_small. lia.
Qed.

Lemma dictionary_page_bytes_witness :
  exists m',
    gpuEncodePages true ex_str_col ex_dict_chunk ex_dict_page
                   (fun _ => Byte.xff) = Some (m', 15)
    /\ load_bytes m' 32 15
       = [Byte.x01; Byte.x00; Byte.x00; Byte.x00; Byte.x63;
          Byte.x02; Byte.x00; Byte.x00; Byte.x00; Byte.x61; Byte.x62;
          Byte.x00; Byte.x00; Byte.x00; Byte.x00].
Proof.
  assert (Hwt : forall i, 0 <= i < num_leaf_values ex_dict_page ->
                  well_typed ex_str_col
                    (leaf_element ex_str_col
                       (nth (Z.to_nat i) (dict_data ex_dict_chunk) 0))
                  = true).
  { intros i Hi. unfold well_typed. cbn [physical_type ex_str_col].
    apply Z.ltb_lt.
    assert (Z.to_nat i = 0 \/ Z.to_nat i = 1 \/ Z.to_nat i = 2)%nat
      as [-> | [-> | ->]] by (simpl in Hi; lia); vm_compute; reflexivity. }
  destruct (dictionary_page_bytes true ex_str_col ex_dict_chunk ex_dict_page
              (fun _ => Byte.xff) eq_refl ltac:(discriminate)
              ltac:(simpl; lia) ltac:(simpl; lia) Hwt
              ltac:(vm_compute; reflexivity))
    as (m' & H1 & H2 & _).
  exists m'. split; [exact H1|exact H2].
Defined.

End PlainFacts.

(** ** [PlainBoolEncode]: booleans packed eight to a byte *)

Module PlainBool.
Import Rle RleBits RlePack Encode PlainBytes.

Section Batch.

Variable v : Z -> Z.
Hypothesis Hv : forall t, 0 <= t < 128 -> 0 <= v t < 2.

Variable dst : Z.
Variable n : Z.
Hypothesis Hn : 0 <= n <= 128.

Local Abbreviation v1 :=
  (fun t => Z.lor (v t) (Z.shiftl (shuffle_xor v 1 t) 1)).
Local Abbreviation v2 :=
  (fun t => Z.lor (v1 t) (Z.shiftl (shuffle_xor v1 2 t) 2)).
Local Abbreviation v3 :=
  (fun t => Z.lor (v2 t) (Z.shiftl (shuffle_xor v2 4 t) 4)).
Local Abbreviation bool_stores :=
  (flat_map (fun t => if (t <? n) && (Z.land t 7 =? 0)
                      then [(dst + Z.shiftr t 3, v3 t)] else [])
            lanes).

Lemma bool_bit t k : 0 <= t < 128 -> k <> 0 -> Z.testbit (v t) k = false.
Proof.
  intros Ht Hk. destruct (Z.ltb_spec k 0).
  - apply Z.testbit_neg_r. lia.
  - apply (testbit_high (v t) 1 k); [apply Hv; exact Ht|lia].
Qed.

(** The lane at the start of a group of eight gathers the bits of the
    group. *)
Lemma gather8 j i :
  0 <= j -> 8 * j < n -> 0 <= i < 8 ->
  Z.testbit (v3 (8 * j)) i = Z.testbit (v (8 * j + i)) 0.
Proof.
  intros Hj Hjn Hi. cbv beta. unfold shuffle_xor.
  set (t := 8 * j).
  rewrite (lxor_lane 3 t j 0 1 1 (t + 1)),
    (lxor_lane 3 t j 0 2 2 (t + 2)),
    (lxor_lane 3 t j 0 4 4 (t + 4)); try (unfold t; lia); try reflexivity.
  rewrite (lxor_lane 3 (t + 2) j 2 1 3 (t + 3)),
    (lxor_lane 3 (t + 4) j 4 1 5 (t + 5)),
    (lxor_lane 3 (t + 4) j 4 2 6 (t + 6)); try (unfold t; lia);
    try reflexivity.
  rewrite (lxor_lane 3 (t + 6) j 6 1 7 (t + 7)); try (unfold t; lia);
    try reflexivity.
  assert (Ht : 0 <= t /\ t + 7 < 128) by (unfold t; lia).
  clearbody t.
  assert (i = 0 \/ i = 1 \/ i = 2 \/ i = 3 \/ i = 4 \/ i = 5 \/ i = 6 \/ i = 7)
    as [->|[->|[->|[->|[->|[->|[->| ->]]]]]]] by lia;
    repeat first
      [ rewrite Z.lor_spec
      | rewrite shiftl_bit by lia
      | match goal with
        | |- context [Z.testbit (v ?x) ?k] =>
            rewrite (bool_bit x k) by lia
        end
      | progress cbn [orb Z.sub Z.opp Z.pos_sub Pos.pred_double Z.succ_double
                      Z.pred_double Z.double Z.add Pos.add Pos.succ]
      | rewrite orb_false_r ];
    rewrite ?Z.add_0_r; reflexivity.
Qed.

Lemma bool_byte m j i :
  0 <= j -> 8 * j < n -> 0 <= i < 8 ->
  Z.testbit (byte.unsigned (apply_stores m bool_stores (dst + j))) i
  = Z.testbit (v (8 * j + i)) 0.
Proof.
  intros Hj Hjn Hi.
  rewrite (scatter_byte _ m (dst + j) (8 * j) (v3 (8 * j))).
  - rewrite byte_testbit by exact Hi. apply gather8; assumption.
  - lia.
  - cbv beta. destruct (Z.ltb_spec (8 * j) n); [|lia].
    replace (Z.land (8 * j) 7) with 0.
    2:{ change 7 with (Z.ones 3). rewrite Z.land_ones by lia.
        Z.div_mod_to_equations. lia. }
    cbn [Z.eqb andb]. left. f_equal. f_equal.
    rewrite Z.shiftr_div_pow2 by lia. change (2 ^ 3) with 8.
    Z.div_mod_to_equations. lia.
  - intros t' x' Ht' Hin. cbv beta in Hin.
    destruct ((t' <? n) && (Z.land t' 7 =? 0)) eqn:E; [|destruct Hin].
    destruct Hin as [Hin|[]]. apply pair_equal_spec in Hin as [H1 H2].
    apply andb_true_iff in E as [_ E]. apply Z.eqb_eq in E.
    change 7 with (Z.ones 3) in E. rewrite Z.land_ones in E by lia.
    rewrite Z.shiftr_div_pow2 in H1 by lia. change (2 ^ 3) with 8 in H1.
    assert (t' = 8 * j) by (Z.div_mod_to_equations; lia). subst t'.
    symmetry. exact H2.
Qed.

Lemma bool_frame m x : x < dst -> apply_stores m bool_stores x = m x.
Proof.
  intros Hx. apply scatter_frame. intros t y Ht Hin. cbv beta in Hin.
  destruct ((t <? n) && (Z.land t 7 =? 0)); [|destruct Hin].
  destruct Hin as [Hin|[]]. apply pair_equal_spec in Hin as [H1 _].
  rewrite Z.shiftr_div_pow2 in H1 by lia. change (2 ^ 3) with 8 in H1.
  Z.div_mod_to_equations. lia.
Qed.

End Batch.

Section Loop.

Variable s : page_enc_state_s.
Variable numvals : Z.

Lemma PlainBoolEncode_loop_spec (flush : bool) (fuel : nat) :
  forall pos dst m,
  pos <= numvals ->
  (forall p, pos <= p < numvals -> 0 <= ring s p < 2) ->
  numvals - pos < Z.of_nat fuel ->
  let K := if flush then (numvals - pos + 7) / 8 else (numvals - pos) / 8 in
  let r := PlainBoolEncode_loop fuel numvals flush pos dst s m in
  snd r = dst + K
  /\ snd (fst r) = Z.min (pos + 8 * K) numvals
  /\ (forall j i, 0 <= j < K -> 0 <= i < 8 ->
        Z.testbit (byte.unsigned (fst (fst r) (dst + j))) i
        = (pos + 8 * j + i <? numvals)
          && Z.testbit (ring s (pos + 8 * j + i)) 0)
  /\ (forall x, x < dst -> fst (fst r) x = m x).
Proof.
  induction fuel as [|fuel IH]; intros pos dst m Hp Hb Hf; [lia|].
  cbv zeta. cbn [PlainBoolEncode_loop].
  destruct (Z.ltb_spec pos numvals) as [Hlt|Hge].
  2:{ assert (numvals - pos = 0) as -> by lia. cbn [fst snd].
      assert (HK : (if flush then (0 + 7) / 8 else 0 / 8) = 0)
        by (destruct flush; reflexivity).
      rewrite HK. repeat split; try lia; try (intros; lia). }
  cbv zeta.
  set (n := Z.min (numvals - pos) 128).
  set (v := fun t => if pos + t <? numvals then ring s (pos + t) else 0).
  assert (Hv : forall t, 0 <= t < 128 -> 0 <= v t < 2).
  { intros t Ht. unfold v. destruct (Z.ltb_spec (pos + t) numvals); [|lia].
    apply Hb. lia. }
  assert (Hn : 0 <= n <= 128) by (unfold n; lia).
  rewrite Z.shiftr_div_pow2 by lia. change (2 ^ 3) with 8.
  set (nbytes := (n + (if flush then 7 else 0)) / 8).
  set (K := if flush then (numvals - pos + 7) / 8 else (numvals - pos) / 8).
  destruct (Z.eqb_spec nbytes 0) as [H0|H0].
  { cbn [fst snd].
    assert (HK : K = 0).
    { unfold K, nbytes, n in *. destruct flush;
        Z.div_mod_to_equations; lia. }
    rewrite HK. repeat split; try lia; try (intros; lia). }
  set (pos2 := Z.min (pos + nbytes * 8) numvals).
  set (K2 := if flush then (numvals - pos2 + 7) / 8
             else (numvals - pos2) / 8).
  assert (Hnb : 1 <= nbytes /\ 8 * (nbytes - 1) < n /\ K = nbytes + K2
                /\ pos < pos2 <= numvals
                /\ (0 < K2 -> pos2 = pos + 8 * nbytes)
                /\ Z.min (pos2 + 8 * K2) numvals = Z.min (pos + 8 * K) numvals).
  { unfold K, K2, pos2, nbytes, n in *. destruct flush;
      Z.div_mod_to_equations; lia. }
  destruct Hnb as (Hnb1 & Hnb2 & HK & Hp2 & Hcont & Hmin).
  match goal with
  | |- context [PlainBoolEncode_loop fuel numvals flush pos2 ?d s ?m2] =>
      set (m' := m2);
      destruct (IH pos2 d m' ltac:(lia)
                  ltac:(intros p Hp'; apply Hb; lia) ltac:(lia))
        as (I1 & I2 & I3 & I4)
  end.
  fold K2 in I1, I2, I3.
  destruct (PlainBoolEncode_loop fuel numvals flush pos2 (dst + nbytes) s m')
    as [[mf posf] dstf].
  cbn [fst snd] in *. subst dstf posf.
  split; [lia|]. split; [exact Hmin|]. split.
  - intros j i Hj Hi.
    destruct (Z.lt_ge_cases j nbytes) as [Hlo|Hhi].
    + rewrite I4 by lia. unfold m'.
      transitivity (Z.testbit (v (8 * j + i)) 0);
        [exact (bool_byte v Hv dst n Hn m j i ltac:(lia) ltac:(lia) Hi)|].
      unfold v. rewrite Z.add_assoc.
      destruct (pos + 8 * j + i <? numvals); [reflexivity|].
      rewrite Z.testbit_0_l. reflexivity.
    + specialize (Hcont ltac:(lia)).
      specialize (I3 (j - nbytes) i ltac:(lia) Hi).
      replace (dst + nbytes + (j - nbytes)) with (dst + j) in I3 by lia.
      replace (pos2 + 8 * (j - nbytes) + i) with (pos + 8 * j + i) in I3
        by lia.
      exact I3.
  - intros x Hx. rewrite I4 by lia. unfold m'.
    exact (bool_frame v dst n m x Hx).
Qed.

End Loop.

(** X24: [PlainBoolEncode] packs the booleans that wait in the ring eight
    to a byte, lowest bit first: with [flush] it writes a byte for every
    started group of eight, padded with zero bits, and takes all the
    values; without it only the full groups, the rest (fewer than eight)
    waits for the next call.  Nothing below the output cursor is
    changed. *)
Theorem plain_bool_encode (s : page_enc_state_s) (numvals : Z)
    (flush : bool) :
  rle_pos s <= numvals ->
  (forall p, rle_pos s <= p < numvals -> 0 <= ring s p < 2) ->
  let K := if flush then (numvals - rle_pos s + 7) / 8
           else (numvals - rle_pos s) / 8 in
  let s' := PlainBoolEncode numvals flush s in
  rle_out s' = rle_out s + K
  /\ rle_pos s' = Z.min (rle_pos s + 8 * K) numvals
  /\ rle_numvals s' = numvals
  /\ (flush = true -> rle_pos s' = numvals)
  /\ (flush = false -> numvals - rle_pos s' < 8)
  /\ (forall j i, 0 <= j < K -> 0 <= i < 8 ->
        Z.testbit (byte.unsigned (out s' (rle_out s + j))) i
        = (rle_pos s + 8 * j + i <? numvals)
          && Z.testbit (ring s (rle_pos s + 8 * j + i)) 0)
  /\ (forall x, x < rle_out s -> out s' x = out s x).
Proof.
  intros Hp Hb. cbv zeta. unfold PlainBoolEncode.
  destruct (PlainBoolEncode_loop_spec s numvals flush
              (Z.to_nat (numvals - rle_pos s) + 1) (rle_pos s) (rle_out s)
              (out s) Hp Hb ltac:(lia)) as (H1 & H2 & H3 & H4).
  destruct (PlainBoolEncode_loop (Z.to_nat (numvals - rle_pos s) + 1)
              numvals flush (rle_pos s) (rle_out s) s (out s))
    as [[mf posf] dstf].
  cbn [fst snd] in *. cbn [rle_out rle_pos rle_numvals out].
  split; [exact H1|]. split; [exact H2|]. split; [reflexivity|].
  split; [|split; [|split; [exact H3|exact H4]]].
  - intros ->. rewrite H2. Z.div_mod_to_equations. lia.
  - intros ->. rewrite H2. Z.div_mod_to_equations. lia.
Qed.

Lemma plain_bool_encode_witness :
  rle_out (PlainBoolEncode 10 true ex_bool_state) = 100 + 2
  /\ rle_pos (PlainBoolEncode 10 true ex_bool_state) = 10
  /\ out (PlainBoolEncode 10 true ex_bool_state) 100 = Byte.xaa
  /\ out (PlainBoolEncode 10 true ex_bool_state) 101 = Byte.x02.
Proof.
  assert (H1 : rle_pos ex_bool_state <= 10) by (simpl; lia).
  assert (H2 : forall p, rle_pos ex_bool_state <= p < 10 ->
                 0 <= ring ex_bool_state p < 2).
  { intros p _. unfold ring, ex_bool_state. cbn [vals].
    change 1 with (Z.ones 1). rewrite Z.land_ones by lia.
    apply Z.mod_pos_bound. lia. }
  destruct (plain_bool_encode ex_bool_state 10 true H1 H2)
    as (A & _ & _ & D & _).
  split; [exact A|]. split; [exact (D eq_refl)|].
  split; vm_compute; reflexivity.
Defined.

End PlainBool.

(** ** Pages of dictionary indices and of booleans in RLE *)

Module DictDataFacts.
Import Rle RleBits RleFormat RleFormatFacts RleMem RleInv RleInvFacts RleFrame
  Encode Fragments FragmentFacts PlainBytes PlainFacts DictData.

(** New values in the ring keep the invariant of the encoder, when the
    values that wait are those of the input. *)
Lemma inv_refill inp w base nv nv' s s1 :
  Inv inp w base nv s ->
  rle_out s1 = rle_out s -> rle_run s1 = rle_run s ->
  run_val s1 = run_val s -> rle_pos s1 = rle_pos s -> out s1 = out s ->
  nv <= nv' <= Z.of_nat (length inp) ->
  (forall p, rle_pos s <= p < nv' -> ring s1 p = input_at inp p) ->
  Inv inp w base nv' s1.
Proof.
  intros [Iout Ipos Inv_ _ (rs & c & pad & Henc & Hexp & Hc & Hpad & Hopen)]
         E1 E2 E3 E4 E5 Hnv Hring.
  constructor; rewrite ?E1, ?E2, ?E3, ?E4, ?E5; try lia.
  - exact Hring.
  - exists rs, c, pad.
    repeat split; try assumption; try lia.
    destruct Hopen as [H0|[(k & Hk1 & Hk2 & Hk3 & Hk4 & Hk5)|Hr]].
    + left. rewrite ?E2, ?E4. exact H0.
    + right. left. exists k. rewrite ?E1, ?E2, ?E4, ?E5.
      repeat split; try assumption; lia.
    + right. right. destruct Hr as (r & R1 & R2 & R3 & R4 & R5).
      exists r. rewrite ?E2, ?E3, ?E4. repeat split; try assumption; lia.
Qed.

(** The lanes of a block fill the ring one after the other: each valid lane
    puts its value at the slot after those of the valid lanes before it. *)
Lemma ring_fill_valid (valid : Z -> bool) (val : Z -> Z) (nv0 : Z)
    (vs0 : Z -> Z) (T : nat) :
  (T <= 128)%nat ->
  let gl := fun t => if valid t then [val t] else [] in
  let R :=
    fold_left
      (fun (vs : Z -> Z) t =>
         if valid t then
           fun i =>
             if i =? Z.land (nv0 + Z.of_nat
                                     (length (flat_map gl
                                                (map Z.of_nat
                                                   (seq 0 (Z.to_nat t))))))
                            (rle_buffer_size - 1)
             then val t else vs i
         else vs)
      (map Z.of_nat (seq 0 T)) vs0 in
  let c := length (flat_map gl (map Z.of_nat (seq 0 T))) in
  (c <= T)%nat
  /\ (forall q, (q < c)%nat ->
        R (Z.land (nv0 + Z.of_nat q) (rle_buffer_size - 1))
        = nth q (flat_map gl (map Z.of_nat (seq 0 T))) 0)
  /\ (forall i, (forall q, (q < c)%nat ->
                   i <> Z.land (nv0 + Z.of_nat q) (rle_buffer_size - 1)) ->
        R i = vs0 i).
Proof.
  intros HT gl. induction T as [|T IH].
  - cbn. split; [lia|]. split; [intros q Hq; lia|reflexivity].
  - specialize (IH ltac:(lia)). cbv zeta in IH |- *.
    destruct IH as (Ic & Iv & If).
    rewrite seq_S, map_app, flat_map_app, fold_left_app.
    cbn [Nat.add map flat_map fold_left]. rewrite app_nil_r, Nat2Z.id.
    set (L := flat_map gl (map Z.of_nat (seq 0 T))) in *.
    set (R := fold_left _ (map Z.of_nat (seq 0 T)) vs0) in *.
    change (gl (Z.of_nat T))
      with (if valid (Z.of_nat T) then [val (Z.of_nat T)] else []).
    destruct (valid (Z.of_nat T)).
    + rewrite length_app. cbn [length]. split; [lia|].
      assert (Hslot : forall q, (q < length L)%nat ->
                Z.land (nv0 + Z.of_nat q) (rle_buffer_size - 1)
                <> Z.land (nv0 + Z.of_nat (length L)) (rle_buffer_size - 1)).
      { intros q Hq. change (rle_buffer_size - 1) with (Z.ones 9).
        rewrite !Z.land_ones by lia. change (2 ^ 9) with 512.
        Z.div_mod_to_equations. lia. }
      split.
      * intros q Hq.
        destruct (Nat.eq_dec q (length L)) as [->|Hne].
        -- rewrite Z.eqb_refl, app_nth2, Nat.sub_diag by lia. reflexivity.
        -- destruct (Z.eqb_spec
                       (Z.land (nv0 + Z.of_nat q) (rle_buffer_size - 1))
                       (Z.land (nv0 + Z.of_nat (length L))
                               (rle_buffer_size - 1))) as [He|_].
           ++ exfalso. apply (Hslot q); [lia|exact He].
           ++ rewrite app_nth1 by lia. apply Iv. lia.
      * intros i Hi.
        destruct (Z.eqb_spec i (Z.land (nv0 + Z.of_nat (length L))
                                       (rle_buffer_size - 1))) as [He|_].
        -- exfalso. apply (Hi (length L)); [lia|exact He].
        -- apply If. intros q Hq. apply Hi. lia.
    + rewrite app_nil_r. split; [lia|]. split; [exact Iv|exact If].
Qed.

Lemma ring_values_app col ck s k1 k2 :
  ring_values col ck s (k1 + k2)
  = ring_values col ck s k1 ++ ring_values col ck (s + Z.of_nat k1) k2.
Proof.
  unfold ring_values. rewrite seq_app, flat_map_app. f_equal.
  cbn [Nat.add]. rewrite (map_seq_off_flat k2 k1). apply flat_map_agree.
  intros i _. replace (s + Z.of_nat (k1 + i)) with (s + Z.of_nat k1 + Z.of_nat i)
    by lia. reflexivity.
Qed.

Lemma ring_values_length col ck s k :
  (length (ring_values col ck s k) <= k)%nat.
Proof.
  revert s. induction k as [|k IH]; intros s; [cbn; lia|].
  replace (S k) with (k + 1)%nat by lia.
  rewrite ring_values_app, length_app. specialize (IH s).
  unfold ring_values at 2. cbn [seq flat_map]. rewrite app_nil_r.
  destruct (leaf_valid col _); cbn [length]; lia.
Qed.

Section Page.

Variable enable_bool_rle : bool.
Variable col : column_view.
Variable ck : chunk_view.
Variable page : page_view.
Variable base : Z.

Hypothesis Hdata : page_type page = DATA_PAGE.
Hypothesis Hpsv : 0 <= page_start_val page.

Local Abbreviation n := (num_leaf_values page).
Local Abbreviation psv := (page_start_val page).
Local Abbreviation bits := (dict_bits col ck page).
Local Abbreviation inp := (page_ring_values col ck page).
Local Abbreviation InvAt := (Inv inp bits base).

Hypothesis Hbits : 1 <= bits <= 16.
Hypothesis Hrle :
  negb enable_bool_rle && Type_eqb (physical_type col) BOOLEAN = false.
Hypothesis Hn : n < 2 ^ 30.
Hypothesis Hinp : Forall (fun x => 0 <= x < 2 ^ bits) inp.

Local Abbreviation cnt k :=
  (Z.of_nat (length (ring_values col ck psv k))).

(** The value of a lane and what it puts into the ring. *)
Local Abbreviation lane_list idx :=
  (fun t => if fst (lane_value col ck page idx t)
            then [ring_value col ck (psv + idx + t)] else []).

Lemma lane_valid idx t :
  fst (lane_value col ck page idx t)
  = (t <? n - idx) && leaf_valid col (psv + idx + t).
Proof.
  unfold lane_value, leaf_valid. rewrite Hdata. cbn [is_dictionary_page].
  cbv zeta. cbn [fst]. rewrite <- Z.add_assoc.
  destruct (Z.ltb_spec (idx + t) n); destruct (Z.ltb_spec t (n - idx));
    try lia; cbn [andb]; [|rewrite ?andb_false_r; reflexivity].
  destruct (psv + (idx + t) <? Z.of_nat (length (leaf_column col)));
    reflexivity.
Qed.

Lemma lane_ring_value idx t :
  (if Type_eqb (physical_type col) BOOLEAN
   then Z.land (el_int (leaf_element col
                          (snd (lane_value col ck page idx t)))) 255
   else nth (Z.to_nat (snd (lane_value col ck page idx t)))
            (dict_index ck) 0)
  = ring_value col ck (psv + idx + t).
Proof.
  unfold lane_value, ring_value. rewrite Hdata. cbn [is_dictionary_page].
  cbv zeta. cbn [snd]. rewrite <- Z.add_assoc. reflexivity.
Qed.

Lemma lanes_ring_values idx T :
  0 <= idx <= n ->
  flat_map (lane_list idx) (map Z.of_nat (seq 0 T))
  = ring_values col ck (psv + idx) (Nat.min (Z.to_nat (n - idx)) T).
Proof.
  intros Hi. unfold ring_values.
  etransitivity;
    [|apply (flat_map_cut
               (fun t => if leaf_valid col (psv + idx + t)
                         then [ring_value col ck (psv + idx + t)] else [])
               (n - idx) T); lia].
  apply flat_map_agree. intros t _. rewrite lane_valid.
  destruct (t <? n - idx); reflexivity.
Qed.

Lemma input_split k :
  (k <= Z.to_nat n)%nat ->
  inp = ring_values col ck psv k
        ++ ring_values col ck (psv + Z.of_nat k) (Z.to_nat n - k).
Proof.
  intros Hk. unfold page_ring_values.
  replace (Z.to_nat n) with (k + (Z.to_nat n - k))%nat at 1 by lia.
  apply ring_values_app.
Qed.

Lemma ring_value_in j :
  psv <= j < psv + n -> leaf_valid col j = true ->
  0 <= ring_value col ck j < 2 ^ 16.
Proof.
  intros Hj Hv.
  assert (Hin : In (ring_value col ck j) inp).
  { unfold page_ring_values, ring_values. apply in_flat_map.
    exists (Z.to_nat (j - psv)). split; [apply in_seq; lia|].
    replace (psv + Z.of_nat (Z.to_nat (j - psv))) with j by lia.
    rewrite Hv. left. reflexivity. }
  pose proof (proj1 (Forall_forall _ _) Hinp _ Hin) as Hr. cbv beta in Hr.
  assert (2 ^ bits <= 2 ^ 16) by (apply Z.pow_le_mono_r; lia). lia.
Qed.

(** The lanes of a batch put the values of the batch that are not null
    behind those that wait in the ring. *)
Lemma load_dict_batch_spec idx s :
  0 <= idx < n ->
  InvAt (rle_numvals s) s ->
  rle_numvals s - rle_pos s <= 128 ->
  rle_numvals s = cnt (Z.to_nat idx) ->
  let K := Nat.min (Z.to_nat (n - idx)) 128 in
  let r := load_dict_batch col ck page idx s in
  snd r = cnt (Z.to_nat idx + K)
  /\ InvAt (snd r) (fst r)
  /\ out (fst r) = out s.
Proof.
  intros Hi HI Hlag Hnv K r.
  set (valid := fun t => fst (lane_value col ck page idx t)).
  set (val := fun t => ring_value col ck (psv + idx + t)).
  set (gl := fun t => if valid t then [val t] else []).
  set (is_valid := fun t => if fst (lane_value col ck page idx t)
                            then 1 else 0).
  assert (HB : forall T,
            flat_map gl (map Z.of_nat (seq 0 T))
            = ring_values col ck (psv + idx)
                          (Nat.min (Z.to_nat (n - idx)) T))
    by (intros T; apply lanes_ring_values; lia).
  assert (Hsum : forall T,
            sum_from is_valid 0 T
            = Z.of_nat (length (flat_map gl (map Z.of_nat (seq 0 T))))).
  { intros T. rewrite length_flat_lanes. apply sum_from_ext. intros k _.
    unfold is_valid, gl, valid.
    destruct (fst (lane_value col ck page idx (0 + Z.of_nat k)));
      reflexivity. }
  assert (Hle : forall T, (T <= 128)%nat ->
            0 <= sum_from is_valid 0 T <= 128).
  { intros T HT. rewrite Hsum, HB.
    pose proof (ring_values_length col ck (psv + idx)
                  (Nat.min (Z.to_nat (n - idx)) T)). lia. }
  set (B := ring_values col ck (psv + idx) K).
  assert (HBK : flat_map gl (map Z.of_nat (seq 0 128)) = B)
    by (rewrite HB; reflexivity).
  assert (Hsplit : inp = ring_values col ck psv (Z.to_nat idx) ++ B
                         ++ ring_values col ck
                              (psv + Z.of_nat (Z.to_nat idx + K))
                              (Z.to_nat n - (Z.to_nat idx + K))).
  { rewrite (input_split (Z.to_nat idx + K)) by (unfold K; lia).
    rewrite ring_values_app, <- app_assoc. unfold B.
    rewrite Z2Nat.id by lia. reflexivity. }
  assert (Hnv' : rle_numvals s + Z.of_nat (length B)
                 = cnt (Z.to_nat idx + K)).
  { rewrite ring_values_app, length_app, Hnv. unfold B.
    rewrite Z2Nat.id by lia. lia. }
  assert (Htot : u32 (rle_numvals s + block_total is_valid)
                 = rle_numvals s + Z.of_nat (length B)).
  { rewrite block_total_sum, Hsum, HBK.
    pose proof (Hle 128%nat ltac:(lia)) as H. rewrite Hsum, HBK in H.
    rewrite (u32_small (Z.of_nat (length B))) by lia.
    apply u32_small. rewrite Hnv'.
    pose proof (ring_values_length col ck psv (Z.to_nat idx + K)).
    unfold K in *. lia. }
  unfold r, load_dict_batch. cbv zeta. cbn [fst snd]. fold is_valid.
  rewrite Htot. split; [exact Hnv'|]. split; [|reflexivity].
  apply (inv_refill inp bits base (rle_numvals s) _ s); try reflexivity.
  - exact HI.
  - rewrite Hsplit, !length_app, Hnv. lia.
  - intros p Hp. unfold ring. cbn [vals]. unfold for_lanes, lanes.
    rewrite (fold_left_agree _
               (fun (vs : Z -> Z) t =>
                  if valid t then
                    fun i =>
                      if i =? Z.land
                                (rle_numvals s
                                 + Z.of_nat
                                     (length
                                        (flat_map gl
                                           (map Z.of_nat
                                              (seq 0 (Z.to_nat t))))))
                                (rle_buffer_size - 1)
                      then val t else vs i
                  else vs)).
    2:{ intros vs t Ht. apply In_lanes in Ht. unfold valid.
        destruct (fst (lane_value col ck page idx t)) eqn:Ev; [|reflexivity].
        rewrite lane_valid in Ev. apply andb_true_iff in Ev as [Ev1 Ev2].
        apply Z.ltb_lt in Ev1.
        rewrite lane_ring_value.
        assert (Hex : exclusive_sum is_valid t
                      = Z.of_nat
                          (length (flat_map gl
                                     (map Z.of_nat (seq 0 (Z.to_nat t)))))).
        { transitivity (exclusive_sum is_valid (Z.of_nat (Z.to_nat t)));
            [rewrite Z2Nat.id by lia; reflexivity|].
          rewrite exclusive_sum_prefix by lia.
          rewrite u32_small
            by (pose proof (Hle (Z.to_nat t) ltac:(lia)); lia).
          apply Hsum. }
        assert (Hu : u16 (ring_value col ck (psv + idx + t)) = val t).
        { pose proof (ring_value_in (psv + idx + t) ltac:(lia) Ev2) as Hr.
          unfold u16. apply Z.mod_small. exact Hr. }
        rewrite Hex, Hu. reflexivity. }
    destruct (ring_fill_valid valid val (rle_numvals s) (vals s) 128
                ltac:(lia)) as (Hc & Iv & If).
    fold gl in Hc, Iv, If. rewrite HBK in Hc, Iv, If.
    match goal with
    | |- fold_left ?F ?l ?a _ = _ => set (R := fold_left F l a) in *
    end.
    clearbody R.
    pose proof (inv_pos _ _ _ _ _ HI) as Hpos.
    destruct (Z.lt_ge_cases p (rle_numvals s)) as [Hlo|Hhi].
    + rewrite If.
      * apply (inv_ring _ _ _ _ _ HI). lia.
      * intros q Hq. change (rle_buffer_size - 1) with (Z.ones 9).
        rewrite !Z.land_ones by lia. change (2 ^ 9) with 512.
        Z.div_mod_to_equations. lia.
    + set (q := Z.to_nat (p - rle_numvals s)).
      assert (Hq : p = rle_numvals s + Z.of_nat q) by (unfold q; lia).
      assert (Hqc : (q < length B)%nat) by (unfold q; lia).
      clearbody q. subst p.
      rewrite Iv by exact Hqc.
      unfold input_at. rewrite Hsplit.
      rewrite app_nth2 by lia. rewrite app_nth1 by lia.
      f_equal. lia.
Qed.

Lemma input_length : 0 <= n -> Z.of_nat (length inp) <= n.
Proof.
  intros H0. pose proof (ring_values_length col ck psv (Z.to_nat n)) as H.
  unfold page_ring_values. lia.
Qed.

(** The loop over the batches of a page whose values go through
    [RleEncode]. *)
Lemma values_loop_rle : forall fuel idx cur s,
  0 <= idx <= n ->
  n - idx <= Z.of_nat fuel ->
  InvAt (rle_numvals s) s ->
  rle_numvals s - rle_pos s <= 128 ->
  rle_numvals s = cnt (Z.to_nat idx) ->
  (idx = n -> rle_pos s = Z.of_nat (length inp) /\ rle_run s = 0) ->
  exists s' cur',
    values_loop enable_bool_rle col ck page fuel idx cur s = Some (s', cur')
    /\ InvAt (Z.of_nat (length inp)) s'
    /\ rle_pos s' = Z.of_nat (length inp) /\ rle_run s' = 0
    /\ (idx < n \/ cur = rle_out s -> cur' = rle_out s')
    /\ (forall x, x < base -> out s' x = out s x).
Proof.
  assert (Hstop : forall idx cur s,
            0 <= idx <= n -> ~ idx < n ->
            InvAt (rle_numvals s) s ->
            rle_numvals s = cnt (Z.to_nat idx) ->
            (idx = n -> rle_pos s = Z.of_nat (length inp) /\ rle_run s = 0) ->
            InvAt (Z.of_nat (length inp)) s
            /\ rle_pos s = Z.of_nat (length inp) /\ rle_run s = 0
            /\ (idx < n \/ cur = rle_out s -> cur = rle_out s)
            /\ (forall x, x < base -> out s x = out s x)).
  { intros idx cur s Hi Hge HI Hnv Hend.
    assert (idx = n) by lia. subst idx.
    destruct (Hend eq_refl) as [E1 E2].
    split; [|split; [exact E1|split; [exact E2|split]]].
    - rewrite Hnv in HI. exact HI.
    - intros [?|?]; [lia|assumption].
    - reflexivity. }
  induction fuel as [|fuel IH]; intros idx cur s Hi Hf HI Hlag Hnv Hend.
  - cbn [values_loop]. destruct (Z.ltb_spec idx n) as [Hlt|Hge]; [lia|].
    exists s, cur. split; [reflexivity|].
    apply Hstop; try assumption. lia.
  - cbn [values_loop]. destruct (Z.ltb_spec idx n) as [Hlt|Hge].
    2:{ exists s, cur. split; [reflexivity|].
        apply Hstop; try assumption. lia. }
    cbv zeta.
    assert (Hge0 : (bits >=? 0) = true) by (apply Z.geb_le; lia).
    assert (Hgt0 : (bits >? 0) = true) by (apply Z.gtb_lt; lia).
    rewrite Hge0, Hgt0, Hrle.
    destruct (load_dict_batch_spec idx s ltac:(lia) HI Hlag Hnv)
      as (L1 & L2 & L3).
    destruct (load_dict_batch col ck page idx s) as [s1 nv'].
    cbn [fst snd] in L1, L2, L3.
    set (K := Nat.min (Z.to_nat (n - idx)) 128) in *.
    assert (Hidx' : u32 (idx + Z.min (n - idx) 128) = idx + Z.of_nat K).
    { rewrite u32_small by lia. unfold K. lia. }
    rewrite Hidx'.
    assert (HK : Z.to_nat (idx + Z.of_nat K) = (Z.to_nat idx + K)%nat)
      by lia.
    pose proof (input_length ltac:(lia)) as Hlen.
    assert (Hflush : (idx + Z.of_nat K =? n) = true ->
                     nv' = Z.of_nat (length inp)).
    { intros Hfl. apply Z.eqb_eq in Hfl. rewrite L1, <- HK, Hfl.
      reflexivity. }
    destruct (RleEncode_inv inp bits base Hbits Hinp ltac:(lia) nv'
                (idx + Z.of_nat K =? n) Hflush s1 L2)
      as (s2 & E2 & H1 & H2 & H3 & H4).
    rewrite E2.
    destruct (IH (idx + Z.of_nat K) (rle_out s2) s2)
      as (s' & cur' & E & I1 & I2 & I3 & I4 & I5).
    + unfold K. lia.
    + unfold K in *. lia.
    + rewrite H2. exact H1.
    + lia.
    + rewrite H2, L1, HK. reflexivity.
    + intros Hn'. apply Z.eqb_eq in Hn'.
      rewrite <- (Hflush Hn'). exact (H4 Hn').
    + exists s', cur'. split; [exact E|].
      split; [exact I1|]. split; [exact I2|]. split; [exact I3|].
      split.
      * intros _. apply I4. right. reflexivity.
      * intros x Hx. rewrite (I5 x Hx).
        rewrite (RleEncode_frame inp bits base Hbits Hinp ltac:(lia) nv'
                   (idx + Z.of_nat K =? n) Hflush s1 s2 x L2 Hx E2).
        rewrite L3. reflexivity.
Qed.

End Page.

(** X25: a data page whose values go through [RleEncode], the indices of a
    dictionary of 1 to 16 bits or booleans in RLE, holds after its levels
    the bit width on one byte (not for booleans) and then an RLE stream that
    decodes to the indices, or the booleans, of the values that are not
    null, in order, followed by fewer than eight zeros.  The size the
    encoder reports ends at the end of the stream, and nothing before the
    values is changed. *)
Theorem rle_data_page (enable_bool_rle : bool) (col : column_view)
    (ck : chunk_view) (page : page_view) (m : mem) :
  let base := page_data page + max_hdr_size page in
  let bits := dict_bits col ck page in
  let inp := page_ring_values col ck page in
  page_type page = DATA_PAGE ->
  1 <= bits <= 16 ->
  negb enable_bool_rle && Type_eqb (physical_type col) BOOLEAN = false ->
  0 <= page_start_val page ->
  0 < num_leaf_values page < 2 ^ 30 ->
  Forall (fun x => 0 <= x < 2 ^ bits) inp ->
  forall m1 cur vs,
    encode_page_levels col page base m = Some (m1, cur, vs) ->
    let start :=
      if Type_eqb (physical_type col) BOOLEAN then cur else cur + 1 in
    exists m' e pad,
      gpuEncodePages enable_bool_rle col ck page m
      = Some (m', u32 (e - base))
      /\ start <= e
      /\ (Type_eqb (physical_type col) BOOLEAN = false ->
          m' cur = byte.of_Z bits)
      /\ rle_decode bits (load_bytes m' start (Z.to_nat (e - start)))
         = Some (inp ++ repeat 0 pad)
      /\ (pad < 8)%nat
      /\ forall x, x < cur -> m' x = m1 x.
Proof.
  intros base bits inp Hdata Hbits Hrle Hpsv Hn Hinp m1 cur vs Hlv start.
  assert (Hge0 : (bits >=? 0) = true) by (apply Z.geb_le; lia).
  unfold gpuEncodePages. fold base. rewrite Hlv. fold bits.
  rewrite Hge0. cbn [andb]. cbv zeta.
  set (isb := Type_eqb (physical_type col) BOOLEAN) in *.
  set (s0 := {| rle_out := if negb isb then cur + 1 else cur;
                rle_run := 0; run_val := 0; rle_pos := 0; rle_numvals := 0;
                rle_lit_count := 0; rle_rpt_count := 0; vals := vs;
                out := if negb isb then store m1 cur bits else m1 |}).
  assert (Hstart : rle_out s0 = start)
    by (unfold s0, start; cbn [rle_out]; destruct isb; reflexivity).
  assert (HI0 : Inv inp bits start 0 s0).
  { constructor.
    - rewrite Hstart. lia.
    - unfold s0. cbn [rle_pos]. lia.
    - lia.
    - intros p Hp. unfold s0 in Hp. cbn [rle_pos] in Hp. lia.
    - exists [], 0, 0%nat. rewrite Hstart, Z.sub_diag. split.
      { apply encodes_nil. }
      split; [reflexivity|]. split; [lia|]. split; [left; reflexivity|].
      left. split; reflexivity. }
  destruct (values_loop_rle enable_bool_rle col ck page start Hdata
              Hbits Hrle ltac:(lia) Hinp
              (Z.to_nat (num_leaf_values page)) 0 cur s0)
    as (s' & cur' & E & I1 & I2 & I3 & I4 & I5);
    try (cbn [s0 rle_numvals rle_pos]; lia).
  - exact HI0.
  - reflexivity.
  - rewrite E.
    destruct I1 as [Iout _ _ _ (rs & c & pad & Henc & Hexp & Hc & Hpad & Hopen)].
    exists (out s'), (rle_out s'), pad.
    rewrite (I4 ltac:(lia)).
    assert (Hcn : c = Z.of_nat (length inp)).
    { unfold inp.
      destruct Hopen as [[_ ?]|[(k & ? & ? & _)|(r & ? & ? & _)]]; lia. }
    destruct (encodes_decode bits _ rs Hbits Henc) as [_ Hdec].
    split; [reflexivity|]. split; [exact Iout|]. split; [|split; [|split]].
    + intros Hb. rewrite I5 by (unfold start; rewrite Hb; lia).
      unfold s0. cbn [out]. rewrite Hb. cbn [negb]. apply store_same.
    + rewrite Hdec, Hexp, Hcn, Nat2Z.id, firstn_all. reflexivity.
    + destruct Hpad as [->|(_ & _ & _ & ?)]; lia.
    + intros x Hx. rewrite I5 by (unfold start; destruct isb; lia).
      unfold s0. cbn [out]. destruct isb; cbn [negb]; [reflexivity|].
      apply store_other. lia.
Qed.

Lemma rle_data_page_witness :
  exists m' e pad,
    gpuEncodePages true ex_str_col ex_dict_chunk ex_page4
                   (fun _ => Byte.xff) = Some (m', u32 (e - 32))
    /\ 32 + 1 <= e
    /\ m' 32 = Byte.x02
    /\ rle_decode 2 (load_bytes m' (32 + 1) (Z.to_nat (e - (32 + 1))))
       = Some ([1; 2; 0] ++ repeat 0 pad)
    /\ (pad < 8)%nat.
Proof.
  destruct (rle_data_page true ex_str_col ex_dict_chunk ex_page4
              (fun _ => Byte.xff) eq_refl ltac:(vm_compute; split; discriminate)
              eq_refl ltac:(simpl; lia) ltac:(simpl; lia)
              ltac:(vm_compute; repeat constructor; discriminate)
              (fun _ => Byte.xff) 32 (fun _ => 0) eq_refl)
    as (m' & e & pad & H1 & H2 & H3 & H4 & H5 & _).
  exists m', e, pad.
  split; [exact H1|]. split; [exact H2|]. split; [exact (H3 eq_refl)|].
  split; [exact H4|exact H5].
Defined.

End DictDataFacts.

